(* ===== verification/_CoqProject ===== *)
-Q . S2P
Prelude.v
Prog.v
Protocol.v
Sorting.v
GoStrings.v
Json.v
CacheInterface.v
LRU.v
MVCC.v
Lock.v
Models.v
PartitionSpec.v
GoJson.v
Postgres.v
JsonFacts.v
World.v
LockPool.v
PgClient.v
Config.v
ManifestStore.v
SchemaStore.v
SpecStore.v
Catalog.v
Registry.v
Proto.v
Server.v
PgFacts.v
PgPlain.v
Reads.v
Commit.v
Wf.v
Race.v
Serial.v
Visibility.v
Coherence.v
CommitFacts.v
CatalogFacts.v
CatalogWf.v
ServerFacts.v
Service.v
Progress.v
Pages.v
SpecFacts.v
StatsFacts.v
DDL.v
Bench.v
TestDB.v
Deadlock.v
History.v
TxFacts.v
Readback.v
CatalogSpec.v
ServiceSpec.v
CatalogView.v
Refinement.v
ServiceRefinement.v
PastRows.v
Stable.v
ConcurrentReads.v
Listing.v
Accepted.v
Samples.v
Faults.v
SpecHistory.v
Process.v
Witnesses.v
