(* ===== verification/Prelude.v ===== *)
(** * IceCore: a verification library of the metadata control plane

    IceCore is a Go gRPC server that keeps, in PostgreSQL, the metadata of
    lakehouse tables: their schemas and partition specs with their histories,
    immutable snapshots of the set of data files, manifests, and client
    transactions that pin the snapshots they read.  This library models the
    server as executable definitions and proves what makes it correct.

    ** The program and its model

    A request enters a handler of [internal/server/metadata_server.go], which
    calls the catalog manager, the partition registry or one of the stores
    ([internal/catalog]); those take the table's lock ([internal/lock]), look
    into the partition cache ([internal/cache]) and make SQL round trips
    ([internal/db]); transactions also live in an in-memory manager
    ([internal/transaction]).  All of it shares one process state.

    The model has the same layers:
    - [Prelude] (this file): Go's integers at their width, errors and results,
      [strconv], strings, [order_by], and shared tactics; [Sorting] the facts
      about [ORDER BY].
    - [Prog]: a handler is a program of atomic actions on the shared state,
      one per SQL round trip, lock operation or critical section.  [run] runs
      it alone; [step]/[steps] interleave any number of programs; [wp p s Q]
      says that [p], run from [s], does not block, ends, and satisfies [Q].
      [Protocol] reasons about a thread among others by what each may do
      ([conforms]).
    - [GoStrings] UTF-8 and JSON string literals, [Json] JSON documents with
      their printer and parser, [GoJson] the types the code marshals,
      unmarshals and quotes ([encoding/json], [%q]); [JsonFacts] what comes
      back from the database of a document that went in.
    - [LRU] ([lru.go]) over the interface [CacheInterface]; [MVCC]
      ([mvcc_manager.go]); [Lock] ([lock_manager.go], with Go's [RWMutex]
      whose waiting writer stops new readers); [Config] ([config.go]).
    - [Models] ([models.go]) and [PartitionSpec] ([partition_spec.go]).
    - [Postgres]: the relations of [scripts/init_db.sql] as lists of rows, the
      sequences, statements with their constraints, connections and
      transactions, and a network that may lose a request or its reply.
      [World] puts database, locks, transactions and cache together as [Sys]
      and gives the atomic actions.
    - [PgClient] ([pg_client.go]): one [sql_...] definition per SQL text, one
      program per method.
    - [ManifestStore], [SchemaStore], [SpecStore], [Catalog], [Registry]: the
      five files of [internal/catalog], a program per method.
    - [Proto] the message structs of [gen/metadata], [Server] the handlers,
      [Service] the RPC dispatch and the [life] of a server: requests, ticks
      of the cleanup goroutine of [cmd/server/main.go], and an environment
      that moves the clocks and fails the network.
    - [Process] the server process, [main] of [cmd/server/main.go]: the pool of
      [NewPGClient], the startup, the graceful stop and [Close], as a step
      relation on the main goroutine and the goroutines beside it.
    - [Bench] the client program [cmd/bench/main.go] over those RPCs, and
      [TestDB] the reset of [internal/testutil/testdb.go].

    Names are the source's; a method that several files have is qualified by
    its file ([Registry.CommitSnapshot], [Server.CommitSnapshot]).  Types of
    the database relations end in [_row], Go structs keep their names.

    - [CatalogSpec] is the contract of the whole service: an abstract machine
      whose state gives, for each name, a table's documents, versions,
      snapshots, specs, manifests and the files at every snapshot, and whose step
      [cat_step] gives per RPC the possible replies and the state after.
      [CatalogView] reads that state off the stored rows ([catalog_of]).
      [ServiceSpec] adds the open transactions of the clients, the clock and
      the cleanup loop ([service_step], [between], [service_run]).

    ** What is proved

    - The server implements the machine:
      [ServiceRefinement.server_implements_service], from one lemma per RPC
      ([Refinement] for the tables).  Through it, a transaction commits at most
      once ([ServiceRefinement.transaction_commits_once]), reads of a snapshot
      repeat ([Refinement.past_reads_repeat]), writes that meet their
      conditions are accepted ([Accepted.writes_succeed]) and the versions of
      a table's partition spec are one evolution
      ([SpecHistory.spec_versions_evolve]).  All of these hold of histories in
      which the network delivers every round trip and requests are answered
      one after the other.
    - Snapshots: [CommitFacts] (atomicity under network failures, conflict
      detection, success, what the new snapshot shows, time travel of the old
      ones) and [History] (snapshot and manifests read back).  They rest on
      [Commit], which computes a commit as one function [commit_db] on the
      database, on [Wf] (the invariant [db_wf] of the stored rows),
      [Visibility] and [Reads] (the read-only view).
    - What a client writes is what it reads: [Readback] runs two handlers in
      sequence, through the JSON the database keeps: the files of a commit
      with their statistics, a partition spec, a schema, and the properties of
      a new table come back as they were sent.
    - Concurrency: [Serial.commits_serialized] (any interleaving of commits is
      serialized per table) and [Progress.requests_never_deadlock] (any
      interleaving of requests ends).  They rest on [LockPool] (the ghost
      account of who holds which table lock) and [Race] (what a commit among
      other commits may do to the database).
      [ConcurrentReads.past_reads_concurrent]: a read of a table's past gets
      the same answer whatever requests run beside it and wherever the
      network fails; [PastRows] says which statements leave the past of a table
      as it was, in the rows and in the logs of open transactions, and
      [Stable] which programs do.
    - The cache: [Coherence] keeps every cached answer equal to the query it
      replaces, [LRU] refines the cache to a recency list.
    - The whole service: [Service.service_total], over every history of
      [life], network failures included, and [Service.cache_transparent], over
      those in which the network delivers (the defects of the cache below show
      why); they rest on [ServerFacts] (each handler part keeps [system_wf]).
    - Paging of files ([Pages]) and of tables ([Listing]), statistics ([StatsFacts]), spec evolution
      ([SpecFacts]), table DDL ([CatalogFacts], [CatalogWf], [DDL]),
      transactions ([TxFacts]), locks ([Lock]) and configuration ([Config]).
    - The process: [Process.shutdown_ends] (after a signal it ends, with every
      request answered, every table lock free and the pool closed) and
      [Process.pool_outlives_handlers] (no request is served on a closed pool).
    - The benchmark ends on a server in order and its floating-point
      percentiles are the exact ones ([Bench]); a database reset leaves one
      that a server can start on ([TestDB]).
    - Defects that the model exhibits, each as a theorem: a replaced file is
      lost ([CommitFacts.commit_replace_lost]), renames that never return
      ([Deadlock]), a purge refused by transaction rows, a dropped name that
      stays taken, creation without a spec ([DDL]), a dropped table that the
      cache of any server still serves after the reply to a [COMMIT] is lost
      ([Faults.dropped_table_still_served]), a commit whose lost reply leaves
      an early answer in the cache ([Faults.lost_commit_serves_old_files], on
      a concrete server), two concurrent changes of a spec of which the second
      drops a field of the first ([SpecHistory.concurrent_specs_clash], on a
      concrete server), a listing cut at a hundred tables
      ([Listing.tables_listed]), a pool size cut to 32 bits
      ([Process.pool_size_truncated]), an abort that overwrites a
      commit ([TxFacts]), the unprotected transform parameter
      ([SpecFacts.spec_change_accepted]).
    [Samples] holds concrete systems and [Witnesses] applies every property
    with hypotheses to one of them.

    ** Modelling decisions

    - PostgreSQL and pgx are not in the repository.  Their documented
      behaviour is written out in [Postgres]: READ COMMITTED statements see
      the committed rows and their own transaction's effects (recorded as
      functions that re-evaluate their [WHERE] clause at commit), constraints
      are checked when a statement runs, a failed statement aborts its
      transaction, sequences advance outside transactions, a rollback never
      fails, a network fault is one of a lost request, a lost reply or a
      delivery per round trip.  What depends on the server alone (how [jsonb]
      and timestamps read back as text, the wording of errors) is the class
      [Postgres], and theorems hold for every instance.  [Readback] and
      [SpecHistory] also need that [jsonb] gives back the document it was given up to white space and
      the order of members (class [Jsonb]).  Waiting for row locks is not
      modelled: writers of one table already exclude each other by the table
      lock.
    - Texts are taken to hold no NUL byte, which PostgreSQL refuses in a text
      parameter: names, keys and paths go into a statement as they are.
    - The pool hands out a connection at once: its size is not modelled.  No
      query of the pool is nested in an open transaction, so a request that
      waits for a connection waits for one that does not wait in turn.
    - Go's [encoding/json] is written out; the wording of its errors and the
      Unicode tables of [strconv.IsPrint] are the class [GoText].  The parser
      has fuel for any document of its length ([Json.parse_fuel_enough]).
      [Process] takes the pool of [pgxpool] and gRPC's graceful stop by their
      documented behaviour (class [Pgxpool] and the rules of [main_step]).
    - [Samples] has an instance of each class for the witnesses.
    - The machine leaves the rows of [transactions] out, which no reply
      shows; [TxFacts] has what is written to them.
    - Columns that no query reads (created_at, summary, timeout_at) are left
      out; nullable columns are [option] only where NULL can be stored.
    - Integers are [Z] with the wrap-around of their Go type written out
      ([int32], [int64], [uint64]) wherever the code computes or converts.
    - A nil and an empty slice are not distinguished where the code only
      ranges over them (column statistics, spec fields); where it tests for
      nil the result is an [option].
    - Go ranges over a map in any order: cleanup and [InvalidateIf] are proved
      for every order; [GetColumnStats] lists its map in the order of
      [map_to_list] and its theorem does not depend on it.
    - Recursion is structural; [FormatUint] has fuel for 64 digits (a 64-bit
      number has at most 20) and the paging client [Pages.fetch_all] has as
      fuel any number larger than the number of files, which its theorem shows
      is enough; so does [Listing.fetch_tables] for tables.
    - [Service.request_ok] excludes only the rename of a table to itself,
      which hangs ([Deadlock.renames_can_hang]), and ids that the message
      types cannot carry.

    ** Not modelled

    The listening socket, the delivery of signals, logging and the gRPC library
    itself; the constructors that only store their arguments ([NewSchemaStore]
    and the like); the generated client, descriptors and reflection of
    [gen/metadata]; the connection and the deadline of the benchmark client and
    what it prints, whose number of reads is the length of the list of measured
    times; [TransactionRow] of [models.go], which nothing uses; context
    cancellation. *)
From Stdlib Require Export Ascii ZArith Lia.
From stdpp Require Export base tactics list gmap strings.
From stdpp Require Export sorting.
Export ListNotations.

#[global] Open Scope Z_scope.
#[global] Set Default Goal Selector "!".

(** ** Go integers at their width *)

(** [int32(z)], [int64(z)], [uint64(z)]: Go's conversions (and the result of
    Go arithmetic) reduce modulo the width. *)
Definition int32 (z : Z) : Z := (z + 2 ^ 31) mod 2 ^ 32 - 2 ^ 31.
Definition int64 (z : Z) : Z := (z + 2 ^ 63) mod 2 ^ 64 - 2 ^ 63.
Definition uint64 (z : Z) : Z := z mod 2 ^ 64.

Definition is_int32 (z : Z) : Prop := - 2 ^ 31 <= z < 2 ^ 31.
Definition is_int64 (z : Z) : Prop := - 2 ^ 63 <= z < 2 ^ 63.
Definition is_uint64 (z : Z) : Prop := 0 <= z < 2 ^ 64.

(** ** Values and errors *)

(** A Go [error] as the code sees it: [pgx.ErrNoRows], an error of the server
    with its SQLSTATE, or any other error with its text. *)
Inductive error : Type :=
| ErrNoRows
| PgError (code : string) (text : string)
| ErrText (text : string).

(** [err.Error()] *)
Definition error_text (e : error) : string :=
  match e with
  | ErrNoRows => "no rows in result set"
  | PgError _ text => text
  | ErrText text => text
  end.

(** A Go pair [(value, error)] where the value is meaningful when the error
    is nil. *)
Inductive result (A : Type) : Type :=
| Ok (a : A)
| Err (e : error).
Arguments Ok {A} a.
Arguments Err {A} e.

Definition result_map {A B} (f : A -> B) (r : result A) : result B :=
  match r with Ok a => Ok (f a) | Err e => Err e end.

Definition is_ok {A} (r : result A) : bool :=
  match r with Ok _ => true | Err _ => false end.

(** ** strconv: decimal formatting and parsing *)

Definition digit_char (d : Z) : Ascii.ascii := Ascii.ascii_of_nat (Z.to_nat (48 + d)).

Definition char_digit (c : Ascii.ascii) : option Z :=
  let n := Z.of_nat (Ascii.nat_of_ascii c) in
  if (48 <=? n) && (n <=? 57) then Some (n - 48) else None.

(** Digits of [n], most significant first, in front of [acc]. *)
Fixpoint format_digits (fuel : nat) (n : Z) (acc : string) : string :=
  match fuel with
  | O => acc
  | S fuel' =>
      let acc' := String (digit_char (n mod 10)) acc in
      if n <? 10 then acc' else format_digits fuel' (n / 10) acc'
  end.

(** [strconv.FormatUint(n, 10)]; sixty-four rounds are more than the twenty
    digits a 64-bit number has. *)
Definition FormatUint (n : Z) : string := format_digits 64 n "".

(** [strconv.FormatInt(n, 10)] and [%d] *)
Definition FormatInt (n : Z) : string :=
  if n <? 0 then String "-"%char (FormatUint (- n)) else FormatUint n.

Fixpoint parse_digits (s : string) (acc : Z) : option Z :=
  match s with
  | EmptyString => Some acc
  | String c s' =>
      match char_digit c with
      | Some d => parse_digits s' (acc * 10 + d)
      | None => None
      end
  end.

(** The digits after the sign: at least one. *)
Definition parse_magnitude (s : string) : option Z :=
  match s with EmptyString => None | _ => parse_digits s 0 end.

(** [strconv.ParseInt(s, 10, 64)]: [None] for a syntax or range error. *)
Definition ParseInt (s : string) : option Z :=
  let signed (neg : bool) (rest : string) :=
    match parse_magnitude rest with
    | None => None
    | Some m =>
        if neg then (if 2 ^ 63 <? m then None else Some (- m))
        else (if 2 ^ 63 <=? m then None else Some m)
    end in
  match s with
  | String "+"%char rest => signed false rest
  | String "-"%char rest => signed true rest
  | _ => signed false s
  end.

(** [strconv.Atoi] on a 64-bit platform. *)
Definition Atoi (s : string) : option Z := ParseInt s.

(** ** Strings *)

(** [len(key) >= len(prefix) && key[:len(prefix)] == prefix] *)
Fixpoint has_prefix (prefix key : string) : bool :=
  match prefix, key with
  | EmptyString, _ => true
  | String _ _, EmptyString => false
  | String p prefix', String k key' => Ascii.eqb p k && has_prefix prefix' key'
  end.

Fixpoint string_in (c : Ascii.ascii) (s : string) : bool :=
  match s with
  | EmptyString => false
  | String d s' => Ascii.eqb c d || string_in c s'
  end.

(** [a < b] on Go strings: bytewise lexicographic order. *)
Fixpoint string_ltb (a b : string) : bool :=
  match a, b with
  | EmptyString, EmptyString => false
  | EmptyString, String _ _ => true
  | String _ _, EmptyString => false
  | String x a', String y b' =>
      if Ascii.eqb x y then string_ltb a' b'
      else Nat.ltb (Ascii.nat_of_ascii x) (Ascii.nat_of_ascii y)
  end.

(** ** Lists *)

(** ORDER BY a numeric key, ascending and stable. *)
Section order_by.
Context {A : Type} (key : A -> Z).

Fixpoint insert_by (x : A) (l : list A) : list A :=
  match l with
  | [] => [x]
  | y :: l' => if key x <=? key y then x :: l else y :: insert_by x l'
  end.

Fixpoint order_by (l : list A) : list A :=
  match l with
  | [] => []
  | x :: l' => insert_by x (order_by l')
  end.

(** Strictly increasing keys. *)
Definition increasing : list A -> Prop := StronglySorted (fun x y => key x < key y).

End order_by.

(** Sums *)
Definition sum_by {A} (f : A -> Z) (l : list A) : Z := fold_right (fun x acc => f x + acc) 0 l.

Lemma sum_by_Permutation {A} (f : A -> Z) (l l' : list A) : Permutation l l' -> sum_by f l = sum_by f l'.
Proof. unfold sum_by. induction 1; cbn; lia. Qed.

Lemma sum_by_app {A} (f : A -> Z) l l' : sum_by f (l ++ l') = sum_by f l + sum_by f l'.
Proof. unfold sum_by. induction l as [|x l IH]; cbn; [done|]. rewrite IH. lia. Qed.

Lemma sum_by_snoc {A} (f : A -> Z) l x : sum_by f (l ++ [x]) = sum_by f l + f x.
Proof. rewrite sum_by_app. unfold sum_by. cbn. lia. Qed.

(** ** Integer lemmas *)

Lemma int32_id z : is_int32 z -> int32 z = z.
Proof. unfold is_int32, int32. intros ?. rewrite Z.mod_small; lia. Qed.

Lemma int64_id z : is_int64 z -> int64 z = z.
Proof. unfold is_int64, int64. intros ?. rewrite Z.mod_small; lia. Qed.

Lemma uint64_id z : is_uint64 z -> uint64 z = z.
Proof. unfold is_uint64, uint64. intros ?. by apply Z.mod_small. Qed.

Lemma int32_range z : is_int32 (int32 z).
Proof. unfold is_int32, int32. pose proof (Z.mod_pos_bound (z + 2 ^ 31) (2 ^ 32)). lia. Qed.

Lemma int64_range z : is_int64 (int64 z).
Proof. unfold is_int64, int64. pose proof (Z.mod_pos_bound (z + 2 ^ 63) (2 ^ 64)). lia. Qed.

Lemma uint64_range z : is_uint64 (uint64 z).
Proof. unfold is_uint64, uint64. apply Z.mod_pos_bound. lia. Qed.

Lemma uint64_int64 z : is_uint64 z -> uint64 (int64 z) = z.
Proof.
  unfold is_uint64, uint64, int64. intros ?.
  rewrite <- Zminus_mod_idemp_l, Zmod_mod, Zminus_mod_idemp_l.
  rewrite Z.mod_small; lia.
Qed.

(** Below 2^63 a signed and an unsigned reading agree. *)
Lemma int64_eqb_uint64 x n : 0 <= x < 2 ^ 63 -> (x =? int64 n) = (x =? uint64 n).
Proof.
  intros Hx. unfold int64, uint64. pose proof (Z.mod_pos_bound n (2 ^ 64) ltac:(lia)) as Hm.
  rewrite <- (Z.add_mod_idemp_l n) by lia. set (m := n mod 2 ^ 64) in *. destruct (Z.ltb_spec m (2 ^ 63)).
  - rewrite Z.mod_small by lia. f_equal. lia.
  - rewrite <- (Z.mod_unique (m + 2 ^ 63) _ 1 (m - 2 ^ 63)) by lia.
    rewrite !(proj2 (Z.eqb_neq _ _)) by lia. done.
Qed.

(** A sum kept at a width at every step is the exact sum at that width. *)
Lemma int32_add_l a b : int32 (int32 a + b) = int32 (a + b).
Proof.
  unfold int32. f_equal.
  replace ((a + 2 ^ 31) mod 2 ^ 32 - 2 ^ 31 + b + 2 ^ 31) with ((a + 2 ^ 31) mod 2 ^ 32 + b) by lia.
  rewrite Zplus_mod_idemp_l. f_equal; lia.
Qed.

Lemma int64_add_l a b : int64 (int64 a + b) = int64 (a + b).
Proof.
  unfold int64. f_equal.
  replace ((a + 2 ^ 63) mod 2 ^ 64 - 2 ^ 63 + b + 2 ^ 63)
    with ((a + 2 ^ 63) mod 2 ^ 64 + b) by lia.
  rewrite Zplus_mod_idemp_l. f_equal; lia.
Qed.

Lemma int64_add_r a b : int64 (a + int64 b) = int64 (a + b).
Proof. rewrite (Z.add_comm a), int64_add_l. f_equal; lia. Qed.

(** ** strconv lemmas *)

Lemma char_digit_digit_char d : 0 <= d < 10 -> char_digit (digit_char d) = Some d.
Proof.
  intros Hd. unfold char_digit, digit_char.
  rewrite Ascii.nat_ascii_embedding by lia.
  replace (Z.of_nat (Z.to_nat (48 + d))) with (48 + d) by lia.
  destruct (48 <=? 48 + d) eqn:?, (48 + d <=? 57) eqn:?; try lia.
  simpl. by replace (48 + d - 48) with d by lia.
Qed.

Lemma parse_format_digits fuel n acc :
  0 <= n < 10 ^ Z.of_nat fuel -> (0 < fuel)%nat ->
  exists k, 0 < k /\ 0 <= n < 10 ^ k /\
    forall a, parse_digits (format_digits fuel n acc) a = parse_digits acc (a * 10 ^ k + n).
Proof.
  revert n acc. induction fuel as [|fuel IH]; intros n acc Hn Hf; [lia|]. simpl.
  assert (Hm : 0 <= n mod 10 < 10) by (apply Z.mod_pos_bound; lia).
  destruct (n <? 10) eqn:E.
  - exists 1. split; [lia|]. split; [lia|]. intros a. simpl.
    rewrite char_digit_digit_char by done. by rewrite Z.mod_small by lia.
  - rewrite Nat2Z.inj_succ, Z.pow_succ_r in Hn by lia.
    pose proof (Z.div_mod n 10 ltac:(lia)) as Hdm.
    assert (Hf' : (0 < fuel)%nat) by (destruct fuel; [simpl in Hn; lia | lia]).
    destruct (IH (n / 10) (String (digit_char (n mod 10)) acc)) as (k & Hk & Hkb & Hp);
      [nia | done |].
    exists (Z.succ k). split; [lia|]. rewrite Z.pow_succ_r by lia. split; [nia|].
    intros a. rewrite Hp. simpl. rewrite char_digit_digit_char by done. f_equal; nia.
Qed.

Lemma format_digits_not_empty fuel n acc :
  (0 < fuel)%nat -> format_digits fuel n acc <> EmptyString.
Proof.
  revert n acc. induction fuel as [|fuel IH]; intros n acc ?; [lia|]. simpl.
  destruct (n <? 10); [done|].
  destruct fuel as [|fuel]; [done|]. apply IH. lia.
Qed.

(** Every character of a formatted number is a digit. *)
Lemma format_digits_char c fuel n acc :
  0 <= n -> char_digit c = None -> string_in c acc = false ->
  string_in c (format_digits fuel n acc) = false.
Proof.
  revert n acc. induction fuel as [|fuel IH]; intros n acc Hn Hc Ha; [done|]. simpl.
  assert (Hm : 0 <= n mod 10 < 10) by (apply Z.mod_pos_bound; lia).
  assert (Hs : string_in c (String (digit_char (n mod 10)) acc) = false).
  { simpl. rewrite Ha, orb_false_r. apply Ascii.eqb_neq. intros ->.
    by rewrite char_digit_digit_char in Hc. }
  destruct (n <? 10); [done|]. apply IH; [apply Z.div_pos; lia | done | done].
Qed.

Lemma parse_magnitude_FormatUint n : is_uint64 n -> parse_magnitude (FormatUint n) = Some n.
Proof.
  unfold is_uint64. intros Hn. unfold parse_magnitude, FormatUint.
  assert (Hb : 2 ^ 64 <= 10 ^ Z.of_nat 64) by (vm_compute; congruence).
  pose proof (format_digits_not_empty 64 n "" ltac:(lia)) as Hne.
  destruct (parse_format_digits 64 n "" ltac:(lia) ltac:(lia)) as (k & _ & _ & Hp).
  specialize (Hp 0). change (parse_digits "" (0 * 10 ^ k + n)) with (Some (0 * 10 ^ k + n)) in Hp.
  destruct (format_digits 64 n ""); [done|]. rewrite Hp. f_equal; lia.
Qed.

Lemma FormatUint_no_char c n : 0 <= n -> char_digit c = None -> string_in c (FormatUint n) = false.
Proof. intros. by apply format_digits_char. Qed.

Lemma ParseInt_unsigned s :
  string_in "+"%char s = false -> string_in "-"%char s = false ->
  ParseInt s = match parse_magnitude s with
               | None => None
               | Some m => if 2 ^ 63 <=? m then None else Some m
               end.
Proof.
  destruct s as [|c s]; [done|]. simpl. intros Hp Hm.
  destruct (Ascii.eqb_spec "+"%char c) as [|Hcp]; [by simplify_eq|].
  destruct (Ascii.eqb_spec "-"%char c) as [|Hcm]; [by simplify_eq|].
  by destruct c as [[] [] [] [] [] [] [] []].
Qed.

Lemma parse_digits_nonneg s acc m : 0 <= acc -> parse_digits s acc = Some m -> 0 <= m.
Proof.
  revert acc. induction s as [|c s IH]; intros acc Ha; cbn; [by intros [= <-]|].
  destruct (char_digit c) as [d|] eqn:E; [|done]. apply IH.
  unfold char_digit in E. destruct (_ && _) eqn:Hb; [|done]. injection E as <-.
  apply andb_true_iff in Hb as [?%Z.leb_le _]. lia.
Qed.

Lemma parse_magnitude_nonneg s m : parse_magnitude s = Some m -> 0 <= m.
Proof. destruct s; [done|]. by apply parse_digits_nonneg. Qed.

Lemma ParseInt_range s n : ParseInt s = Some n -> is_int64 n.
Proof.
  unfold ParseInt. intros Hp. unfold is_int64.
  repeat match type of Hp with
  | context [match ?x with _ => _ end] => destruct x eqn:?
  end; try discriminate; injection Hp as <-;
    match goal with E : parse_magnitude _ = _ |- _ => apply parse_magnitude_nonneg in E end; lia.
Qed.

(** [ParseInt (FormatInt n)] gives [n] back for every int64. *)
Lemma ParseInt_FormatInt n : is_int64 n -> ParseInt (FormatInt n) = Some n.
Proof.
  unfold is_int64. intros Hn. unfold FormatInt. destruct (n <? 0) eqn:E.
  - simpl. rewrite parse_magnitude_FormatUint by (unfold is_uint64; lia).
    destruct (2 ^ 63 <? - n) eqn:?; [lia|]. f_equal; lia.
  - rewrite ParseInt_unsigned by (apply FormatUint_no_char; [lia | reflexivity]).
    rewrite parse_magnitude_FormatUint by (unfold is_uint64; lia).
    destruct (2 ^ 63 <=? n) eqn:?; [lia | done].
Qed.

Lemma FormatInt_not_empty n : FormatInt n <> EmptyString.
Proof.
  unfold FormatInt, FormatUint. destruct (n <? 0); [done|].
  apply format_digits_not_empty. lia.
Qed.

Lemma FormatUint_inj n m : is_uint64 n -> is_uint64 m -> FormatUint n = FormatUint m -> n = m.
Proof.
  intros Hn Hm E. apply (f_equal parse_magnitude) in E.
  rewrite !parse_magnitude_FormatUint in E by done. congruence.
Qed.

(** ** String lemmas *)

Lemma has_prefix_app p s : has_prefix p (p ++ s) = true.
Proof. induction p as [|c p IH]; [done|]. simpl. by rewrite Ascii.eqb_refl. Qed.

Lemma has_prefix_true p s : has_prefix p s = true -> exists t, s = (p ++ t)%string.
Proof.
  revert s. induction p as [|c p IH]; intros s; [by exists s|].
  destruct s as [|d s]; simpl; [done|]. intros [->%Ascii.eqb_eq Hp]%andb_prop.
  destruct (IH _ Hp) as [t ->]. by exists t.
Qed.

(** A separator that does not occur in the second parts splits uniquely. *)
Lemma string_split_last c s1 s2 t1 t2 :
  string_in c t1 = false -> string_in c t2 = false ->
  (s1 ++ String c t1)%string = (s2 ++ String c t2)%string -> s1 = s2 /\ t1 = t2.
Proof.
  intros H1 H2. revert s2. induction s1 as [|a s1 IH]; intros [|b s2]; simpl; intros E.
  - by simplify_eq.
  - exfalso. injection E as -> ->. clear -H1. induction s2 as [|d s2 IH]; simpl in H1.
    + by rewrite Ascii.eqb_refl in H1.
    + apply IH. by apply orb_false_elim in H1 as [_ ?].
  - exfalso. injection E as -> <-. clear -H2. induction s1 as [|d s1 IH]; simpl in H2.
    + by rewrite Ascii.eqb_refl in H2.
    + apply IH. by apply orb_false_elim in H2 as [_ ?].
  - injection E as -> E. destruct (IH _ E) as [-> ->]. done.
Qed.

(** ** List lemmas *)

Lemma filter_filter {A} (f g : A -> bool) l :
  List.filter f (List.filter g l) = List.filter (fun x => g x && f x) l.
Proof.
  induction l as [|x l IH]; [done|]. simpl.
  destruct (g x); simpl; [destruct (f x)|]; simpl; congruence.
Qed.

Lemma filter_true {A} (f : A -> bool) l : (forall x, x ∈ l -> f x = true) -> List.filter f l = l.
Proof.
  induction l as [|x l IH]; [done|]. intros Hf. simpl. rewrite Hf by set_solver.
  f_equal. apply IH. set_solver.
Qed.

Lemma filter_false {A} (f : A -> bool) l : (forall x, x ∈ l -> f x = false) -> List.filter f l = [].
Proof.
  induction l as [|x l IH]; [done|]. intros Hf. simpl. rewrite Hf by set_solver.
  apply IH. set_solver.
Qed.

Lemma filter_ext_elem {A} (f g : A -> bool) l :
  (forall x, x ∈ l -> f x = g x) -> List.filter f l = List.filter g l.
Proof.
  induction l as [|x l IH]; [done|]. intros Hf. simpl. rewrite Hf by set_solver.
  rewrite IH by set_solver. done.
Qed.

Lemma filter_map_comm {A B} (f : B -> bool) (g : A -> B) l :
  List.filter f (map g l) = map g (List.filter (fun x => f (g x)) l).
Proof. induction l as [|x l IH]; simpl; [done|]. destruct (f (g x)); simpl; congruence. Qed.

Lemma NoDup_map_filter {A B} (f : A -> B) (g : A -> bool) l : NoDup (map f l) -> NoDup (map f (List.filter g l)).
Proof.
  induction l as [|x l IH]; [done|]. cbn. intros [Hx Hl]%NoDup_cons. destruct (g x); [|by apply IH].
  cbn. apply NoDup_cons. split; [|by apply IH]. intros Hin. apply Hx.
  apply list_elem_of_In, in_map_iff in Hin as (y & <- & [Hy _]%filter_In).
  by apply list_elem_of_In, in_map.
Qed.

Lemma NoDup_map_inj {A B} (f : A -> B) l x y : NoDup (map f l) -> x ∈ l -> y ∈ l -> f x = f y -> x = y.
Proof.
  induction l as [|z l IH]; [by intros _ ?%elem_of_nil|]. cbn. intros [Hz Hnd]%NoDup_cons.
  intros [->|Hx]%elem_of_cons [->|Hy]%elem_of_cons E; [done | | | by apply IH].
  - destruct Hz. rewrite E. apply list_elem_of_In, in_map. by apply list_elem_of_In.
  - destruct Hz. rewrite <- E. apply list_elem_of_In, in_map. by apply list_elem_of_In.
Qed.

Lemma filter_Permutation {A} (f : A -> bool) l l' : l ≡ₚ l' -> List.filter f l ≡ₚ List.filter f l'.
Proof.
  induction 1 as [|x l1 l2 _ IH|x y l|l1 l2 l3 _ IH1 _ IH2]; cbn; try done.
  - destruct (f x); [by constructor | done].
  - destruct (f x), (f y); try done. constructor.
  - by etrans.
Qed.

Lemma length_filter_Permutation {A} (f : A -> bool) (l1 l2 : list A) :
  l1 ≡ₚ l2 -> length (List.filter f l1) = length (List.filter f l2).
Proof. intros Hl. by apply Permutation_length, filter_Permutation. Qed.

(** The entries of a finite map split by a predicate. *)
Lemma size_filter_split `{Countable K} {A} (f : K * A -> bool) (m : gmap K A) :
  (size (filter (fun p => f p = false) m) + length (List.filter f (map_to_list m)) = size m)%nat.
Proof.
  induction m as [|i x m Hi IH] using map_ind.
  - by rewrite map_filter_empty, map_to_list_empty, map_size_empty.
  - rewrite (length_filter_Permutation f _ _ (map_to_list_insert m i x Hi)). simpl.
    rewrite map_size_insert_None, map_filter_insert by done. destruct (f (i, x)) eqn:E; simpl.
    + rewrite delete_id by done. lia.
    + rewrite map_size_insert_None; [lia|]. apply map_lookup_filter_None. by left.
Qed.
