(* ===== verification/Prog.v ===== *)
(** * Programs over a shared state

    The Go handlers are sequences of atomic actions on the server's shared
    state: one SQL round trip, one lock operation, one critical section of a
    mutex-protected structure.  [Prog S A] is such a program; an action that
    returns [None] is blocked in that state.  [run] executes a program alone,
    [step] interleaves the actions of several programs.  The rest of the
    development states sequential results with [wp] (the program does not
    block, terminates and satisfies a postcondition). *)
From S2P Require Import Prelude.

Inductive Prog (S A : Type) : Type :=
| Ret (a : A)
| Act {X : Type} (f : S -> option (X * S)) (k : X -> Prog S A).
Arguments Ret {S A} a.
Arguments Act {S A X} f k.

Fixpoint bind {S A B} (p : Prog S A) (k : A -> Prog S B) : Prog S B :=
  match p with
  | Ret a => k a
  | Act f g => Act f (fun x => bind (g x) k)
  end.

(** One atomic action that never blocks. *)
Definition act {S A} (f : S -> A * S) : Prog S A := Act (fun s => Some (f s)) Ret.

(** One atomic action that may block. *)
Definition act_block {S A} (f : S -> option (A * S)) : Prog S A := Act f Ret.

Fixpoint run {S A} (p : Prog S A) (s : S) : option (A * S) :=
  match p with
  | Ret a => Some (a, s)
  | Act f k => match f s with Some (x, s') => run (k x) s' | None => None end
  end.

(** The program finishes, never blocked, and its result satisfies [Q]. *)
Definition wp {S A} (p : Prog S A) (s : S) (Q : A -> S -> Prop) : Prop :=
  match run p s with Some (a, s') => Q a s' | None => False end.

Declare Scope prog_scope.
Delimit Scope prog_scope with prog.
#[global] Open Scope prog_scope.

Notation "'let*' x := p 'in' k" := (bind p (fun x => k))
  (at level 10, x pattern, p at level 100, k at level 200) : prog_scope.

(** [x, err := p; if err != nil { return h }; k] *)
Notation "'try*' x := p 'catch' e 'in' h 'then' k" :=
  (bind p (fun r => match r with Ok x => k | Err e => h end))
  (at level 10, x pattern, e name, p at level 100, h at level 200, k at level 200) : prog_scope.

(** [x, err := p; if err != nil { return nil, err }; k] *)
Notation "'try*' x := p 'in' k" :=
  (bind p (fun r => match r with Ok x => k | Err e => Ret (Err e) end))
  (at level 10, x pattern, p at level 100, k at level 200) : prog_scope.

(** [defer cleanup; body] *)
Definition deferred {S A} (cleanup : Prog S unit) (body : Prog S A) : Prog S A :=
  let* r := body in let* _ := cleanup in Ret r.

(** [for _, x := range l { if err := f x; err != nil { return h } }] *)
Fixpoint for_each {S A} (l : list A) (f : A -> Prog S (result unit)) : Prog S (result unit) :=
  match l with
  | [] => Ret (Ok tt)
  | x :: l' => try* _ := f x in for_each l' f
  end.

(** ** Interleaving *)

(** One thread of the pool performs its next action. *)
Inductive step {S A} : list (Prog S A) * S -> list (Prog S A) * S -> Prop :=
| step_act i ps s X (f : S -> option (X * S)) k x s' :
    ps !! i = Some (Act f k) ->
    f s = Some (x, s') ->
    step (ps, s) (<[i := k x]> ps, s').

Definition steps {S A} : list (Prog S A) * S -> list (Prog S A) * S -> Prop :=
  rtc step.

(** No thread can move, and some thread has not finished. *)
Definition deadlocked {S A} (c : list (Prog S A) * S) : Prop :=
  (forall c', ~ step c c') /\ exists i X (f : S -> option (X * S)) k, c.1 !! i = Some (Act f k).

(** The next action of the program cannot happen in this state. *)
Definition blocked {S A} (p : Prog S A) (s : S) : Prop :=
  match p with Ret _ => False | Act f _ => f s = None end.

(** ** Laws *)

Section laws.
Context {S : Type}.

Lemma run_bind {A B} (p : Prog S A) (k : A -> Prog S B) s :
  run (bind p k) s = match run p s with Some (a, s') => run (k a) s' | None => None end.
Proof.
  revert s. induction p as [a|X f g IH]; intros s; simpl; [done|].
  destruct (f s) as [[x s']|]; [apply IH | done].
Qed.

Lemma wp_bind {A B} (p : Prog S A) (k : A -> Prog S B) s Q :
  wp (bind p k) s Q <-> wp p s (fun a s' => wp (k a) s' Q).
Proof. unfold wp. rewrite run_bind. by destruct (run p s) as [[a s']|]. Qed.

Lemma wp_ret {A} (a : A) s (Q : A -> S -> Prop) : wp (Ret a) s Q <-> Q a s.
Proof. done. Qed.

Lemma wp_act {A} (f : S -> A * S) s Q : wp (act f) s Q <-> Q (f s).1 (f s).2.
Proof. unfold wp, act. simpl. by destruct (f s). Qed.

Lemma wp_act_block {A} (f : S -> option (A * S)) s Q :
  wp (act_block f) s Q <-> match f s with Some (a, s') => Q a s' | None => False end.
Proof. unfold wp, act_block. simpl. by destruct (f s) as [[]|]. Qed.

Lemma wp_mono {A} (p : Prog S A) s (Q Q' : A -> S -> Prop) :
  wp p s Q -> (forall a s', Q a s' -> Q' a s') -> wp p s Q'.
Proof. unfold wp. destruct (run p s) as [[a s']|]; eauto. Qed.

Lemma wp_and {A} (p : Prog S A) s (Q Q' : A -> S -> Prop) :
  wp p s Q -> wp p s Q' -> wp p s (fun a s' => Q a s' /\ Q' a s').
Proof. unfold wp. destruct (run p s) as [[a s']|]; eauto. Qed.

Lemma wp_run {A} (p : Prog S A) s Q :
  wp p s Q <-> exists a s', run p s = Some (a, s') /\ Q a s'.
Proof.
  unfold wp. destruct (run p s) as [[a s']|]; split; try done.
  - eauto.
  - by intros (? & ? & [= <- <-] & ?).
  - by intros (? & ? & ? & ?).
Qed.

Lemma wp_deferred {A} (cleanup : Prog S unit) (body : Prog S A) s Q :
  wp (deferred cleanup body) s Q <->
  wp body s (fun a s' => wp cleanup s' (fun _ s'' => Q a s'')).
Proof. unfold deferred. rewrite wp_bind. unfold wp at 1 3. destruct (run body s) as [[a s']|]; [|done]. by rewrite wp_bind. Qed.

(** A program run alone is one of the interleavings of a pool. *)
Lemma run_steps {A} (ps : list (Prog S A)) i p s a s' :
  ps !! i = Some p -> run p s = Some (a, s') -> steps (ps, s) (<[i := Ret a]> ps, s').
Proof.
  revert ps s. induction p as [b|X f k IH]; intros ps s Hi Hr; simpl in Hr.
  - injection Hr as -> ->. by rewrite list_insert_id.
  - destruct (f s) as [[x t]|] eqn:E; [|done].
    eapply rtc_l.
    + by apply (step_act i ps s X f k x t).
    + assert (<[i:=Ret a]> ps = <[i:=Ret a]> (<[i:=k x]> ps)) as ->
        by (by rewrite list_insert_insert_eq).
      apply (IH x (<[i:=k x]> ps)); [|done].
      apply list_lookup_insert_eq. by eapply lookup_lt_Some.
Qed.

(** A pool whose threads are all blocked is deadlocked. *)
Lemma all_blocked {A} (ps : list (Prog S A)) s :
  ps <> [] -> (forall p, p ∈ ps -> blocked p s) -> deadlocked (ps, s).
Proof.
  intros Hne Hw. split.
  - intros c' Hstep. remember (ps, s) as c eqn:Ec. destruct Hstep as [i ps' s0 X f k x s' Hi Hf].
    injection Ec as -> ->. specialize (Hw _ (list_elem_of_lookup_2 _ _ _ Hi)). cbn in Hw. congruence.
  - destruct ps as [|p ps]; [done|]. specialize (Hw p (list_elem_of_here _ _)).
    destruct p as [a|X f k]; [done|]. by exists 0%nat, X, f, k.
Qed.

(** So is a part of a program that runs to its end. *)
Lemma run_steps_bind {A B} (ps : list (Prog S B)) i (p : Prog S A) (k : A -> Prog S B) s a s' :
  ps !! i = Some (bind p k) -> run p s = Some (a, s') -> steps (ps, s) (<[i := k a]> ps, s').
Proof.
  revert ps s. induction p as [b|X f g IH]; intros ps s Hi Hr; simpl in Hr, Hi.
  - injection Hr as -> ->. by rewrite list_insert_id.
  - destruct (f s) as [[x t]|] eqn:E; [|done].
    eapply rtc_l; [by apply (step_act i ps s X f (fun y => bind (g y) k) x t)|].
    assert (<[i:=k a]> ps = <[i:=k a]> (<[i:=bind (g x) k]> ps)) as -> by (by rewrite list_insert_insert_eq).
    apply (IH x (<[i:=bind (g x) k]> ps)); [|done].
    apply list_lookup_insert_eq. by eapply lookup_lt_Some.
Qed.

End laws.

(** ** Invariants of interleaved programs *)

(** [keeps I p]: every action of [p], from a state of [I] and whatever
    state of [I] the other threads leave between two actions, keeps [I]. *)
Fixpoint keeps {S A} (I : S -> Prop) (p : Prog S A) : Prop :=
  match p with
  | Ret _ => True
  | Act f k => (forall s x s', I s -> f s = Some (x, s') -> I s') /\ (forall x, keeps I (k x))
  end.

Section keeps.
Context {S : Type} (I : S -> Prop).

Lemma keeps_ret {A} (a : A) : keeps I (Ret a).
Proof. done. Qed.

Lemma keeps_bind {A B} (p : Prog S A) (k : A -> Prog S B) :
  keeps I p -> (forall a, keeps I (k a)) -> keeps I (bind p k).
Proof.
  intros Hp Hk. induction p as [a|X f g IH]; simpl in *; [done|].
  destruct Hp as [Hf Hg]. eauto.
Qed.

Lemma keeps_act_total {A} (f : S -> A * S) : (forall s, I s -> I (f s).2) -> keeps I (act f).
Proof. intros Hf. split; [|done]. intros s x s' Hs [= E]. specialize (Hf s Hs). by rewrite E in Hf. Qed.

Lemma keeps_act_partial {A} (f : S -> option (A * S)) :
  (forall s x s', I s -> f s = Some (x, s') -> I s') -> keeps I (act_block f).
Proof. intros Hf. by split. Qed.

Lemma keeps_deferred {A} (cleanup : Prog S unit) (body : Prog S A) :
  keeps I cleanup -> keeps I body -> keeps I (deferred cleanup body).
Proof. intros Hc Hb. apply keeps_bind; [done|]. intros a. by apply keeps_bind. Qed.

Lemma keeps_for_each {A} (l : list A) (f : A -> Prog S (result unit)) :
  (forall x, keeps I (f x)) -> keeps I (for_each l f).
Proof.
  intros Hf. induction l as [|x l IH]; simpl; [done|].
  apply keeps_bind; [done|]. by intros [|].
Qed.

Lemma keeps_run {A} (p : Prog S A) s a s' : keeps I p -> I s -> run p s = Some (a, s') -> I s'.
Proof.
  revert s. induction p as [b|X f k IH]; intros s; simpl.
  - by intros _ ? [= _ <-].
  - intros [Hf Hk] Hs. destruct (f s) as [[x t]|] eqn:E; [|done]. intros Hr. eauto.
Qed.

Lemma keeps_step {A} (c c' : list (Prog S A) * S) :
  step c c' -> Forall (keeps I) c.1 -> I c.2 -> Forall (keeps I) c'.1 /\ I c'.2.
Proof.
  intros [i ps s X f k x s' Hi Hf] Hps Hs. simpl in *.
  destruct (Forall_lookup_1 _ _ _ _ Hps Hi) as [Hf' Hk].
  split; [|eauto]. apply Forall_insert; [done | apply Hk].
Qed.

(** An invariant kept by every thread holds along every interleaving. *)
Lemma keeps_steps {A} (c c' : list (Prog S A) * S) :
  steps c c' -> Forall (keeps I) c.1 -> I c.2 -> I c'.2.
Proof.
  induction 1 as [c|c1 c2 c3 H12 H23 IH]; intros Hps Hs; [done|].
  destruct (keeps_step _ _ H12 Hps Hs). by apply IH.
Qed.

End keeps.

Create HintDb keeps.
#[export] Hint Resolve keeps_ret keeps_bind keeps_deferred keeps_for_each : keeps.
