(* ===== verification/Protocol.v ===== *)
(** * Protocols of concurrent programs

    A proof method for pools of interleaved programs: every thread has a ghost
    state, one invariant ties all the ghost states to the shared state, and a
    program [conforms] when each of its actions, taken in any state the other
    threads may have left, can move its own ghost state so that the invariant
    holds again.  What a thread knows stays true while others run because the
    invariant says so of every thread at once. *)
From S2P Require Import Prelude Prog.

Section protocol.
Context {S G : Type} (Inv : list G -> S -> Prop).

Fixpoint conforms {A} (g : G) (p : Prog S A) (Q : A -> G -> Prop) : Prop :=
  match p with
  | Ret a => Q a g
  | Act f k =>
      forall i gs s x s', Inv gs s -> gs !! i = Some g -> f s = Some (x, s') ->
        exists g', Inv (<[i := g']> gs) s' /\ conforms g' (k x) Q
  end.

Lemma conforms_ret {A} (g : G) (a : A) (Q : A -> G -> Prop) : Q a g -> conforms g (Ret a) Q.
Proof. done. Qed.

Lemma conforms_mono {A} (g : G) (p : Prog S A) (Q Q' : A -> G -> Prop) :
  conforms g p Q -> (forall a g', Q a g' -> Q' a g') -> conforms g p Q'.
Proof.
  revert g. induction p as [a|X f k IH]; intros g Hp HQ; cbn in *; [auto|].
  intros i gs s x s' Hinv Hi Hf. destruct (Hp i gs s x s' Hinv Hi Hf) as (g' & Hinv' & Hk). eauto.
Qed.

Lemma conforms_bind {A B} (g : G) (p : Prog S A) (k : A -> Prog S B) (Q : B -> G -> Prop) :
  conforms g p (fun a g' => conforms g' (k a) Q) -> conforms g (bind p k) Q.
Proof.
  revert g. induction p as [a|X f h IH]; intros g Hp; cbn in *; [done|].
  intros i gs s x s' Hinv Hi Hf. destruct (Hp i gs s x s' Hinv Hi Hf) as (g' & Hinv' & Hk). eauto.
Qed.

Lemma conforms_deferred {A} (g : G) (cleanup : Prog S unit) (body : Prog S A) (Q : A -> G -> Prop) :
  conforms g body (fun a g' => conforms g' cleanup (fun _ g'' => Q a g'')) -> conforms g (deferred cleanup body) Q.
Proof.
  intros Hb. apply conforms_bind. eapply conforms_mono; [exact Hb|]. intros a g' Hc.
  apply conforms_bind. eapply conforms_mono; [exact Hc|]. by intros [].
Qed.

(** One action that never waits. *)
Lemma conforms_act {A} (g : G) (f : S -> A * S) (Q : A -> G -> Prop) :
  (forall i gs s, Inv gs s -> gs !! i = Some g -> exists g', Inv (<[i := g']> gs) (f s).2 /\ Q (f s).1 g') ->
  conforms g (act f) Q.
Proof. intros Hf i gs s x s' Hinv Hi [= E]. specialize (Hf i gs s Hinv Hi). by rewrite E in Hf. Qed.

(** A ghost step between two actions. *)
Lemma conforms_ghost {A} (g g' : G) (p : Prog S A) (Q : A -> G -> Prop) :
  (forall i gs s, Inv gs s -> gs !! i = Some g -> Inv (<[i := g']> gs) s) ->
  (forall a, p <> Ret a) -> conforms g' p Q -> conforms g p Q.
Proof.
  intros Hg Hp Hc. destruct p as [a|X f k]; [by destruct (Hp a)|].
  intros i gs s x s' Hinv Hi Hf. destruct (Hc i (<[i := g']> gs) s x s') as (g2 & Hinv2 & Hk); [eauto | | done |].
  - apply list_lookup_insert_eq. by eapply lookup_lt_Some.
  - exists g2. by rewrite list_insert_insert_eq in Hinv2.
Qed.

(** A pool of conforming threads keeps the invariant along every
    interleaving, and a thread that has finished has its postcondition. *)
Lemma conforms_steps {A} (Q : nat -> A -> G -> Prop) (c c' : list (Prog S A) * S) gs :
  steps c c' -> Inv gs c.2 -> (forall i p, c.1 !! i = Some p -> exists g, gs !! i = Some g /\ conforms g p (Q i)) ->
  exists gs', Inv gs' c'.2 /\ forall i p, c'.1 !! i = Some p -> exists g, gs' !! i = Some g /\ conforms g p (Q i).
Proof.
  intros Hsteps. revert gs. induction Hsteps as [c|c1 c2 c3 H12 H23 IH]; intros gs Hinv Hps; [by exists gs|].
  destruct H12 as [i ps s X f k x s' Hi Hf]. cbn in *.
  destruct (Hps i _ Hi) as (g & Hg & Hconf).
  destruct (Hconf i gs s x s' Hinv Hg Hf) as (g' & Hinv' & Hk).
  apply (IH (<[i := g']> gs)); [done|]. cbn. intros j p [(-> & <- & _)|[Hne Hj]]%list_lookup_insert_Some.
  - exists g'. split; [|done]. apply list_lookup_insert_eq. by eapply lookup_lt_Some.
  - rewrite list_lookup_insert_ne by done. by apply Hps.
Qed.

End protocol.
