(* ===== verification/Sorting.v ===== *)
(** * ORDER BY

    Lemmas on [order_by]: it permutes, it sorts, it commutes with filters and
    with changes that keep the key, and rows with larger keys come last. *)
From S2P Require Import Prelude.

Section order_by.
Context {A : Type} (key : A -> Z).
Implicit Types (l : list A) (x y : A).

(** Keys that never decrease. *)
Definition sorted : list A -> Prop := StronglySorted (fun x y => key x <= key y).

Lemma insert_by_Permutation x l : insert_by key x l ≡ₚ x :: l.
Proof.
  induction l as [|y l IH]; [done|]. cbn. destruct (key x <=? key y); [done|]. rewrite IH. constructor.
Qed.

Lemma order_by_Permutation l : order_by key l ≡ₚ l.
Proof. induction l as [|x l IH]; [done|]. cbn. by rewrite insert_by_Permutation, IH. Qed.

Lemma elem_of_order_by x l : x ∈ order_by key l <-> x ∈ l.
Proof. by rewrite order_by_Permutation. Qed.

Lemma length_order_by l : length (order_by key l) = length l.
Proof. apply Permutation_length, order_by_Permutation. Qed.

Lemma insert_by_sorted x l : sorted l -> sorted (insert_by key x l).
Proof.
  induction 1 as [|y l Hl IH Hy]; cbn; [by repeat constructor|].
  destruct (Z.leb_spec (key x) (key y)) as [Hle|Hlt].
  - constructor; [by constructor|]. constructor; [done|]. eapply Forall_impl; [done|]. cbn. lia.
  - constructor; [done|]. rewrite insert_by_Permutation. constructor; [lia | done].
Qed.

Lemma order_by_sorted l : sorted (order_by key l).
Proof. induction l as [|x l IH]; cbn; [constructor | by apply insert_by_sorted]. Qed.

Lemma insert_by_first x l : (forall y, y ∈ l -> key x <= key y) -> insert_by key x l = x :: l.
Proof.
  destruct l as [|y l]; [done|]. intros Hx. cbn. destruct (Z.leb_spec (key x) (key y)); [done|].
  specialize (Hx y (list_elem_of_here _ _)). lia.
Qed.

Lemma order_by_id l : sorted l -> order_by key l = l.
Proof.
  induction 1 as [|x l Hl IH Hx]; [done|]. cbn. rewrite IH. apply insert_by_first.
  intros y Hy. by eapply Forall_forall in Hx.
Qed.

(** Rows with larger keys come last. *)
Lemma insert_by_app x l l' :
  (forall y, y ∈ l' -> key x <= key y) -> insert_by key x (l ++ l') = insert_by key x l ++ l'.
Proof.
  intros Hx. induction l as [|y l IH]; cbn; [by apply insert_by_first|].
  destruct (key x <=? key y); [done|]. cbn. by rewrite IH.
Qed.

Lemma order_by_app l l' :
  sorted l' -> (forall x y, x ∈ l -> y ∈ l' -> key x <= key y) -> order_by key (l ++ l') = order_by key l ++ l'.
Proof.
  intros Hl' Hlt. induction l as [|x l IH]; cbn; [by apply order_by_id|].
  rewrite IH; [|intros; apply Hlt; [by right | done]]. apply insert_by_app. intros y Hy. apply Hlt; [left | done].
Qed.

Lemma filter_insert_by (f : A -> bool) x l :
  sorted l -> List.filter f (insert_by key x l) =
    if f x then insert_by key x (List.filter f l) else List.filter f l.
Proof.
  induction 1 as [|y l Hl IH Hy]; cbn; [by destruct (f x)|].
  destruct (Z.leb_spec (key x) (key y)) as [Hle|Hlt]; cbn.
  - destruct (f x) eqn:Ef, (f y) eqn:Ey; try done.
    + cbn. destruct (Z.leb_spec (key x) (key y)); [done | lia].
    + symmetry. apply insert_by_first. intros z Hz. apply list_elem_of_In, filter_In in Hz as [Hz _].
      apply list_elem_of_In in Hz. eapply Forall_forall in Hy; [|done]. cbn in Hy. lia.
  - rewrite IH. destruct (f x) eqn:Ef, (f y) eqn:Ey; try done.
    cbn. destruct (Z.leb_spec (key x) (key y)); [lia | done].
Qed.

(** Selecting rows before or after sorting. *)
Lemma order_by_filter (f : A -> bool) l :
  order_by key (List.filter f l) = List.filter f (order_by key l).
Proof.
  induction l as [|x l IH]; [done|]. cbn. rewrite filter_insert_by by apply order_by_sorted.
  destruct (f x); cbn; by rewrite IH.
Qed.

(** Rows with one key are as they come. *)
Lemma order_by_same n l : List.filter (fun x => key x =? n) (order_by key l) = List.filter (fun x => key x =? n) l.
Proof.
  rewrite <- order_by_filter. apply order_by_id. induction l as [|x l IH]; cbn; [constructor|].
  destruct (Z.eqb_spec (key x) n) as [E|]; [|done]. constructor; [done|]. apply Forall_forall.
  intros y [_ Hy%Z.eqb_eq]%list_elem_of_In%filter_In. lia.
Qed.

(** Unique keys make the order strict. *)
Lemma sorted_increasing l : NoDup (map key l) -> sorted l -> increasing key l.
Proof.
  intros Hnd Hs. induction Hs as [|x l Hl IH Hx]; [constructor|].
  cbn in Hnd. apply NoDup_cons in Hnd as [Hx' Hnd]. constructor; [by apply IH|].
  apply Forall_forall. intros y Hy. eapply Forall_forall in Hx; [|done]. cbn in *.
  assert (key x <> key y); [|lia]. intros E. apply Hx'. rewrite E. apply list_elem_of_In, in_map.
  by apply list_elem_of_In.
Qed.

Lemma order_by_increasing l : NoDup (map key l) -> increasing key (order_by key l).
Proof.
  intros Hnd. apply sorted_increasing; [|apply order_by_sorted].
  by rewrite (Permutation_map key (order_by_Permutation l)).
Qed.

Lemma increasing_filter (f : A -> bool) l : increasing key l -> increasing key (List.filter f l).
Proof.
  induction 1 as [|x l Hl IH Hx]; cbn; [constructor|]. destruct (f x); [|done]. constructor; [done|].
  rewrite Forall_forall in *. intros y [Hy _]%list_elem_of_In%filter_In. apply Hx. by apply list_elem_of_In.
Qed.

Lemma increasing_map {B} (f : A -> B) (key' : B -> Z) l :
  increasing key l -> (forall x, x ∈ l -> key' (f x) = key x) -> increasing key' (map f l).
Proof.
  induction 1 as [|x l Hl IH Hx]; intros Hk; [constructor|]. cbn. constructor; [apply IH; intros y Hy; apply Hk; by right|].
  apply Forall_fmap, Forall_forall. intros y Hy. cbn. rewrite !Hk by (by left || by right). by eapply Forall_forall in Hx.
Qed.

Lemma increasing_take k l : increasing key l -> increasing key (take k l).
Proof. intros Hl. rewrite <- (take_drop k l) in Hl. by apply StronglySorted_app_1_l in Hl. Qed.

End order_by.

Section order_by_map.
Context {A B : Type} (keyA : A -> Z) (keyB : B -> Z) (f : A -> B) (Hf : forall y, keyB (f y) = keyA y).

Lemma insert_by_map x l : insert_by keyB (f x) (map f l) = map f (insert_by keyA x l).
Proof.
  induction l as [|y l IH]; [done|]. cbn. rewrite !Hf. destruct (keyA x <=? keyA y); [done|]. cbn.
  by rewrite IH.
Qed.

(** Sorting commutes with a change of the rows that keeps their key. *)
Lemma order_by_map l : order_by keyB (map f l) = map f (order_by keyA l).
Proof. induction l as [|x l IH]; [done|]. cbn. by rewrite IH, insert_by_map. Qed.

End order_by_map.

(** Distinct ids below a bound are fewer than it. *)
Lemma increasing_length {A} (key : A -> Z) n l :
  increasing key l -> Forall (fun x => 0 < key x < n) l -> 0 < n -> Z.of_nat (length l) < n.
Proof.
  intros Hl Hb Hn. assert (Hnd : NoDup (map key l)).
  { clear Hb. induction Hl as [|x l Hl IH Hx]; [apply NoDup_nil_2|]. cbn. apply NoDup_cons. split; [|done].
    intros (y & E & Hy)%list_elem_of_fmap. eapply Forall_forall in Hx; [|done]. lia. }
  assert (Hsub : map key l ⊆+ seqZ 1 (n - 1)).
  { apply NoDup_submseteq; [done|]. intros k (x & -> & Hx)%list_elem_of_fmap. eapply Forall_forall in Hb; [|done].
    apply elem_of_seqZ. lia. }
  apply submseteq_length in Hsub. rewrite length_map, length_seqZ in Hsub. lia.
Qed.
