(* ===== verification/GoStrings.v ===== *)
(** * Go string literals in JSON (encoding/json, unicode/utf8)

    The Standard Library code that writes a string into a JSON document and
    reads one back, byte by byte: a document is UTF-8, a Go string need not
    be.  A string that is valid UTF-8 comes back as it was; in any other one
    each invalid byte comes back as U+FFFD. *)
From S2P Require Import Prelude.

#[local] Notation ascii := Ascii.ascii.
#[local] Arguments String.append : simpl nomatch.

(** A byte as a number. *)
Definition byte_val (c : ascii) : Z := Z.of_nat (Ascii.nat_of_ascii c).
Definition byte_of (n : Z) : ascii := Ascii.ascii_of_nat (Z.to_nat n).

Definition in_range (lo hi n : Z) : bool := (lo <=? n) && (n <=? hi).

(** ** UTF-8 *)

Definition cont (c : ascii) : bool := in_range 128 191 (byte_val c).

(** The sequences of two, three and four bytes that [utf8.DecodeRune]
    accepts: no overlong form, no surrogate, nothing above U+10FFFF. *)
Definition utf8_2 (c1 c2 : ascii) : bool := in_range 194 223 (byte_val c1) && cont c2.

Definition utf8_3 (c1 c2 c3 : ascii) : bool :=
  let b1 := byte_val c1 in
  in_range 224 239 b1 &&
  in_range (if b1 =? 224 then 160 else 128) (if b1 =? 237 then 159 else 191) (byte_val c2) && cont c3.

Definition utf8_4 (c1 c2 c3 c4 : ascii) : bool :=
  let b1 := byte_val c1 in
  in_range 240 244 b1 &&
  in_range (if b1 =? 240 then 144 else 128) (if b1 =? 244 then 143 else 191) (byte_val c2) && cont c3 && cont c4.

(** A string cut into runes: ASCII bytes, longer sequences, invalid bytes. *)
Inductive rune :=
| Plain (c : ascii)
| Multi (bytes : string)
| Invalid (c : ascii).

Definition str2 (c1 c2 : ascii) : string := String c1 (String c2 "").
Definition str3 (c1 c2 c3 : ascii) : string := String c1 (str2 c2 c3).
Definition str4 (c1 c2 c3 c4 : ascii) : string := String c1 (str3 c2 c3 c4).

(** [for i, r := range s] *)
Fixpoint runes (s : string) : list rune :=
  match s with
  | EmptyString => []
  | String c1 s1 =>
      if byte_val c1 <? 128 then Plain c1 :: runes s1
      else match s1 with
      | EmptyString => Invalid c1 :: runes s1
      | String c2 s2 =>
          if utf8_2 c1 c2 then Multi (str2 c1 c2) :: runes s2
          else match s2 with
          | EmptyString => Invalid c1 :: runes s1
          | String c3 s3 =>
              if utf8_3 c1 c2 c3 then Multi (str3 c1 c2 c3) :: runes s3
              else match s3 with
              | EmptyString => Invalid c1 :: runes s1
              | String c4 s4 =>
                  if utf8_4 c1 c2 c3 c4 then Multi (str4 c1 c2 c3 c4) :: runes s4
                  else Invalid c1 :: runes s1
              end
          end
      end
  end.

Definition is_valid (r : rune) : bool := match r with Invalid _ => false | _ => true end.

(** [utf8.ValidString(s)] *)
Definition ValidString (s : string) : bool := forallb is_valid (runes s).

(** U+FFFD *)
Definition replacement : string := str3 (byte_of 239) (byte_of 191) (byte_of 189).

(** The string with each invalid byte replaced. *)
Definition to_valid (s : string) : string :=
  String.concat "" (map (fun r => match r with
    | Plain c => String c "" | Multi w => w | Invalid _ => replacement end) (runes s)).

(** ** Writing (encoding/json [appendString], escapeHTML) *)

Definition hex_digit (n : Z) : ascii := byte_of (if n <? 10 then 48 + n else 87 + n).

Definition backslash : ascii := byte_of 92.
Definition dquote : ascii := byte_of 34.

(** [\u00xx] *)
Definition hex_escape (c : ascii) : string :=
  String backslash ("u00" ++ str2 (hex_digit (byte_val c / 16)) (hex_digit (byte_val c mod 16))).

(** An ASCII byte: as it is when [htmlSafeSet] has it. *)
Definition escape_byte (c : ascii) : string :=
  let b := byte_val c in
  if (b =? 34) || (b =? 92) then str2 backslash c
  else if b =? 8 then str2 backslash "b"
  else if b =? 12 then str2 backslash "f"
  else if b =? 10 then str2 backslash "n"
  else if b =? 13 then str2 backslash "r"
  else if b =? 9 then str2 backslash "t"
  else if (b <? 32) || (b =? 60) || (b =? 62) || (b =? 38) then hex_escape c
  else String c "".

Definition line_separator : string := str3 (byte_of 226) (byte_of 128) (byte_of 168).
Definition paragraph_separator : string := str3 (byte_of 226) (byte_of 128) (byte_of 169).

Definition escape_rune (r : rune) : string :=
  match r with
  | Plain c => escape_byte c
  | Multi w =>
      if String.eqb w line_separator then String backslash "u2028"
      else if String.eqb w paragraph_separator then String backslash "u2029"
      else w
  | Invalid _ => String backslash "ufffd"
  end.

Definition json_quote (s : string) : string :=
  String dquote (String.concat "" (map escape_rune (runes s)) ++ String dquote "").

(** ** Reading (encoding/json scanner and [unquoteBytes]) *)

Definition hex_val (c : ascii) : option Z :=
  let b := byte_val c in
  if in_range 48 57 b then Some (b - 48)
  else if in_range 97 102 b then Some (b - 87)
  else if in_range 65 70 b then Some (b - 55)
  else None.

(** [getu4] *)
Definition hex4 (h1 h2 h3 h4 : ascii) : option Z :=
  a ← hex_val h1; b ← hex_val h2; c ← hex_val h3; d ← hex_val h4;
  Some (((a * 16 + b) * 16 + c) * 16 + d).

(** [utf16.IsSurrogate], [utf16.DecodeRune] *)
Definition is_surrogate (r : Z) : bool := in_range 55296 57343 r.

Definition decode_surrogates (r1 r2 : Z) : option Z :=
  if in_range 55296 56319 r1 && in_range 56320 57343 r2
  then Some ((r1 - 55296) * 1024 + (r2 - 56320) + 65536) else None.

(** [utf8.EncodeRune] of a code point that is not a surrogate *)
Definition encode_rune (r : Z) : string :=
  if r <? 128 then String (byte_of r) ""
  else if r <? 2048 then str2 (byte_of (192 + r / 64)) (byte_of (128 + r mod 64))
  else if r <? 65536 then
    str3 (byte_of (224 + r / 4096)) (byte_of (128 + r / 64 mod 64)) (byte_of (128 + r mod 64))
  else str4 (byte_of (240 + r / 262144)) (byte_of (128 + r / 4096 mod 64)) (byte_of (128 + r / 64 mod 64))
         (byte_of (128 + r mod 64)).

Definition simple_escape (c : ascii) : option ascii :=
  let b := byte_val c in
  if (b =? 34) || (b =? 92) || (b =? 47) then Some c
  else if b =? 98 then Some (byte_of 8)
  else if b =? 102 then Some (byte_of 12)
  else if b =? 110 then Some (byte_of 10)
  else if b =? 114 then Some (byte_of 13)
  else if b =? 116 then Some (byte_of 9)
  else None.

(** What a literal stands for, and what follows it. *)
Definition literal : Type := option (string * string).

Definition prepend (w : string) (l : literal) : literal := (fun p => ((w ++ p.1)%string, p.2)) <$> l.

(** The literal after its opening quote; [None] when the scanner rejects it. *)
Fixpoint json_unquote (s : string) : literal :=
  match s with
  | EmptyString => None
  | String c1 s1 =>
      let b := byte_val c1 in
      if b =? 34 then Some ("", s1)
      else if b =? 92 then
        match s1 with
        | EmptyString => None
        | String e s2 =>
            match simple_escape e with
            | Some c => prepend (String c "") (json_unquote s2)
            | None =>
                if negb (byte_val e =? 117) then None
                else match s2 with
                | String h1 (String h2 (String h3 (String h4 s3))) =>
                    match hex4 h1 h2 h3 h4 with
                    | None => None
                    | Some r =>
                        if negb (is_surrogate r) then prepend (encode_rune r) (json_unquote s3)
                        else match s3 with
                        | String b2 (String u2 (String k1 (String k2 (String k3 (String k4 s4))))) =>
                            match (if (byte_val b2 =? 92) && (byte_val u2 =? 117)
                                   then r2 ← hex4 k1 k2 k3 k4; decode_surrogates r r2 else None) with
                            | Some r' => prepend (encode_rune r') (json_unquote s4)
                            | None => prepend replacement (json_unquote s3)
                            end
                        | _ => prepend replacement (json_unquote s3)
                        end
                    end
                | _ => None
                end
            end
        end
      else if b <? 32 then None
      else if b <? 128 then prepend (String c1 "") (json_unquote s1)
      else match s1 with
      | EmptyString => prepend replacement (json_unquote s1)
      | String c2 s2 =>
          if utf8_2 c1 c2 then prepend (str2 c1 c2) (json_unquote s2)
          else match s2 with
          | EmptyString => prepend replacement (json_unquote s1)
          | String c3 s3 =>
              if utf8_3 c1 c2 c3 then prepend (str3 c1 c2 c3) (json_unquote s3)
              else match s3 with
              | EmptyString => prepend replacement (json_unquote s1)
              | String c4 s4 =>
                  if utf8_4 c1 c2 c3 c4 then prepend (str4 c1 c2 c3 c4) (json_unquote s4)
                  else prepend replacement (json_unquote s1)
              end
          end
      end
  end.

(** ** A written string reads back *)

(** The bytes a rune stands for when it is read back. *)
Definition rune_text (r : rune) : string :=
  match r with Plain c => String c "" | Multi w => w | Invalid _ => replacement end.

(** The bytes it was cut from. *)
Definition rune_source (r : rune) : string :=
  match r with Plain c | Invalid c => String c "" | Multi w => w end.

(** What [runes] cuts. *)
Inductive rune_ok : rune -> Prop :=
| ok_plain c : (byte_val c <? 128) = true -> rune_ok (Plain c)
| ok_2 c1 c2 : (byte_val c1 <? 128) = false -> utf8_2 c1 c2 = true -> rune_ok (Multi (str2 c1 c2))
| ok_3 c1 c2 c3 : (byte_val c1 <? 128) = false -> utf8_2 c1 c2 = false -> utf8_3 c1 c2 c3 = true ->
    rune_ok (Multi (str3 c1 c2 c3))
| ok_4 c1 c2 c3 c4 : (byte_val c1 <? 128) = false -> utf8_2 c1 c2 = false -> utf8_3 c1 c2 c3 = false ->
    utf8_4 c1 c2 c3 c4 = true -> rune_ok (Multi (str4 c1 c2 c3 c4))
| ok_invalid c : rune_ok (Invalid c).

Lemma runes_step s :
  s = "" \/ exists r t, runes s = r :: runes t /\ s = (rune_source r ++ t)%string /\ rune_ok r.
Proof.
  destruct s as [|c1 s1]; [by left|]. right. cbn [runes]. destruct (byte_val c1 <? 128) eqn:E1.
  { exists (Plain c1), s1. repeat split. by constructor. }
  assert (Hbad : exists r t, Invalid c1 :: runes s1 = r :: runes t /\ String c1 s1 = (rune_source r ++ t)%string /\ rune_ok r).
  { exists (Invalid c1), s1. repeat split. constructor. }
  destruct s1 as [|c2 s2]; [done|]. destruct (utf8_2 c1 c2) eqn:E2.
  { exists (Multi (str2 c1 c2)), s2. repeat split. by constructor. }
  destruct s2 as [|c3 s3]; [done|]. destruct (utf8_3 c1 c2 c3) eqn:E3.
  { exists (Multi (str3 c1 c2 c3)), s3. repeat split. by constructor. }
  destruct s3 as [|c4 s4]; [done|]. destruct (utf8_4 c1 c2 c3 c4) eqn:E4; [|done].
  exists (Multi (str4 c1 c2 c3 c4)), s4. repeat split. by constructor.
Qed.

(** Induction on a string, rune by rune. *)
Lemma runes_ind (P : string -> Prop) :
  P "" -> (forall s r t, runes s = r :: runes t -> s = (rune_source r ++ t)%string -> rune_ok r -> P t -> P s) ->
  forall s, P s.
Proof.
  intros H0 Hstep s. remember (String.length s) as n eqn:En. revert s En.
  induction (lt_wf n) as [n _ IH]. intros s ->. destruct (runes_step s) as [->|(r & t & Hr & Hs & Hok)]; [done|].
  apply (Hstep s r t Hr Hs Hok), (IH (String.length t)); [|done]. rewrite Hs.
  destruct Hok; unfold rune_source, str4, str3, str2; cbn; lia.
Qed.

Lemma concat_cons x l : String.concat "" (x :: l) = (x ++ String.concat "" l)%string.
Proof. destruct l; cbn; [|done]. induction x as [|c x IH]; cbn; [done | by rewrite <- IH]. Qed.

Lemma app_assoc_s (a b c : string) : (a ++ (b ++ c) = (a ++ b) ++ c)%string.
Proof. induction a as [|x a IH]; cbn; [done | by rewrite IH]. Qed.

Lemma app_nil_s (a : string) : (a ++ "")%string = a.
Proof. induction a as [|x a IH]; cbn; [done | by rewrite IH]. Qed.

Lemma prepend_app w v l : prepend w (prepend v l) = prepend (w ++ v) l.
Proof. destruct l as [[a b]|]; [|done]. cbn. by rewrite app_assoc_s. Qed.

(** One escaped ASCII byte. *)
Lemma unquote_byte c t : (byte_val c <? 128) = true -> json_unquote (escape_byte c ++ t) = prepend (String c "") (json_unquote t).
Proof. destruct c as [[] [] [] [] [] [] [] []]; intros Hc; try discriminate Hc; reflexivity. Qed.

Lemma byte_high c : (byte_val c <? 128) = false ->
  (byte_val c =? 34) = false /\ (byte_val c =? 92) = false /\ (byte_val c <? 32) = false.
Proof. intros Hc%Z.ltb_ge. split_and!; [apply Z.eqb_neq | apply Z.eqb_neq | apply Z.ltb_ge]; lia. Qed.

(** A longer rune as it is. *)
Lemma unquote_multi w t : rune_ok (Multi w) -> json_unquote (w ++ t) = prepend w (json_unquote t).
Proof.
  intros Hok. inversion Hok as [|c1 c2 H1 H2|c1 c2 c3 H1 H2 H3|c1 c2 c3 c4 H1 H2 H3 H4|]; subst;
    destruct (byte_high c1 H1) as (E1 & E2 & E3); cbn [str4 str3 str2 String.append json_unquote];
    rewrite E1, E2, E3, H1; [by rewrite H2 | by rewrite H2, H3 | by rewrite H2, H3, H4].
Qed.

Lemma unquote_rune r t : rune_ok r -> json_unquote (escape_rune r ++ t) = prepend (rune_text r) (json_unquote t).
Proof.
  destruct r as [c|w|c]; intros Hok; cbn [escape_rune rune_text].
  - apply unquote_byte. by inversion Hok.
  - destruct (String.eqb_spec w line_separator) as [->|]; [reflexivity|].
    destruct (String.eqb_spec w paragraph_separator) as [->|]; [reflexivity|]. by apply unquote_multi.
  - reflexivity.
Qed.

(** Writing a string and reading the literal gives its valid form. *)
Lemma unquote_quote s rest :
  json_unquote (String.concat "" (map escape_rune (runes s)) ++ String dquote rest) = Some (to_valid s, rest).
Proof.
  unfold to_valid. induction s as [|s r t Hr Hs Hok IH] using runes_ind; [reflexivity|].
  rewrite Hr. cbn [map]. rewrite !concat_cons, <- app_assoc_s, unquote_rune, IH by done. reflexivity.
Qed.

Lemma to_valid_id s : ValidString s = true -> to_valid s = s.
Proof.
  unfold ValidString, to_valid. induction s as [|s r t Hr Hs Hok IH] using runes_ind; [done|].
  rewrite Hr. cbn [forallb map]. rewrite concat_cons. intros [Hv Ht]%andb_true_iff. rewrite IH by done.
  rewrite Hs at 1. by destruct r.
Qed.

(** The valid form of any string is valid. *)
Lemma runes_app r t : rune_ok r -> is_valid r = true -> runes (rune_source r ++ t) = r :: runes t.
Proof.
  intros Hok Hv. destruct Hok as [c H1|c1 c2 H1 H2|c1 c2 c3 H1 H2 H3|c1 c2 c3 c4 H1 H2 H3 H4|c]; [| | | |done];
    cbn [rune_source str4 str3 str2 String.append runes]; rewrite H1; [done | by rewrite H2 | by rewrite H2, H3 | by rewrite H2, H3, H4].
Qed.

Lemma to_valid_valid s : ValidString (to_valid s) = true.
Proof.
  unfold ValidString, to_valid. induction s as [|s r t Hr Hs Hok IH] using runes_ind; [done|].
  rewrite Hr. cbn [map]. rewrite concat_cons. change (match r with Plain c => String c "" | Multi w => w | Invalid _ => replacement end)
    with (rune_text r).
  assert (Hr' : exists r', rune_text r = rune_source r' /\ rune_ok r' /\ is_valid r' = true).
  { destruct r as [c|w|c]; [by exists (Plain c) | by exists (Multi w)|].
    exists (Multi replacement). split; [done|]. split; [by constructor | done]. }
  destruct Hr' as (r' & -> & Hok' & Hv). rewrite runes_app by done. cbn. by rewrite Hv.
Qed.
