(* ===== verification/Json.v ===== *)
(** * JSON documents (encoding/json)

    The Standard Library's scanner and encoder: a document is parsed as
    [checkValid] and the decoder accept it, into a tree whose strings are
    decoded and whose numbers keep their text; a tree is printed compactly, as
    [Marshal] does.  Parsing a printed tree gives it back. *)
From S2P Require Import Prelude GoStrings.

#[local] Notation ascii := Ascii.ascii.
#[local] Arguments String.append : simpl nomatch.

#[local] Unset Elimination Schemes.

Inductive json :=
| JNull
| JBool (b : bool)
| JNum (literal : string)
| JStr (s : string)
| JArr (l : list json)
| JObj (members : list (string * json)).

#[local] Set Elimination Schemes.

Section json_ind.
Variable P : json -> Prop.
Hypothesis Hnull : P JNull.
Hypothesis Hbool : forall b, P (JBool b).
Hypothesis Hnum : forall n, P (JNum n).
Hypothesis Hstr : forall s, P (JStr s).
Hypothesis Harr : forall l, Forall P l -> P (JArr l).
Hypothesis Hobj : forall l, Forall (fun kv => P kv.2) l -> P (JObj l).

Fixpoint json_ind (v : json) : P v :=
  match v with
  | JNull => Hnull
  | JBool b => Hbool b
  | JNum n => Hnum n
  | JStr s => Hstr s
  | JArr l => Harr l ((fix go l : Forall P l :=
      match l with [] => Forall_nil_2 P | x :: l' => Forall_cons_2 P x l' (json_ind x) (go l') end) l)
  | JObj l => Hobj l ((fix go l : Forall (fun kv => P kv.2) l :=
      match l with [] => Forall_nil_2 _ | kv :: l' => Forall_cons_2 _ kv l' (json_ind kv.2) (go l') end) l)
  end.
End json_ind.

(** ** Printing *)

Fixpoint json_print (v : json) : string :=
  match v with
  | JNull => "null"
  | JBool true => "true"
  | JBool false => "false"
  | JNum lit => lit
  | JStr s => json_quote s
  | JArr l => "[" ++ String.concat "," (map json_print l) ++ "]"
  | JObj l => "{" ++ String.concat "," (map (fun kv => (json_quote kv.1 ++ ":" ++ json_print kv.2)%string) l) ++ "}"
  end.

(** ** Scanning *)

Definition is_space (c : ascii) : bool :=
  let b := byte_val c in (b =? 32) || (b =? 9) || (b =? 10) || (b =? 13).

Fixpoint skip_ws (s : string) : string :=
  match s with String c s' => if is_space c then skip_ws s' else s | EmptyString => s end.

Definition is_digit (c : ascii) : bool := in_range 48 57 (byte_val c).

Fixpoint take_digits (s : string) : string * string :=
  match s with
  | String c s' => if is_digit c then (String c (take_digits s').1, (take_digits s').2) else ("", s)
  | EmptyString => ("", "")
  end.

(** One of the digits, then more. *)
Definition some_digits (s : string) : option (string * string) :=
  let '(d, r) := take_digits s in if String.eqb d "" then None else Some (d, r).

Definition int_part (s : string) : option (string * string) :=
  match s with
  | String c s' =>
      if byte_val c =? 48 then Some (String c "", s')
      else if is_digit c then Some (String c (take_digits s').1, (take_digits s').2)
      else None
  | EmptyString => None
  end.

Definition frac_part (s : string) : option (string * string) :=
  match s with
  | String c s' => if byte_val c =? 46 then prepend (String c "") (some_digits s') else Some ("", s)
  | EmptyString => Some ("", s)
  end.

Definition exp_part (s : string) : option (string * string) :=
  match s with
  | String c s' =>
      if (byte_val c =? 101) || (byte_val c =? 69) then
        match s' with
        | String g s'' =>
            if (byte_val g =? 43) || (byte_val g =? 45) then prepend (String c (String g "")) (some_digits s'')
            else prepend (String c "") (some_digits s')
        | EmptyString => None
        end
      else Some ("", s)
  | EmptyString => Some ("", s)
  end.

(** A number after its sign. *)
Definition scan_magnitude (s : string) : option (string * string) :=
  i ← int_part s; f ← frac_part i.2; e ← exp_part f.2; Some ((i.1 ++ f.1 ++ e.1)%string, e.2).

Definition scan_number (s : string) : option (string * string) :=
  match s with
  | String c s' => if byte_val c =? 45 then prepend (String c "") (scan_magnitude s') else scan_magnitude s
  | EmptyString => None
  end.

(** What follows a prefix. *)
Fixpoint strip (p s : string) : option string :=
  match p, s with
  | EmptyString, _ => Some s
  | String a p', String b s' => if Ascii.eqb a b then strip p' s' else None
  | String _ _, EmptyString => None
  end.

(** [maxNestingDepth] *)
Definition max_depth : Z := 10000.

(** A value after any white space, and what follows it; [fuel] bounds the
    calls, [depth] counts the open arrays and objects. *)
Fixpoint parse_value (fuel : nat) (depth : Z) (s : string) : option (json * string) :=
  match fuel with
  | O => None
  | S fuel =>
      match skip_ws s with
      | EmptyString => None
      | String c s' as s0 =>
          let b := byte_val c in
          if b =? 123 then
            if max_depth <=? depth then None
            else match skip_ws s' with
                 | String c2 t => if byte_val c2 =? 125 then Some (JObj [], t)
                                  else m ← parse_members fuel (depth + 1) s'; Some (JObj m.1, m.2)
                 | EmptyString => None
                 end
          else if b =? 91 then
            if max_depth <=? depth then None
            else match skip_ws s' with
                 | String c2 t => if byte_val c2 =? 93 then Some (JArr [], t)
                                  else m ← parse_elements fuel (depth + 1) s'; Some (JArr m.1, m.2)
                 | EmptyString => None
                 end
          else if b =? 34 then l ← json_unquote s'; Some (JStr l.1, l.2)
          else if (b =? 45) || is_digit c then l ← scan_number s0; Some (JNum l.1, l.2)
          else if b =? 116 then r ← strip "true" s0; Some (JBool true, r)
          else if b =? 102 then r ← strip "false" s0; Some (JBool false, r)
          else if b =? 110 then r ← strip "null" s0; Some (JNull, r)
          else None
      end
  end
with parse_elements (fuel : nat) (depth : Z) (s : string) : option (list json * string) :=
  match fuel with
  | O => None
  | S fuel =>
      v ← parse_value fuel depth s;
      match skip_ws v.2 with
      | String c t =>
          if byte_val c =? 44 then m ← parse_elements fuel depth t; Some (v.1 :: m.1, m.2)
          else if byte_val c =? 93 then Some ([v.1], t)
          else None
      | EmptyString => None
      end
  end
with parse_members (fuel : nat) (depth : Z) (s : string) : option (list (string * json) * string) :=
  match fuel with
  | O => None
  | S fuel =>
      match skip_ws s with
      | String q s1 =>
          if negb (byte_val q =? 34) then None
          else
            k ← json_unquote s1;
            match skip_ws k.2 with
            | String d s2 =>
                if negb (byte_val d =? 58) then None
                else
                  v ← parse_value fuel depth s2;
                  match skip_ws v.2 with
                  | String c t =>
                      if byte_val c =? 44 then m ← parse_members fuel depth t; Some ((k.1, v.1) :: m.1, m.2)
                      else if byte_val c =? 125 then Some ([(k.1, v.1)], t)
                      else None
                  | EmptyString => None
                  end
            | EmptyString => None
            end
      | EmptyString => None
      end
  end.

(** Fuel for any document of a length. *)
Definition parse_fuel (s : string) : nat := 2 * String.length s + 1.

Definition json_parse (s : string) : option json :=
  v ← parse_value (parse_fuel s) 0 s;
  match skip_ws v.2 with EmptyString => Some v.1 | _ => None end.

(** ** The parser consumes, and its fuel is enough *)

Lemma skip_ws_length s : (String.length (skip_ws s) <= String.length s)%nat.
Proof. induction s as [|c s IH]; cbn; [done|]. destruct (is_space c); cbn; lia. Qed.

Lemma skip_ws_cons s c t : skip_ws s = String c t -> (String.length t < String.length s)%nat.
Proof. intros E. pose proof (skip_ws_length s) as Hl. rewrite E in Hl. cbn in Hl. lia. Qed.

Lemma take_digits_length s : (String.length (take_digits s).2 <= String.length s)%nat.
Proof. induction s as [|c s IH]; cbn; [done|]. destruct (is_digit c); cbn; lia. Qed.

Lemma prepend_some w l x r : prepend w l = Some (x, r) -> exists y, l = Some (y, r) /\ x = (w ++ y)%string.
Proof. destruct l as [[y r']|]; [|done]. intros [= <- <-]. by exists y. Qed.

Lemma unquote_length s x r : json_unquote s = Some (x, r) -> (String.length r < String.length s)%nat.
Proof.
  remember (String.length s) as n eqn:En. revert s x r En. induction (lt_wf n) as [n _ IH].
  assert (Hp : forall w s x r, (String.length s < n)%nat -> prepend w (json_unquote s) = Some (x, r) -> (String.length r < n)%nat).
  { intros w s x r Hs (y & Hy & _)%prepend_some. specialize (IH _ Hs s y r eq_refl Hy). lia. }
  intros s x r -> E. destruct s as [|c1 s1]; [done|]. cbn [json_unquote] in E. cbn [String.length] in *.
  repeat match type of E with
  | (if ?b then _ else _) = Some _ => destruct b
  | match ?o with _ => _ end = Some _ => destruct o
  | None = Some _ => discriminate E
  | Some _ = Some _ => injection E as <- <-; cbn in *; lia
  | prepend _ _ = Some _ => apply Hp in E; [exact E | cbn in *; lia]
  end.
Qed.

Lemma some_digits_length s x r : some_digits s = Some (x, r) -> (String.length r <= String.length s)%nat.
Proof.
  unfold some_digits. pose proof (take_digits_length s) as Hl. destruct (take_digits s) as [d t].
  destruct (String.eqb d ""); [done|]. by intros [= <- <-].
Qed.

Lemma int_part_length s x r : int_part s = Some (x, r) -> (String.length r < String.length s)%nat.
Proof.
  destruct s as [|c s]; cbn; [done|]. pose proof (take_digits_length s).
  destruct (_ =? 48); [intros [= _ <-]; lia|]. destruct (is_digit c); [intros [= _ <-]; lia | done].
Qed.

Lemma frac_part_length s x r : frac_part s = Some (x, r) -> (String.length r <= String.length s)%nat.
Proof.
  destruct s as [|c s]; cbn; [by intros [= _ <-]|]. destruct (_ =? 46); [|by intros [= _ <-]].
  intros (y & Hy%some_digits_length & _)%prepend_some. lia.
Qed.

Lemma exp_part_length s x r : exp_part s = Some (x, r) -> (String.length r <= String.length s)%nat.
Proof.
  destruct s as [|c s]; cbn; [by intros [= _ <-]|]. destruct (_ || _); [|by intros [= _ <-]].
  destruct s as [|g s]; [done|]. destruct (_ || _); intros (y & Hy%some_digits_length & _)%prepend_some; cbn in *; lia.
Qed.

Lemma scan_magnitude_length s x r : scan_magnitude s = Some (x, r) -> (String.length r < String.length s)%nat.
Proof.
  unfold scan_magnitude. intros E. destruct (int_part s) as [[i s2]|] eqn:Ei; [|done]. cbn in E.
  destruct (frac_part s2) as [[f s3]|] eqn:Ef; [|done]. cbn in E.
  destruct (exp_part s3) as [[e s4]|] eqn:Ee; [|done]. injection E as _ <-.
  apply int_part_length in Ei. apply frac_part_length in Ef. apply exp_part_length in Ee. lia.
Qed.

Lemma scan_number_length s x r : scan_number s = Some (x, r) -> (String.length r < String.length s)%nat.
Proof.
  destruct s as [|c s]; [done|]. cbn [scan_number]. destruct (_ =? 45); [|by apply scan_magnitude_length].
  intros (y & Hy%scan_magnitude_length & _)%prepend_some. cbn. lia.
Qed.

Lemma strip_length p s r : strip p s = Some r -> String.length s = (String.length p + String.length r)%nat.
Proof.
  revert s. induction p as [|a p IH]; intros s; cbn [strip String.length]; [by intros [= ->]|].
  destruct s as [|b s]; [done|]. destruct (Ascii.eqb a b); [|done]. intros Hr%IH. cbn. lia.
Qed.

(** Splits a successful parse into its steps. *)
Ltac parse_steps E :=
  repeat match type of E with
  | (match skip_ws ?s with _ => _ end) = Some _ =>
      let H := fresh "Hws" in destruct (skip_ws s) as [|? ?] eqn:H; [discriminate E|];
      apply skip_ws_cons in H
  | (if ?b then _ else _) = Some _ => destruct b
  | (?o ≫= _) = Some _ =>
      let H := fresh "Hres" in destruct o as [[? ?]|] eqn:H; [|discriminate E]; cbn [mbind option_bind fst snd] in E
  | None = Some _ => discriminate E
  end.

Lemma parse_length n :
  (forall d s v r, parse_value n d s = Some (v, r) -> (String.length r < String.length s)%nat) /\
  (forall d s v r, parse_elements n d s = Some (v, r) -> (String.length r < String.length s)%nat) /\
  (forall d s v r, parse_members n d s = Some (v, r) -> (String.length r < String.length s)%nat).
Proof.
  induction n as [|n (IHv & IHe & IHm)]; [by repeat split|]. split; [|split]; intros d s v r E.
  - cbn [parse_value] in E. destruct (skip_ws s) as [|c s'] eqn:Hs; [done|]. pose proof (skip_ws_cons _ _ _ Hs) as Hlen.
    pose proof (skip_ws_length s) as Hle. rewrite Hs in Hle. cbn [String.length] in Hle.
    assert (Hstrip : forall p t, strip p (String c s') = Some t -> p <> "" -> (String.length t < String.length s)%nat).
    { intros p t Ht Hp. apply strip_length in Ht. cbn in Ht. destruct p; [done|]. cbn in Ht. lia. }
    parse_steps E; try (injection E as <- <-).
    all: try match goal with H : parse_members _ _ _ = Some _ |- _ => apply IHm in H end.
    all: try match goal with H : parse_elements _ _ _ = Some _ |- _ => apply IHe in H end.
    all: try match goal with H : json_unquote _ = Some _ |- _ => apply unquote_length in H end.
    all: try match goal with H : scan_number _ = Some _ |- _ => apply scan_number_length in H; cbn [String.length] in H end.
    all: try lia.
    all: match goal with H : context [strip ?p ?s] |- _ => destruct (strip p s) eqn:Est; [|discriminate H]; cbn in H end;
      apply Hstrip in Est; [|done]; cbn in E; injection E as <- <-; done.
  - cbn [parse_elements] in E. parse_steps E; injection E as <- <-;
      repeat match goal with
      | H : parse_value _ _ _ = Some _ |- _ => apply IHv in H
      | H : parse_elements _ _ _ = Some _ |- _ => apply IHe in H
      end; cbn in *; lia.
  - cbn [parse_members] in E. parse_steps E; injection E as <- <-;
      repeat match goal with
      | H : parse_value _ _ _ = Some _ |- _ => apply IHv in H
      | H : parse_members _ _ _ = Some _ |- _ => apply IHm in H
      | H : json_unquote _ = Some _ |- _ => apply unquote_length in H
      end; cbn in *; lia.
Qed.

(** More fuel than [parse_fuel] changes nothing. *)
Lemma parse_enough n : forall m,
  (forall d s, (2 * String.length s + 1 <= n)%nat -> (2 * String.length s + 1 <= m)%nat -> parse_value n d s = parse_value m d s) /\
  (forall d s, (2 * String.length s + 2 <= n)%nat -> (2 * String.length s + 2 <= m)%nat -> parse_elements n d s = parse_elements m d s) /\
  (forall d s, (2 * String.length s + 2 <= n)%nat -> (2 * String.length s + 2 <= m)%nat -> parse_members n d s = parse_members m d s).
Proof.
  induction n as [|n IH]; [by repeat split; intros; lia|].
  intros [|m]; [by repeat split; intros; lia|]. destruct (IH m) as (IHv & IHe & IHm). split; [|split]; intros d s Hn Hm.
  - cbn [parse_value]. destruct (skip_ws s) as [|c s'] eqn:Hs; [done|]. apply skip_ws_cons in Hs.
    rewrite (IHm (d + 1) s'), (IHe (d + 1) s') by lia. done.
  - cbn [parse_elements]. rewrite (IHv d s) by lia. destruct (parse_value m d s) as [[v r]|] eqn:Ev; [|done].
    apply parse_length in Ev. cbn [mbind option_bind fst snd]. destruct (skip_ws r) as [|c t] eqn:Hr; [done|].
    apply skip_ws_cons in Hr. by rewrite (IHe d t) by lia.
  - cbn [parse_members]. destruct (skip_ws s) as [|q s1] eqn:Hs; [done|]. apply skip_ws_cons in Hs.
    destruct (negb _); [done|]. destruct (json_unquote s1) as [[k s2]|] eqn:Ek; [|done]. apply unquote_length in Ek.
    cbn [mbind option_bind fst snd]. destruct (skip_ws s2) as [|e s3] eqn:Hs2; [done|]. apply skip_ws_cons in Hs2.
    destruct (negb _); [done|]. rewrite (IHv d s3) by lia. destruct (parse_value m d s3) as [[v r]|] eqn:Ev; [|done].
    apply parse_length in Ev. cbn [mbind option_bind fst snd]. destruct (skip_ws r) as [|c t] eqn:Hr; [done|].
    apply skip_ws_cons in Hr. by rewrite (IHm d t) by lia.
Qed.

Corollary parse_fuel_enough n s : (parse_fuel s <= n)%nat -> parse_value n 0 s = parse_value (parse_fuel s) 0 s.
Proof. unfold parse_fuel. intros Hn. apply parse_enough; lia. Qed.

(** ** Numbers *)

(** Nothing of a number follows. *)
Definition num_end (s : string) : bool :=
  match s with
  | String c _ => negb (is_digit c || (byte_val c =? 46) || (byte_val c =? 101) || (byte_val c =? 69))
  | EmptyString => true
  end.

(** A whole number literal. *)
Definition num_literal (s : string) : bool :=
  match scan_number s with Some (_, EmptyString) => true | _ => false end.

Lemma num_end_cons c t : num_end (String c t) = true ->
  is_digit c = false /\ (byte_val c =? 46) = false /\ (byte_val c =? 101) = false /\ (byte_val c =? 69) = false.
Proof. cbn. by destruct (is_digit c), (_ =? 46), (_ =? 101), (_ =? 69). Qed.

Lemma take_digits_app s rest : num_end rest = true ->
  take_digits (s ++ rest) = ((take_digits s).1, ((take_digits s).2 ++ rest)%string).
Proof.
  intros He. induction s as [|c s IH]; cbn [take_digits String.append].
  - destruct rest as [|c t]; [done|]. apply num_end_cons in He as (Hd & _). cbn. by rewrite Hd.
  - destruct (is_digit c); [|done]. by rewrite IH.
Qed.

Lemma some_digits_app s rest x r : num_end rest = true -> some_digits s = Some (x, r) ->
  some_digits (s ++ rest) = Some (x, (r ++ rest)%string).
Proof.
  intros He. unfold some_digits. rewrite take_digits_app by done. destruct (take_digits s) as [d t].
  cbn. destruct (String.eqb d ""); [done|]. by intros [= <- <-].
Qed.

Lemma int_part_app s rest x r : num_end rest = true -> int_part s = Some (x, r) ->
  int_part (s ++ rest) = Some (x, (r ++ rest)%string).
Proof.
  intros He. destruct s as [|c s]; [done|]. cbn. rewrite take_digits_app by done.
  destruct (_ =? 48); [by intros [= <- <-]|]. destruct (is_digit c); [|done]. by intros [= <- <-].
Qed.

Lemma frac_part_app s rest x r : num_end rest = true -> frac_part s = Some (x, r) ->
  frac_part (s ++ rest) = Some (x, (r ++ rest)%string).
Proof.
  intros He. destruct s as [|c s]; cbn [frac_part String.append].
  - intros [= <- <-]. destruct rest as [|c t]; [done|]. apply num_end_cons in He as (_ & Hd & _). cbn. by rewrite Hd.
  - destruct (_ =? 46); [|by intros [= <- <-]]. intros (y & Hy & ->)%prepend_some.
    by rewrite (some_digits_app _ _ _ _ He Hy).
Qed.

Lemma exp_part_app s rest x r : num_end rest = true -> exp_part s = Some (x, r) ->
  exp_part (s ++ rest) = Some (x, (r ++ rest)%string).
Proof.
  intros He. destruct s as [|c s]; cbn [exp_part String.append].
  - intros [= <- <-]. destruct rest as [|c t]; [done|]. apply num_end_cons in He as (_ & _ & H1 & H2). cbn. by rewrite H1, H2.
  - destruct (_ || _); [|by intros [= <- <-]]. destruct s as [|g s]; [done|]. cbn [String.append].
    destruct (_ || _); intros (y & Hy & ->)%prepend_some.
    + by rewrite (some_digits_app _ _ _ _ He Hy).
    + change (String g (s ++ rest)) with (String g s ++ rest)%string. by rewrite (some_digits_app _ _ _ _ He Hy).
Qed.

(** What is scanned and what is left make up the text. *)
Lemma take_digits_split s : s = ((take_digits s).1 ++ (take_digits s).2)%string.
Proof. induction s as [|c s IH]; cbn; [done|]. destruct (is_digit c); cbn; [by rewrite <- IH | done]. Qed.

Lemma some_digits_split s x r : some_digits s = Some (x, r) -> s = (x ++ r)%string.
Proof.
  unfold some_digits. rewrite (take_digits_split s) at 2. destruct (take_digits s) as [d t].
  destruct (String.eqb d ""); [done|]. by intros [= <- <-].
Qed.

Lemma int_part_split s x r : int_part s = Some (x, r) -> s = (x ++ r)%string.
Proof.
  destruct s as [|c s]; cbn; [done|]. destruct (_ =? 48); [by intros [= <- <-]|]. destruct (is_digit c); [|done].
  intros [= <- <-]. cbn. by rewrite <- take_digits_split.
Qed.

Lemma frac_part_split s x r : frac_part s = Some (x, r) -> s = (x ++ r)%string.
Proof.
  destruct s as [|c s]; cbn; [by intros [= <- <-]|]. destruct (_ =? 46); [|by intros [= <- <-]].
  intros (y & ->%some_digits_split & ->)%prepend_some. done.
Qed.

Lemma exp_part_split s x r : exp_part s = Some (x, r) -> s = (x ++ r)%string.
Proof.
  destruct s as [|c s]; cbn; [by intros [= <- <-]|]. destruct (_ || _); [|by intros [= <- <-]].
  destruct s as [|g s]; [done|]. destruct (_ || _); intros (y & Hy%some_digits_split & ->)%prepend_some.
  - by rewrite Hy.
  - by rewrite Hy.
Qed.

Lemma scan_magnitude_app s rest x : num_end rest = true -> scan_magnitude s = Some (x, "") ->
  scan_magnitude (s ++ rest) = Some (s, rest).
Proof.
  unfold scan_magnitude. intros He E. destruct (int_part s) as [[i t1]|] eqn:Ei; [|done]. cbn in E.
  destruct (frac_part t1) as [[f t2]|] eqn:Ef; [|done]. cbn in E.
  destruct (exp_part t2) as [[e t3]|] eqn:Ee; [|done]. cbn in E. injection E as _ ->.
  rewrite (int_part_app _ _ _ _ He Ei). cbn [mbind option_bind fst snd].
  rewrite (frac_part_app _ _ _ _ He Ef). cbn [mbind option_bind fst snd]. rewrite (exp_part_app _ _ _ _ He Ee).
  cbn. apply int_part_split in Ei. apply frac_part_split in Ef. apply exp_part_split in Ee. subst.
  by rewrite app_nil_s.
Qed.

(** A literal is scanned from in front of anything that ends it. *)
Lemma scan_literal s rest : num_literal s = true -> num_end rest = true -> scan_number (s ++ rest) = Some (s, rest).
Proof.
  unfold num_literal. intros Hs He. destruct (scan_number s) as [[x [|]]|] eqn:E; try done.
  destruct s as [|c s]; [done|]. cbn [scan_number String.append] in *. destruct (_ =? 45).
  - apply prepend_some in E as (y & Hy & _). by rewrite (scan_magnitude_app _ _ _ He Hy).
  - change (String c (s ++ rest)) with (String c s ++ rest)%string. by apply (scan_magnitude_app _ _ x).
Qed.

(** A literal starts with a minus or a digit. *)
Lemma literal_head s : num_literal s = true ->
  exists c t, s = String c t /\ ((byte_val c =? 45) || is_digit c) = true.
Proof.
  unfold num_literal. destruct s as [|c t]; [done|]. intros E. exists c, t. split; [done|].
  cbn [scan_number] in E. destruct (byte_val c =? 45); [done|]. unfold scan_magnitude in E. cbn [int_part] in E.
  destruct (Z.eqb_spec (byte_val c) 48) as [Hc|]; [unfold is_digit, in_range; by rewrite Hc|]. by destruct (is_digit c).
Qed.

(** ** The literals of [strconv.FormatInt] *)

Definition all_digits (s : string) : bool := String.eqb (take_digits s).2 "".

Lemma is_digit_char d : 0 <= d < 10 -> is_digit (digit_char d) = true /\ byte_val (digit_char d) = 48 + d.
Proof.
  intros Hd. unfold is_digit, in_range, byte_val, digit_char. rewrite Ascii.nat_ascii_embedding by lia.
  split; [apply andb_true_iff; split; apply Z.leb_le|]; lia.
Qed.

Lemma take_digits_all s : all_digits s = true -> take_digits s = (s, "").
Proof.
  unfold all_digits. pose proof (take_digits_split s) as Hs. destruct (take_digits s) as [d r]. cbn in *.
  intros ->%String.eqb_eq. by rewrite Hs, app_nil_s.
Qed.

(** Digits, the first not a zero unless it is the only one. *)
Lemma format_digits_shape fuel n acc : 0 <= n < 10 ^ Z.of_nat fuel -> (0 < fuel)%nat -> all_digits acc = true ->
  exists d ds, format_digits fuel n acc = String (digit_char d) ds /\ 0 <= d < 10 /\ all_digits ds = true /\
    (d = 0 -> n = 0 /\ ds = acc).
Proof.
  revert n acc. induction fuel as [|fuel IH]; intros n acc Hn Hf Ha; [lia|]. cbn [format_digits].
  assert (Hm : 0 <= n mod 10 < 10) by (apply Z.mod_pos_bound; lia). destruct (Z.ltb_spec n 10) as [Hlt|Hge].
  - exists (n mod 10), acc. repeat split; try lia; try done. rewrite Z.mod_small in *; lia.
  - rewrite Nat2Z.inj_succ, Z.pow_succ_r in Hn by lia. pose proof (Z.div_mod n 10 ltac:(lia)) as Hdm.
    assert (Hf' : (0 < fuel)%nat) by (destruct fuel; [simpl in Hn; lia | lia]).
    destruct (IH (n / 10) (String (digit_char (n mod 10)) acc)) as (d & ds & Hd & Hr & Hds & H0); [nia | done | |].
    { unfold all_digits in *. cbn. by rewrite (proj1 (is_digit_char _ Hm)). }
    exists d, ds. repeat split; try done; try lia. all: intros Hz; destruct (H0 Hz); lia.
Qed.

Lemma FormatUint_shape n : is_uint64 n ->
  exists d ds, FormatUint n = String (digit_char d) ds /\ 0 <= d < 10 /\ all_digits ds = true /\ (d = 0 -> ds = "").
Proof.
  unfold is_uint64. intros Hn. assert (Hb : 2 ^ 64 <= 10 ^ Z.of_nat 64) by (vm_compute; congruence).
  destruct (format_digits_shape 64 n "" ltac:(lia) ltac:(lia) eq_refl) as (d & ds & Hd & Hr & Ha & H0).
  exists d, ds. repeat split; try done; try lia. by intros []%H0.
Qed.

Lemma scan_FormatUint n : is_uint64 n -> scan_magnitude (FormatUint n) = Some (FormatUint n, "").
Proof.
  intros (d & ds & -> & Hr & Ha & H0)%FormatUint_shape. unfold scan_magnitude. cbn [int_part].
  destruct (is_digit_char d Hr) as [Hd ->]. rewrite Hd, (take_digits_all ds) by done.
  destruct (Z.eqb_spec (48 + d) 48) as [E|]; [rewrite H0 by lia; reflexivity | by cbn; rewrite app_nil_s].
Qed.

Lemma num_literal_FormatInt n : is_int64 n -> num_literal (FormatInt n) = true.
Proof.
  unfold is_int64. intros Hn. unfold num_literal, FormatInt. destruct (Z.ltb_spec n 0).
  - cbn [scan_number]. change (byte_val "-" =? 45) with true. cbn iota.
    by rewrite scan_FormatUint by (unfold is_uint64; lia).
  - assert (Hu : is_uint64 n) by (unfold is_uint64; lia). pose proof (scan_FormatUint n Hu) as Hs.
    destruct (FormatUint_shape n Hu) as (d & ds & Hd & Hr & _). rewrite Hd in *. cbn [scan_number].
    destruct (is_digit_char d Hr) as [_ Hb]. rewrite Hb. destruct (Z.eqb_spec (48 + d) 45); [lia|]. by rewrite Hs.
Qed.

(** ** A printed document reads back *)

(** Its strings in their valid form. *)
Fixpoint json_norm (v : json) : json :=
  match v with
  | JStr s => JStr (to_valid s)
  | JArr l => JArr (map json_norm l)
  | JObj l => JObj (map (fun kv => (to_valid kv.1, json_norm kv.2)) l)
  | _ => v
  end.

Fixpoint json_depth (v : json) : Z :=
  match v with
  | JArr l => 1 + foldr (fun x a => Z.max (json_depth x) a) 0 l
  | JObj l => 1 + foldr (fun kv a => Z.max (json_depth kv.2) a) 0 l
  | _ => 0
  end.

(** Its numbers are literals. *)
Fixpoint json_literals (v : json) : bool :=
  match v with
  | JNum lit => num_literal lit
  | JArr l => forallb json_literals l
  | JObj l => forallb (fun kv => json_literals kv.2) l
  | _ => true
  end.

Definition print_member (kv : string * json) : string := (json_quote kv.1 ++ ":" ++ json_print kv.2)%string.

Lemma number_head c : ((byte_val c =? 45) || is_digit c) = true ->
  is_space c = false /\ (byte_val c =? 93) = false /\ (byte_val c =? 123) = false /\ (byte_val c =? 91) = false /\
  (byte_val c =? 34) = false.
Proof.
  unfold is_space, is_digit, in_range.
  intros [Hc%Z.eqb_eq|[H1%Z.leb_le H2%Z.leb_le]%andb_true_iff]%orb_true_iff; [by rewrite Hc|].
  rewrite !orb_false_iff, !Z.eqb_neq. lia.
Qed.

(** A printed value starts a value. *)
Lemma print_head v : json_literals v = true ->
  exists c t, json_print v = String c t /\ is_space c = false /\ (byte_val c =? 93) = false.
Proof.
  destruct v as [|[]|lit|s|l|l]; cbn [json_print json_literals]; intros Hv.
  4: { apply literal_head in Hv as (c & t & -> & (Hs & H93 & _)%number_head). by exists c, t. }
  all: by eexists _, _.
Qed.

Lemma skip_ws_head s c t : s = String c t -> is_space c = false -> skip_ws s = s.
Proof. intros -> Hc. cbn. by rewrite Hc. Qed.

Lemma length_app_s (a b : string) : String.length (a ++ b) = (String.length a + String.length b)%nat.
Proof. induction a as [|x a IH]; cbn; [done | by rewrite IH]. Qed.

(** The elements of a list, each closed by a comma or the bracket. *)
Definition closed_by (close : ascii) (items : list string) (rest : string) : string :=
  (String.concat "," items ++ String close rest)%string.

Lemma concat_step sep x y l : String.concat sep (x :: y :: l) = (x ++ sep ++ String.concat sep (y :: l))%string.
Proof. done. Qed.

Lemma closed_by_cons close x items rest :
  closed_by close (x :: items) rest =
  (x ++ match items with [] => String close rest | _ => String "," (closed_by close items rest) end)%string.
Proof. unfold closed_by. destruct items; cbn [String.concat]; by rewrite <- ?app_assoc_s. Qed.

Definition parses (v : json) : Prop := forall n d rest,
  json_literals v = true -> (String.length (json_print v) <= n)%nat -> d + json_depth v <= max_depth ->
  num_end rest = true -> parse_value n d (json_print v ++ rest) = Some (json_norm v, rest).

(** One element, and one member, up to what closes it. *)
Lemma parse_element n d x c rest : parses x -> json_literals x = true -> (String.length (json_print x) <= n)%nat ->
  d + json_depth x <= max_depth -> num_end (String c rest) = true -> is_space c = false ->
  parse_elements (S n) d (json_print x ++ String c rest) =
  if byte_val c =? 44 then m ← parse_elements n d rest; Some (json_norm x :: m.1, m.2)
  else if byte_val c =? 93 then Some ([json_norm x], rest) else None.
Proof.
  intros Hx Hlit Hn Hd He Hc. cbn [parse_elements]. rewrite Hx by done. cbn [mbind option_bind fst snd skip_ws].
  by rewrite Hc.
Qed.

Lemma parse_member n d k x c rest : parses x -> json_literals x = true -> (String.length (json_print x) <= n)%nat ->
  d + json_depth x <= max_depth -> num_end (String c rest) = true -> is_space c = false ->
  parse_members (S n) d (print_member (k, x) ++ String c rest) =
  if byte_val c =? 44 then m ← parse_members n d rest; Some ((to_valid k, json_norm x) :: m.1, m.2)
  else if byte_val c =? 125 then Some ([(to_valid k, json_norm x)], rest) else None.
Proof.
  intros Hx Hlit Hn Hd He Hc. unfold print_member, json_quote. cbn [fst snd]. rewrite <- !app_assoc_s.
  cbn [String.append parse_members skip_ws]. change (is_space dquote) with false. cbn iota.
  change (negb (byte_val dquote =? 34)) with false. cbn iota.
  rewrite <- app_assoc_s. cbn [String.append]. rewrite unquote_quote.
  cbn [mbind option_bind fst snd skip_ws]. change (is_space ":") with false. cbn iota.
  change (negb (byte_val ":" =? 58)) with false. cbn iota. rewrite Hx by done. cbn [mbind option_bind fst snd skip_ws].
  by rewrite Hc.
Qed.

Lemma print_nonempty v : json_literals v = true -> (0 < String.length (json_print v))%nat.
Proof. intros (c & t & -> & _)%print_head. cbn. lia. Qed.

Lemma parse_print_elements x l : Forall parses (x :: l) -> forall n d rest,
  forallb json_literals (x :: l) = true -> (S (String.length (String.concat "," (map json_print (x :: l)))) <= n)%nat ->
  d + foldr (fun x a => Z.max (json_depth x) a) 0 (x :: l) <= max_depth ->
  parse_elements n d (closed_by "]" (map json_print (x :: l)) rest) = Some (map json_norm (x :: l), rest).
Proof.
  revert x. induction l as [|y l IH]; intros x [Hx Hl]%Forall_cons_1 [|n] d rest [Hlx Hll]%andb_true_iff Hn Hd; try lia.
  - cbn [map String.concat foldr] in *. rewrite closed_by_cons. by rewrite parse_element by (done || lia).
  - rewrite !map_cons, concat_step, !length_app_s in Hn. cbn [String.length] in Hn.
    pose proof (print_nonempty x Hlx) as Hpos. rewrite map_cons, closed_by_cons. cbn [map].
    change (foldr _ 0 (x :: y :: l)) with (Z.max (json_depth x) (foldr (fun x a => Z.max (json_depth x) a) 0 (y :: l))) in Hd.
    rewrite parse_element by (done || lia). cbn iota.
    change (json_print y :: map json_print l) with (map json_print (y :: l)).
    rewrite (IH y Hl n d rest Hll) by (rewrite ?map_cons; lia). reflexivity.
Qed.

Lemma parse_print_members kv l : Forall (fun kv => parses kv.2) (kv :: l) -> forall n d rest,
  forallb (fun kv => json_literals kv.2) (kv :: l) = true ->
  (S (String.length (String.concat "," (map print_member (kv :: l)))) <= n)%nat ->
  d + foldr (fun kv a => Z.max (json_depth kv.2) a) 0 (kv :: l) <= max_depth ->
  parse_members n d (closed_by "}" (map print_member (kv :: l)) rest) =
  Some (map (fun kv => (to_valid kv.1, json_norm kv.2)) (kv :: l), rest).
Proof.
  assert (Hlen : forall k x, (String.length (json_print x) < String.length (print_member (k, x)))%nat).
  { intros k x. unfold print_member. rewrite !length_app_s. cbn. lia. }
  revert kv. induction l as [|y l IH]; intros [k x] [Hx Hl]%Forall_cons_1 [|n] d rest [Hlx Hll]%andb_true_iff Hn Hd;
    try lia; cbn [fst snd] in *; specialize (Hlen k x).
  - cbn [map String.concat foldr fst snd] in *. rewrite closed_by_cons. by rewrite parse_member by (done || lia).
  - rewrite !map_cons, concat_step, !length_app_s in Hn. cbn [String.length] in Hn.
    rewrite map_cons, closed_by_cons. cbn [map].
    change (foldr _ 0 ((k, x) :: y :: l)) with (Z.max (json_depth x) (foldr (fun kv a => Z.max (json_depth kv.2) a) 0 (y :: l))) in Hd.
    rewrite parse_member by (done || lia). cbn iota.
    change (print_member y :: map print_member l) with (map print_member (y :: l)).
    rewrite (IH y Hl n d rest Hll) by (rewrite ?map_cons; lia). reflexivity.
Qed.

Lemma depth_room {A} (f : A -> Z -> Z) d l : d + (1 + foldr (fun x a => f x a) 0 l) <= max_depth ->
  (forall x a, a <= f x a) -> (max_depth <=? d) = false /\ d + 1 + foldr (fun x a => f x a) 0 l <= max_depth.
Proof.
  intros Hd Hf. assert (0 <= foldr (fun x a => f x a) 0 l) by (clear Hd; induction l as [|x l]; cbn; [lia|]; specialize (Hf x (foldr (fun x a => f x a) 0 l)); lia).
  split; [apply Z.leb_gt|]; lia.
Qed.

Lemma parse_print_value v : parses v.
Proof.
  induction v as [|b|lit|s|l IH|l IH] using json_ind; intros [|n] d rest Hlit Hn Hd He;
    try (pose proof (print_nonempty _ Hlit); lia).
  - reflexivity.
  - by destruct b.
  - destruct (literal_head lit Hlit) as (c & t & Hl & Hc). destruct (number_head c Hc) as (Hs & _ & H1 & H2 & H3).
    cbn [json_print parse_value]. rewrite (skip_ws_head _ c (t ++ rest)%string) by (by rewrite ?Hl).
    rewrite Hl at 1. cbn [String.append]. rewrite H1, H2, H3, Hc.
    change (String c (t ++ rest)) with (String c t ++ rest)%string. rewrite <- Hl, scan_literal by done. reflexivity.
  - cbn [json_print parse_value]. unfold json_quote. cbn [String.append skip_ws].
    change (is_space dquote) with false. cbn iota. rewrite <- app_assoc_s. cbn [String.append].
    rewrite unquote_quote. reflexivity.
  - cbn [json_print json_literals json_depth json_norm] in *. destruct (depth_room _ d l Hd) as [Hroom Hd']; [lia|].
    rewrite <- app_assoc_s. cbn [String.append parse_value skip_ws]. change (is_space "[") with false. cbn iota.
    change (byte_val "[" =? 123) with false. change (byte_val "[" =? 91) with true. cbn iota. rewrite Hroom.
    destruct l as [|x l]; [reflexivity|]. rewrite <- app_assoc_s. cbn [String.append].
    change (String.concat "," (map json_print (x :: l)) ++ String "]" rest)%string with (closed_by "]" (map json_print (x :: l)) rest).
    pose proof Hlit as [Hx _]%andb_true_iff. destruct (print_head x Hx) as (c & t & Hc & Hs & Hb).
    rewrite map_cons at 1. rewrite closed_by_cons, Hc. cbn [String.append skip_ws]. rewrite Hs, Hb.
    rewrite parse_print_elements; [done | done | done | | done].
    rewrite !length_app_s in Hn. cbn [String.length] in Hn. lia.
  - cbn [json_print json_literals json_depth json_norm] in *. destruct (depth_room _ d l Hd) as [Hroom Hd']; [lia|].
    change (map _ l) with (map print_member l) in Hn |- * at 1.
    rewrite <- app_assoc_s. cbn [String.append parse_value skip_ws]. change (is_space "{") with false. cbn iota.
    change (byte_val "{" =? 123) with true. cbn iota. rewrite Hroom.
    destruct l as [|kv l]; [reflexivity|]. rewrite <- app_assoc_s. cbn [String.append].
    change (String.concat "," (map print_member (kv :: l)) ++ String "}" rest)%string with (closed_by "}" (map print_member (kv :: l)) rest).
    rewrite map_cons at 1. rewrite closed_by_cons. unfold print_member at 1. unfold json_quote. cbn [String.append skip_ws].
    change (is_space dquote) with false. cbn iota. change (byte_val dquote =? 125) with false. cbn iota.
    rewrite parse_print_members; [done | done | done | | done].
    rewrite !length_app_s in Hn. cbn [String.length] in Hn. lia.
Qed.

(** [Unmarshal(Marshal(v))] *)
Theorem json_parse_print v : json_literals v = true -> json_depth v <= max_depth -> json_parse (json_print v) = Some (json_norm v).
Proof.
  intros Hlit Hd. unfold json_parse. rewrite <- (app_nil_s (json_print v)) at 2.
  rewrite parse_print_value; [done | done | unfold parse_fuel; lia | done | done].
Qed.
