(* ===== verification/CacheInterface.v ===== *)
(** * What the partition registry needs of a cache

    [internal/catalog] uses [internal/cache] through [Get], [Put] and
    [InvalidateIf].  [CacheLaws] is the contract its correctness rests on: a
    cache may forget any entry at any time, but it never invents one, never
    returns an overwritten value and never keeps an invalidated key.  The
    file [LRU] discharges it; the file [Coherence] uses nothing else. *)
From S2P Require Import Prelude.

(** The operations; [holds c k v] reads: [c] would answer [v] for [k]. *)
Class CacheOps (C K V : Type) := {
  cache_get : K -> C -> option V * C;
  cache_put : K -> V -> C -> C;
  cache_invalidate_if : (K -> bool) -> C -> Z * C;
  cache_holds : C -> K -> V -> Prop;
  cache_ok : C -> Prop;
}.

Class CacheLaws (C K V : Type) `{CacheOps C K V} : Prop := {
  cache_get_ok c k : cache_ok c -> cache_ok (cache_get k c).2;
  cache_put_ok c k v : cache_ok c -> cache_ok (cache_put k v c);
  cache_invalidate_if_ok c p : cache_ok c -> cache_ok (cache_invalidate_if p c).2;
  cache_get_sound c k v : cache_ok c -> (cache_get k c).1 = Some v -> cache_holds c k v;
  cache_get_holds c k k' v :
    cache_ok c -> cache_holds (cache_get k c).2 k' v -> cache_holds c k' v;
  cache_put_holds c k v k' v' :
    cache_ok c -> cache_holds (cache_put k v c) k' v' ->
    (k' = k /\ v' = v) \/ (k' <> k /\ cache_holds c k' v');
  cache_invalidate_if_holds c p k v :
    cache_ok c -> cache_holds (cache_invalidate_if p c).2 k v ->
    p k = false /\ cache_holds c k v;
}.

(** Every cached value satisfies [P] for its key. *)
Definition all_cached {C K V} `{CacheOps C K V} (P : K -> V -> Prop) (c : C) : Prop :=
  cache_ok c /\ forall k v, cache_holds c k v -> P k v.

Section all_cached.
Context {C K V : Type} `{CacheLaws C K V}.
Implicit Types (P : K -> V -> Prop) (c : C).

Lemma all_cached_get P c k : all_cached P c -> all_cached P (cache_get k c).2.
Proof. intros [Hok HP]. split; [by apply cache_get_ok | eauto using cache_get_holds]. Qed.

Lemma all_cached_hit P c k v : all_cached P c -> (cache_get k c).1 = Some v -> P k v.
Proof. intros [Hok HP] Hg. eauto using cache_get_sound. Qed.

Lemma all_cached_put P c k v : all_cached P c -> P k v -> all_cached P (cache_put k v c).
Proof.
  intros [Hok HP] Hv. split; [by apply cache_put_ok|]. intros k' v' Hh.
  apply cache_put_holds in Hh as [[-> ->]|[_ Hh]]; eauto.
Qed.

(** Invalidating the keys of [p] lets the property change on them. *)
Lemma all_cached_invalidate_if P P' c p :
  all_cached P c -> (forall k v, p k = false -> P k v -> P' k v) ->
  all_cached P' (cache_invalidate_if p c).2.
Proof.
  intros [Hok HP] Himp. split; [by apply cache_invalidate_if_ok|]. intros k v Hh.
  apply cache_invalidate_if_holds in Hh as [Hp Hh]; eauto.
Qed.

Lemma all_cached_mono P P' c :
  all_cached P c -> (forall k v, P k v -> P' k v) -> all_cached P' c.
Proof. intros [Hok HP] Himp. split; eauto. Qed.

End all_cached.
