(* ===== verification/LRU.v ===== *)
(** * The LRU cache (internal/cache/lru.go)

    [LRU] keeps Go's representation: [items] maps a key to an element
    pointer, [order] is the [container/list] (front first) of element
    pointers and [values] the [Value] field every allocated element has.
    Every method runs under the cache's mutex, so a method is one function of
    the state.  The specification is a recency-ordered association list; the
    methods refine it ([lru_refines]).  A Go map is ranged over in any order:
    [InvalidateIf] takes the order it meets the entries in, and its result
    does not depend on it. *)
From Stdlib Require Import SpecFloat.
From S2P Require Import Prelude CacheInterface.

Section LRU.
Context {K V : Type} `{Countable K}.

(** [type entry[K, V] struct] *)
Record entry := mkEntry { e_key : K; e_value : V }.

(** [type LRU[K, V] struct]; [next] is the allocator of element pointers. *)
Record LRU := mkLRU {
  capacity : Z;
  items : gmap K nat;
  order : list nat;
  values : gmap nat entry;
  next : nat;
  hits : Z;
  misses : Z;
  evictions : Z;
}.

(** ** container/list on the element pointers *)

(** [l.Remove(e)] *)
Definition list_remove (e : nat) (l : list nat) : list nat :=
  List.filter (fun e' => negb (Nat.eqb e' e)) l.

(** [l.MoveToFront(e)]: nothing happens when [e] is not an element of [l]. *)
Definition list_move_to_front (e : nat) (l : list nat) : list nat :=
  if decide (e ∈ l) then e :: list_remove e l else l.

(** [l.Back()] *)
Definition list_back (l : list nat) : option nat := last l.

(** ** The methods *)

Definition NewLRU (cap : Z) : LRU :=
  {| capacity := if cap <=? 0 then 1 else cap;
     items := ∅; order := []; values := ∅; next := 0;
     hits := 0; misses := 0; evictions := 0 |}.

Definition Get (key : K) (l : LRU) : option V * LRU :=
  match items l !! key with
  | Some elem =>
      (e_value <$> values l !! elem,
       {| capacity := capacity l; items := items l;
          order := list_move_to_front elem (order l);
          values := values l; next := next l;
          hits := uint64 (hits l + 1); misses := misses l; evictions := evictions l |})
  | None =>
      (None,
       {| capacity := capacity l; items := items l; order := order l;
          values := values l; next := next l;
          hits := hits l; misses := uint64 (misses l + 1); evictions := evictions l |})
  end.

(** The eviction of [Put]: the back element goes when the list is full. *)
Definition evict (l : LRU) : LRU :=
  if capacity l <=? Z.of_nat (length (order l)) then
    match list_back (order l) with
    | Some lastp =>
        {| capacity := capacity l;
           items := match values l !! lastp with
                    | Some ent => delete (e_key ent) (items l)
                    | None => items l
                    end;
           order := list_remove lastp (order l);
           values := values l; next := next l;
           hits := hits l; misses := misses l; evictions := uint64 (evictions l + 1) |}
    | None => l
    end
  else l.

Definition Put (key : K) (value : V) (l : LRU) : LRU :=
  match items l !! key with
  | Some elem =>
      {| capacity := capacity l; items := items l;
         order := list_move_to_front elem (order l);
         values := <[elem := mkEntry key value]> (values l); next := next l;
         hits := hits l; misses := misses l; evictions := evictions l |}
  | None =>
      let l := evict l in
      let elem := next l in
      {| capacity := capacity l; items := <[key := elem]> (items l);
         order := elem :: order l;
         values := <[elem := mkEntry key value]> (values l); next := S elem;
         hits := hits l; misses := misses l; evictions := evictions l |}
  end.

(** [delete(l.items, key); l.list.Remove(elem)] *)
Definition drop_elem (key : K) (elem : nat) (l : LRU) : LRU :=
  {| capacity := capacity l; items := delete key (items l);
     order := list_remove elem (order l);
     values := values l; next := next l;
     hits := hits l; misses := misses l; evictions := evictions l |}.

Definition Invalidate (key : K) (l : LRU) : LRU :=
  match items l !! key with
  | Some elem => drop_elem key elem l
  | None => l
  end.

(** The body of [InvalidateIf] over the entries in the order the range
    statement yields them. *)
Fixpoint invalidate_range (pred : K -> bool) (es : list (K * nat)) (removed : Z) (l : LRU) : Z * LRU :=
  match es with
  | [] => (removed, l)
  | (key, elem) :: es' =>
      if pred key then invalidate_range pred es' (removed + 1) (drop_elem key elem l)
      else invalidate_range pred es' removed l
  end.

Definition InvalidateIf (pred : K -> bool) (l : LRU) : Z * LRU :=
  invalidate_range pred (map_to_list (items l)) 0 l.

Definition Clear (l : LRU) : LRU :=
  {| capacity := capacity l; items := ∅; order := [];
     values := values l; next := next l;
     hits := hits l; misses := misses l; evictions := evictions l |}.

Definition Size (l : LRU) : Z := Z.of_nat (size (items l)).

(** [float64(n)] for an unsigned integer and IEEE double division. *)
Definition float64 (n : Z) : spec_float := binary_normalize 53 1024 n 0 false.

Definition HitRate (l : LRU) : spec_float :=
  let h := hits l in
  let m := misses l in
  let total := uint64 (h + m) in
  if total =? 0 then S754_zero false
  else SFdiv 53 1024 (float64 h) (float64 total).

Definition Capacity (l : LRU) : Z := capacity l.

Definition Hits (l : LRU) : Z := hits l.

Definition Misses (l : LRU) : Z := misses l.

Definition Evictions (l : LRU) : Z := evictions l.

(** ** The specification: entries, most recently used first *)

Definition spec_find (key : K) (l : list entry) : option entry :=
  List.find (fun e => bool_decide (e_key e = key)) l.

Definition spec_delete (key : K) (l : list entry) : list entry :=
  List.filter (fun e => negb (bool_decide (e_key e = key))) l.

Inductive op := OpGet (k : K) | OpPut (k : K) (v : V) | OpInvalidate (k : K)
  | OpInvalidateIf (p : K -> bool) | OpClear | OpSize.

Inductive out := OutValue (v : option V) | OutNone | OutCount (n : Z) | OutRate (r : spec_float).

Definition spec_op (cap : Z) (o : op) (l : list entry) : out * list entry :=
  match o with
  | OpGet k =>
      match spec_find k l with
      | Some e => (OutValue (Some (e_value e)), e :: spec_delete k l)
      | None => (OutValue None, l)
      end
  | OpPut k v =>
      match spec_find k l with
      | Some _ => (OutNone, mkEntry k v :: spec_delete k l)
      | None => (OutNone, mkEntry k v ::
                   (if cap <=? Z.of_nat (length l) then removelast l else l))
      end
  | OpInvalidate k => (OutNone, spec_delete k l)
  | OpInvalidateIf p =>
      (OutCount (Z.of_nat (length (List.filter (fun e => p (e_key e)) l))),
       List.filter (fun e => negb (p (e_key e))) l)
  | OpClear => (OutNone, [])
  | OpSize => (OutCount (Z.of_nat (length l)), l)
  end.

Definition lru_op (o : op) (l : LRU) : out * LRU :=
  match o with
  | OpGet k => let (v, l') := Get k l in (OutValue v, l')
  | OpPut k v => (OutNone, Put k v l)
  | OpInvalidate k => (OutNone, Invalidate k l)
  | OpInvalidateIf p => let (n, l') := InvalidateIf p l in (OutCount n, l')
  | OpClear => (OutNone, Clear l)
  | OpSize => (OutCount (Size l), l)
  end.

(** The counters beside the entries, and the calls that read them. *)
Record counters := mkCounters {
  n_hits : Z;
  n_misses : Z;
  n_evictions : Z;
}.

Definition counted (cap : Z) (o : op) (l : list entry) (n : counters) : counters :=
  match o with
  | OpGet k =>
      match spec_find k l with
      | Some _ => mkCounters (uint64 (n_hits n + 1)) (n_misses n) (n_evictions n)
      | None => mkCounters (n_hits n) (uint64 (n_misses n + 1)) (n_evictions n)
      end
  | OpPut k _ =>
      match spec_find k l with
      | Some _ => n
      | None => if cap <=? Z.of_nat (length l)
                then mkCounters (n_hits n) (n_misses n) (uint64 (n_evictions n + 1)) else n
      end
  | _ => n
  end.

Inductive call := Operation (o : op) | CallCapacity | CallHits | CallMisses | CallEvictions | CallHitRate.

Definition spec_call (cap : Z) (c : call) (s : list entry * counters) : out * (list entry * counters) :=
  let (l, n) := s in
  match c with
  | Operation o => let (r, l') := spec_op cap o l in (r, (l', counted cap o l n))
  | CallCapacity => (OutCount cap, s)
  | CallHits => (OutCount (n_hits n), s)
  | CallMisses => (OutCount (n_misses n), s)
  | CallEvictions => (OutCount (n_evictions n), s)
  | CallHitRate =>
      let total := uint64 (n_hits n + n_misses n) in
      (OutRate (if total =? 0 then S754_zero false else SFdiv 53 1024 (float64 (n_hits n)) (float64 total)), s)
  end.

Definition lru_call (c : call) (l : LRU) : out * LRU :=
  match c with
  | Operation o => lru_op o l
  | CallCapacity => (OutCount (Capacity l), l)
  | CallHits => (OutCount (Hits l), l)
  | CallMisses => (OutCount (Misses l), l)
  | CallEvictions => (OutCount (Evictions l), l)
  | CallHitRate => (OutRate (HitRate l), l)
  end.

(** The counters of a state. *)
Definition counters_of (l : LRU) : counters := mkCounters (hits l) (misses l) (evictions l).

(** A client's sequence of calls, with the outputs. *)
Fixpoint run_ops {Op St : Type} (f : Op -> St -> out * St) (os : list Op) (s : St) : list out * St :=
  match os with
  | [] => ([], s)
  | o :: os' => let (r, s') := f o s in
                let (rs, s'') := run_ops f os' s' in (r :: rs, s'')
  end.

(** The entries a state stands for. *)
Definition entries (l : LRU) : list entry := omap (fun e => values l !! e) (order l).

(** The capacity [NewLRU] settles on. *)
Definition normal_capacity (cap : Z) : Z := if cap <=? 0 then 1 else cap.

(** [elem.Value = entry{key, value}] in place *)
Definition set_value (p : nat) (k : K) (v : V) (l : LRU) : LRU :=
  {| capacity := capacity l; items := items l; order := order l;
     values := <[p:=mkEntry k v]> (values l); next := next l;
     hits := hits l; misses := misses l; evictions := evictions l |}.

(** Which entries the loop over [es] leaves. *)
Definition survives (pred : K -> bool) (ks : list K) (k : K) : bool :=
  negb (pred k && bool_decide (k ∈ ks)).

(** Pointers and maps agree. *)
Record lru_wf (l : LRU) : Prop := {
  wf_capacity : 1 <= capacity l;
  wf_length : Z.of_nat (length (order l)) <= capacity l;
  wf_nodup : NoDup (order l);
  wf_order : forall p, p ∈ order l -> exists e, values l !! p = Some e /\ items l !! e_key e = Some p;
  wf_items : forall k p, items l !! k = Some p -> p ∈ order l /\ exists v, values l !! p = Some (mkEntry k v);
  wf_next : forall p, is_Some (values l !! p) -> (p < next l)%nat;
}.

End LRU.

Arguments entry : clear implicits.
Arguments LRU K V {_ _}.
Arguments op : clear implicits.
Arguments call : clear implicits.
Arguments out : clear implicits.
#[global] Arguments spec_delete : simpl never.
#[global] Arguments spec_find : simpl never.
#[global] Arguments list_remove : simpl never.

Section lru_lemmas.
Context {K V : Type} `{Countable K}.
Implicit Types (l : LRU K V) (p q : nat) (k : K) (v : V) (ent : entry K V).

(** ** container/list *)

Lemma elem_of_list_remove p q (o : list nat) : p ∈ list_remove q o <-> p ∈ o /\ p <> q.
Proof.
  unfold list_remove. rewrite !list_elem_of_In, filter_In, negb_true_iff, Nat.eqb_neq. done.
Qed.

Lemma list_remove_cons q p (o : list nat) :
  list_remove q (p :: o) = if decide (p = q) then list_remove q o else p :: list_remove q o.
Proof.
  unfold list_remove. simpl. destruct (Nat.eqb_spec p q); case_decide; done.
Qed.

Lemma spec_delete_cons k ent (es : list (entry K V)) :
  spec_delete k (ent :: es) =
  if decide (e_key ent = k) then spec_delete k es else ent :: spec_delete k es.
Proof. unfold spec_delete. simpl. by case_decide; case_bool_decide. Qed.

Lemma NoDup_list_remove q (o : list nat) : NoDup o -> NoDup (list_remove q o).
Proof. rewrite !NoDup_ListNoDup. apply List.NoDup_filter. Qed.

Lemma list_remove_absent q (o : list nat) : q ∉ o -> list_remove q o = o.
Proof.
  induction o as [|p o IH]; [done|]. intros [Hp Ho]%not_elem_of_cons.
  rewrite list_remove_cons, decide_False by congruence. f_equal. auto.
Qed.

Lemma length_list_remove q (o : list nat) :
  NoDup o -> q ∈ o -> S (length (list_remove q o)) = length o.
Proof.
  induction o as [|p o IH]; [by intros _ ?%elem_of_nil|].
  intros [Hp Ho]%NoDup_cons Hq. rewrite list_remove_cons. simpl. case_decide as Hpq; simpl.
  - subst. by rewrite list_remove_absent.
  - f_equal. apply IH; [done|]. apply elem_of_cons in Hq as [->|]; done.
Qed.

Lemma list_remove_back (o : list nat) q : NoDup (o ++ [q]) -> list_remove q (o ++ [q]) = o.
Proof.
  intros [_ [Hq _]]%NoDup_app. unfold list_remove. rewrite List.filter_app. simpl.
  rewrite Nat.eqb_refl. simpl. rewrite app_nil_r. apply list_remove_absent.
  intros Hin. apply (Hq q Hin). by apply list_elem_of_singleton.
Qed.

Lemma elem_of_move_to_front p q (o : list nat) : p ∈ list_move_to_front q o <-> p ∈ o.
Proof.
  unfold list_move_to_front. case_decide as Hq; [|done].
  rewrite elem_of_cons, elem_of_list_remove.
  destruct (decide (p = q)) as [->|]; tauto.
Qed.

Lemma NoDup_move_to_front q (o : list nat) : NoDup o -> NoDup (list_move_to_front q o).
Proof.
  intros Ho. unfold list_move_to_front. case_decide; [|done].
  apply NoDup_cons. rewrite elem_of_list_remove. split; [tauto|].
  by apply NoDup_list_remove.
Qed.

Lemma length_move_to_front q (o : list nat) :
  NoDup o -> length (list_move_to_front q o) = length o.
Proof.
  intros Ho. unfold list_move_to_front. case_decide; [|done]. simpl. by apply length_list_remove.
Qed.

(** ** Pointers and keys *)

(** In a well-formed cache an element has key [k] exactly when [items] sends
    [k] to it. *)
Lemma wf_key_pointer l p ent k :
  lru_wf l -> p ∈ order l -> values l !! p = Some ent -> e_key ent = k <-> items l !! k = Some p.
Proof.
  intros Hwf Hp He. destruct (wf_order l Hwf p Hp) as (ent' & He1 & Hi). simplify_eq.
  split; [by intros <-|]. intros Hk.
  destruct (wf_items l Hwf k p Hk) as (_ & v & Hv). by simplify_eq.
Qed.

Lemma omap_values_cons (m : gmap nat (entry K V)) p ent (o : list nat) :
  m !! p = Some ent -> omap (fun e => m !! e) (p :: o) = ent :: omap (fun e => m !! e) o.
Proof. intros He. simpl. by rewrite He. Qed.

Lemma entries_sub_delete l k p (o : list nat) :
  lru_wf l -> items l !! k = Some p -> (forall q, q ∈ o -> q ∈ order l) ->
  omap (fun e => values l !! e) (list_remove p o) =
  spec_delete k (omap (fun e => values l !! e) o).
Proof.
  intros Hwf Hk. induction o as [|q o IH]; intros Ho; [done|].
  assert (Hq : q ∈ order l) by (apply Ho; set_solver).
  assert (IH' := IH (fun r Hr => Ho r (list_elem_of_further _ _ _ Hr))).
  destruct (wf_order l Hwf q Hq) as (ent & He & _).
  pose proof (wf_key_pointer l q ent k Hwf Hq He) as Hiff.
  rewrite list_remove_cons. rewrite (omap_values_cons _ _ _ o He), spec_delete_cons, <- IH'.
  destruct (decide (q = p)) as [->|Hne].
  - by rewrite decide_True by (by apply Hiff).
  - by rewrite decide_False by (rewrite Hiff; congruence); rewrite (omap_values_cons _ _ _ _ He).
Qed.

Lemma entries_delete l k p :
  lru_wf l -> items l !! k = Some p ->
  omap (fun e => values l !! e) (list_remove p (order l)) = spec_delete k (entries l).
Proof. intros. by apply entries_sub_delete. Qed.

Lemma elem_of_entries l ent :
  lru_wf l -> ent ∈ entries l <-> exists p, items l !! e_key ent = Some p /\ values l !! p = Some ent.
Proof.
  intros Hwf. unfold entries. rewrite list_elem_of_omap. split.
  - intros (p & Hp & Hv). destruct (wf_order l Hwf p Hp) as (ent' & He1 & Hi). naive_solver.
  - intros (p & Hi & Hv). destruct (wf_items l Hwf _ _ Hi) as (Hp & _). eauto.
Qed.

Lemma spec_find_hit l k p ent :
  lru_wf l -> items l !! k = Some p -> values l !! p = Some ent -> spec_find k (entries l) = Some ent.
Proof.
  intros Hwf Hk He. unfold spec_find.
  destruct (List.find _ (entries l)) as [ent'|] eqn:E.
  - apply List.find_some in E as [Hin Hb%bool_decide_eq_true].
    apply list_elem_of_In, elem_of_entries in Hin as (q & Hq & Hv); [|done].
    by simplify_eq.
  - destruct (wf_items l Hwf _ _ Hk) as (_ & v & Hv). simplify_eq.
    exfalso. assert (Hin : mkEntry k v ∈ entries l) by (apply elem_of_entries; eauto).
    apply list_elem_of_In in Hin. pose proof (List.find_none _ _ E _ Hin) as Hf.
    simpl in Hf. by rewrite bool_decide_eq_true_2 in Hf.
Qed.

Lemma entries_no_key l k ent :
  lru_wf l -> items l !! k = None -> ent ∈ entries l -> e_key ent <> k.
Proof. intros Hwf Hk (p & Hi & _)%elem_of_entries; [congruence | done]. Qed.

Lemma spec_find_miss l k : lru_wf l -> items l !! k = None -> spec_find k (entries l) = None.
Proof.
  intros Hwf Hk. unfold spec_find.
  destruct (List.find _ (entries l)) as [ent'|] eqn:E; [|done].
  apply List.find_some in E as [Hin Hb%bool_decide_eq_true]. apply list_elem_of_In in Hin.
  exfalso. by apply (entries_no_key l k ent').
Qed.

Lemma spec_delete_absent l k : lru_wf l -> items l !! k = None -> spec_delete k (entries l) = entries l.
Proof.
  intros Hwf Hk.
  assert (Hall : forall ent, ent ∈ entries l -> e_key ent <> k) by (intros; by eapply entries_no_key).
  induction (entries l) as [|ent es IH]; [done|].
  rewrite spec_delete_cons, decide_False by (apply Hall; set_solver). f_equal.
  apply IH. intros. apply Hall. set_solver.
Qed.

Lemma length_entries l : lru_wf l -> length (entries l) = length (order l).
Proof.
  intros Hwf. unfold entries.
  assert (Hall : forall p, p ∈ order l -> is_Some (values l !! p)).
  { intros p Hp. destruct (wf_order l Hwf p Hp) as (ent & He & _). by exists ent. }
  induction (order l) as [|p o IH]; [done|]. simpl.
  destruct (Hall p) as [ent ->]; [set_solver|]. simpl. f_equal. apply IH.
  intros. apply Hall. by apply list_elem_of_further.
Qed.

(** The map has as many keys as the list has elements. *)
Lemma size_items l : lru_wf l -> size (items l) = length (order l).
Proof.
  intros Hwf. rewrite <- length_map_to_list, <- (length_fmap snd).
  apply Permutation_length. apply NoDup_Permutation.
  - apply NoDup_fmap_2_strong; [|apply NoDup_map_to_list].
    intros [k1 p1] [k2 p2] H1%elem_of_map_to_list H2%elem_of_map_to_list. simpl. intros ->.
    destruct (wf_items l Hwf _ _ H1) as (_ & v1 & Hv1).
    destruct (wf_items l Hwf _ _ H2) as (_ & v2 & Hv2). by simplify_eq.
  - apply (wf_nodup l Hwf).
  - intros p. rewrite list_elem_of_fmap. split.
    + intros ([k q] & -> & Hin%elem_of_map_to_list). by destruct (wf_items l Hwf _ _ Hin).
    + intros Hp. destruct (wf_order l Hwf p Hp) as (ent & _ & Hi).
      exists (e_key ent, p). by rewrite elem_of_map_to_list.
Qed.

(** ** Each method keeps the representation and refines its specification *)

Lemma NewLRU_wf (cap : Z) : lru_wf (NewLRU cap : LRU K V).
Proof.
  split; simpl; try (destruct (cap <=? 0) eqn:?; lia).
  - constructor.
  - by intros p ?%elem_of_nil.
  - by intros k p; rewrite lookup_empty.
  - by intros p [? Hp]; rewrite lookup_empty in Hp.
Qed.

Lemma move_to_front_wf l l' p :
  lru_wf l -> capacity l' = capacity l -> items l' = items l -> values l' = values l ->
  next l' = next l -> order l' = list_move_to_front p (order l) -> lru_wf l'.
Proof.
  intros Hwf Hc Hi Hv Hn Ho. split; rewrite ?Hc, ?Hi, ?Hv, ?Hn, ?Ho.
  - apply (wf_capacity l Hwf).
  - rewrite length_move_to_front by apply (wf_nodup l Hwf). apply (wf_length l Hwf).
  - apply NoDup_move_to_front, (wf_nodup l Hwf).
  - intros q Hq%elem_of_move_to_front. by apply (wf_order l Hwf).
  - intros k q Hk. rewrite elem_of_move_to_front. by apply (wf_items l Hwf).
  - apply (wf_next l Hwf).
Qed.

Lemma entries_move_to_front l k p ent :
  lru_wf l -> items l !! k = Some p -> values l !! p = Some ent ->
  omap (fun e => values l !! e) (list_move_to_front p (order l)) = ent :: spec_delete k (entries l).
Proof.
  intros Hwf Hk He. destruct (wf_items l Hwf k p Hk) as [Hp _].
  unfold list_move_to_front. rewrite decide_True by done.
  by rewrite (omap_values_cons _ _ _ _ He), (entries_delete l k p).
Qed.

Lemma Get_refines l k :
  lru_wf l ->
  lru_wf (Get k l).2 /\
  spec_op (capacity l) (OpGet k) (entries l) = (OutValue (Get k l).1, entries (Get k l).2).
Proof.
  intros Hwf. unfold Get. simpl. destruct (items l !! k) as [p|] eqn:Hk; simpl.
  - destruct (wf_items l Hwf k p Hk) as (Hp & v & He). split.
    + eapply (move_to_front_wf l); done.
    + rewrite (spec_find_hit l k p _ Hwf Hk He), He. simpl. do 2 f_equal.
      symmetry. exact (entries_move_to_front l k p _ Hwf Hk He).
  - rewrite spec_find_miss by done. split; [|done]. by destruct Hwf; split.
Qed.

Lemma drop_elem_refines l k p :
  lru_wf l -> items l !! k = Some p ->
  lru_wf (drop_elem k p l) /\ entries (drop_elem k p l) = spec_delete k (entries l).
Proof.
  intros Hwf Hk. destruct (wf_items l Hwf k p Hk) as (Hp & v & He).
  split; [|exact (entries_delete l k p Hwf Hk)].
  split; simpl.
  - apply (wf_capacity l Hwf).
  - pose proof (length_list_remove p (order l) (wf_nodup l Hwf) Hp).
    pose proof (wf_length l Hwf). lia.
  - apply NoDup_list_remove, (wf_nodup l Hwf).
  - intros q [Hq Hne]%elem_of_list_remove.
    destruct (wf_order l Hwf q Hq) as (ent & Hv & Hi). exists ent. split; [done|].
    rewrite lookup_delete_ne; [done|]. congruence.
  - intros k' q [Hne Hq]%lookup_delete_Some.
    destruct (wf_items l Hwf k' q Hq) as (Hqo & v' & Hv'). split; [|by exists v'].
    apply elem_of_list_remove. split; [done|]. congruence.
  - apply (wf_next l Hwf).
Qed.

Lemma Invalidate_refines l k :
  lru_wf l -> lru_wf (Invalidate k l) /\ entries (Invalidate k l) = spec_delete k (entries l).
Proof.
  intros Hwf. unfold Invalidate. destruct (items l !! k) as [p|] eqn:Hk.
  - by apply drop_elem_refines.
  - split; [done|]. by rewrite spec_delete_absent.
Qed.

Lemma Clear_refines l : lru_wf l -> lru_wf (Clear l) /\ entries (Clear l) = [].
Proof.
  intros Hwf. split; [|done]. split; simpl.
  - apply (wf_capacity l Hwf).
  - pose proof (wf_capacity l Hwf). lia.
  - constructor.
  - by intros p ?%elem_of_nil.
  - intros k p. by rewrite lookup_empty.
  - apply (wf_next l Hwf).
Qed.

(** A full, non-empty list loses its back element. *)
Lemma evict_refines l :
  lru_wf l ->
  lru_wf (evict l) /\ capacity (evict l) = capacity l /\ next (evict l) = next l /\
  Z.of_nat (length (order (evict l))) < capacity l /\
  (forall k, items l !! k = None -> items (evict l) !! k = None) /\
  entries (evict l) =
    (if capacity l <=? Z.of_nat (length (entries l)) then removelast (entries l) else entries l).
Proof.
  intros Hwf. unfold evict. rewrite length_entries by done.
  destruct (capacity l <=? Z.of_nat (length (order l))) eqn:Hfull; [|apply Z.leb_gt in Hfull; split_and!; done].
  pose proof (wf_capacity l Hwf) as Hcap. unfold list_back.
  destruct (order l) as [|p0 o0] eqn:Ho; [apply Z.leb_le in Hfull; cbn in Hfull; lia|].
  destruct (exists_last (l := p0 :: o0)) as (o & p & Hop); [done|].
  rewrite Hop, last_snoc. rewrite Hop in Ho, Hfull.
  assert (Hp : p ∈ order l) by (rewrite Ho; set_solver).
  destruct (wf_order l Hwf p Hp) as (ent & He & Hi). rewrite He.
  destruct (drop_elem_refines l (e_key ent) p Hwf Hi) as [Hwf' Hent].
  unfold drop_elem in *. rewrite Ho in Hwf', Hent.
  pose proof (wf_nodup l Hwf) as Hnd. rewrite Ho in Hnd. pose proof (wf_length l Hwf) as Hlen.
  rewrite Ho, length_app in Hlen. simpl in *.
  split; [by destruct Hwf'; split|]. repeat split; try done.
  - rewrite list_remove_back by done. lia.
  - intros k Hk. by rewrite lookup_delete_None; right.
  - unfold entries in *. simpl in *. rewrite list_remove_back by done.
    rewrite Ho, omap_app. simpl. rewrite He. by rewrite removelast_last.
Qed.

Lemma omap_values_ext (m1 m2 : gmap nat (entry K V)) (o : list nat) :
  (forall p, p ∈ o -> m1 !! p = m2 !! p) ->
  omap (fun e => m1 !! e) o = omap (fun e => m2 !! e) o.
Proof.
  induction o as [|p o IH]; [done|]. intros Hm.
  assert (IH' := IH (fun q Hq => Hm q (list_elem_of_further _ _ _ Hq))).
  destruct (m2 !! p) as [ent|] eqn:E.
  - rewrite (omap_values_cons m2 p ent) by done.
    rewrite (omap_values_cons m1 p ent); [congruence|]. rewrite <- E. apply Hm. set_solver.
  - simpl. rewrite E, Hm by set_solver. by rewrite E.
Qed.

Lemma set_value_wf l k v p :
  lru_wf l -> items l !! k = Some p -> lru_wf (set_value p k v l).
Proof.
  intros Hwf Hk. pose proof (wf_items l Hwf k p Hk) as (_ & v0 & He).
  destruct Hwf as [? ? ? Hord Hitm Hnxt]. split; simpl; try done.
  - intros q Hq. destruct (Hord q Hq) as (ent & Hv & Hi). destruct (decide (q = p)) as [->|].
    + rewrite lookup_insert_eq. by exists (mkEntry k v).
    + rewrite lookup_insert_ne by done. eauto.
  - intros k' q Hq. destruct (Hitm k' q Hq) as (Hqo & v' & Hv'). split; [done|].
    destruct (decide (q = p)) as [->|].
    + rewrite lookup_insert_eq. exists v. congruence.
    + rewrite lookup_insert_ne by done. eauto.
  - intros q Hq. destruct (decide (q = p)) as [->|]; [by eauto|].
    rewrite lookup_insert_ne in Hq by done. eauto.
Qed.

Lemma push_refines l k v :
  lru_wf l -> items l !! k = None -> Z.of_nat (length (order l)) < capacity l ->
  let l' := {| capacity := capacity l; items := <[k := next l]> (items l);
               order := next l :: order l; values := <[next l := mkEntry k v]> (values l);
               next := S (next l); hits := hits l; misses := misses l;
               evictions := evictions l |} in
  lru_wf l' /\ entries l' = mkEntry k v :: entries l.
Proof.
  intros Hwf Hk Hlen l'.
  assert (Hfresh : forall q, q ∈ order l -> q <> next l).
  { intros q Hq ->. destruct (wf_order l Hwf _ Hq) as (ent & He & _).
    pose proof (wf_next l Hwf (next l) ltac:(eauto)). lia. }
  split.
  - split; simpl.
    + apply (wf_capacity l Hwf).
    + lia.
    + apply NoDup_cons. split; [intros Hin; by apply (Hfresh _ Hin) | apply (wf_nodup l Hwf)].
    + intros q [->|Hq]%elem_of_cons.
      * exists (mkEntry k v). by rewrite !lookup_insert_eq.
      * destruct (wf_order l Hwf q Hq) as (ent & He & Hi). exists ent.
        rewrite !lookup_insert_ne; [done | congruence | by apply not_eq_sym, Hfresh].
    + intros k' q Hq. destruct (decide (k = k')) as [<-|Hkk].
      * rewrite lookup_insert_eq in Hq. injection Hq as <-. rewrite lookup_insert_eq.
        split; [set_solver | eauto].
      * rewrite lookup_insert_ne in Hq by done.
        destruct (wf_items l Hwf k' q Hq) as (Hqo & v' & Hv'). split; [set_solver|].
        exists v'. rewrite lookup_insert_ne; [done|]. by apply not_eq_sym, Hfresh.
    + intros q Hq. destruct (decide (q = next l)) as [->|Hne]; [lia|].
      rewrite lookup_insert_ne in Hq by done. pose proof (wf_next l Hwf q Hq). lia.
  - unfold entries. simpl. rewrite lookup_insert_eq. f_equal.
    apply (omap_values_ext (<[next l := mkEntry k v]> (values l)) (values l)).
    intros q Hq. rewrite lookup_insert_ne; [done|]. by apply not_eq_sym, Hfresh.
Qed.

Lemma Put_refines l k v :
  lru_wf l ->
  lru_wf (Put k v l) /\ capacity (Put k v l) = capacity l /\
  spec_op (capacity l) (OpPut k v) (entries l) = (OutNone, entries (Put k v l)).
Proof.
  intros Hwf. unfold Put. simpl. destruct (items l !! k) as [p|] eqn:Hk.
  - destruct (wf_items l Hwf k p Hk) as (Hp & v0 & He).
    rewrite (spec_find_hit l k p _ Hwf Hk He).
    pose proof (set_value_wf l k v p Hwf Hk) as Hwf1.
    split; [eapply (move_to_front_wf (set_value p k v l)); done|].
    split; [done|]. f_equal. symmetry.
    assert (Hv1 : values (set_value p k v l) !! p = Some (mkEntry k v)) by apply lookup_insert_eq.
    transitivity (mkEntry k v :: spec_delete k (entries (set_value p k v l)));
      [exact (entries_move_to_front _ k p _ Hwf1 Hk Hv1)|].
    f_equal. rewrite <- (entries_delete _ k p Hwf Hk), <- (entries_delete _ k p Hwf1 Hk).
    apply (omap_values_ext (<[p := mkEntry k v]> (values l)) (values l)).
    intros q [_ Hne]%elem_of_list_remove. by rewrite lookup_insert_ne by done.
  - rewrite spec_find_miss by done.
    destruct (evict_refines l Hwf) as (Hwf' & Hcap & _ & Hlen & Hnone & Hent).
    rewrite <- Hcap in Hlen.
    destruct (push_refines (evict l) k v Hwf' (Hnone k Hk) Hlen) as [Hwf'' Hent''].
    split; [done|]. split; [done|]. simpl. f_equal. rewrite Hent, <- Hcap in Hent''.
    rewrite <- Hcap. symmetry. exact Hent''.
Qed.

(** ** InvalidateIf *)

Lemma drop_elem_other l k p k' :
  k' <> k -> items (drop_elem k p l) !! k' = items l !! k'.
Proof. intros. simpl. by rewrite lookup_delete_ne. Qed.

Lemma survives_cons_hit pred ks k k' :
  pred k = true -> survives pred (k :: ks) k' = negb (bool_decide (k' = k)) && survives pred ks k'.
Proof.
  intros Hk. unfold survives. destruct (decide (k' = k)) as [->|Hne].
  - rewrite Hk, !bool_decide_eq_true_2 by set_solver. done.
  - rewrite (bool_decide_eq_false_2 (k' = k)) by done. simpl. do 2 f_equal.
    apply bool_decide_ext. rewrite elem_of_cons. tauto.
Qed.

Lemma survives_cons_miss pred ks k k' :
  pred k = false -> survives pred (k :: ks) k' = survives pred ks k'.
Proof.
  intros Hk. unfold survives. destruct (decide (k' = k)) as [->|Hne]; [by rewrite Hk|].
  do 2 f_equal. apply bool_decide_ext. rewrite elem_of_cons. tauto.
Qed.

(** The loop over any enumeration of entries still in the map. *)
Lemma invalidate_range_refines (pred : K -> bool) es removed l :
  lru_wf l -> NoDup es.*1 -> (forall k p, (k, p) ∈ es -> items l !! k = Some p) ->
  let r := invalidate_range pred es removed l in
  lru_wf r.2 /\ capacity r.2 = capacity l /\
  entries r.2 = List.filter (fun e => survives pred es.*1 (e_key e)) (entries l) /\
  r.1 = removed + Z.of_nat (length (List.filter pred es.*1)).
Proof.
  revert removed l. induction es as [|[k p] es IH]; intros removed l Hwf Hnd Hes; cbn zeta;
    rewrite ?fmap_cons in *; cbn [invalidate_range List.filter fst] in *.
  - split_and!; [done|done| |simpl; lia]. symmetry. apply filter_true. intros ent _. unfold survives.
    rewrite bool_decide_eq_false_2 by apply not_elem_of_nil. by rewrite andb_false_r.
  - apply NoDup_cons in Hnd as [Hk Hnd].
    assert (Hkp : items l !! k = Some p) by apply Hes, list_elem_of_here.
    destruct (pred k) eqn:Hpred; cbn [length].
    + destruct (drop_elem_refines l k p Hwf Hkp) as [Hwf' Hent].
      destruct (IH (removed + 1) (drop_elem k p l) Hwf' Hnd) as (Hr & Hc & He & Hn).
      { intros k' p' Hin. rewrite drop_elem_other; [by apply Hes, list_elem_of_further|].
        intros ->. apply Hk. apply list_elem_of_fmap. by exists (k, p'). }
      split_and!; [done|done| |lia].
      rewrite He, Hent. unfold spec_delete. rewrite filter_filter.
      apply List.filter_ext. intros ent. by rewrite survives_cons_hit.
    + destruct (IH removed l Hwf Hnd) as (Hr & Hc & He & Hn); [intros; by apply Hes, list_elem_of_further|].
      split_and!; [done|done| |done]. rewrite He. apply List.filter_ext. intros ent.
      by rewrite survives_cons_miss.
Qed.

Lemma NoDup_entry_keys l (o : list nat) :
  lru_wf l -> NoDup o -> (forall q, q ∈ o -> q ∈ order l) ->
  NoDup (e_key <$> omap (fun e => values l !! e) o).
Proof.
  intros Hwf. induction o as [|p o IH]; intros Hnd Ho; [constructor|].
  apply NoDup_cons in Hnd as [Hp Hnd].
  destruct (wf_order l Hwf p) as (ent & He & Hi); [set_solver|].
  rewrite (omap_values_cons _ _ _ _ He). apply NoDup_cons.
  split; [|apply IH; [done | set_solver]].
  intros (ent' & Hkey & (q & Hq & He')%list_elem_of_omap)%list_elem_of_fmap.
  destruct (wf_order l Hwf q) as (? & ? & ?); [set_solver|]. simplify_eq. by congruence.
Qed.

(** The map's keys are the keys of the entries. *)
Lemma keys_entries l : lru_wf l -> (map_to_list (items l)).*1 ≡ₚ e_key <$> entries l.
Proof.
  intros Hwf. apply NoDup_Permutation.
  - apply NoDup_fst_map_to_list.
  - apply NoDup_entry_keys; [done | apply (wf_nodup l Hwf) | done].
  - intros k. rewrite !list_elem_of_fmap. split.
    + intros ([k' p] & -> & Hin%elem_of_map_to_list).
      destruct (wf_items l Hwf _ _ Hin) as (_ & v & Hv). exists (mkEntry k' v).
      split; [done|]. apply elem_of_entries; eauto.
    + intros (ent & -> & (p & Hi & _)%elem_of_entries); [|done].
      exists (e_key ent, p). by rewrite elem_of_map_to_list.
Qed.

(** However the range statement orders the map's entries, [InvalidateIf]
    leaves the entries whose key fails the predicate and counts the others. *)
Lemma invalidate_any_order (pred : K -> bool) es l :
  lru_wf l -> es ≡ₚ map_to_list (items l) ->
  let r := invalidate_range pred es 0 l in
  lru_wf r.2 /\ capacity r.2 = capacity l /\
  entries r.2 = List.filter (fun e => negb (pred (e_key e))) (entries l) /\
  r.1 = Z.of_nat (length (List.filter (fun e => pred (e_key e)) (entries l))).
Proof.
  intros Hwf Hes.
  assert (Hkeys : es.*1 ≡ₚ e_key <$> entries l) by (rewrite Hes; by apply keys_entries).
  destruct (invalidate_range_refines pred es 0 l Hwf) as (Hr & Hc & He & Hn).
  - rewrite Hes. apply NoDup_fst_map_to_list.
  - intros k p. by rewrite Hes, elem_of_map_to_list.
  - split_and!; [done | done | |].
    + rewrite He. apply filter_ext_elem. intros ent Hin. unfold survives.
      rewrite bool_decide_eq_true_2, andb_true_r; [done|]. rewrite Hkeys.
      by apply list_elem_of_fmap_2.
    + rewrite Hn, Z.add_0_l. f_equal. rewrite (length_filter_Permutation _ _ _ Hkeys).
      change (e_key <$> entries l) with (map e_key (entries l)).
      by rewrite filter_map_comm, length_map.
Qed.

Lemma InvalidateIf_refines l (pred : K -> bool) :
  lru_wf l ->
  lru_wf (InvalidateIf pred l).2 /\ capacity (InvalidateIf pred l).2 = capacity l /\
  spec_op (capacity l) (OpInvalidateIf pred) (entries l) =
    (OutCount (InvalidateIf pred l).1, entries (InvalidateIf pred l).2).
Proof.
  intros Hwf.
  destruct (invalidate_any_order pred (map_to_list (items l)) l Hwf) as (Hr & Hc & He & Hn);
    [reflexivity|].
  split_and!; [done | done |]. unfold InvalidateIf. simpl. by rewrite He, Hn.
Qed.

(** One call of a client. *)
Lemma lru_op_refines (o : op K V) l :
  lru_wf l ->
  lru_wf (lru_op o l).2 /\ capacity (lru_op o l).2 = capacity l /\
  spec_op (capacity l) o (entries l) = ((lru_op o l).1, entries (lru_op o l).2).
Proof.
  intros Hwf. destruct o as [k|k v|k|p| |]; simpl lru_op.
  - destruct (Get_refines l k Hwf) as [? Hs]. destruct (Get k l) as [v l'] eqn:E.
    simpl in *. split_and!; [done | | done].
    unfold Get in E. by destruct (items l !! k); simplify_eq.
  - destruct (Put_refines l k v Hwf) as (? & ? & ?). done.
  - destruct (Invalidate_refines l k Hwf) as [? He]. simpl. split_and!; [done | | by rewrite He].
    unfold Invalidate. by destruct (items l !! k).
  - destruct (InvalidateIf_refines l p Hwf) as (? & ? & Hs).
    by destruct (InvalidateIf p l) as [n l'].
  - destruct (Clear_refines l Hwf) as [? He]. simpl. by rewrite He.
  - split_and!; [done | done |]. simpl. unfold Size. by rewrite size_items, length_entries.
Qed.

(** The counters change as the specification says. *)
Lemma evict_counts l : lru_wf l -> counters_of (evict l) =
  if capacity l <=? Z.of_nat (length (entries l))
  then mkCounters (hits l) (misses l) (uint64 (evictions l + 1)) else counters_of l.
Proof.
  intros Hwf. unfold evict. rewrite length_entries by done. pose proof (wf_capacity l Hwf).
  destruct (Z.leb_spec (capacity l) (Z.of_nat (length (order l)))); [|done].
  destruct (list_back (order l)) as [p|] eqn:E; [done|]. apply last_None in E. rewrite E in *. cbn in *. lia.
Qed.

Lemma invalidate_range_counts (pred : K -> bool) es :
  forall removed l, counters_of (invalidate_range pred es removed l).2 = counters_of l.
Proof.
  induction es as [|[k e] es IH]; intros removed l; [done|]. cbn. destruct (pred k); [|apply IH].
  apply (IH _ (drop_elem k e l)).
Qed.

Lemma lru_op_counts (o : op K V) l :
  lru_wf l -> counters_of (lru_op o l).2 = counted (capacity l) o (entries l) (counters_of l).
Proof.
  intros Hwf. destruct o as [k|k v|k|p| |]; cbn [lru_op counted]; try done.
  - unfold Get. destruct (items l !! k) as [p|] eqn:Hk.
    + destruct (wf_items l Hwf k p Hk) as (_ & v & Hv). by rewrite (spec_find_hit l k p _ Hwf Hk Hv).
    + by rewrite spec_find_miss.
  - unfold Put. destruct (items l !! k) as [p|] eqn:Hk.
    + destruct (wf_items l Hwf k p Hk) as (_ & w & Hv). by rewrite (spec_find_hit l k p _ Hwf Hk Hv).
    + rewrite spec_find_miss by done. exact (evict_counts l Hwf).
  - unfold Invalidate. by destruct (items l !! k).
  - unfold InvalidateIf. cbn. pose proof (invalidate_range_counts p (map_to_list (items l)) 0 l) as Hc.
    by destruct (invalidate_range p (map_to_list (items l)) 0 l).
Qed.

Lemma lru_call_refines (c : call K V) l : lru_wf l ->
  lru_wf (lru_call c l).2 /\ capacity (lru_call c l).2 = capacity l /\
  spec_call (capacity l) c (entries l, counters_of l) =
    ((lru_call c l).1, (entries (lru_call c l).2, counters_of (lru_call c l).2)).
Proof.
  intros Hwf. destruct c as [o| | | | |]; try done. destruct (lru_op_refines o l Hwf) as (? & ? & Hs).
  cbn [lru_call spec_call]. rewrite Hs. by rewrite lru_op_counts.
Qed.

End lru_lemmas.

(** ** The contract of [CacheInterface] *)

#[export] Instance lru_cache_ops {K V} `{Countable K} : CacheOps (LRU K V) K V := {
  cache_get := Get;
  cache_put := Put;
  cache_invalidate_if := InvalidateIf;
  cache_holds l k v := mkEntry k v ∈ entries l;
  cache_ok := lru_wf;
}.

Section lru_contract.
Context {K V : Type} `{Countable K}.
Implicit Types (l : LRU K V) (k : K) (v : V).

Lemma elem_of_spec_delete k ent (es : list (entry K V)) :
  ent ∈ spec_delete k es <-> ent ∈ es /\ e_key ent <> k.
Proof.
  unfold spec_delete. rewrite !list_elem_of_In, filter_In, negb_true_iff, bool_decide_eq_false.
  done.
Qed.

Lemma spec_find_Some k ent (es : list (entry K V)) :
  spec_find k es = Some ent -> ent ∈ es /\ e_key ent = k.
Proof.
  intros [Hin Hk%bool_decide_eq_true]%List.find_some. by rewrite list_elem_of_In.
Qed.

Lemma elem_of_removelast {A} (x : A) (xs : list A) : x ∈ removelast xs -> x ∈ xs.
Proof.
  destruct (decide (xs = [])) as [->|Hne]; [done|].
  destruct (exists_last Hne) as (ys & y & ->). rewrite removelast_last. set_solver.
Qed.

Lemma Get_entries_sub l k ent : lru_wf l -> ent ∈ entries (Get k l).2 -> ent ∈ entries l.
Proof.
  intros Hwf. destruct (Get_refines l k Hwf) as [_ Hs]. simpl in Hs.
  destruct (spec_find k (entries l)) as [ent'|] eqn:E; injection Hs as _ <-; [|done].
  apply spec_find_Some in E as [? ?]. rewrite elem_of_cons, elem_of_spec_delete.
  intros [->|[? _]]; done.
Qed.

#[export] Instance lru_cache_laws : CacheLaws (LRU K V) K V.
Proof.
  split; simpl.
  - intros l k Hwf. by apply Get_refines.
  - intros l k v Hwf. by apply Put_refines.
  - intros l p Hwf. by apply InvalidateIf_refines.
  - intros l k v Hwf Hg. destruct (Get_refines l k Hwf) as [_ Hs]. simpl in Hs.
    destruct (spec_find k (entries l)) as [ent|] eqn:E; injection Hs as Hv _; [|congruence].
    apply spec_find_Some in E as [Hin <-]. destruct ent as [k0 v0]. simpl in *. congruence.
  - intros l k k' v Hwf. by apply Get_entries_sub.
  - intros l k v k' v' Hwf. destruct (Put_refines l k v Hwf) as (_ & _ & Hs). simpl in Hs.
    destruct (spec_find k (entries l)) as [ent|] eqn:E; injection Hs as <-.
    + rewrite elem_of_cons, elem_of_spec_delete. intros [[= -> ->]|[? ?]]; eauto.
    + rewrite elem_of_cons. intros [[= -> ->]|Hin]; [by left|]. right.
      assert (Hin' : mkEntry k' v' ∈ entries l).
      { destruct (_ <=? _); [by apply elem_of_removelast | done]. }
      split; [|done]. intros ->. apply elem_of_entries in Hin' as (p & Hi & Hv); [|done].
      pose proof (spec_find_hit l _ p _ Hwf Hi Hv). simpl in *. congruence.
  - intros l p k v Hwf. destruct (InvalidateIf_refines l p Hwf) as (_ & _ & Hs).
    injection Hs as _ <-. rewrite list_elem_of_In, filter_In, negb_true_iff, <- list_elem_of_In.
    intros [? ?]. done.
Qed.

End lru_contract.

(** ** Properties *)

Section lru_properties.
Context {K V : Type} `{Countable K}.

Lemma run_ops_refines (cs : list (call K V)) (l : LRU K V) :
  lru_wf l ->
  lru_wf (run_ops lru_call cs l).2 /\ capacity (run_ops lru_call cs l).2 = capacity l /\
  run_ops (spec_call (capacity l)) cs (entries l, counters_of l) =
    ((run_ops lru_call cs l).1, (entries (run_ops lru_call cs l).2, counters_of (run_ops lru_call cs l).2)).
Proof.
  revert l. induction cs as [|c cs IH]; intros l Hwf; cbn [run_ops]; [done|].
  destruct (lru_call_refines c l Hwf) as (Hwf' & Hc & Hs). rewrite Hs.
  destruct (lru_call c l) as [r l']. cbn [fst snd] in *.
  destruct (IH l' Hwf') as (Hwf'' & Hc' & Hs'). rewrite <- Hc, Hs'.
  destruct (run_ops lru_call cs l') as [rs l'']. cbn [fst snd] in *. split_and!; [done | congruence | done].
Qed.

(** C23. The cache refines its specification: whatever sequence of its
    methods a client calls on a new cache, the results are those of a
    most-recently-used-first list that drops its last entry when an insertion
    finds it at capacity, with counters of the hits, the misses and the
    entries dropped. *)
Theorem lru_refines (cap : Z) (cs : list (call K V)) :
  (run_ops lru_call cs (NewLRU cap)).1 = (run_ops (spec_call (normal_capacity cap)) cs ([], mkCounters 0 0 0)).1.
Proof.
  destruct (run_ops_refines cs (NewLRU cap) (NewLRU_wf cap)) as (_ & _ & Hs).
  change (entries (NewLRU cap : LRU K V)) with ([] : list (entry K V)) in Hs.
  change (counters_of (NewLRU cap : LRU K V)) with (mkCounters 0 0 0) in Hs.
  unfold normal_capacity. cbn [capacity NewLRU] in Hs. by rewrite Hs.
Qed.

(** After any sequence of calls the map and the list agree, no key is
    listed twice and the cache holds at most [Capacity] entries, where a
    non-positive requested capacity counts as one. *)
Theorem lru_bounded (cap : Z) (os : list (call K V)) :
  let l := (run_ops lru_call os (NewLRU cap)).2 in
  lru_wf l /\ NoDup (e_key <$> entries l) /\
  capacity l = normal_capacity cap /\ 0 <= Size l <= normal_capacity cap.
Proof.
  destruct (run_ops_refines os (NewLRU cap) (NewLRU_wf cap)) as (Hwf & Hc & _). cbn zeta.
  split; [done|]. split; [by apply NoDup_entry_keys; [|apply wf_nodup|]|]. split; [done|].
  unfold Size. rewrite size_items by done. pose proof (wf_length _ Hwf) as Hl.
  rewrite Hc in Hl. unfold normal_capacity. simpl in Hl. lia.
Qed.

(** In every reachable cache, and whatever order Go's map iteration
    yields the entries in, [InvalidateIf] removes exactly the entries whose
    key satisfies the predicate and returns how many there were. *)
Theorem lru_invalidate_any_order (cap : Z) (os : list (call K V)) (pred : K -> bool)
    (es : list (K * nat)) :
  es ≡ₚ map_to_list (items (run_ops lru_call os (NewLRU cap)).2) ->
  let l := (run_ops lru_call os (NewLRU cap)).2 in
  let r := invalidate_range pred es 0 l in
  entries r.2 = List.filter (fun e => negb (pred (e_key e))) (entries l) /\
  r.1 = Z.of_nat (length (List.filter (fun e => pred (e_key e)) (entries l))).
Proof.
  intros Hes. destruct (run_ops_refines os (NewLRU cap) (NewLRU_wf cap)) as (Hwf & _).
  by destruct (invalidate_any_order pred es _ Hwf Hes) as (_ & _ & ? & ?).
Qed.

End lru_properties.

(** Calls of [lru_test.go]: two users and an order. *)
Definition sample_ops : list (call string Z) :=
  map Operation [OpPut "users:1" 1; OpPut "users:2" 2; OpPut "orders:1" 3; OpGet "users:1"; OpSize].

Lemma lru_invalidate_any_order_witness :
  let l := (run_ops lru_call sample_ops (NewLRU 4)).2 in
  let r := invalidate_range (has_prefix "users:") (List.rev (map_to_list (items l))) 0 l in
  entries r.2 = [mkEntry "orders:1" 3] /\ r.1 = 2.
Proof.
  cbn zeta.
  destruct (lru_invalidate_any_order 4 sample_ops (has_prefix "users:")
    (List.rev (map_to_list (items (run_ops lru_call sample_ops (NewLRU 4)).2)))) as [H1 H2].
  - symmetry. apply Permutation_rev.
  - split; [rewrite H1 | rewrite H2]; vm_compute; reflexivity.
Defined.

(** Recency, eviction and hit rate as [lru_test.go] checks them. *)
Example lru_update_refreshes_recency :
  (run_ops lru_call (map Operation [OpPut "a" 1; OpPut "b" 2; OpPut "a" 10; OpPut "c" 3;
                   OpGet "b"; OpGet "a"; OpGet "c"]) (NewLRU 2)).1 =
  [OutNone; OutNone; OutNone; OutNone; OutValue None; OutValue (Some 10); OutValue (Some 3)].
Proof. vm_compute. reflexivity. Qed.

Example lru_hit_rate_half :
  HitRate (run_ops lru_call (map Operation [OpPut "a" 1; OpGet "a"; OpGet "missing"]) (NewLRU 2)).2 =
  SFdiv 53 1024 (float64 1) (float64 2).
Proof. vm_compute. reflexivity. Qed.
