(* ===== verification/MVCC.v ===== *)
(** * The transaction manager (internal/transaction/mvcc_manager.go)

    The manager's two maps under its mutex, one function per method.  The
    clock reading a method takes ([time.Now()]) is an argument.  As long
    as no id is registered twice, a reachable state keeps one pin per active
    transaction ([pins_ok]); with any ids it has at least as many
    ([pins_cover]). *)
From S2P Require Import Prelude.

(** [type TransactionState struct] *)
Record TransactionState := mkTxn {
  TxnID : Z;
  ReadSnapshotID : Z;
  StartedAt : Z;
}.

(** [type MVCCManager struct] *)
Record MVCCManager := mkMVCC {
  activeTransactions : gmap Z TransactionState;
  pinnedSnapshots : gmap Z Z;
  txnTimeout : Z;
}.

(** [t.Sub(u)] on monotonic readings saturates at the Duration range. *)
Definition time_sub (t u : Z) : Z := Z.max (- 2 ^ 63) (Z.min (2 ^ 63 - 1) (t - u)).

Definition NewMVCCManager (timeout : Z) : MVCCManager :=
  {| activeTransactions := ∅; pinnedSnapshots := ∅; txnTimeout := timeout |}.

(** [m.pinnedSnapshots[s]], zero when absent *)
Definition pin_count (m : MVCCManager) (s : Z) : Z := default 0 (pinnedSnapshots m !! s).

Definition RegisterTransaction (now txnID readSnapshot : Z) (m : MVCCManager) : MVCCManager :=
  {| activeTransactions := <[txnID := mkTxn txnID readSnapshot now]> (activeTransactions m);
     pinnedSnapshots := <[readSnapshot := int64 (pin_count m readSnapshot + 1)]> (pinnedSnapshots m);
     txnTimeout := txnTimeout m |}.

Definition unpinSnapshotLocked (s : Z) (m : MVCCManager) : MVCCManager :=
  {| activeTransactions := activeTransactions m;
     pinnedSnapshots :=
       if pin_count m s <=? 1 then delete s (pinnedSnapshots m)
       else <[s := int64 (pin_count m s - 1)]> (pinnedSnapshots m);
     txnTimeout := txnTimeout m |}.

(** [delete(m.activeTransactions, txnID)] *)
Definition forget (txnID : Z) (m : MVCCManager) : MVCCManager :=
  {| activeTransactions := delete txnID (activeTransactions m);
     pinnedSnapshots := pinnedSnapshots m;
     txnTimeout := txnTimeout m |}.

Definition expired (now : Z) (tx : TransactionState) (m : MVCCManager) : bool :=
  txnTimeout m <? time_sub now (StartedAt tx).

Definition CommitTransaction (now txnID : Z) (m : MVCCManager) : bool * MVCCManager :=
  match activeTransactions m !! txnID with
  | None => (false, m)
  | Some tx =>
      if expired now tx m then
        (false, forget txnID (unpinSnapshotLocked (ReadSnapshotID tx) m))
      else
        (true, forget txnID (unpinSnapshotLocked (ReadSnapshotID tx) m))
  end.

Definition AbortTransaction (txnID : Z) (m : MVCCManager) : MVCCManager :=
  match activeTransactions m !! txnID with
  | None => m
  | Some tx => forget txnID (unpinSnapshotLocked (ReadSnapshotID tx) m)
  end.

Definition ValidateParentSnapshot (tableName : string) (parentSnapshotID currentSnapshotID : Z) : bool :=
  parentSnapshotID =? currentSnapshotID.

(** The loop of [CleanupExpiredTransactions] over the transactions in the
    order the range statement yields them. *)
Fixpoint cleanup_range (now : Z) (txs : list (Z * TransactionState)) (cleaned : Z) (m : MVCCManager)
    : Z * MVCCManager :=
  match txs with
  | [] => (cleaned, m)
  | (txnID, tx) :: txs' =>
      if expired now tx m then
        cleanup_range now txs' (cleaned + 1) (forget txnID (unpinSnapshotLocked (ReadSnapshotID tx) m))
      else cleanup_range now txs' cleaned m
  end.

Definition CleanupExpiredTransactions (now : Z) (m : MVCCManager) : Z * MVCCManager :=
  cleanup_range now (map_to_list (activeTransactions m)) 0 m.

Definition ActiveTransactionCount (m : MVCCManager) : Z := Z.of_nat (size (activeTransactions m)).

Definition IsSnapshotPinned (m : MVCCManager) (s : Z) : bool := 0 <? pin_count m s.

(** ** The manager as a state machine *)

(** The calls of the exported methods that change the state. *)
Inductive call := CallRegister (txnID s : Z) | CallCommit (txnID : Z) | CallAbort (txnID : Z) | CallCleanup.

(** One call, at a clock reading; the cleanup ranges over the map in some
    order. *)
Inductive mvcc_step : call -> MVCCManager -> MVCCManager -> Prop :=
| step_register now txnID s m : mvcc_step (CallRegister txnID s) m (RegisterTransaction now txnID s m)
| step_commit now txnID m : mvcc_step (CallCommit txnID) m (CommitTransaction now txnID m).2
| step_abort txnID m : mvcc_step (CallAbort txnID) m (AbortTransaction txnID m)
| step_cleanup now txs m :
    txs ≡ₚ map_to_list (activeTransactions m) ->
    mvcc_step CallCleanup m (cleanup_range now txs 0 m).2.

(** A sequence of calls. *)
Inductive mvcc_run : list call -> MVCCManager -> MVCCManager -> Prop :=
| calls_nil m : mvcc_run [] m m
| calls_cons c cs m m1 m' : mvcc_step c m m1 -> mvcc_run cs m1 m' -> mvcc_run (c :: cs) m m'.

(** The ids it registers. *)
Definition registered (cs : list call) : list Z :=
  omap (fun c => match c with CallRegister txnID _ => Some txnID | _ => None end) cs.

(** The active transactions that read [s]. *)
Definition readers (m : MVCCManager) (s : Z) : gmap Z TransactionState :=
  filter (fun p => ReadSnapshotID p.2 = s) (activeTransactions m).

(** One pin per active reader, and no entry for an unpinned snapshot. *)
Definition pins_ok (m : MVCCManager) : Prop :=
  forall s, pinnedSnapshots m !! s =
    if decide (readers m s = ∅) then None else Some (Z.of_nat (size (readers m s))).

(** At least one pin per active reader, and at most [k] pins of a snapshot. *)
Definition pins_cover (k : nat) (m : MVCCManager) : Prop :=
  forall s, Z.of_nat (size (readers m s)) <= pin_count m s <= Z.of_nat k.

(** [i] is the id of an expired transaction of [txs]. *)
Definition doomed (now : Z) (m : MVCCManager) (txs : list (Z * TransactionState)) (i : Z) : bool :=
  existsb (fun p => (p.1 =? i) && expired now p.2 m) txs.

(** ** Lemmas *)

Section lemmas.
Implicit Types (m : MVCCManager) (s : Z) (tx : TransactionState).

Lemma time_sub_exact t u : - 2 ^ 63 <= t - u < 2 ^ 63 -> time_sub t u = t - u.
Proof. unfold time_sub. lia. Qed.

Lemma pin_count_readers m s : pins_ok m -> pin_count m s = Z.of_nat (size (readers m s)).
Proof.
  intros Hm. unfold pin_count. rewrite Hm. case_decide as Hr; [|done]. by rewrite Hr.
Qed.

Lemma size_readers_le m s : (size (readers m s) <= size (activeTransactions m))%nat.
Proof. apply map_subseteq_size, map_filter_subseteq. Qed.

Lemma readers_register now txnID r m s :
  activeTransactions m !! txnID = None ->
  readers (RegisterTransaction now txnID r m) s =
    if decide (r = s) then <[txnID := mkTxn txnID r now]> (readers m s) else readers m s.
Proof.
  intros Hfresh. unfold readers. simpl. case_decide as Hr.
  - by rewrite map_filter_insert_True.
  - rewrite map_filter_insert_False by done. f_equal. by apply delete_id.
Qed.

Lemma readers_forget txnID tx m s :
  activeTransactions m !! txnID = Some tx ->
  readers (forget txnID (unpinSnapshotLocked (ReadSnapshotID tx) m)) s =
    if decide (ReadSnapshotID tx = s) then delete txnID (readers m s) else readers m s.
Proof.
  intros Htx. unfold readers. simpl. rewrite map_filter_delete. case_decide as Hs; [done|].
  apply delete_id. apply map_lookup_filter_None. right. intros tx' ?. by simplify_eq.
Qed.

Lemma reader_lookup m txnID tx :
  activeTransactions m !! txnID = Some tx -> readers m (ReadSnapshotID tx) !! txnID = Some tx.
Proof. intros. unfold readers. by apply map_lookup_filter_Some. Qed.

Lemma pins_ok_register now txnID r m :
  Z.of_nat (size (activeTransactions m)) < 2 ^ 63 - 1 ->
  activeTransactions m !! txnID = None ->
  pins_ok m -> pins_ok (RegisterTransaction now txnID r m).
Proof.
  intros Hsize Hfresh Hm s. rewrite readers_register by done. simpl.
  rewrite lookup_insert, (pin_count_readers m r Hm).
  destruct (decide (r = s)) as [->|Hr]; [|apply Hm].
  rewrite decide_False by apply insert_non_empty.
  rewrite map_size_insert_None by (apply map_lookup_filter_None; by left).
  pose proof (size_readers_le m s). rewrite int64_id by (unfold is_int64; lia). f_equal. lia.
Qed.

(** Removing an active transaction removes one pin of its snapshot. *)
Lemma pins_ok_forget txnID tx m :
  Z.of_nat (size (activeTransactions m)) < 2 ^ 63 ->
  activeTransactions m !! txnID = Some tx ->
  pins_ok m -> pins_ok (forget txnID (unpinSnapshotLocked (ReadSnapshotID tx) m)).
Proof.
  intros Hsize Htx Hm s. rewrite (readers_forget _ _ _ _ Htx). simpl.
  rewrite (pin_count_readers m _ Hm). set (r := ReadSnapshotID tx).
  pose proof (reader_lookup m txnID tx Htx) as Hlk. fold r in Hlk.
  pose proof (size_readers_le m r) as Hle.
  assert (Hpos : (0 < size (readers m r))%nat).
  { apply Nat.neq_0_lt_0. intros H0. apply map_size_empty_inv in H0. rewrite H0 in Hlk. by simpl_map. }
  assert (Hdel : size (delete txnID (readers m r)) = pred (size (readers m r)))
    by (by eapply map_size_delete_Some).
  destruct (decide (r = s)) as [<-|Hne].
  - destruct (_ <=? 1) eqn:E.
    + rewrite lookup_delete_eq, decide_True; [done|]. apply map_size_empty_inv. lia.
    + rewrite lookup_insert_eq, decide_False.
      * rewrite Hdel, int64_id by (unfold is_int64; lia). f_equal. lia.
      * intros H0. rewrite H0, map_size_empty in Hdel. lia.
  - destruct (_ <=? 1); [rewrite lookup_delete_ne by done | rewrite lookup_insert_ne by done]; apply Hm.
Qed.

Lemma size_forget txnID m s :
  (size (activeTransactions (forget txnID (unpinSnapshotLocked s m))) <=
   size (activeTransactions m))%nat.
Proof. simpl. apply map_subseteq_size, delete_subseteq. Qed.

Lemma expired_forget now tx m txnID s :
  expired now tx (forget txnID (unpinSnapshotLocked s m)) = expired now tx m.
Proof. done. Qed.

(** The loop over any enumeration of transactions still active. *)
Lemma cleanup_range_ok now txs cleaned m :
  NoDup txs.*1 -> (forall i tx, (i, tx) ∈ txs -> activeTransactions m !! i = Some tx) ->
  let r := cleanup_range now txs cleaned m in
  (Z.of_nat (size (activeTransactions m)) < 2 ^ 63 -> pins_ok m -> pins_ok r.2) /\
  txnTimeout r.2 = txnTimeout m /\
  (size (activeTransactions r.2) <= size (activeTransactions m))%nat /\
  (forall i, activeTransactions r.2 !! i =
     if doomed now m txs i then None
     else activeTransactions m !! i) /\
  r.1 = cleaned + Z.of_nat (length (List.filter (fun p => expired now p.2 m) txs)).
Proof.
  revert cleaned m. induction txs as [|[i tx] txs IH]; intros cleaned m Hnd Htxs; cbn zeta;
    rewrite ?fmap_cons in *; cbn [cleanup_range List.filter fst snd] in *.
  - split_and!; [done | done | lia | done | simpl; lia].
  - apply NoDup_cons in Hnd as [Hi Hnd].
    assert (Htx : activeTransactions m !! i = Some tx) by apply Htxs, list_elem_of_here.
    unfold doomed. cbn [existsb fst snd]. destruct (expired now tx m) eqn:Hexp; cbn [length].
    + set (m1 := forget i (unpinSnapshotLocked (ReadSnapshotID tx) m)).
      destruct (IH (cleaned + 1) m1 Hnd) as (Hp & Ht & Hs & Hl & Hn).
      { intros j tx' Hin. simpl. rewrite lookup_delete_ne; [by apply Htxs, list_elem_of_further|].
        intros <-. apply Hi, list_elem_of_fmap. by exists (i, tx'). }
      pose proof (size_forget i m (ReadSnapshotID tx)) as Hsz. fold m1 in Hsz.
      split_and!; [| done | lia | |].
      * intros Hb Hm. apply Hp; [lia|]. by apply pins_ok_forget.
      * intros j. rewrite Hl. unfold doomed. cbn [activeTransactions m1 forget].
        destruct (Z.eqb_spec i j) as [<-|Hij]; simpl.
        -- rewrite lookup_delete_eq. by destruct (existsb _ _).
        -- by rewrite lookup_delete_ne.
      * rewrite Hn. change (List.filter (fun p => expired now p.2 m1) txs)
          with (List.filter (fun p : Z * TransactionState => expired now p.2 m) txs). lia.
    + destruct (IH cleaned m Hnd) as (Hp & Ht & Hs & Hl & Hn);
        [intros; by apply Htxs, list_elem_of_further|].
      split_and!; [done | done | done | | done].
      intros j. rewrite Hl. by rewrite andb_false_r.
Qed.

Lemma doomed_map_to_list now m txs i :
  txs ≡ₚ map_to_list (activeTransactions m) ->
  doomed now m txs i = match activeTransactions m !! i with
                       | Some tx => expired now tx m
                       | None => false
                       end.
Proof.
  intros Htxs. unfold doomed. apply eq_true_iff_eq. rewrite existsb_exists.
  setoid_rewrite <- list_elem_of_In. setoid_rewrite Htxs. split.
  - intros ([j tx] & Hin%elem_of_map_to_list & [Hj Hexp]%andb_prop). simpl in *.
    apply Z.eqb_eq in Hj as <-. by rewrite Hin.
  - destruct (activeTransactions m !! i) as [tx|] eqn:Htx; [|done]. intros Hexp.
    exists (i, tx). by rewrite elem_of_map_to_list, Z.eqb_refl.
Qed.

Lemma cleanup_any_order now txs m :
  txs ≡ₚ map_to_list (activeTransactions m) ->
  let r := cleanup_range now txs 0 m in
  (Z.of_nat (size (activeTransactions m)) < 2 ^ 63 -> pins_ok m -> pins_ok r.2) /\
  txnTimeout r.2 = txnTimeout m /\
  (size (activeTransactions r.2) <= size (activeTransactions m))%nat /\
  activeTransactions r.2 = filter (fun p => expired now p.2 m = false) (activeTransactions m) /\
  r.1 = Z.of_nat (size (activeTransactions m)) - Z.of_nat (size (activeTransactions r.2)).
Proof.
  intros Htxs.
  destruct (cleanup_range_ok now txs 0 m) as (Hp & Ht & Hs & Hl & Hn).
  { rewrite Htxs. apply NoDup_fst_map_to_list. }
  { intros i tx. by rewrite Htxs, elem_of_map_to_list. }
  assert (Hact : activeTransactions (cleanup_range now txs 0 m).2 =
                 filter (fun p => expired now p.2 m = false) (activeTransactions m)).
  { apply map_eq. intros i. rewrite Hl, map_lookup_filter, doomed_map_to_list by done.
    destruct (activeTransactions m !! i) as [tx|] eqn:Htx; [|done]. simpl.
    destruct (expired now tx m); case_guard; done. }
  split_and!; [done | done | done | done |].
  rewrite Hn, Hact, (length_filter_Permutation _ _ _ Htxs).
  rewrite <- (size_filter_split (fun p => expired now p.2 m) (activeTransactions m)). lia.
Qed.

(** *** Runs *)

(** What forgetting an active transaction keeps, cleanup keeps. *)
Lemma cleanup_inv (I : MVCCManager -> Prop) now :
  (forall i tx m, activeTransactions m !! i = Some tx -> I m -> I (forget i (unpinSnapshotLocked (ReadSnapshotID tx) m))) ->
  forall txs cleaned m, NoDup txs.*1 -> (forall i tx, (i, tx) ∈ txs -> activeTransactions m !! i = Some tx) ->
    I m -> I (cleanup_range now txs cleaned m).2.
Proof.
  intros Hf txs. induction txs as [|[i tx] txs IH]; intros cleaned m Hnd Htxs Hm; [done|]. cbn [cleanup_range].
  rewrite fmap_cons in Hnd. apply NoDup_cons in Hnd as [Hi Hnd].
  assert (Htx : activeTransactions m !! i = Some tx) by apply Htxs, list_elem_of_here.
  destruct (expired now tx m); [|by apply IH; [|intros; by apply Htxs, list_elem_of_further|]].
  apply IH; [done | | by apply Hf]. intros j tx' Hin. simpl. rewrite lookup_delete_ne; [by apply Htxs, list_elem_of_further|].
  intros <-. apply Hi, list_elem_of_fmap. by exists (i, tx').
Qed.

(** What registering and forgetting keep, every call keeps. *)
Lemma mvcc_step_inv (I : MVCCManager -> Prop) c m m' :
  mvcc_step c m m' ->
  (forall i tx m, activeTransactions m !! i = Some tx -> I m -> I (forget i (unpinSnapshotLocked (ReadSnapshotID tx) m))) ->
  (forall now i s, c = CallRegister i s -> I m -> I (RegisterTransaction now i s m)) ->
  I m -> I m'.
Proof.
  intros [now i s m0|now i m0|i m0|now txs m0 Htxs] Hf Hr Hm.
  - by apply Hr.
  - unfold CommitTransaction. destruct (activeTransactions m0 !! i) as [tx|] eqn:E; [|done].
    destruct (expired _ _ _); by apply Hf.
  - unfold AbortTransaction. destruct (activeTransactions m0 !! i) as [tx|] eqn:E; [|done]. by apply Hf.
  - apply cleanup_inv; [done | | | done].
    + rewrite Htxs. apply NoDup_fst_map_to_list.
    + intros i tx. by rewrite Htxs, elem_of_map_to_list.
Qed.

(** Registering, under any id, adds a pin of the snapshot and a reader of it
    at most. *)
Lemma pins_cover_register k now txnID r m :
  Z.of_nat (S k) < 2 ^ 63 -> pins_cover k m -> pins_cover (S k) (RegisterTransaction now txnID r m).
Proof.
  intros Hk Hm s. pose proof (Hm s) as Hs. assert (Hsz : (size (readers (RegisterTransaction now txnID r m) s) <=
    size (readers m s) + (if decide (r = s) then 1 else 0))%nat).
  { unfold readers. simpl. case_decide as Hr.
    - rewrite map_filter_insert_True by done. rewrite map_size_insert. case_match; unfold id; lia.
    - rewrite map_filter_insert_False by done. rewrite Nat.add_0_r. apply map_subseteq_size, map_filter_subseteq_mono, delete_subseteq. }
  pose proof (Hm r) as Hr. unfold pin_count at 1 2. simpl. rewrite lookup_insert.
  destruct (decide (r = s)) as [->|]; cbn [from_option]; [|fold (pin_count m s); lia].
  rewrite int64_id by (unfold is_int64; lia). unfold id. lia.
Qed.

Lemma pins_cover_forget k txnID tx m :
  Z.of_nat k < 2 ^ 63 -> activeTransactions m !! txnID = Some tx -> pins_cover k m ->
  pins_cover k (forget txnID (unpinSnapshotLocked (ReadSnapshotID tx) m)).
Proof.
  intros Hk Htx Hm s. rewrite (readers_forget _ _ _ _ Htx). set (r := ReadSnapshotID tx).
  pose proof (reader_lookup m txnID tx Htx) as Hlk. fold r in Hlk. pose proof (Hm s) as Hs. pose proof (Hm r) as Hr.
  assert (Hdel : size (delete txnID (readers m r)) = pred (size (readers m r))) by (by eapply map_size_delete_Some).
  unfold pin_count. simpl. fold (pin_count m r). destruct (decide (r = s)) as [<-|Hne].
  - rewrite Hdel. destruct (Z.leb_spec (pin_count m r) 1).
    + rewrite lookup_delete_eq. cbn [from_option]. lia.
    + rewrite lookup_insert_eq. cbn [from_option]. unfold id. rewrite int64_id by (unfold is_int64; lia). lia.
  - destruct (_ <=? 1); [rewrite lookup_delete_ne by done | rewrite lookup_insert_ne by done]; apply Hs.
Qed.

(** In any run. *)
Lemma run_pins_cover cs : forall k m m', mvcc_run cs m m' -> Z.of_nat (k + length cs) < 2 ^ 63 ->
  pins_cover k m -> exists k', pins_cover k' m'.
Proof.
  induction cs as [|c cs IH]; intros k m m' Hrun Hk Hm; inversion Hrun as [|? ? ? m1 ? Hs Hr]; subst; [by exists k|].
  cbn [length] in Hk. apply (IH (S k) m1); [done | lia|]. apply (mvcc_step_inv (fun m => pins_cover (S k) m) c m); [done | | |].
  - intros i tx m0 Htx. apply pins_cover_forget; [lia | done].
  - intros now i s _ _. apply pins_cover_register; [lia | done].
  - intros s. pose proof (Hm s). lia.
Qed.

(** In a run that registers no id twice, nor one that is active. *)
Lemma run_pins_ok cs : forall k m m', mvcc_run cs m m' -> Z.of_nat (k + length cs) < 2 ^ 63 ->
  NoDup (registered cs) -> (forall i, i ∈ registered cs -> activeTransactions m !! i = None) ->
  (size (activeTransactions m) <= k)%nat -> pins_ok m -> pins_ok m'.
Proof.
  induction cs as [|c cs IH]; intros k m m' Hrun Hk Hnd Hnew Hsz Hm; inversion Hrun as [|? ? ? m1 ? Hs Hr]; subst; [done|].
  cbn [length] in Hk.
  assert (Hrest : NoDup (registered cs) /\ (forall i, i ∈ registered cs -> activeTransactions m !! i = None) /\
    forall i s, c = CallRegister i s -> activeTransactions m !! i = None /\ i ∉ registered cs).
  { destruct c as [i s| | |]; cbn in Hnd, Hnew; [|by split_and!..]. apply NoDup_cons in Hnd as [Hi Hnd].
    split_and!; [done | intros j Hj; apply Hnew; by right|]. intros j s' [= <- <-]. split; [apply Hnew; left | done]. }
  destruct Hrest as (Hnd1 & Hnew1 & Hc).
  destruct (mvcc_step_inv (fun m1 => (forall i, i ∈ registered cs -> activeTransactions m1 !! i = None) /\
    (size (activeTransactions m1) <= S k)%nat /\ pins_ok m1) c m m1 Hs) as (H1 & H2 & H3).
  - intros i tx m0 Htx (H1 & H2 & H3). split_and!; [| | apply pins_ok_forget; [lia | done..]].
    + intros j Hj. simpl. rewrite lookup_delete_None. right. by apply H1.
    + pose proof (size_forget i m0 (ReadSnapshotID tx)). lia.
  - intros now i s Ec _. destruct (Hc i s Ec) as [Hi Hni]. split_and!.
    + intros j Hj. simpl. rewrite lookup_insert_ne; [by apply Hnew1 | by intros ->].
    + simpl. rewrite map_size_insert_None by done. lia.
    + apply pins_ok_register; [lia | done..].
  - split_and!; [done | lia | done].
  - apply (IH (S k) m1); [done | lia | done..].
Qed.

Lemma IsSnapshotPinned_readers m s :
  pins_ok m ->
  IsSnapshotPinned m s = true <->
  exists txnID tx, activeTransactions m !! txnID = Some tx /\ ReadSnapshotID tx = s.
Proof.
  intros Hm. unfold IsSnapshotPinned. rewrite pin_count_readers, Z.ltb_lt by done. split.
  - intros Hpos. destruct (decide (readers m s = ∅)) as [E|Hne].
    { rewrite E, map_size_empty in Hpos. lia. }
    apply map_choose in Hne as (txnID & tx & [? ?]%map_lookup_filter_Some). eauto.
  - intros (txnID & tx & Htx & <-). pose proof (reader_lookup m txnID tx Htx) as Hlk.
    destruct (size _) eqn:E; [|lia]. apply map_size_empty_inv in E. rewrite E in Hlk. by simpl_map.
Qed.

Lemma CommitTransaction_alive now txnID m :
  (CommitTransaction now txnID m).1 =
  match activeTransactions m !! txnID with
  | Some tx => time_sub now (StartedAt tx) <=? txnTimeout m
  | None => false
  end.
Proof.
  unfold CommitTransaction. destruct (activeTransactions m !! txnID) as [tx|]; [|done]. unfold expired.
  destruct (Z.ltb_spec (txnTimeout m) (time_sub now (StartedAt tx))), (Z.leb_spec (time_sub now (StartedAt tx)) (txnTimeout m));
    done || lia.
Qed.

Lemma CommitTransaction_active now txnID m :
  activeTransactions (CommitTransaction now txnID m).2 = delete txnID (activeTransactions m).
Proof.
  unfold CommitTransaction. destruct (activeTransactions m !! txnID) as [tx|] eqn:Htx.
  - by destruct (expired now tx m).
  - by rewrite delete_id.
Qed.

(** A transaction ends once. *)
Lemma CommitTransaction_again now now' txnID m :
  CommitTransaction now' txnID (CommitTransaction now txnID m).2 = (false, (CommitTransaction now txnID m).2).
Proof. unfold CommitTransaction at 1. by rewrite CommitTransaction_active, lookup_delete_eq. Qed.

Lemma AbortTransaction_after_commit now txnID m :
  AbortTransaction txnID (CommitTransaction now txnID m).2 = (CommitTransaction now txnID m).2.
Proof. unfold AbortTransaction. by rewrite CommitTransaction_active, lookup_delete_eq. Qed.

End lemmas.

(** ** Properties *)

(** C24. In every state the manager reaches, whatever ids it is given to
    register, a snapshot that an active transaction reads is pinned; and when
    no id is registered twice, as the server, which takes its ids from a
    sequence, never does, a snapshot is pinned exactly while some active
    transaction reads it, once per reader: registering pins it, and commit,
    abort, expiry and cleanup release one pin each, never more. *)
Theorem mvcc_pinned_iff_read (timeout : Z) (cs : list call) (m : MVCCManager) (s : Z) :
  mvcc_run cs (NewMVCCManager timeout) m -> Z.of_nat (length cs) < 2 ^ 63 ->
  (forall txnID tx, activeTransactions m !! txnID = Some tx -> IsSnapshotPinned m (ReadSnapshotID tx) = true) /\
  (NoDup (registered cs) ->
   (IsSnapshotPinned m s = true <->
    exists txnID tx, activeTransactions m !! txnID = Some tx /\ ReadSnapshotID tx = s) /\
   pin_count m s = Z.of_nat (size (readers m s))).
Proof.
  intros Hrun Hn. split.
  - intros txnID tx Htx. destruct (run_pins_cover cs 0 _ m Hrun Hn) as [k Hk].
    { intros n. unfold readers. simpl. by rewrite map_filter_empty, map_size_empty. }
    apply Z.ltb_lt. pose proof (Hk (ReadSnapshotID tx)). pose proof (reader_lookup m txnID tx Htx) as Hlk.
    assert (size (readers m (ReadSnapshotID tx)) <> 0%nat); [|lia]. intros E%map_size_empty_inv. rewrite E in Hlk. by simpl_map.
  - intros Hnd. assert (Hp : pins_ok m).
    { apply (run_pins_ok cs 0 _ m Hrun Hn Hnd); simpl; [by intros; rewrite lookup_empty | by rewrite map_size_empty|].
      intros n. unfold readers. simpl. by rewrite map_filter_empty, decide_True, lookup_empty. }
    split; [by apply IsSnapshotPinned_readers | by apply pin_count_readers].
Qed.

(** Two readers of snapshot 10 of which one has aborted
    ([TestMultipleTransactionsPinningSameSnapshot]). *)
Definition two_readers : MVCCManager :=
  AbortTransaction 1 (RegisterTransaction 5 2 10 (RegisterTransaction 3 1 10 (NewMVCCManager 60))).

Lemma mvcc_pinned_iff_read_witness :
  IsSnapshotPinned two_readers 10 = true /\ pin_count two_readers 10 = 1.
Proof.
  destruct (mvcc_pinned_iff_read 60 [CallRegister 1 10; CallRegister 2 10; CallAbort 1] two_readers 10) as [_ [Hp Hc]].
  - eapply calls_cons; [apply (step_register 3 1 10)|].
    eapply calls_cons; [apply (step_register 5 2 10)|].
    eapply calls_cons; [apply (step_abort 1) | apply calls_nil].
  - reflexivity.
  - vm_compute. repeat constructor; set_solver.
  - split; [apply Hp; exists 2, (mkTxn 2 10 5); split; reflexivity | rewrite Hc; reflexivity].
Defined.

(** [CommitTransaction] answers true exactly for an active transaction
    that has not outlived the timeout; either way the transaction is gone,
    no other transaction changes, and neither a second commit nor an abort
    finds it. *)
Theorem mvcc_commit_once (m : MVCCManager) (now now' txnID : Z) :
  let r := CommitTransaction now txnID m in
  (r.1 = true <-> exists tx, activeTransactions m !! txnID = Some tx /\
                             time_sub now (StartedAt tx) <= txnTimeout m) /\
  activeTransactions r.2 = delete txnID (activeTransactions m) /\
  CommitTransaction now' txnID r.2 = (false, r.2) /\
  AbortTransaction txnID r.2 = r.2.
Proof.
  cbn zeta. split_and!.
  - rewrite CommitTransaction_alive. destruct (activeTransactions m !! txnID) as [tx|]; [|by split; [|intros (? & ? & ?)]].
    rewrite Z.leb_le. split; [by eauto | by intros (? & [= <-] & ?)].
  - apply CommitTransaction_active.
  - apply CommitTransaction_again.
  - apply AbortTransaction_after_commit.
Qed.

(** Whatever order Go ranges over the map in, cleanup removes exactly
    the transactions older than the timeout, keeps every other one, returns
    how many it removed and keeps one pin per remaining reader. *)
Theorem mvcc_cleanup_exact (m : MVCCManager) (now : Z) (txs : list (Z * TransactionState)) :
  txs ≡ₚ map_to_list (activeTransactions m) ->
  Z.of_nat (size (activeTransactions m)) < 2 ^ 63 -> pins_ok m ->
  let r := cleanup_range now txs 0 m in
  activeTransactions r.2 = filter (fun p => time_sub now (StartedAt p.2) <= txnTimeout m) (activeTransactions m) /\
  r.1 = ActiveTransactionCount m - ActiveTransactionCount r.2 /\ pins_ok r.2.
Proof.
  intros Htxs Hsize Hm. destruct (cleanup_any_order now txs m Htxs) as (Hp & _ & _ & Hact & Hn).
  split_and!; [|done|by apply Hp]. rewrite Hact. apply map_filter_ext. intros i tx _. simpl.
  unfold expired. apply Z.ltb_ge.
Qed.

Lemma mvcc_cleanup_exact_witness :
  let m := RegisterTransaction 90 2 20 (RegisterTransaction 0 1 10 (NewMVCCManager 60)) in
  let r := CleanupExpiredTransactions 100 m in
  r.1 = 1 /\ activeTransactions r.2 !! 1 = None /\ pin_count r.2 20 = 1.
Proof.
  destruct (mvcc_cleanup_exact
    (RegisterTransaction 90 2 20 (RegisterTransaction 0 1 10 (NewMVCCManager 60))) 100
    (map_to_list (activeTransactions
      (RegisterTransaction 90 2 20 (RegisterTransaction 0 1 10 (NewMVCCManager 60)))))) as (Ha & Hn & _).
  - reflexivity.
  - vm_compute. reflexivity.
  - apply pins_ok_register; [vm_compute; reflexivity | reflexivity |].
    apply pins_ok_register; [vm_compute; reflexivity | reflexivity |].
    intros s. unfold readers. simpl. by rewrite map_filter_empty, decide_True, lookup_empty.
  - unfold CleanupExpiredTransactions. cbn zeta. rewrite Hn, Ha.
    split; [|split]; vm_compute; reflexivity.
Defined.

(** An id registered while it is active leaves the first snapshot pinned
    after the only transaction is gone. *)
Example mvcc_reregister_leaks_pin :
  let m := RegisterTransaction 0 1 20 (RegisterTransaction 0 1 10 (NewMVCCManager 60)) in
  IsSnapshotPinned (AbortTransaction 1 m) 10 = true /\
  ActiveTransactionCount (AbortTransaction 1 m) = 0.
Proof. vm_compute. done. Qed.
