(* ===== verification/Lock.v ===== *)
(** * Per-table locks (internal/lock/lock_manager.go)

    A [Manager] maps a table name to a pointer to a [sync.RWMutex]; the
    mutexes live in a store of their own.  [sync.RWMutex.Lock] takes effect in
    two moments: it announces the writer, which stops new readers, and it
    returns once the readers that were there have gone.  A function that
    answers [None] blocks in that state (or, for an unlock, is the fatal error
    of unlocking a mutex that is not locked). *)
From S2P Require Import Prelude.

(** The writer side of a [sync.RWMutex]. *)
Inductive writer_state := WNone | WWaiting | WHeld.

#[export] Instance writer_state_eq_dec : EqDecision writer_state.
Proof. solve_decision. Defined.

(** [sync.RWMutex] *)
Record RWMutex := mkRWMutex { rw_writer : writer_state; rw_readers : Z }.

(** [type Manager struct] *)
Record Manager := mkManager {
  locks : gmap string nat;
  mutexes : gmap nat RWMutex;
  next_mutex : nat;
}.

Definition NewManager : Manager := {| locks := ∅; mutexes := ∅; next_mutex := 0 |}.

Definition getOrCreate (table : string) (m : Manager) : nat * Manager :=
  match locks m !! table with
  | Some l => (l, m)
  | None =>
      let l := next_mutex m in
      (l, {| locks := <[table := l]> (locks m);
             mutexes := <[l := mkRWMutex WNone 0]> (mutexes m);
             next_mutex := S l |})
  end.

Definition set_mutex (l : nat) (mu : RWMutex) (m : Manager) : Manager :=
  {| locks := locks m; mutexes := <[l := mu]> (mutexes m); next_mutex := next_mutex m |}.

(** [l.RLock()]: waits while a writer holds or awaits the mutex. *)
Definition RLock (l : nat) (m : Manager) : option Manager :=
  match mutexes m !! l with
  | Some (mkRWMutex WNone r) => Some (set_mutex l (mkRWMutex WNone (r + 1)) m)
  | _ => None
  end.

Definition RUnlock (l : nat) (m : Manager) : option Manager :=
  match mutexes m !! l with
  | Some (mkRWMutex w r) => if 0 <? r then Some (set_mutex l (mkRWMutex w (r - 1)) m) else None
  | None => None
  end.

(** [l.Lock()], first moment: one writer at a time announces itself. *)
Definition Lock_announce (l : nat) (m : Manager) : option Manager :=
  match mutexes m !! l with
  | Some (mkRWMutex WNone r) => Some (set_mutex l (mkRWMutex WWaiting r) m)
  | _ => None
  end.

(** [l.Lock()], second moment: the readers have gone. *)
Definition Lock_acquire (l : nat) (m : Manager) : option Manager :=
  match mutexes m !! l with
  | Some (mkRWMutex WWaiting r) =>
      if r =? 0 then Some (set_mutex l (mkRWMutex WHeld 0) m) else None
  | _ => None
  end.

Definition Unlock (l : nat) (m : Manager) : option Manager :=
  match mutexes m !! l with
  | Some (mkRWMutex WHeld r) => Some (set_mutex l (mkRWMutex WNone r) m)
  | _ => None
  end.

(** ** Goroutines using the manager

    [held] lists who holds which table's lock and how, [waiting] the writers
    that have announced themselves. *)
Inductive mode := Shared | Exclusive.

#[export] Instance mode_eq_dec : EqDecision mode.
Proof. solve_decision. Defined.

Record holding := mkHolding { h_thread : nat; h_table : string; h_mode : mode }.

#[export] Instance holding_eq_dec : EqDecision holding.
Proof. solve_decision. Defined.

Record lock_state := mkLockState {
  manager : Manager;
  held : list holding;
  waiting : list (nat * string);
}.

(** One atomic lock action of goroutine [th] on [table]. *)
Inductive lock_step : lock_state -> lock_state -> Prop :=
| lock_shared th table m m' h w :
    RLock (getOrCreate table m).1 (getOrCreate table m).2 = Some m' ->
    lock_step (mkLockState m h w) (mkLockState m' (mkHolding th table Shared :: h) w)
| lock_announce th table m m' h w :
    Lock_announce (getOrCreate table m).1 (getOrCreate table m).2 = Some m' ->
    lock_step (mkLockState m h w) (mkLockState m' h ((th, table) :: w))
| lock_acquire th table m m' h w1 w2 l :
    locks m !! table = Some l -> Lock_acquire l m = Some m' ->
    lock_step (mkLockState m h (w1 ++ (th, table) :: w2))
              (mkLockState m' (mkHolding th table Exclusive :: h) (w1 ++ w2))
| unlock_shared th table m m' h1 h2 w l :
    locks m !! table = Some l -> RUnlock l m = Some m' ->
    lock_step (mkLockState m (h1 ++ mkHolding th table Shared :: h2) w)
              (mkLockState m' (h1 ++ h2) w)
| unlock_exclusive th table m m' h1 h2 w l :
    locks m !! table = Some l -> Unlock l m = Some m' ->
    lock_step (mkLockState m (h1 ++ mkHolding th table Exclusive :: h2) w)
              (mkLockState m' (h1 ++ h2) w).

Definition lock_reachable : lock_state -> Prop :=
  rtc lock_step (mkLockState NewManager [] []).

(** How many goroutines hold [table]'s lock in a mode. *)
Definition holders (table : string) (mo : mode) (h : list holding) : Z :=
  Z.of_nat (length (List.filter (fun x => bool_decide (h_table x = table /\ h_mode x = mo)) h)).

(** The mutex a table name stands for; a name not yet seen has a fresh one. *)
Definition mutex_of (m : Manager) (table : string) : RWMutex :=
  default (mkRWMutex WNone 0) (locks m !! table ≫= fun l => mutexes m !! l).

(** Different names have different mutexes, all allocated. *)
Record manager_wf (m : Manager) : Prop := {
  wf_mutex : forall t l, locks m !! t = Some l -> is_Some (mutexes m !! l) /\ (l < next_mutex m)%nat;
  wf_inj : forall t1 t2 l, locks m !! t1 = Some l -> locks m !! t2 = Some l -> t1 = t2;
}.

(** The mutex counts the holders; a held writer excludes readers. *)
Definition counts_ok (s : lock_state) (t : string) : Prop :=
  let mu := mutex_of (manager s) t in
  rw_readers mu = holders t Shared (held s) /\
  holders t Exclusive (held s) = (if decide (rw_writer mu = WHeld) then 1 else 0) /\
  (rw_writer mu = WHeld -> rw_readers mu = 0).

Definition lock_inv (s : lock_state) : Prop :=
  manager_wf (manager s) /\ forall t, counts_ok s t.

(** ** Lemmas *)

Lemma getOrCreate_wf m t :
  manager_wf m -> manager_wf (getOrCreate t m).2 /\
  locks (getOrCreate t m).2 !! t = Some (getOrCreate t m).1 /\
  (forall t', mutex_of (getOrCreate t m).2 t' = mutex_of m t').
Proof.
  intros [Hmu Hinj]. unfold getOrCreate. destruct (locks m !! t) as [l|] eqn:Ht; simpl; [done|].
  assert (Hfresh : forall t' l, locks m !! t' = Some l -> l <> next_mutex m).
  { intros t' l Hl. destruct (Hmu t' l Hl). lia. }
  split_and!.
  - split; simpl.
    + intros t' l. rewrite lookup_insert. case_decide as Ht'; [intros [= <-]|intros Hl].
      * rewrite lookup_insert_eq. split; [eauto | lia].
      * destruct (Hmu t' l Hl). rewrite lookup_insert_ne by (symmetry; by eapply Hfresh).
        split; [done | lia].
    + intros t1 t2 l. rewrite !lookup_insert. repeat case_decide; subst; try done.
      * intros [= <-] Hl. by destruct (Hfresh _ _ Hl).
      * intros Hl [= <-]. by destruct (Hfresh _ _ Hl).
      * eauto.
  - by rewrite lookup_insert_eq.
  - intros t'. unfold mutex_of. simpl. rewrite lookup_insert. case_decide as Ht'.
    + subst t'. simpl. by rewrite lookup_insert_eq, Ht.
    + destruct (locks m !! t') as [l|] eqn:Hl; [|done]. simpl.
      by rewrite lookup_insert_ne by (symmetry; by eapply Hfresh).
Qed.

Lemma getOrCreate_keeps m t t' l :
  locks m !! t' = Some l -> locks (getOrCreate t m).2 !! t' = Some l.
Proof.
  intros Ht'. unfold getOrCreate. destruct (locks m !! t) as [l'|] eqn:Ht; [done|]. simpl.
  rewrite lookup_insert_ne; [done|]. congruence.
Qed.

Lemma set_mutex_wf m t l mu :
  manager_wf m -> locks m !! t = Some l ->
  manager_wf (set_mutex l mu m) /\ mutex_of (set_mutex l mu m) t = mu /\
  (forall t', t' <> t -> mutex_of (set_mutex l mu m) t' = mutex_of m t').
Proof.
  intros [Hmu Hinj] Ht. split_and!.
  - split; simpl; [|done]. intros t' l' Hl'. destruct (Hmu _ _ Hl'). split; [|done].
    rewrite lookup_insert. by case_decide.
  - unfold mutex_of. simpl. rewrite Ht. simpl. by rewrite lookup_insert_eq.
  - intros t' Hne. unfold mutex_of. simpl. destruct (locks m !! t') as [l'|] eqn:Hl'; [|done].
    simpl. rewrite lookup_insert_ne; [done|]. intros <-. by apply Hne, (Hinj _ _ l).
Qed.

Lemma mutex_of_lookup m t l mu : locks m !! t = Some l -> mutexes m !! l = Some mu -> mutex_of m t = mu.
Proof. intros Ht Hl. unfold mutex_of. rewrite Ht. simpl. by rewrite Hl. Qed.

Lemma holders_cons t mo x h :
  holders t mo (x :: h) =
  (if decide (h_table x = t /\ h_mode x = mo) then 1 else 0) + holders t mo h.
Proof. unfold holders. simpl. rewrite bool_decide_decide. destruct (decide _); simpl; lia. Qed.

Lemma holders_remove t mo x h1 h2 :
  holders t mo (h1 ++ h2) =
  holders t mo (h1 ++ x :: h2) - (if decide (h_table x = t /\ h_mode x = mo) then 1 else 0).
Proof.
  unfold holders. rewrite !List.filter_app. simpl. rewrite bool_decide_decide, !length_app.
  destruct (decide _); simpl; lia.
Qed.

Lemma holders_nonneg t mo h : 0 <= holders t mo h.
Proof. unfold holders. lia. Qed.

(** An action on [t]'s mutex keeps the invariant when the new mutex agrees
    with the new holders of [t] and no other table's holders change. *)
Lemma set_mutex_inv m t l mu mu' h h' w w' :
  manager_wf m -> locks m !! t = Some l -> mutexes m !! l = Some mu ->
  (forall t', counts_ok (mkLockState m h w) t') ->
  (forall t' mo, t' <> t -> holders t' mo h' = holders t' mo h) ->
  (rw_readers mu = holders t Shared h ->
   holders t Exclusive h = (if decide (rw_writer mu = WHeld) then 1 else 0) ->
   (rw_writer mu = WHeld -> rw_readers mu = 0) ->
   rw_readers mu' = holders t Shared h' /\
   holders t Exclusive h' = (if decide (rw_writer mu' = WHeld) then 1 else 0) /\
   (rw_writer mu' = WHeld -> rw_readers mu' = 0)) ->
  lock_inv (mkLockState (set_mutex l mu' m) h' w').
Proof.
  intros Hwf Hl Hmu Hc Hother Hown.
  destruct (set_mutex_wf m t l mu' Hwf Hl) as (? & Hmu' & Hrest).
  split; [done|]. intros t'. specialize (Hc t'). unfold counts_ok in *. cbn [manager held] in *.
  destruct (decide (t' = t)) as [->|Hne].
  - rewrite Hmu'. rewrite (mutex_of_lookup m t l mu Hl Hmu) in Hc.
    destruct Hc as (? & ? & ?). by apply Hown.
  - by rewrite Hrest, !Hother.
Qed.

Lemma getOrCreate_counts m t h w :
  manager_wf m -> (forall t', counts_ok (mkLockState m h w) t') ->
  forall t', counts_ok (mkLockState (getOrCreate t m).2 h w) t'.
Proof.
  intros Hwf Hc t'. destruct (getOrCreate_wf m t Hwf) as (_ & _ & Hsame).
  unfold counts_ok. cbn [manager held]. rewrite Hsame. apply Hc.
Qed.

Lemma holders_cons_other t t' th mo mo' h :
  t' <> t -> holders t' mo (mkHolding th t mo' :: h) = holders t' mo h.
Proof. intros Hne. rewrite holders_cons, decide_False; [done|]. simpl. intros [? _]. congruence. Qed.

Lemma holders_remove_other t t' th mo mo' h1 h2 :
  t' <> t -> holders t' mo (h1 ++ h2) = holders t' mo (h1 ++ mkHolding th t mo' :: h2).
Proof.
  intros Hne. rewrite (holders_remove t' mo (mkHolding th t mo')), decide_False; [lia|].
  simpl. intros [? _]. congruence.
Qed.

Lemma lock_step_inv s s' : lock_step s s' -> lock_inv s -> lock_inv s'.
Proof.
  intros [th t m m' h w Hm|th t m m' h w Hm|th t m m' h w1 w2 l Hl Hm
         |th t m m' h1 h2 w l Hl Hm|th t m m' h1 h2 w l Hl Hm] [Hwf Hc];
    cbn [manager] in Hwf; unfold RLock, Lock_announce, Lock_acquire, RUnlock, Unlock in Hm;
    destruct (mutexes _ !! _) as [[wr r]|] eqn:Hmu; try discriminate Hm.
  - destruct (getOrCreate_wf m t Hwf) as (Hwf1 & Ht1 & _). destruct wr; try discriminate Hm.
    injection Hm as <-. eapply (set_mutex_inv _ t _ _ _ h _ w); try done.
    + by apply getOrCreate_counts.
    + intros. by apply holders_cons_other.
    + rewrite !holders_cons. simpl. repeat case_decide; simplify_eq/=; intuition (done || lia).
  - destruct (getOrCreate_wf m t Hwf) as (Hwf1 & Ht1 & _). destruct wr; try discriminate Hm.
    injection Hm as <-. eapply (set_mutex_inv _ t _ _ _ h _ w); try done.
    by apply getOrCreate_counts.
  - destruct wr; try discriminate Hm. destruct (r =? 0) eqn:Hr; [|discriminate Hm].
    injection Hm as <-. apply Z.eqb_eq in Hr as ->. eapply (set_mutex_inv _ t _ _ _ h _ (w1 ++ (th, t) :: w2)); try done.
    + intros. by apply holders_cons_other.
    + rewrite !holders_cons. simpl. repeat case_decide; simplify_eq/=; intuition (done || lia).
  - destruct (0 <? r) eqn:Hr; [|discriminate Hm]. apply Z.ltb_lt in Hr.
    injection Hm as <-. eapply (set_mutex_inv _ t _ _ _ (h1 ++ mkHolding th t Shared :: h2) _ w); try done.
    + intros t' mo Hne. exact (holders_remove_other t t' th mo Shared h1 h2 Hne).
    + rewrite !(holders_remove t _ (mkHolding th t Shared) h1 h2). simpl.
      repeat case_decide; simplify_eq/=; intuition (done || lia).
  - destruct wr; try discriminate Hm.
    injection Hm as <-. eapply (set_mutex_inv _ t _ _ _ (h1 ++ mkHolding th t Exclusive :: h2) _ w); try done.
    + intros t' mo Hne. exact (holders_remove_other t t' th mo Exclusive h1 h2 Hne).
    + rewrite !(holders_remove t _ (mkHolding th t Exclusive) h1 h2). simpl.
      repeat case_decide; simplify_eq/=; intuition (done || lia).
Qed.

Lemma lock_reachable_inv s : lock_reachable s -> lock_inv s.
Proof.
  unfold lock_reachable. remember (mkLockState NewManager [] []) as s0 eqn:E.
  intros Hr. assert (Hinit : lock_inv s0).
  { subst. split; [by split; intros *; simpl; rewrite lookup_empty|].
    intros t. unfold counts_ok, mutex_of. simpl. by rewrite lookup_empty. }
  clear E. induction Hr as [s|s s1 s2 H1 H2 IH]; [done|]. eauto using lock_step_inv.
Qed.

Lemma holders_pos t mo h : 0 < holders t mo h <-> exists th, mkHolding th t mo ∈ h.
Proof.
  induction h as [|[th t' mo'] h IH].
  - split; [done | by intros (th & ?%elem_of_nil)].
  - rewrite holders_cons. simpl. pose proof (holders_nonneg t mo h). case_decide as Hd.
    + destruct Hd as [-> ->]. split; [intros _; exists th; apply list_elem_of_here | lia].
    + rewrite Z.add_0_l, IH. split; intros [th' Hin]; exists th'.
      * by apply list_elem_of_further.
      * apply elem_of_cons in Hin as [[= -> -> ->]|Hin]; [by destruct Hd | done].
Qed.

(** ** Properties *)

(** C25. Mutual exclusion: in every state that goroutines reach by locking
    and unlocking tables through the manager, in any interleaving, at most
    one of them holds a table's lock exclusively, and while one does nobody
    holds it shared. *)
Theorem lock_mutual_exclusion (s : lock_state) (table : string) :
  lock_reachable s ->
  holders table Exclusive (held s) <= 1 /\
  (0 < holders table Exclusive (held s) -> holders table Shared (held s) = 0).
Proof.
  intros [_ Hc]%lock_reachable_inv. destruct (Hc table) as (Hr & Hx & H0).
  rewrite Hx, <- Hr. case_decide; split; try lia. auto.
Qed.

(** The manager hands out one mutex per table: two names share a mutex
    only when they are equal, asking again returns the same mutex, and the
    mutex counts exactly the shared holders of its table. *)
Theorem lock_one_mutex_per_table (s : lock_state) (t1 t2 : string) :
  lock_reachable s ->
  ((getOrCreate t1 (manager s)).1 = (getOrCreate t2 (getOrCreate t1 (manager s)).2).1 <-> t1 = t2) /\
  getOrCreate t1 (getOrCreate t1 (manager s)).2 = getOrCreate t1 (manager s) /\
  rw_readers (mutex_of (manager s) t1) = holders t1 Shared (held s).
Proof.
  intros [Hwf Hc]%lock_reachable_inv.
  destruct (getOrCreate_wf (manager s) t1 Hwf) as (Hwf1 & H1 & _).
  destruct (getOrCreate_wf _ t2 Hwf1) as (Hwf2 & H2 & _).
  assert (Hagain : getOrCreate t1 (getOrCreate t1 (manager s)).2 = getOrCreate t1 (manager s)).
  { unfold getOrCreate at 1. rewrite H1. by destruct (getOrCreate t1 (manager s)). }
  split_and!; [|done|apply Hc]. split; [|intros <-; by rewrite Hagain].
  intros E. eapply (wf_inj _ Hwf2); [|exact H2]. rewrite <- E. by apply getOrCreate_keeps.
Qed.

Definition mixed_state : lock_state :=
  mkLockState
    {| locks := {["a" := 0%nat; "b" := 1%nat]};
       mutexes := {[0%nat := mkRWMutex WNone 2; 1%nat := mkRWMutex WHeld 0]};
       next_mutex := 2 |}
    [mkHolding 3 "b" Exclusive; mkHolding 2 "a" Shared; mkHolding 1 "a" Shared] [].

Lemma mixed_state_reachable : lock_reachable mixed_state.
Proof.
  unfold lock_reachable.
  eapply rtc_l; [apply (lock_shared 1 "a"); vm_compute; reflexivity|].
  eapply rtc_l; [apply (lock_shared 2 "a"); vm_compute; reflexivity|].
  eapply rtc_l; [apply (lock_announce 3 "b"); vm_compute; reflexivity|].
  eapply rtc_l; [eapply (lock_acquire 3 "b" _ _ _ [] [] 1%nat); vm_compute; reflexivity|].
  apply rtc_refl.
Qed.

Lemma lock_mutual_exclusion_witness :
  holders "b" Exclusive (held mixed_state) = 1 /\ holders "b" Shared (held mixed_state) = 0.
Proof.
  destruct (lock_mutual_exclusion mixed_state "b" mixed_state_reachable) as [H1 H2].
  split; [reflexivity | apply H2; reflexivity].
Defined.

Lemma lock_one_mutex_per_table_witness :
  rw_readers (mutex_of (manager mixed_state) "a") = 2.
Proof.
  destruct (lock_one_mutex_per_table mixed_state "a" "b" mixed_state_reachable) as (_ & _ & Hr).
  rewrite Hr. reflexivity.
Defined.
