(* ===== verification/Models.v ===== *)
(** * Row structs of the persistence layer (internal/db/models.go)

    One Record per Go struct; a nil slice and an empty slice of column
    statistics are both the empty list here, since the code only ranges over
    them and takes their length. *)
From S2P Require Import Prelude.

(** [type ColumnStats struct] *)
Record ColumnStats := mkColumnStats {
  cs_ColumnID : Z;
  cs_NullCount : Z;
  cs_NaNCount : Z;
  cs_ValueCount : Z;
  cs_MinValue : string;
  cs_MaxValue : string;
  cs_SizeBytes : Z;
}.

(** [type PartitionRow struct] *)
Record PartitionRow := mkPartitionRow {
  pr_PartitionID : Z;
  pr_TableID : Z;
  pr_SnapshotID : Z;
  pr_PartitionKey : string;
  pr_DataFilePath : string;
  pr_FileFormat : string;
  pr_RowCount : Z;
  pr_SizeBytes : Z;
  pr_ColumnStats : list ColumnStats;
}.

(** [type TableRow struct] *)
Record TableRow := mkTableRow {
  tr_TableID : Z;
  tr_TableName : string;
  tr_SchemaJSON : string;
  tr_SchemaVersion : Z;
  tr_PartitionSpec : string;
  tr_PartitionSpecVersion : Z;
  tr_CurrentSnapshotID : Z;
  tr_PropertiesJSON : string;
}.

(** [type PartitionSpecRow struct] *)
Record PartitionSpecRow := mkPartitionSpecRow {
  psr_PartitionSpecID : Z;
  psr_TableID : Z;
  psr_SpecVersion : Z;
  psr_SpecJSON : string;
  psr_ChangedAt : string;
  psr_ChangeSummary : string;
}.

(** [type SnapshotRow struct] *)
Record SnapshotRow := mkSnapshotRow {
  sr_SnapshotID : Z;
  sr_TableID : Z;
  sr_ParentSnapshotID : Z;
  sr_Operation : string;
  sr_AddedFilesCount : Z;
  sr_DeletedFilesCount : Z;
  sr_CommittedAt : string;
}.

(** [type ManifestFileRow struct] *)
Record ManifestFileRow := mkManifestFileRow {
  mfr_ManifestFileID : Z;
  mfr_TableID : Z;
  mfr_SnapshotID : Z;
  mfr_ManifestPath : string;
  mfr_PartitionSpecID : Z;
  mfr_AddedFilesCount : Z;
  mfr_DeletedFilesCount : Z;
  mfr_AddedRowsCount : Z;
  mfr_DeletedRowsCount : Z;
  mfr_PartitionSummaries : string;
}.

(** [type ManifestListRow struct] *)
Record ManifestListRow := mkManifestListRow {
  mlr_ManifestListID : Z;
  mlr_SnapshotID : Z;
  mlr_TableID : Z;
  mlr_ManifestCount : Z;
}.
