(* ===== verification/PartitionSpec.v ===== *)
(** * Partition specs (internal/catalog/partition_spec.go)

    The data of a partition spec and the table of transforms. *)
From S2P Require Import Prelude Models.

(** [type PartitionTransform string] *)
Definition PartitionTransform : Type := string.

Definition TransformIdentity : PartitionTransform := "identity".
Definition TransformYear : PartitionTransform := "year".
Definition TransformMonth : PartitionTransform := "month".
Definition TransformDay : PartitionTransform := "day".
Definition TransformHour : PartitionTransform := "hour".
Definition TransformBucket : PartitionTransform := "bucket".
Definition TransformTruncate : PartitionTransform := "truncate".

(** [validTransforms[t]] *)
Definition validTransforms (t : PartitionTransform) : bool :=
  existsb (String.eqb t)
    [TransformIdentity; TransformYear; TransformMonth; TransformDay; TransformHour;
     TransformBucket; TransformTruncate].

Definition paramRequired (t : PartitionTransform) : bool :=
  String.eqb t TransformBucket || String.eqb t TransformTruncate.

(** [type PartitionField struct]; a nil [TransformParam] is [None]. *)
Record PartitionField := mkPartitionField {
  FieldID : Z;
  SourceColumn : string;
  Transform : PartitionTransform;
  TransformParam : option Z;
}.

(** [type PartitionSpec struct] *)
Record PartitionSpec := mkPartitionSpec { Fields : list PartitionField }.
