(* ===== verification/GoJson.v ===== *)
(** * What the code marshals, unmarshals and quotes

    [encoding/json] on the types the code gives it, over the documents of
    [Json]: column statistics, partition specs, property maps, manifest
    summaries and the [map[string]any] of a schema; and [%q] of a string.
    The wording of the decoder's errors and the Unicode tables behind
    [strconv.IsPrint] are the parameters of [Class GoText]. *)
From S2P Require Import Prelude GoStrings Json Models PartitionSpec.

#[local] Notation ascii := Ascii.ascii.
#[local] Arguments String.append : simpl nomatch.

Class GoText := {
  (** the message of [json.Unmarshal] for a Go type and a document *)
  json_error_text : string -> string -> string;
  (** [strconv.IsPrint] of a code point above U+007F *)
  is_print : Z -> bool;
}.

(** ** Matching member names *)

Definition upper (c : ascii) : ascii :=
  if in_range 97 122 (byte_val c) then byte_of (byte_val c - 32) else c.

(** [foldRune] on the runes that fold into ASCII: letters, the long s and the
    Kelvin sign. *)
Definition fold_rune (r : rune) : rune :=
  match r with
  | Plain c => Plain (upper c)
  | Multi w =>
      if String.eqb w (str2 (byte_of 197) (byte_of 191)) then Plain "S"
      else if String.eqb w (str3 (byte_of 226) (byte_of 132) (byte_of 170)) then Plain "K"
      else r
  | Invalid _ => r
  end.

Definition fold_name (s : string) : string := String.concat "" (map (fun r => rune_text (fold_rune r)) (runes s)).

(** The field [name] takes the member [key]: no two fields of the structs
    below fold to the same name. *)
Definition names (name key : string) : bool := String.eqb (fold_name name) (fold_name key).

(** ** Decoding

    A step decodes a value over what the variable holds: [None] is a type
    error, which [Unmarshal] returns after it has gone through the document. *)

Definition decode_int (fits : Z -> bool) (old : Z) (v : json) : option Z :=
  match v with
  | JNull => Some old
  | JNum lit => n ← ParseInt lit; if fits n then Some n else None
  | _ => None
  end.

Definition fits_int32 (n : Z) : bool := (- 2 ^ 31 <=? n) && (n <? 2 ^ 31).
Definition fits_int64 (n : Z) : bool := true.

Definition decode_string (old : string) (v : json) : option string :=
  match v with JNull => Some old | JStr s => Some s | _ => None end.

(** [*int]: null sets the pointer to nil. *)
Definition decode_int_pointer (old : option Z) (v : json) : option (option Z) :=
  match v with
  | JNull => Some None
  | _ => Some <$> decode_int fits_int64 (default 0 old) v
  end.

(** Every member of the name in turn: the last one stays. *)
Definition decode_field {A} (name : string) (step : A -> json -> option A) (members : list (string * json))
    (init : A) : option A :=
  foldl (fun acc kv => a ← acc; if names name kv.1 then step a kv.2 else Some a) (Some init) members.

(** A slice with its backing array: an element is decoded over the one that
    is there, an empty array and null give a new slice. *)
Fixpoint decode_elements {A} (zero : A) (step : A -> json -> option A) (backing : list A) (l : list json)
    : option (list A) :=
  match l with
  | [] => Some backing
  | v :: l' =>
      x ← step (default zero (head backing)) v;
      xs ← decode_elements zero step (tail backing) l'; Some (x :: xs)
  end.

Definition decode_slice {A} (zero : A) (step : A -> json -> option A) (old : list A * nat) (v : json)
    : option (list A * nat) :=
  match v with
  | JNull | JArr [] => Some ([], 0%nat)
  | JArr l => xs ← decode_elements zero step old.1 l; Some (xs, length l)
  | _ => None
  end.

Definition slice_of {A} (s : list A * nat) : list A := take s.2 s.1.

Definition zero_stats : ColumnStats := mkColumnStats 0 0 0 0 "" "" 0.

Definition decode_column_stats (old : ColumnStats) (v : json) : option ColumnStats :=
  match v with
  | JNull => Some old
  | JObj ms =>
      id ← decode_field "column_id" (decode_int fits_int32) ms (cs_ColumnID old);
      nulls ← decode_field "null_count" (decode_int fits_int64) ms (cs_NullCount old);
      nans ← decode_field "nan_count" (decode_int fits_int64) ms (cs_NaNCount old);
      values ← decode_field "value_count" (decode_int fits_int64) ms (cs_ValueCount old);
      lo ← decode_field "min_value" decode_string ms (cs_MinValue old);
      hi ← decode_field "max_value" decode_string ms (cs_MaxValue old);
      size ← decode_field "size_bytes" (decode_int fits_int64) ms (cs_SizeBytes old);
      Some (mkColumnStats id nulls nans values lo hi size)
  | _ => None
  end.

Definition zero_field : PartitionField := mkPartitionField 0 "" "" None.

Definition decode_partition_field (old : PartitionField) (v : json) : option PartitionField :=
  match v with
  | JNull => Some old
  | JObj ms =>
      id ← decode_field "field_id" (decode_int fits_int64) ms (FieldID old);
      column ← decode_field "source_column" decode_string ms (SourceColumn old);
      transform ← decode_field "transform" decode_string ms (Transform old);
      param ← decode_field "transform_param" decode_int_pointer ms (TransformParam old);
      Some (mkPartitionField id column transform param)
  | _ => None
  end.

Definition decode_spec (v : json) : option PartitionSpec :=
  match v with
  | JNull => Some (mkPartitionSpec [])
  | JObj ms =>
      fields ← decode_field "fields" (decode_slice zero_field decode_partition_field) ms ([], 0%nat);
      Some (mkPartitionSpec (slice_of fields))
  | _ => None
  end.

(** A map entry is decoded afresh, null as the zero value. *)
Definition decode_properties (v : json) : option (gmap string string) :=
  match v with
  | JNull => Some ∅
  | JObj ms => foldl (fun acc kv => m ← acc; s ← decode_string "" kv.2; Some (<[kv.1 := s]> m)) (Some ∅) ms
  | _ => None
  end.

(** ** Numbers in [any]: [strconv.ParseFloat(lit, 64)] *)

(** The least value that rounds out of range. *)
Definition float_limit : Z := 2 ^ 1024 - 2 ^ 970.

(** Exponent digits, which stop adding up past 10000. *)
Fixpoint exp_digits (s : string) (e : Z) : Z :=
  match s with
  | String c s' => exp_digits s' (if e <? 10000 then e * 10 + (byte_val c - 48) else e)
  | EmptyString => e
  end.

Definition exponent (s : string) : Z :=
  match s with
  | String _ (String g s') =>
      if byte_val g =? 45 then - exp_digits s' 0
      else if byte_val g =? 43 then exp_digits s' 0
      else exp_digits (String g s') 0
  | _ => 0
  end.

(** [ErrRange] *)
Definition float_overflows (lit : string) : bool :=
  let s := match lit with String c s' => if byte_val c =? 45 then s' else lit | EmptyString => lit end in
  match (i ← int_part s; f ← frac_part i.2; Some (i.1, f.1, f.2)) with
  | None => false
  | Some (i, f, ex) =>
      let f := match f with String _ f' => f' | EmptyString => "" end in
      let m := default 0 (parse_digits (i ++ f) 0) in
      let e := exponent ex - Z.of_nat (String.length f) in
      if m =? 0 then false
      else if 0 <=? e then (400 <? e) || (float_limit <=? m * 10 ^ e)
      else (- e <=? Z.of_nat (String.length (i ++ f))) && (float_limit * 10 ^ (- e) <=? m)
  end.

Fixpoint floats_ok (v : json) : bool :=
  match v with
  | JNum lit => negb (float_overflows lit)
  | JArr l => forallb floats_ok l
  | JObj l => forallb (fun kv => floats_ok kv.2) l
  | _ => true
  end.

(** ** Encoding *)

Definition json_int (n : Z) : json := JNum (FormatInt n).

(** [omitempty] on a string *)
Definition non_empty (name s : string) : list (string * json) :=
  if String.eqb s "" then [] else [(name, JStr s)].

Definition stats_members (c : ColumnStats) : list (string * json) :=
  [("column_id", json_int (cs_ColumnID c)); ("null_count", json_int (cs_NullCount c));
   ("nan_count", json_int (cs_NaNCount c)); ("value_count", json_int (cs_ValueCount c))] ++
  non_empty "min_value" (cs_MinValue c) ++ non_empty "max_value" (cs_MaxValue c) ++
  [("size_bytes", json_int (cs_SizeBytes c))].

Definition field_members (f : PartitionField) : list (string * json) :=
  [("field_id", json_int (FieldID f)); ("source_column", JStr (SourceColumn f)); ("transform", JStr (Transform f))] ++
  match TransformParam f with Some n => [("transform_param", json_int n)] | None => [] end.

Definition stats_doc (stats : list ColumnStats) : json := JArr (map (fun c => JObj (stats_members c)) stats).

(** A spec without fields is written as an empty array (a nil slice would be
    null); [ValidateSpecChange] rejects both. *)
Definition spec_doc (spec : PartitionSpec) : json :=
  JObj [("fields", JArr (map (fun f => JObj (field_members f)) (Fields spec)))].

(** Map entries in the byte order of their keys. *)
Fixpoint insert_entry (x : string * string) (l : list (string * string)) : list (string * string) :=
  match l with
  | [] => [x]
  | y :: l' => if string_ltb y.1 x.1 then y :: insert_entry x l' else x :: l
  end.

Definition sorted_entries (m : gmap string string) : list (string * string) :=
  foldr insert_entry [] (map_to_list m).

Definition map_doc (m : gmap string string) : json :=
  JObj (map (fun kv => (kv.1, JStr kv.2)) (sorted_entries m)).

(** ** [json.Marshal], [json.Unmarshal] *)

Section codecs.
Context `{GoText}.

Definition unmarshal {A} (type : string) (decode : json -> option A) (text : string) : result A :=
  match (v ← json_parse text; decode v) with
  | Some x => Ok x
  | None => Err (ErrText (json_error_text type text))
  end.

(** Values of these types never fail to marshal. *)
Definition json_marshal_stats (stats : list ColumnStats) : result string := Ok (json_print (stats_doc stats)).
Definition json_marshal_spec (spec : PartitionSpec) : result string := Ok (json_print (spec_doc spec)).
Definition json_marshal_properties (m : gmap string string) : result string := Ok (json_print (map_doc m)).
Definition json_marshal_summaries (l : list (gmap string string)) : result string :=
  Ok (json_print (JArr (map map_doc l))).

Definition json_unmarshal_stats : string -> result (list ColumnStats) :=
  unmarshal "[]db.ColumnStats" (fun v => slice_of <$> decode_slice zero_stats decode_column_stats ([], 0%nat) v).
Definition json_unmarshal_spec : string -> result PartitionSpec := unmarshal "catalog.PartitionSpec" decode_spec.
Definition json_unmarshal_properties : string -> result (gmap string string) :=
  unmarshal "map[string]string" decode_properties.

(** Into a [map[string]any]: how many keys it has, [None] for a nil map. *)
Definition json_unmarshal_object : string -> result (option nat) :=
  unmarshal "map[string]interface {}" (fun v =>
    match v with
    | JNull => Some None
    | JObj ms => if floats_ok v then Some (Some (length (remove_dups (map fst ms)))) else None
    | _ => None
    end).

(** ** [%q] ([strconv.Quote]) *)

(** The code point of a sequence of [runes]. *)
Definition rune_value (w : string) : Z :=
  match w with
  | String a (String b (String c (String d EmptyString))) =>
      ((byte_val a mod 8 * 64 + byte_val b mod 64) * 64 + byte_val c mod 64) * 64 + byte_val d mod 64
  | String a (String b (String c EmptyString)) =>
      (byte_val a mod 16 * 64 + byte_val b mod 64) * 64 + byte_val c mod 64
  | String a (String b EmptyString) => byte_val a mod 32 * 64 + byte_val b mod 64
  | _ => 0
  end.

Definition hex2 (n : Z) : string := str2 (hex_digit (n / 16 mod 16)) (hex_digit (n mod 16)).

Definition quote_rune (r : rune) : string :=
  match r with
  | Invalid c => String backslash ("x" ++ hex2 (byte_val c))
  | Plain c =>
      let b := byte_val c in
      if (b =? 34) || (b =? 92) then str2 backslash c
      else if in_range 32 126 b then String c ""
      else if b =? 7 then str2 backslash "a"
      else if b =? 8 then str2 backslash "b"
      else if b =? 12 then str2 backslash "f"
      else if b =? 10 then str2 backslash "n"
      else if b =? 13 then str2 backslash "r"
      else if b =? 9 then str2 backslash "t"
      else if b =? 11 then str2 backslash "v"
      else String backslash ("x" ++ hex2 b)
  | Multi w =>
      let n := rune_value w in
      if is_print n then w
      else if n <? 65536 then String backslash ("u" ++ hex2 (n / 256) ++ hex2 n)
      else String backslash ("U" ++ hex2 (n / 16777216) ++ hex2 (n / 65536) ++ hex2 (n / 256) ++ hex2 n)
  end.

Definition go_quote (s : string) : string :=
  String dquote (String.concat "" (map quote_rune (runes s)) ++ String dquote "").
End codecs.
