(* ===== verification/Postgres.v ===== *)
(** * The PostgreSQL side: tables, statements, transactions

    The database is the relations of scripts/init_db.sql.  The SQL texts of
    internal/db/pg_client.go are translated, one definition per statement, in
    [PgClient]; this file gives them their meaning: a statement reads a view
    of the database and yields its result and its effect on the rows.

    What the server does beyond the statements is a parameter
    ([Class Postgres]): how a [jsonb] value reads back as text, how a
    timestamp does, and the wording of its errors.  A connection may fail at
    any round trip, before the server acts or after it ([fault]).

    Sequences advance outside transactions, as [nextval] does. *)
From S2P Require Import Prelude.

(** ** What the server decides *)

Class Postgres := {
  (** [$1::jsonb] rendered by [::text]; [None]: not valid JSON *)
  pg_jsonb : string -> option string;
  (** a timestamptz rendered by [::text] *)
  pg_timestamp_text : Z -> string;
  (** the text of an error, from its SQLSTATE and the relation concerned *)
  pg_error_text : string -> string -> string;
}.

(** ** Relations (scripts/init_db.sql) *)

Record tables_row := mk_tables_row {
  t_table_id : Z;
  t_table_name : string;
  t_schema_json : string;
  t_schema_version : Z;
  t_partition_spec : option string;
  t_partition_spec_version : Z;
  t_current_snapshot_id : Z;
  t_properties : string;
  t_updated_at : Z;
  t_is_deleted : bool;
}.

Record schema_history_row := mk_schema_history_row {
  sh_schema_history_id : Z;
  sh_table_id : Z;
  sh_schema_version : Z;
  sh_schema_json : string;
  sh_changed_at : Z;
  sh_change_summary : option string;
}.

Record snapshots_row := mk_snapshots_row {
  s_snapshot_id : Z;
  s_table_id : Z;
  s_parent_snapshot_id : Z;
  s_committed_at : Z;
  s_operation : string;
  s_added_files_count : Z;
  s_deleted_files_count : Z;
}.

Record partitions_row := mk_partitions_row {
  p_partition_id : Z;
  p_table_id : Z;
  p_snapshot_id : Z;
  p_partition_key : string;
  p_data_file_path : string;
  p_file_format : string;
  p_row_count : Z;
  p_size_bytes : Z;
  p_column_stats : string;
  p_is_deleted : bool;
  p_deleted_snapshot_id : option Z;
}.

Record transactions_row := mk_transactions_row {
  x_txn_id : Z;
  x_client_id : string;
  x_table_id : Z;
  x_read_snapshot_id : Z;
  x_status : string;
  x_isolation_level : string;
  x_committed_at : option Z;
}.

Record manifest_files_row := mk_manifest_files_row {
  mf_manifest_file_id : Z;
  mf_table_id : Z;
  mf_snapshot_id : Z;
  mf_manifest_path : string;
  mf_partition_spec_id : Z;
  mf_added_files_count : Z;
  mf_deleted_files_count : Z;
  mf_added_rows_count : Z;
  mf_deleted_rows_count : Z;
  mf_partition_summaries : string;
}.

Record manifest_lists_row := mk_manifest_lists_row {
  ml_manifest_list_id : Z;
  ml_snapshot_id : Z;
  ml_table_id : Z;
  ml_manifest_count : Z;
}.

Record partition_specs_row := mk_partition_specs_row {
  ps_partition_spec_id : Z;
  ps_table_id : Z;
  ps_spec_version : Z;
  ps_spec_json : string;
  ps_changed_at : Z;
  ps_change_summary : option string;
}.

Record DB := mkDB {
  tables : list tables_row;
  schema_history : list schema_history_row;
  snapshots : list snapshots_row;
  partitions : list partitions_row;
  transactions : list transactions_row;
  manifest_files : list manifest_files_row;
  manifest_lists : list manifest_lists_row;
  partition_specs : list partition_specs_row;
}.

Definition empty_db : DB := mkDB [] [] [] [] [] [] [] [].

Definition set_tables (x : list tables_row) (d : DB) : DB :=
  mkDB x (schema_history d) (snapshots d) (partitions d) (transactions d)
       (manifest_files d) (manifest_lists d) (partition_specs d).
Definition set_schema_history (x : list schema_history_row) (d : DB) : DB :=
  mkDB (tables d) x (snapshots d) (partitions d) (transactions d)
       (manifest_files d) (manifest_lists d) (partition_specs d).
Definition set_snapshots (x : list snapshots_row) (d : DB) : DB :=
  mkDB (tables d) (schema_history d) x (partitions d) (transactions d)
       (manifest_files d) (manifest_lists d) (partition_specs d).
Definition set_partitions (x : list partitions_row) (d : DB) : DB :=
  mkDB (tables d) (schema_history d) (snapshots d) x (transactions d)
       (manifest_files d) (manifest_lists d) (partition_specs d).
Definition set_transactions (x : list transactions_row) (d : DB) : DB :=
  mkDB (tables d) (schema_history d) (snapshots d) (partitions d) x
       (manifest_files d) (manifest_lists d) (partition_specs d).
Definition set_manifest_files (x : list manifest_files_row) (d : DB) : DB :=
  mkDB (tables d) (schema_history d) (snapshots d) (partitions d) (transactions d)
       x (manifest_lists d) (partition_specs d).
Definition set_manifest_lists (x : list manifest_lists_row) (d : DB) : DB :=
  mkDB (tables d) (schema_history d) (snapshots d) (partitions d) (transactions d)
       (manifest_files d) x (partition_specs d).
Definition set_partition_specs (x : list partition_specs_row) (d : DB) : DB :=
  mkDB (tables d) (schema_history d) (snapshots d) (partitions d) (transactions d)
       (manifest_files d) (manifest_lists d) x.

(** ** Sequences of the BIGSERIAL columns *)

Inductive seq_name :=
| SeqTables | SeqSchemaHistory | SeqSnapshots | SeqPartitions | SeqTransactions
| SeqManifestFiles | SeqManifestLists | SeqPartitionSpecs.

#[export] Instance seq_name_eq_dec : EqDecision seq_name.
Proof. solve_decision. Defined.

(** The last value each sequence returned. *)
Definition Seqs : Type := seq_name -> Z.

Definition seq_bump (n : seq_name) (q : Seqs) : Seqs :=
  fun n' => if decide (n' = n) then q n + 1 else q n'.

(** ** Statements *)

Section statements.
Context `{Postgres}.

Definition pg_err (code relation : string) : error := PgError code (pg_error_text code relation).

(** The value a statement answers with, and what it does to the rows. *)
Definition Stmt (A : Type) : Type := Z -> DB -> Seqs -> result (A * (DB -> DB)) * Seqs.

(** A query: it changes nothing. *)
Definition select {A} (f : DB -> A) : Stmt A := fun _ d q => (Ok (f d, fun d' => d'), q).

(** A statement the server refuses. *)
Definition refuse {A} (e : error) : Stmt A := fun _ _ q => (Err e, q).

(** [k] with the next value of a sequence; the value stays consumed whatever
    [k] does. *)
Definition with_nextval {A} (n : seq_name) (k : Z -> Stmt A) : Stmt A := fun now d q =>
  if q n <? 2 ^ 63 - 1 then k (q n + 1) now d (seq_bump n q)
  else (Err (pg_err "2200H" ""), q).

(** A parameter cast to [jsonb]. *)
Definition with_jsonb {A} (text : string) (k : string -> Stmt A) : Stmt A :=
  match pg_jsonb text with
  | Some j => k j
  | None => refuse (pg_err "22P02" "jsonb")
  end.

(** A constraint on the current rows. *)
Definition check {A} (b : DB -> bool) (code relation : string) (k : Stmt A) : Stmt A := fun now d q =>
  if b d then k now d q else (Err (pg_err code relation), q).

(** Rows inserted, with the value RETURNING gives. *)
Definition insert_row {A} (a : A) (eff : DB -> DB) : Stmt (list A) := fun _ _ q => (Ok ([a], eff), q).

(** [now()] *)
Definition with_now {A} (k : Z -> Stmt A) : Stmt A := fun now d q => k now now d q.

(** Rows an UPDATE or DELETE touches: how many, and its effect. *)
Definition modify {A} (sel : DB -> list A) (eff : DB -> DB) : Stmt Z := fun _ d q =>
  (Ok (Z.of_nat (length (sel d)), eff), q).

End statements.

(** [UPDATE ... SET upd WHERE cond] on one relation *)
Definition update_where {A} (cond : A -> bool) (upd : A -> A) (rows : list A) : list A :=
  map (fun r => if cond r then upd r else r) rows.

(** [DELETE FROM ... WHERE cond] on one relation *)
Definition delete_where {A} (cond : A -> bool) (rows : list A) : list A :=
  List.filter (fun r => negb (cond r)) rows.

(** ** Connections and transactions *)

(** A round trip that fails, with the text of the error: the statement did
    not reach the server, or the server acted on it and the reply was lost. *)
Inductive fault := Delivered | Lost (text : string) | LostReply (text : string).

(** An open transaction: its start time, and the effects of its statements
    on top of the committed rows (READ COMMITTED); [None] once a statement
    has failed. *)
Record TxState := mkTxState { tx_start : Z; tx_log : option (list (DB -> DB)) }.

Record PG := mkPG {
  pg_db : DB;
  pg_txs : gmap Z TxState;
  pg_next_tx : Z;
  pg_seqs : Seqs;
  pg_now : Z;
  pg_net : list fault;
}.

Definition set_db (d : DB) (w : PG) : PG :=
  mkPG d (pg_txs w) (pg_next_tx w) (pg_seqs w) (pg_now w) (pg_net w).
Definition set_txs (t : gmap Z TxState) (w : PG) : PG :=
  mkPG (pg_db w) t (pg_next_tx w) (pg_seqs w) (pg_now w) (pg_net w).
Definition set_seqs (q : Seqs) (w : PG) : PG :=
  mkPG (pg_db w) (pg_txs w) (pg_next_tx w) q (pg_now w) (pg_net w).
Definition set_net (n : list fault) (w : PG) : PG :=
  mkPG (pg_db w) (pg_txs w) (pg_next_tx w) (pg_seqs w) (pg_now w) n.

(** What happens to the next round trip. *)
Definition next_fault (w : PG) : fault := match pg_net w with [] => Delivered | f :: _ => f end.
Definition use_fault (w : PG) : PG := set_net (tail (pg_net w)) w.

(** Committed rows with a transaction's own effects. *)
Definition tx_view (log : list (DB -> DB)) (d : DB) : DB := foldl (fun d f => f d) d log.

(** The server runs a statement outside any transaction. *)
Definition exec_pool {A} (st : Stmt A) (w : PG) : result A * PG :=
  match st (pg_now w) (pg_db w) (pg_seqs w) with
  | (Ok (a, eff), q) => (Ok a, set_seqs q (set_db (eff (pg_db w)) w))
  | (Err e, q) => (Err e, set_seqs q w)
  end.

Definition pool {A} (st : Stmt A) (w : PG) : result A * PG :=
  match next_fault w with
  | Delivered => exec_pool st (use_fault w)
  | Lost e => (Err (ErrText e), use_fault w)
  | LostReply e => (Err (ErrText e), (exec_pool st (use_fault w)).2)
  end.

(** [pool.BeginTx(ctx, pgx.TxOptions{})] *)
Definition pg_begin (w : PG) : result Z * PG :=
  match next_fault w with
  | Delivered =>
      (Ok (pg_next_tx w),
       mkPG (pg_db w) (<[pg_next_tx w := mkTxState (pg_now w) (Some [])]> (pg_txs w))
            (pg_next_tx w + 1) (pg_seqs w) (pg_now w) (tail (pg_net w)))
  | Lost e | LostReply e => (Err (ErrText e), use_fault w)
  end.

Definition tx_abort (tx : Z) (t : TxState) (w : PG) : PG :=
  set_txs (<[tx := mkTxState (tx_start t) None]> (pg_txs w)) w.

(** The server runs a statement inside transaction [tx]. *)
Definition exec_tx {A} `{Postgres} (tx : Z) (t : TxState) (st : Stmt A) (w : PG) : result A * PG :=
  match tx_log t with
  | None => (Err (pg_err "25P02" ""), w)
  | Some log =>
      match st (tx_start t) (tx_view log (pg_db w)) (pg_seqs w) with
      | (Ok (a, eff), q) =>
          (Ok a, set_seqs q (set_txs (<[tx := mkTxState (tx_start t) (Some (log ++ [eff]))]> (pg_txs w)) w))
      | (Err e, q) => (Err e, set_seqs q (tx_abort tx t w))
      end
  end.

(** A statement on a [pgx.Tx]; a broken round trip loses the transaction. *)
Definition in_tx {A} `{Postgres} (tx : Z) (st : Stmt A) (w : PG) : result A * PG :=
  match pg_txs w !! tx with
  | None => (Err (ErrText "tx is closed"), w)
  | Some t =>
      match next_fault w with
      | Delivered => exec_tx tx t st (use_fault w)
      | Lost e => (Err (ErrText e), tx_abort tx t (use_fault w))
      | LostReply e => (Err (ErrText e), tx_abort tx t (exec_tx tx t st (use_fault w)).2)
      end
  end.

(** The server commits: the effects take hold, unless a statement failed. *)
Definition exec_commit (tx : Z) (t : TxState) (w : PG) : result unit * PG :=
  match tx_log t with
  | Some log => (Ok tt, set_txs (delete tx (pg_txs w)) (set_db (tx_view log (pg_db w)) w))
  | None => (Err (ErrText "commit unexpectedly resulted in rollback"),
             set_txs (delete tx (pg_txs w)) w)
  end.

(** [tx.Commit(ctx)] *)
Definition pg_commit (tx : Z) (w : PG) : result unit * PG :=
  match pg_txs w !! tx with
  | None => (Err (ErrText "tx is closed"), w)
  | Some t =>
      match next_fault w with
      | Delivered => exec_commit tx t (use_fault w)
      | Lost e => (Err (ErrText e), set_txs (delete tx (pg_txs w)) (use_fault w))
      | LostReply e => (Err (ErrText e), (exec_commit tx t (use_fault w)).2)
      end
  end.

(** [tx.Rollback(ctx)], its error ignored; nothing is left of an open
    transaction, and a closed one is not touched. *)
Definition pg_rollback (tx : Z) (w : PG) : PG := set_txs (delete tx (pg_txs w)) w.
