(* ===== verification/JsonFacts.v ===== *)
(** * Documents through the database

    What the codecs of [GoJson] write is well-formed, and reading it back
    gives the value, also after the database has kept it as [jsonb], which
    forgets white space and the order of members ([Class Jsonb]). *)
From S2P Require Import Prelude GoStrings Json Models PartitionSpec GoJson Postgres.

(** ** [jsonb] *)

(** Documents of integers and distinct keys. *)
Fixpoint plain_doc (v : json) : bool :=
  match v with
  | JNum lit => match ParseInt lit with Some n => String.eqb lit (FormatInt n) | None => false end
  | JArr l => forallb plain_doc l
  | JObj l => forallb (fun kv => plain_doc kv.2) l && bool_decide (NoDup (map (fun kv => to_valid kv.1) l))
  | _ => true
  end.

Definition scalar (v : json) : bool := match v with JArr _ | JObj _ => false | _ => true end.

#[local] Unset Elimination Schemes.

(** The same document up to the order of members. *)
Inductive jsonb_same : json -> json -> Prop :=
| same_scalar v : scalar v = true -> jsonb_same v v
| same_array l l' : Forall2 jsonb_same l l' -> jsonb_same (JArr l) (JArr l')
| same_object l l1 l' :
    Forall2 (fun a b => a.1 = b.1 /\ jsonb_same a.2 b.2) l l1 -> l1 ≡ₚ l' -> jsonb_same (JObj l) (JObj l').

#[local] Set Elimination Schemes.

(** The server gives back the document it was given: [jsonb] does not keep
    white space or the order of members, and keeps integers. *)
Class Jsonb `{Postgres} :=
  jsonb_keeps : forall v t, plain_doc v = true -> json_depth v <= max_depth -> pg_jsonb (json_print v) = Some t ->
    exists v', json_parse t = Some v' /\ jsonb_same (json_norm v) v'.

Lemma jsonb_same_refl v : jsonb_same v v.
Proof.
  induction v as [|b|n|s|l IH|l IH] using json_ind; try (by apply same_scalar).
  - apply same_array. induction IH; by constructor.
  - eapply same_object; [|done]. induction IH; by constructor.
Qed.

Lemma plain_literals v : plain_doc v = true -> json_literals v = true.
Proof.
  induction v as [|b|n|s|l IH|l IH] using json_ind; cbn [plain_doc json_literals]; try done.
  - destruct (ParseInt n) as [k|] eqn:E; [|done]. intros ->%String.eqb_eq.
    apply num_literal_FormatInt. by eapply ParseInt_range.
  - rewrite !forallb_forall. rewrite Forall_forall in IH. intros Hl x Hx. apply IH; [by apply list_elem_of_In | by apply Hl].
  - intros [Hl _]%andb_true_iff. rewrite forallb_forall in *. rewrite Forall_forall in IH.
    intros x Hx. apply IH; [by apply list_elem_of_In | by apply Hl].
Qed.

Lemma to_valid_idem s : to_valid (to_valid s) = to_valid s.
Proof. apply to_valid_id, to_valid_valid. Qed.

Lemma json_norm_idem v : json_norm (json_norm v) = json_norm v.
Proof.
  induction v as [|b|n|s|l IH|l IH] using json_ind; cbn [json_norm]; try done.
  - by rewrite to_valid_idem.
  - f_equal. rewrite map_map. apply map_ext_in. intros x Hx. rewrite Forall_forall in IH. by apply IH, list_elem_of_In.
  - f_equal. rewrite map_map. apply map_ext_in. intros x Hx. cbn [fst snd]. rewrite to_valid_idem. f_equal.
    rewrite Forall_forall in IH. by apply IH, list_elem_of_In.
Qed.

Lemma literals_norm v : json_literals (json_norm v) = json_literals v.
Proof.
  induction v as [|b|n|s|l IH|l IH] using json_ind; cbn [json_norm json_literals]; try done;
    induction IH as [|x l Hx _ IHl]; cbn [map forallb snd]; [done | by rewrite Hx, IHl | done | by rewrite Hx, IHl].
Qed.

Lemma depth_norm v : json_depth (json_norm v) = json_depth v.
Proof.
  induction v as [|b|n|s|l IH|l IH] using json_ind; cbn [json_norm json_depth]; try done; f_equal;
    induction IH as [|x l Hx _ IHl]; cbn [map foldr snd]; [done | by rewrite Hx, IHl | done | by rewrite Hx, IHl].
Qed.

(** ** Decoding members in any order *)

Lemma decode_field_filter {A} name (step : A -> json -> option A) ms init :
  decode_field name step ms init =
  foldl (fun acc v => a ← acc; step a v) (Some init) (map snd (List.filter (fun kv => names name kv.1) ms)).
Proof.
  unfold decode_field. generalize (Some init) as acc. induction ms as [|kv ms IH]; intros acc; [done|].
  cbn [foldl List.filter]. rewrite IH. destruct (names name kv.1); [done|]. f_equal. by destruct acc.
Qed.

Lemma decode_field_perm {A} name (step : A -> json -> option A) ms ms' init : ms ≡ₚ ms' ->
  (length (List.filter (names name) (map fst ms)) <= 1)%nat ->
  decode_field name step ms' init = decode_field name step ms init.
Proof.
  intros Hp Hl. rewrite !decode_field_filter. do 2 f_equal.
  assert (E : length (List.filter (names name) (map fst ms)) = length (List.filter (fun kv => names name kv.1) ms)).
  { clear. induction ms as [|kv ms IH]; [done|]. cbn. destruct (names name kv.1); cbn; by rewrite IH. }
  rewrite E in Hl. clear E.
  assert (Hf : List.filter (fun kv => names name kv.1) ms ≡ₚ List.filter (fun kv => names name kv.1) ms') by (by apply filter_Permutation).
  destruct (List.filter _ ms) as [|x [|]]; cbn in Hl; [by apply Permutation_nil_l in Hf | | lia].
  by apply Permutation_singleton_l in Hf.
Qed.

(** ** What the codecs write *)

Lemma plain_int n : is_int64 n -> plain_doc (json_int n) = true.
Proof. intros Hn. cbn. rewrite ParseInt_FormatInt by done. by apply String.eqb_eq. Qed.

Lemma decode_json_int fits old n : is_int64 n -> fits n = true -> decode_int fits old (json_int n) = Some n.
Proof. intros Hn Hf. cbn. rewrite ParseInt_FormatInt by done. cbn. by rewrite Hf. Qed.

(** The integers fit their types, the texts are valid. *)
Definition stats_ok (c : ColumnStats) : Prop :=
  is_int32 (cs_ColumnID c) /\ is_int64 (cs_NullCount c) /\ is_int64 (cs_NaNCount c) /\ is_int64 (cs_ValueCount c) /\
  is_int64 (cs_SizeBytes c) /\ ValidString (cs_MinValue c) = true /\ ValidString (cs_MaxValue c) = true.

Definition field_text_ok (f : PartitionField) : Prop :=
  is_int64 (FieldID f) /\ ValidString (SourceColumn f) = true /\ ValidString (Transform f) = true /\
  (forall n, TransformParam f = Some n -> is_int64 n).

Lemma is_int32_64 n : is_int32 n -> is_int64 n.
Proof. unfold is_int32, is_int64. lia. Qed.

Lemma fits_int32_spec n : is_int32 n -> fits_int32 n = true.
Proof. unfold is_int32, fits_int32. intros Hn. apply andb_true_iff. split; [apply Z.leb_le | apply Z.ltb_lt]; lia. Qed.

Lemma plain_stats c : stats_ok c -> plain_doc (JObj (stats_members c)) = true.
Proof.
  intros (H1 & H2 & H3 & H4 & H5 & _). apply is_int32_64 in H1. unfold stats_members, non_empty. cbn [plain_doc].
  destruct (String.eqb (cs_MinValue c) ""), (String.eqb (cs_MaxValue c) ""); cbn [app forallb snd];
    rewrite !plain_int by done; reflexivity.
Qed.

Lemma norm_stats c : stats_ok c -> json_norm (JObj (stats_members c)) = JObj (stats_members c).
Proof.
  intros (_ & _ & _ & _ & _ & H1 & H2). unfold stats_members, non_empty. cbn [json_norm].
  destruct (String.eqb (cs_MinValue c) ""), (String.eqb (cs_MaxValue c) ""); cbn [app map fst snd json_norm];
    rewrite ?(to_valid_id _ H1), ?(to_valid_id _ H2); reflexivity.
Qed.

(** Evaluates the matches of member names. *)
Ltac eval_names :=
  repeat match goal with
  | |- context [names ?a ?b] => let r := eval vm_compute in (names a b) in change (names a b) with r
  end; cbn iota.

(** The keys of the members, whatever their values. *)
Lemma stats_keys c : exists lo hi,
  map fst (stats_members c) = ["column_id"; "null_count"; "nan_count"; "value_count"] ++
    (if lo : bool then [] else ["min_value"]) ++ (if hi : bool then [] else ["max_value"]) ++ ["size_bytes"].
Proof.
  exists (String.eqb (cs_MinValue c) ""), (String.eqb (cs_MaxValue c) ""). unfold stats_members, non_empty.
  by destruct (String.eqb (cs_MinValue c) ""), (String.eqb (cs_MaxValue c) "").
Qed.

Lemma stats_keys_once c name :
  name ∈ ["column_id"; "null_count"; "nan_count"; "value_count"; "min_value"; "max_value"; "size_bytes"] ->
  (length (List.filter (names name) (map fst (stats_members c))) <= 1)%nat.
Proof.
  destruct (stats_keys c) as ([] & [] & ->); rewrite !elem_of_cons; intros Hn; apply Nat.leb_le;
    repeat destruct Hn as [->|Hn]; try (by apply elem_of_nil in Hn); vm_compute; reflexivity.
Qed.

Lemma decode_stats c ms : stats_ok c -> ms ≡ₚ stats_members c -> decode_column_stats zero_stats (JObj ms) = Some c.
Proof.
  intros (H1 & H2 & H3 & H4 & H5 & _) Hp. symmetry in Hp. cbn [decode_column_stats].
  do 7 (rewrite (decode_field_perm _ _ _ _ _ Hp) by (apply stats_keys_once; set_solver)).
  clear Hp. unfold stats_members, non_empty, decode_field. apply is_int32_64 in H1 as H1'.
  destruct c as [id nulls nans values lo hi size]. cbn [cs_ColumnID cs_NullCount cs_NaNCount cs_ValueCount cs_MinValue cs_MaxValue cs_SizeBytes] in *.
  destruct (String.eqb_spec lo ""), (String.eqb_spec hi ""); subst; cbn [foldl app fst snd zero_stats]; eval_names.
  all: cbn [mbind option_bind]; apply fits_int32_spec in H1; by rewrite !decode_json_int.
Qed.

(** The scalar members of an object come back in some order. *)
Lemma same_scalars l l1 : Forall (fun kv : string * json => scalar kv.2 = true) l ->
  Forall2 (fun a b => a.1 = b.1 /\ jsonb_same a.2 b.2) l l1 -> l1 = l.
Proof.
  intros Hl. induction 1 as [|[k v] [k' v'] l l1 [Hk Hv] _ IH]; [done|]. inversion Hl as [|? ? Hs Hl']; subst. cbn in *.
  rewrite IH by done. subst. inversion Hv; subst; done.
Qed.

Lemma same_flat_object l v' : jsonb_same (JObj l) v' -> Forall (fun kv => scalar kv.2 = true) l ->
  exists l', v' = JObj l' /\ l' ≡ₚ l.
Proof.
  intros Hs Hl. inversion Hs as [? Hf| |? l1 l' H2 Hp]; subst; [done|]. exists l'. split; [done|].
  by rewrite <- Hp, (same_scalars _ _ Hl H2).
Qed.

(** An array into an empty slice. *)
Lemma decode_elements_each {A} zero (step : A -> json -> option A) l xs :
  Forall2 (fun v x => step zero v = Some x) l xs -> decode_elements zero step [] l = Some xs.
Proof. induction 1 as [|v x l xs Hv _ IH]; [done|]. cbn. by rewrite Hv, IH. Qed.

Lemma decode_slice_each {A} zero (step : A -> json -> option A) l xs :
  Forall2 (fun v x => step zero v = Some x) l xs ->
  exists n, decode_slice zero step ([], 0%nat) (JArr l) = Some n /\ slice_of n = xs.
Proof.
  intros H2. destruct l as [|v l].
  - inversion H2; subst. by exists ([], 0%nat).
  - unfold decode_slice. cbn [fst]. rewrite (decode_elements_each _ _ _ _ H2). eexists. split; [reflexivity|].
    unfold slice_of. cbn [fst snd]. rewrite (Forall2_length _ _ _ H2). apply firstn_all.
Qed.

(** A document of objects decodes element by element. *)
Lemma same_objects {A} (decode : A -> json -> option A) (zero : A) (members : A -> list (string * json)) (ok : A -> Prop) :
  (forall x, ok x -> Forall (fun kv => scalar kv.2 = true) (members x)) ->
  (forall x ms, ok x -> ms ≡ₚ members x -> decode zero (JObj ms) = Some x) ->
  forall xs l', Forall ok xs -> Forall2 jsonb_same (map (fun x => JObj (members x)) xs) l' ->
  Forall2 (fun v x => decode zero v = Some x) l' xs.
Proof.
  intros Hflat Hdec xs. induction xs as [|x xs IH]; intros l' Hok H2; inversion H2 as [|? v' ? l1 Hv Hl]; subst; [constructor|].
  inversion Hok as [|? ? Hx Hxs]; subst. constructor; [|by apply IH].
  destruct (same_flat_object _ _ Hv (Hflat x Hx)) as (ms & -> & Hp). by apply Hdec.
Qed.

Lemma stats_scalars c : Forall (fun kv => scalar kv.2 = true) (stats_members c).
Proof.
  unfold stats_members, non_empty. destruct (String.eqb (cs_MinValue c) ""), (String.eqb (cs_MaxValue c) ""); by repeat constructor.
Qed.

Lemma plain_array {A} (members : A -> list (string * json)) (xs : list A) :
  Forall (fun x => plain_doc (JObj (members x)) = true) xs ->
  plain_doc (JArr (map (fun x => JObj (members x)) xs)) = true.
Proof.
  intros H. cbn [plain_doc]. apply forallb_forall. intros v (x & <- & Hx%list_elem_of_In)%in_map_iff.
  by eapply Forall_forall in H.
Qed.

Lemma norm_array {A} (members : A -> list (string * json)) (xs : list A) :
  Forall (fun x => json_norm (JObj (members x)) = JObj (members x)) xs ->
  json_norm (JArr (map (fun x => JObj (members x)) xs)) = JArr (map (fun x => JObj (members x)) xs).
Proof.
  intros H. change (json_norm (JArr ?l)) with (JArr (map json_norm l)). f_equal. rewrite map_map. apply map_ext_in.
  intros x Hx%list_elem_of_In. by eapply Forall_forall in H.
Qed.

(** ** Partition fields *)

Lemma plain_field f : field_text_ok f -> plain_doc (JObj (field_members f)) = true.
Proof.
  intros (H1 & _ & _ & H2). unfold field_members. cbn [plain_doc].
  destruct (TransformParam f) as [n|]; cbn [app forallb snd]; rewrite !plain_int by auto; reflexivity.
Qed.

Lemma norm_field f : field_text_ok f -> json_norm (JObj (field_members f)) = JObj (field_members f).
Proof.
  intros (_ & H1 & H2 & _). unfold field_members. cbn [json_norm].
  destruct (TransformParam f); cbn [app map fst snd json_norm]; rewrite (to_valid_id _ H1), (to_valid_id _ H2); reflexivity.
Qed.

Lemma field_scalars f : Forall (fun kv => scalar kv.2 = true) (field_members f).
Proof. unfold field_members. destruct (TransformParam f); by repeat constructor. Qed.

Lemma field_keys f : exists param,
  map fst (field_members f) = ["field_id"; "source_column"; "transform"] ++ (if param : bool then ["transform_param"] else []).
Proof. unfold field_members. destruct (TransformParam f); [by exists true | by exists false]. Qed.

Lemma field_keys_once f name : name ∈ ["field_id"; "source_column"; "transform"; "transform_param"] ->
  (length (List.filter (names name) (map fst (field_members f))) <= 1)%nat.
Proof.
  destruct (field_keys f) as ([] & ->); rewrite !elem_of_cons; intros Hn; apply Nat.leb_le;
    repeat destruct Hn as [->|Hn]; try (by apply elem_of_nil in Hn); vm_compute; reflexivity.
Qed.

Lemma decode_field_doc f ms : field_text_ok f -> ms ≡ₚ field_members f ->
  decode_partition_field zero_field (JObj ms) = Some f.
Proof.
  intros (H1 & _ & _ & H2) Hp. symmetry in Hp. cbn [decode_partition_field].
  do 4 (rewrite (decode_field_perm _ _ _ _ _ Hp) by (apply field_keys_once; set_solver)).
  clear Hp. unfold field_members, decode_field. destruct f as [id column transform param].
  cbn [FieldID SourceColumn Transform TransformParam] in *.
  destruct param as [n|]; cbn [foldl app fst snd zero_field]; eval_names; cbn [mbind option_bind].
  - unfold decode_int_pointer. cbn [json_int]. fold (json_int n). by rewrite !decode_json_int by auto.
  - by rewrite !decode_json_int.
Qed.

(** ** Maps *)

Lemma insert_entry_perm x l : insert_entry x l ≡ₚ x :: l.
Proof. induction l as [|y l IH]; [done|]. cbn. destruct (string_ltb y.1 x.1); [|done]. rewrite IH. constructor. Qed.

Lemma sorted_entries_perm m : sorted_entries m ≡ₚ map_to_list m.
Proof. unfold sorted_entries. induction (map_to_list m) as [|x l IH]; [done|]. cbn. by rewrite insert_entry_perm, IH. Qed.

(** The keys and the values are valid texts. *)
Definition map_text_ok (m : gmap string string) : Prop :=
  map_Forall (fun k v => ValidString k = true /\ ValidString v = true) m.

Lemma entries_ok m : map_text_ok m -> Forall (fun kv => ValidString kv.1 = true /\ ValidString kv.2 = true) (sorted_entries m).
Proof. intros Hm. rewrite sorted_entries_perm. by apply map_Forall_to_list in Hm; eapply Forall_impl; [exact Hm | intros [] ?]. Qed.

Lemma norm_map m : map_text_ok m -> json_norm (map_doc m) = map_doc m.
Proof.
  intros Hm%entries_ok. unfold map_doc. cbn [json_norm]. f_equal. rewrite map_map. apply map_ext_in.
  intros kv Hkv%list_elem_of_In. eapply Forall_forall in Hm as [H1 H2]; [|done]. cbn [fst snd json_norm]. by rewrite !to_valid_id.
Qed.

Lemma plain_map m : map_text_ok m -> plain_doc (map_doc m) = true.
Proof.
  intros Hm%entries_ok. unfold map_doc. cbn [plain_doc]. apply andb_true_iff. split.
  - apply forallb_forall. by intros v (x & <- & _)%in_map_iff.
  - apply bool_decide_eq_true. rewrite map_map.
    rewrite (map_ext_in _ fst); [rewrite sorted_entries_perm; apply NoDup_fst_map_to_list|].
    intros kv Hkv%list_elem_of_In. eapply Forall_forall in Hm as [H1 _]; [|done]. by rewrite to_valid_id.
Qed.

Definition insert_all (l : list (string * string)) (m : gmap string string) : gmap string string :=
  foldl (fun m kv => <[kv.1 := kv.2]> m) m l.

Lemma decode_entries l m :
  foldl (fun acc kv => m ← acc; s ← decode_string "" kv.2; Some (<[kv.1 := s]> m)) (Some m)
    (map (fun kv => (kv.1, JStr kv.2)) l) = Some (insert_all l m).
Proof. revert m. induction l as [|kv l IH]; intros m; [done|]. apply IH. Qed.

Lemma insert_all_union l m : NoDup (map fst l) -> insert_all l m = list_to_map l ∪ m.
Proof.
  revert m. induction l as [|[k v] l IH]; intros m; [cbn; by rewrite (left_id_L ∅ (∪))|].
  cbn [map fst]. intros [Hk Hnd]%NoDup_cons. change (insert_all ((k, v) :: l) m) with (insert_all l (<[k:=v]> m)).
  rewrite IH by done. cbn [list_to_map foldr].
  rewrite <- insert_union_r; [by rewrite insert_union_l|]. by apply not_elem_of_list_to_map.
Qed.

Lemma decode_map_doc m ms : ms ≡ₚ map (fun kv => (kv.1, JStr kv.2)) (sorted_entries m) -> decode_properties (JObj ms) = Some m.
Proof.
  intros (l & -> & Hl)%Permutation_map_inv. cbn [decode_properties]. rewrite decode_entries. f_equal.
  rewrite sorted_entries_perm in Hl.
  assert (Hnd : NoDup (map fst l)) by (rewrite <- Hl; apply NoDup_fst_map_to_list).
  rewrite insert_all_union, (right_id_L ∅ (∪)) by done. rewrite <- (list_to_map_to_list m).
  apply list_to_map_proper; [done | by symmetry].
Qed.

(** ** Depth *)

Lemma foldr_max_le {A} (f : A -> Z) l k : 0 <= k -> (forall x, x ∈ l -> f x <= k) -> foldr (fun x a => Z.max (f x) a) 0 l <= k.
Proof.
  intros Hk Hl. induction l as [|x l IH]; cbn; [done|].
  pose proof (Hl x (list_elem_of_here _ _)). assert (foldr (fun x a => Z.max (f x) a) 0 l <= k) by (apply IH; intros; apply Hl; by right). lia.
Qed.

Lemma depth_flat l : Forall (fun kv : string * json => scalar kv.2 = true) l -> json_depth (JObj l) <= 1.
Proof.
  intros Hl. cbn [json_depth]. pose proof (foldr_max_le (fun kv => json_depth kv.2) l 0 ltac:(lia)) as Hm. cbn in Hm.
  enough (foldr (fun kv a => Z.max (json_depth kv.2) a) 0 l <= 0) by lia. apply Hm. intros kv Hkv.
  eapply Forall_forall in Hl; [|done]. by destruct kv as [? []].
Qed.

Lemma depth_array {A} (members : A -> list (string * json)) xs :
  (forall x, Forall (fun kv => scalar kv.2 = true) (members x)) ->
  json_depth (JArr (map (fun x => JObj (members x)) xs)) <= 2.
Proof.
  intros Hf. cbn [json_depth]. enough (foldr (fun x a => Z.max (json_depth x) a) 0 (map (fun x => JObj (members x)) xs) <= 1) by lia.
  apply (foldr_max_le json_depth); [lia|]. intros v (x & -> & _)%list_elem_of_fmap. by apply depth_flat.
Qed.

Lemma depth_stats stats : json_depth (stats_doc stats) <= max_depth.
Proof. pose proof (depth_array stats_members stats stats_scalars). unfold stats_doc, max_depth. lia. Qed.

Lemma depth_spec spec : json_depth (spec_doc spec) <= max_depth.
Proof.
  pose proof (depth_array field_members (Fields spec) field_scalars) as Hd. unfold spec_doc, max_depth.
  change (json_depth (JObj [(?k, ?v)])) with (1 + Z.max (json_depth v) 0). lia.
Qed.

Lemma depth_map m : json_depth (map_doc m) <= max_depth.
Proof.
  unfold map_doc, max_depth. enough (json_depth (JObj (map (fun kv => (kv.1, JStr kv.2)) (sorted_entries m))) <= 1) by lia.
  apply depth_flat, Forall_forall. by intros kv (x & -> & _)%list_elem_of_fmap.
Qed.

(** ** Values through [jsonb] *)

Definition stats_text_ok (stats : list ColumnStats) : Prop := Forall stats_ok stats.
Definition spec_text_ok (spec : PartitionSpec) : Prop := Forall field_text_ok (Fields spec).

Lemma plain_stats_doc stats : stats_text_ok stats -> plain_doc (stats_doc stats) = true.
Proof. intros H. apply plain_array. eapply Forall_impl; [exact H | apply plain_stats]. Qed.

Lemma norm_stats_doc stats : stats_text_ok stats -> json_norm (stats_doc stats) = stats_doc stats.
Proof. intros H. apply norm_array. eapply Forall_impl; [exact H | apply norm_stats]. Qed.

Lemma decode_stats_same stats v' : stats_text_ok stats -> jsonb_same (stats_doc stats) v' ->
  (exists l, v' = JArr l) /\ slice_of <$> decode_slice zero_stats decode_column_stats ([], 0%nat) v' = Some stats.
Proof.
  intros Hok Hs. inversion Hs as [? Hf|l l' H2|]; subst; [done|]. split; [by eexists|].
  destruct (decode_slice_each zero_stats decode_column_stats l' stats) as (n & -> & <-); [|done].
  apply (same_objects _ _ stats_members stats_ok); [intros; apply stats_scalars | intros; by apply decode_stats | done | done].
Qed.

Lemma plain_spec_doc spec : spec_text_ok spec -> plain_doc (spec_doc spec) = true.
Proof.
  intros H. unfold spec_doc. cbn [plain_doc forallb snd]. rewrite andb_true_r. apply andb_true_iff. split; [|done].
  apply (plain_array field_members). eapply Forall_impl; [exact H | apply plain_field].
Qed.

Lemma norm_spec_doc spec : spec_text_ok spec -> json_norm (spec_doc spec) = spec_doc spec.
Proof.
  intros H. unfold spec_doc. change (json_norm (JObj [(?k, ?v)])) with (JObj [(to_valid k, json_norm v)]).
  rewrite (norm_array field_members); [done|]. eapply Forall_impl; [exact H | apply norm_field].
Qed.

Lemma decode_spec_same spec v' : spec_text_ok spec -> jsonb_same (spec_doc spec) v' -> decode_spec v' = Some spec.
Proof.
  intros Hok Hs. inversion Hs as [? Hf| |l l1 l' H2 Hp]; subst; [done|].
  inversion H2 as [|[k a] [k' b] ? ? [Hk Hab] Hnil]; subst. inversion Hnil; subst. cbn in Hk, Hab. subst k'.
  apply Permutation_singleton_l in Hp. subst l'. inversion Hab as [? Hf|l0 l' Hl|]; subst; [done|].
  cbn [decode_spec]. unfold decode_field. cbn [foldl fst snd]. eval_names. cbn [mbind option_bind].
  destruct (decode_slice_each zero_field decode_partition_field l' (Fields spec)) as (n & -> & Hn).
  - apply (same_objects _ _ field_members field_text_ok);
      [intros; apply field_scalars | intros; by apply decode_field_doc | done | done].
  - cbn. rewrite Hn. by destruct spec.
Qed.

Lemma decode_map_same m v' : jsonb_same (map_doc m) v' -> decode_properties v' = Some m.
Proof.
  intros Hs. destruct (same_flat_object _ _ Hs) as (l & -> & Hl); [|by apply decode_map_doc].
  apply Forall_forall. by intros kv (x & -> & _)%list_elem_of_fmap.
Qed.

Section kept.
Context `{Postgres} `{GoText}.

Lemma unmarshal_kept `{!Jsonb} {A} type (decode : json -> option A) v t x :
  plain_doc v = true -> json_depth v <= max_depth -> json_norm v = v ->
  (forall v', jsonb_same v v' -> decode v' = Some x) -> pg_jsonb (json_print v) = Some t -> unmarshal type decode t = Ok x.
Proof.
  intros Hp Hdep Hn Hd Ht. destruct (jsonb_keeps v t Hp Hdep Ht) as (v' & Hv & Hs). rewrite Hn in Hs.
  unfold unmarshal. rewrite Hv. cbn. by rewrite (Hd v' Hs).
Qed.

(** Without the database in between. *)
Lemma unmarshal_marshal {A} type (decode : json -> option A) v x :
  plain_doc v = true -> json_depth v <= max_depth -> json_norm v = v ->
  (forall v', jsonb_same v v' -> decode v' = Some x) -> unmarshal type decode (json_print v) = Ok x.
Proof.
  intros Hp Hdep Hn Hd. unfold unmarshal. rewrite json_parse_print, Hn by (done || by apply plain_literals).
  cbn. by rewrite (Hd v (jsonb_same_refl v)).
Qed.

Lemma spec_kept `{!Jsonb} spec t : spec_text_ok spec -> pg_jsonb (json_print (spec_doc spec)) = Some t ->
  json_unmarshal_spec t = Ok spec.
Proof.
  intros Hok. apply unmarshal_kept; [by apply plain_spec_doc | apply depth_spec | by apply norm_spec_doc|].
  intros v'. by apply decode_spec_same.
Qed.

Lemma spec_direct spec : spec_text_ok spec -> json_unmarshal_spec (json_print (spec_doc spec)) = Ok spec.
Proof.
  intros Hok. apply unmarshal_marshal; [by apply plain_spec_doc | apply depth_spec | by apply norm_spec_doc|].
  intros v'. by apply decode_spec_same.
Qed.

Lemma properties_kept `{!Jsonb} m t : map_text_ok m -> pg_jsonb (json_print (map_doc m)) = Some t ->
  json_unmarshal_properties t = Ok m.
Proof.
  intros Hok. apply unmarshal_kept; [by apply plain_map | apply depth_map | by apply norm_map|].
  intros v'. apply decode_map_same.
Qed.

End kept.
