(* ===== verification/World.v ===== *)
(** * The server process: shared state and atomic actions

    [Sys] is everything the goroutines of one server share: the PostgreSQL
    connections, the lock manager, the transaction manager and the partition
    cache.  Each action below is one atomic step on it: one SQL round trip,
    one lock operation, one critical section of a manager's mutex. *)
From S2P Require Import Prelude Prog LRU MVCC Lock Models Postgres.

Record Sys := mkSys {
  sys_pg : PG;
  sys_locks : Manager;
  sys_mvcc : MVCCManager;
  sys_cache : LRU string (list PartitionRow);
  sys_disable_cache : bool;
  sys_clock : Z;
}.

Definition set_pg (w : PG) (s : Sys) : Sys :=
  mkSys w (sys_locks s) (sys_mvcc s) (sys_cache s) (sys_disable_cache s) (sys_clock s).
Definition set_locks (m : Manager) (s : Sys) : Sys :=
  mkSys (sys_pg s) m (sys_mvcc s) (sys_cache s) (sys_disable_cache s) (sys_clock s).
Definition set_mvcc (m : MVCCManager) (s : Sys) : Sys :=
  mkSys (sys_pg s) (sys_locks s) m (sys_cache s) (sys_disable_cache s) (sys_clock s).
Definition set_cache (c : LRU string (list PartitionRow)) (s : Sys) : Sys :=
  mkSys (sys_pg s) (sys_locks s) (sys_mvcc s) c (sys_disable_cache s) (sys_clock s).

(** The committed rows. *)
Definition db (s : Sys) : DB := pg_db (sys_pg s).

(** ** Actions *)

Definition on_pg {A} (f : PG -> A * PG) : Prog Sys A :=
  act (fun s => let (a, w) := f (sys_pg s) in (a, set_pg w s)).

Definition on_cache {A} (f : LRU string (list PartitionRow) -> A * LRU string (list PartitionRow)) : Prog Sys A :=
  act (fun s => let (a, c) := f (sys_cache s) in (a, set_cache c s)).

(** A call of the transaction manager, at the process clock. *)
Definition on_mvcc {A} (f : Z -> MVCCManager -> A * MVCCManager) : Prog Sys A :=
  act (fun s => let (a, m) := f (sys_clock s) (sys_mvcc s) in (a, set_mvcc m s)).

(** [r.disableCache] *)
Definition cache_disabled : Prog Sys bool := act (fun s => (sys_disable_cache s, s)).

(** [rows, err := Query(...)] collected *)
Definition pool_query {A} (st : Stmt (list A)) : Prog Sys (result (list A)) := on_pg (pool st).

(** The first row of a result, or [pgx.ErrNoRows]. *)
Definition first_row {A} (r : result (list A)) : result A :=
  match r with
  | Ok (x :: _) => Ok x
  | Ok [] => Err ErrNoRows
  | Err e => Err e
  end.

(** [QueryRow(...).Scan(...)] *)
Definition pool_query_row {A} (st : Stmt (list A)) : Prog Sys (result A) :=
  let* r := on_pg (pool st) in Ret (first_row r).

Definition pool_exec (st : Stmt Z) : Prog Sys (result Z) := on_pg (pool st).

Section tx_actions.
Context `{Postgres}.

Definition tx_query_row {A} (tx : Z) (st : Stmt (list A)) : Prog Sys (result A) :=
  let* r := on_pg (in_tx tx st) in Ret (first_row r).

Definition tx_exec (tx : Z) (st : Stmt Z) : Prog Sys (result Z) := on_pg (in_tx tx st).

End tx_actions.

Definition tx_commit (tx : Z) : Prog Sys (result unit) := on_pg (pg_commit tx).

Definition tx_rollback (tx : Z) : Prog Sys unit := on_pg (fun w => (tt, pg_rollback tx w)).

(** ** Locks (internal/lock/lock_manager.go) *)

Definition lock_op (f : Manager -> option Manager) : Prog Sys unit :=
  act_block (fun s => (fun m => (tt, set_locks m s)) <$> f (sys_locks s)).

Definition get_mutex (table : string) : Prog Sys nat :=
  act (fun s => let (l, m) := getOrCreate table (sys_locks s) in (l, set_locks m s)).

(** [LockShared]; the returned mutex stands for the unlock closure. *)
Definition LockShared (table : string) : Prog Sys nat :=
  let* l := get_mutex table in
  let* _ := lock_op (RLock l) in
  Ret l.

Definition LockExclusive (table : string) : Prog Sys nat :=
  let* l := get_mutex table in
  let* _ := lock_op (Lock_announce l) in
  let* _ := lock_op (Lock_acquire l) in
  Ret l.

(** [unlock := LockShared(table); defer unlock(); body] *)
Definition with_shared {A} (table : string) (body : Prog Sys A) : Prog Sys A :=
  let* l := LockShared table in deferred (lock_op (RUnlock l)) body.

(** [unlock := LockExclusive(table); defer unlock(); body] *)
Definition with_exclusive {A} (table : string) (body : Prog Sys A) : Prog Sys A :=
  let* l := LockExclusive table in deferred (lock_op (Unlock l)) body.

Definition free_mutex : RWMutex := mkRWMutex WNone 0.

(** Every table's lock is free: nobody is inside a handler. *)
Definition all_free (m : Manager) : Prop := manager_wf m /\ forall t, mutex_of m t = free_mutex.

(** [m'] gives every table the mutex state it had in [m]. *)
Record same_locks (m m' : Manager) : Prop := {
  sl_wf : manager_wf m';
  sl_pointer : forall t l, locks m !! t = Some l -> locks m' !! t = Some l;
  sl_mutex : forall t, mutex_of m' t = mutex_of m t;
}.

(** A program that touches no lock and never waits. *)
Fixpoint plain {A} (p : Prog Sys A) : Prop :=
  match p with
  | Ret _ => True
  | Act f k =>
      (forall s, exists x s', f s = Some (x, s') /\ forall m, f (set_locks m s) = Some (x, set_locks m s')) /\
      (forall x, plain (k x))
  end.

(** ** Actions of the managers *)

Lemma wp_on_cache {A} (f : LRU string (list PartitionRow) -> A * LRU string (list PartitionRow)) s
    (Q : A -> Sys -> Prop) :
  wp (on_cache f) s Q <-> Q (f (sys_cache s)).1 (set_cache (f (sys_cache s)).2 s).
Proof. unfold on_cache. rewrite wp_act. by destruct (f (sys_cache s)). Qed.

Lemma wp_on_mvcc {A} (f : Z -> MVCCManager -> A * MVCCManager) s (Q : A -> Sys -> Prop) :
  wp (on_mvcc f) s Q <->
  Q (f (sys_clock s) (sys_mvcc s)).1 (set_mvcc (f (sys_clock s) (sys_mvcc s)).2 s).
Proof. unfold on_mvcc. rewrite wp_act. by destruct (f (sys_clock s) (sys_mvcc s)). Qed.

(** ** Plain programs *)

Create HintDb plain.

Lemma plain_ret {A} (a : A) : plain (Ret a).
Proof. done. Qed.

Lemma plain_bind {A B} (p : Prog Sys A) (k : A -> Prog Sys B) :
  plain p -> (forall a, plain (k a)) -> plain (bind p k).
Proof. intros Hp Hk. induction p as [a|X f g IH]; simpl in *; [done|]. destruct Hp. eauto. Qed.

Lemma plain_act {A} (f : Sys -> A * Sys) :
  (forall s m, f (set_locks m s) = ((f s).1, set_locks m (f s).2)) -> plain (act f).
Proof.
  intros Hf. split; [|done]. intros s. exists (f s).1, (f s).2.
  split; [by destruct (f s) | intros m; by rewrite Hf].
Qed.

Lemma plain_on_pg {A} (f : PG -> A * PG) : plain (on_pg f).
Proof. apply plain_act. intros s m. simpl. by destruct (f (sys_pg s)). Qed.

Lemma plain_on_cache {A} f : plain (on_cache (A := A) f).
Proof. apply plain_act. intros s m. simpl. by destruct (f (sys_cache s)). Qed.

Lemma plain_on_mvcc {A} f : plain (on_mvcc (A := A) f).
Proof. apply plain_act. intros s m. simpl. by destruct (f (sys_clock s) (sys_mvcc s)). Qed.

Lemma plain_cache_disabled : plain cache_disabled.
Proof. by apply plain_act. Qed.

#[export] Hint Resolve plain_cache_disabled plain_ret plain_bind plain_on_pg plain_on_cache plain_on_mvcc : plain.

Lemma plain_pool_query {A} (st : Stmt (list A)) : plain (pool_query st).
Proof. apply plain_on_pg. Qed.

Lemma plain_pool_exec (st : Stmt Z) : plain (pool_exec st).
Proof. apply plain_on_pg. Qed.

Lemma plain_pool_query_row {A} (st : Stmt (list A)) : plain (pool_query_row st).
Proof. apply plain_bind; auto with plain. Qed.

Lemma plain_tx_query_row {A} `{Postgres} tx (st : Stmt (list A)) : plain (tx_query_row tx st).
Proof. apply plain_bind; auto with plain. Qed.

Lemma plain_tx_exec `{Postgres} tx (st : Stmt Z) : plain (tx_exec tx st).
Proof. apply plain_on_pg. Qed.

Lemma plain_tx_commit tx : plain (tx_commit tx).
Proof. apply plain_on_pg. Qed.

Lemma plain_tx_rollback tx : plain (tx_rollback tx).
Proof. apply plain_on_pg. Qed.

Lemma plain_deferred {A} (cleanup : Prog Sys unit) (body : Prog Sys A) :
  plain cleanup -> plain body -> plain (deferred cleanup body).
Proof. intros Hc Hb. apply plain_bind; [done|]. intros a. by apply plain_bind. Qed.

Lemma plain_for_each {A} (l : list A) (f : A -> Prog Sys (result unit)) :
  (forall x, plain (f x)) -> plain (for_each l f).
Proof.
  intros Hf. induction l as [|x l IH]; simpl; [done|]. apply plain_bind; [done|]. by intros [].
Qed.

#[export] Hint Resolve plain_pool_query plain_pool_exec plain_pool_query_row plain_tx_query_row
  plain_tx_exec plain_tx_commit plain_tx_rollback plain_deferred plain_for_each : plain.

(** Proves [plain p] for a program built from the actions by binds and
    matches on their results. *)
Ltac solve_plain :=
  repeat first
    [ progress intros
    | apply plain_ret
    | solve [eauto 2 with plain]
    | apply plain_deferred
    | apply plain_for_each
    | apply plain_bind
    | match goal with |- plain (match ?x with _ => _ end) => destruct x end ].

Lemma plain_run {A} (p : Prog Sys A) s :
  plain p -> exists a s', run p s = Some (a, s') /\ forall m, run p (set_locks m s) = Some (a, set_locks m s').
Proof.
  revert s. induction p as [a|X f k IH]; intros s; simpl; [by eauto|].
  intros [Hf Hk]. destruct (Hf s) as (x & s1 & E & Em). rewrite E.
  destruct (IH x s1 (Hk x)) as (a & s2 & Hr & Hrm). exists a, s2. split; [done|].
  intros m. by rewrite Em, Hrm.
Qed.

(** ** Locking around a body *)

Lemma same_locks_refl m : manager_wf m -> same_locks m m.
Proof. by split. Qed.

Lemma same_locks_trans m1 m2 m3 : same_locks m1 m2 -> same_locks m2 m3 -> same_locks m1 m3.
Proof. intros [? ? ?] [? ? ?]. split; [done | eauto | congruence]. Qed.

Lemma same_locks_free m m' : same_locks m m' -> all_free m -> all_free m'.
Proof. intros [? _ Hmu] [_ Hf]. split; [done|]. intros t. by rewrite Hmu. Qed.

Lemma set_locks_set_locks m m' s : set_locks m (set_locks m' s) = set_locks m s.
Proof. done. Qed.

(** What a body under a lock must guarantee: it finishes and leaves every
    lock as it found it. *)
Definition balanced {A} (body : Prog Sys A) (s : Sys) (Q : A -> Sys -> Prop) : Prop :=
  exists a s', run body s = Some (a, s') /\ same_locks (sys_locks s) (sys_locks s') /\ Q a s'.

Lemma balanced_plain {A} (p : Prog Sys A) s Q :
  plain p -> manager_wf (sys_locks s) -> wp p s Q -> balanced p s Q.
Proof.
  intros Hp Hwf Hw. destruct (plain_run p s Hp) as (a & s' & Hr & Hm).
  exists a, s'. unfold wp in Hw. rewrite Hr in Hw. split_and!; [done | | done].
  specialize (Hm (sys_locks s)). destruct s. unfold set_locks in Hm. simpl in Hm.
  rewrite Hr in Hm. injection Hm as Hs'. rewrite Hs'. by apply same_locks_refl.
Qed.

(** Releasing a mutex restores what taking it changed. *)
Lemma lock_restore m m1 m2 t l mu mu' :
  manager_wf m -> locks m !! t = Some l -> mutexes m !! l = Some mu ->
  m1 = set_mutex l mu' m -> same_locks m1 m2 ->
  locks m2 !! t = Some l /\ mutexes m2 !! l = Some mu' /\ same_locks m (set_mutex l mu m2).
Proof.
  intros Hwf Hl Hmu -> [Hwf2 Hp2 Hmu2].
  assert (Hl2 : locks m2 !! t = Some l) by (by apply Hp2).
  destruct (wf_mutex _ Hwf2 t l Hl2) as [[mu2 E2] _].
  destruct (set_mutex_wf m t l mu' Hwf Hl) as (_ & Hown & Hother).
  pose proof (mutex_of_lookup _ _ _ _ Hl2 E2) as Hm2.
  assert (mu2 = mu') as -> by (rewrite <- Hm2, Hmu2; done).
  split_and!; [done | done |].
  destruct (set_mutex_wf m2 t l mu Hwf2 Hl2) as (Hwf3 & Hown3 & Hother3).
  split; [done | by intros; simpl; apply Hp2 |]. intros t'.
  destruct (decide (t' = t)) as [->|Hne].
  - by rewrite Hown3, (mutex_of_lookup m t l mu).
  - by rewrite Hother3, Hmu2, Hother.
Qed.

Lemma getOrCreate_same_locks m t : manager_wf m -> same_locks m (getOrCreate t m).2.
Proof.
  intros Hwf. destruct (getOrCreate_wf m t Hwf) as (? & _ & ?). split; [done| |done].
  intros t' l. apply getOrCreate_keeps.
Qed.

Lemma getOrCreate_mutex m t :
  manager_wf m -> mutexes (getOrCreate t m).2 !! (getOrCreate t m).1 = Some (mutex_of m t).
Proof.
  intros Hwf. destruct (getOrCreate_wf m t Hwf) as (Hwf' & Hl & Hmu).
  destruct (wf_mutex _ Hwf' _ _ Hl) as [[mu E] _].
  rewrite E, <- Hmu. f_equal. symmetry. by eapply mutex_of_lookup.
Qed.

Lemma run_lock_op f s :
  run (lock_op f) s = match f (sys_locks s) with Some m => Some (tt, set_locks m s) | None => None end.
Proof. unfold lock_op, act_block. simpl. by destruct (f (sys_locks s)). Qed.

Lemma run_get_mutex t s :
  run (get_mutex t) s =
    Some ((getOrCreate t (sys_locks s)).1, set_locks (getOrCreate t (sys_locks s)).2 s).
Proof. unfold get_mutex, act. simpl. by destruct (getOrCreate t (sys_locks s)). Qed.

(** Locking a table whose mutex is free. *)
Lemma run_LockExclusive t s :
  manager_wf (sys_locks s) -> mutex_of (sys_locks s) t = free_mutex ->
  let m1 := (getOrCreate t (sys_locks s)).2 in
  let l := (getOrCreate t (sys_locks s)).1 in
  run (LockExclusive t) s = Some (l, set_locks (set_mutex l (mkRWMutex WHeld 0) m1) s).
Proof.
  intros Hwf Hfree m1 l. pose proof (getOrCreate_mutex _ t Hwf) as Hmu. rewrite Hfree in Hmu. fold m1 l in Hmu.
  unfold LockExclusive. rewrite run_bind, run_get_mutex. fold m1 l.
  rewrite run_bind, run_lock_op. unfold Lock_announce. cbn [sys_locks set_locks]. rewrite Hmu.
  cbn beta iota delta [free_mutex].
  rewrite run_bind, run_lock_op. unfold Lock_acquire. cbn [sys_locks set_locks mutexes set_mutex].
  rewrite lookup_insert_eq. cbn beta iota zeta. rewrite Z.eqb_refl. unfold set_mutex.
  cbn [locks mutexes next_mutex]. by rewrite insert_insert_eq.
Qed.

(** A table whose mutex is free is locked, the body runs while it is held,
    and the mutex is free again afterwards. *)
Lemma balanced_with_exclusive {A} t (body : Prog Sys A) s Q :
  manager_wf (sys_locks s) -> mutex_of (sys_locks s) t = free_mutex ->
  (forall m, manager_wf m -> mutex_of m t = mkRWMutex WHeld 0 ->
     (forall t', t' <> t -> mutex_of m t' = mutex_of (sys_locks s) t') ->
     balanced body (set_locks m s) (fun a s' => forall m', Q a (set_locks m' s'))) ->
  balanced (with_exclusive t body) s Q.
Proof.
  intros Hwf Hfree Hbody. pose proof (run_LockExclusive t s Hwf Hfree) as Hlock. cbv zeta in Hlock.
  pose proof (getOrCreate_mutex _ t Hwf) as Hmu. rewrite Hfree in Hmu.
  destruct (getOrCreate_wf _ t Hwf) as (Hwf1 & Hl & Hsame).
  set (m1 := (getOrCreate t (sys_locks s)).2) in *. set (l := (getOrCreate t (sys_locks s)).1) in *.
  destruct (set_mutex_wf m1 t l (mkRWMutex WHeld 0) Hwf1 Hl) as (Hwf2 & Hown & Hother).
  destruct (Hbody _ Hwf2 Hown) as (a & s2 & Hr & Hsl & HQ).
  { intros t' Hne. by rewrite Hother, Hsame. }
  destruct (lock_restore m1 _ (sys_locks s2) t l free_mutex (mkRWMutex WHeld 0) Hwf1 Hl Hmu eq_refl Hsl)
    as (Hl2 & Hmu2 & Hsl2).
  exists a, (set_locks (set_mutex l free_mutex (sys_locks s2)) s2). split_and!; [| |apply HQ].
  - unfold with_exclusive. rewrite run_bind, Hlock. unfold deferred. rewrite run_bind, Hr, run_bind, run_lock_op.
    unfold Unlock. by rewrite Hmu2.
  - eapply same_locks_trans; [by apply getOrCreate_same_locks | done].
Qed.

Lemma balanced_with_shared {A} t (body : Prog Sys A) s Q :
  manager_wf (sys_locks s) -> mutex_of (sys_locks s) t = free_mutex ->
  (forall m, manager_wf m -> mutex_of m t = mkRWMutex WNone 1 ->
     (forall t', t' <> t -> mutex_of m t' = mutex_of (sys_locks s) t') ->
     balanced body (set_locks m s) (fun a s' => forall m', Q a (set_locks m' s'))) ->
  balanced (with_shared t body) s Q.
Proof.
  intros Hwf Hfree Hbody.
  pose proof (getOrCreate_mutex _ t Hwf) as Hmu. rewrite Hfree in Hmu.
  destruct (getOrCreate_wf _ t Hwf) as (Hwf1 & Hl & Hsame).
  set (m1 := (getOrCreate t (sys_locks s)).2) in *. set (l := (getOrCreate t (sys_locks s)).1) in *.
  destruct (set_mutex_wf m1 t l (mkRWMutex WNone 1) Hwf1 Hl) as (Hwf2 & Hown & Hother).
  destruct (Hbody _ Hwf2 Hown) as (a & s2 & Hr & Hsl & HQ).
  { intros t' Hne. by rewrite Hother, Hsame. }
  destruct (lock_restore m1 _ (sys_locks s2) t l free_mutex (mkRWMutex WNone 1) Hwf1 Hl Hmu eq_refl Hsl)
    as (Hl2 & Hmu2 & Hsl2).
  exists a, (set_locks (set_mutex l free_mutex (sys_locks s2)) s2). split_and!; [| |apply HQ].
  - unfold with_shared, LockShared.
    rewrite run_bind, run_bind, run_get_mutex. fold m1 l.
    rewrite run_bind, run_lock_op. unfold RLock. cbn [sys_locks set_locks]. rewrite Hmu. cbn beta iota delta [free_mutex].
    rewrite !set_locks_set_locks. cbn [run]. change (0 + 1) with 1. unfold deferred. rewrite run_bind, Hr, run_bind, run_lock_op. unfold RUnlock. by rewrite Hmu2.
  - eapply same_locks_trans; [by apply getOrCreate_same_locks | done].
Qed.

Lemma wp_balanced {A} (p : Prog Sys A) s (Q : A -> Sys -> Prop) :
  balanced p s (fun a s' => forall m, same_locks (sys_locks s) m -> Q a (set_locks m s')) ->
  wp p s (fun a s' => same_locks (sys_locks s) (sys_locks s') /\ Q a s').
Proof.
  intros (a & s' & Hr & Hsl & HQ). unfold wp. rewrite Hr. split; [done|].
  specialize (HQ _ Hsl). by destruct s'.
Qed.

(** The locks around a body that does not lock are invisible: the handler
    does what the body does and every lock is free again. *)
Lemma wp_with_exclusive {A} t (body : Prog Sys A) s (Q : A -> Sys -> Prop) :
  all_free (sys_locks s) -> plain body ->
  wp body s (fun a s' => forall m, all_free m -> Q a (set_locks m s')) ->
  wp (with_exclusive t body) s Q.
Proof.
  intros Hfree Hp Hw. apply wp_mono with (Q := fun a s' => same_locks (sys_locks s) (sys_locks s') /\ Q a s').
  2: { by intros a s' [_ ?]. }
  destruct Hfree as [Hwf Hf]. apply wp_balanced. apply balanced_with_exclusive; [done | done |].
  intros m Hm _ Hother. destruct (plain_run body s Hp) as (a & s' & Hr & Hrm).
  unfold wp in Hw. rewrite Hr in Hw. exists a, (set_locks m s'). split_and!; [done | by apply same_locks_refl |].
  intros m' m'' Hsl. apply Hw. by eapply same_locks_free.
Qed.

Lemma wp_with_shared {A} t (body : Prog Sys A) s (Q : A -> Sys -> Prop) :
  all_free (sys_locks s) -> plain body ->
  wp body s (fun a s' => forall m, all_free m -> Q a (set_locks m s')) ->
  wp (with_shared t body) s Q.
Proof.
  intros Hfree Hp Hw. apply wp_mono with (Q := fun a s' => same_locks (sys_locks s) (sys_locks s') /\ Q a s').
  2: { by intros a s' [_ ?]. }
  destruct Hfree as [Hwf Hf]. apply wp_balanced. apply balanced_with_shared; [done | done |].
  intros m Hm _ Hother. destruct (plain_run body s Hp) as (a & s' & Hr & Hrm).
  unfold wp in Hw. rewrite Hr in Hw. exists a, (set_locks m s'). split_and!; [done | by apply same_locks_refl |].
  intros m' m'' Hsl. apply Hw. by eapply same_locks_free.
Qed.

(** Two different tables, locked one inside the other. *)
Lemma wp_with_exclusive2 {A} t1 t2 (body : Prog Sys A) s (Q : A -> Sys -> Prop) :
  all_free (sys_locks s) -> t1 <> t2 -> plain body ->
  wp body s (fun a s' => forall m, all_free m -> Q a (set_locks m s')) ->
  wp (with_exclusive t1 (with_exclusive t2 body)) s Q.
Proof.
  intros Hfree Hne Hp Hw. apply wp_mono with (Q := fun a s' => same_locks (sys_locks s) (sys_locks s') /\ Q a s').
  2: { by intros a s' [_ ?]. }
  destruct (plain_run body s Hp) as (a & s' & Hr & Hrm). unfold wp in Hw. rewrite Hr in Hw.
  pose proof Hfree as [Hwf Hf]. apply wp_balanced. apply balanced_with_exclusive; [done | done |].
  intros m Hm _ Hother. apply balanced_with_exclusive; [exact Hm | cbn; rewrite Hother by done; apply Hf |].
  intros m2 Hm2 _ _. exists a, (set_locks m2 s'). split_and!; [exact (Hrm m2) | by apply same_locks_refl |].
  intros m3 m4 m5 Hsl. apply Hw. by eapply same_locks_free.
Qed.
