(* ===== verification/LockPool.v ===== *)
(** * Pools of goroutines that hold one lock at a time

    The discipline [one_lock] of a program, the agreement between the lock
    manager and what each goroutine of a pool has to do with it, and the
    consequences for pools: they are never stuck, and they all end. *)
From S2P Require Import Prelude Prog LRU MVCC Lock Models Postgres World.

(** ** The discipline of one lock *)

(** What a goroutine has to do with the lock manager: nothing, a mutex it
    looked up, a mutex it announced itself on as a writer, or one it holds. *)
Inductive lock_status :=
| Idle
| Ready (l : nat)
| Announced (l : nat)
| SharedBy (l : nat)
| ExclusiveBy (l : nat).

#[export] Instance lock_status_eq_dec : EqDecision lock_status.
Proof. solve_decision. Defined.

Definition refers_to (st : lock_status) : option nat :=
  match st with
  | Idle => None
  | Ready l | Announced l | SharedBy l | ExclusiveBy l => Some l
  end.

(** The lock operations that a status allows, and the status they lead to. *)
Inductive lock_move : lock_status -> (Manager -> option Manager) -> lock_status -> Prop :=
| move_rlock l : lock_move (Ready l) (RLock l) (SharedBy l)
| move_announce l : lock_move (Ready l) (Lock_announce l) (Announced l)
| move_acquire l : lock_move (Announced l) (Lock_acquire l) (ExclusiveBy l)
| move_runlock l : lock_move (SharedBy l) (RUnlock l) Idle
| move_unlock l : lock_move (ExclusiveBy l) (Unlock l) Idle.

(** An action that never waits and leaves the locks alone; the look-up of a
    table's mutex; a lock operation. *)
Definition calm {X} (f : Sys -> option (X * Sys)) : Prop :=
  forall s, exists x s', f s = Some (x, s') /\ sys_locks s' = sys_locks s.

Definition looks_up {X} (f : Sys -> option (X * Sys)) (t : string) (ptr : X -> nat) : Prop :=
  forall s, exists x s', f s = Some (x, s') /\ getOrCreate t (sys_locks s) = (ptr x, sys_locks s').

Definition operates {X} (f : Sys -> option (X * Sys)) (op : Manager -> option Manager) : Prop :=
  forall s, match op (sys_locks s) with
            | Some m => exists x s', f s = Some (x, s') /\ sys_locks s' = m
            | None => f s = None
            end.

(** A program that takes one lock at a time, and releases it before the next
    and before its end. *)
Fixpoint one_lock {A} (st : lock_status) (p : Prog Sys A) : Prop :=
  match p with
  | Ret _ => st = Idle
  | Act f k =>
      (calm f /\ forall x, one_lock st (k x)) \/
      (st = Idle /\ exists t ptr, looks_up f t ptr /\ forall x, one_lock (Ready (ptr x)) (k x)) \/
      (exists op st', lock_move st op st' /\ operates f op /\ forall x, one_lock st' (k x))
  end.

(** ** The pool's locks *)

Definition indicator (st st' : lock_status) : Z := if decide (st = st') then 1 else 0.

(** How many goroutines have a status. *)
Definition count_status (st : lock_status) (sts : list lock_status) : Z := sum_by (indicator st) sts.

Definition mutex_agrees (sts : list lock_status) (l : nat) (mu : RWMutex) : Prop :=
  rw_readers mu = count_status (SharedBy l) sts /\
  count_status (Announced l) sts = (if decide (rw_writer mu = WWaiting) then 1 else 0) /\
  count_status (ExclusiveBy l) sts = (if decide (rw_writer mu = WHeld) then 1 else 0) /\
  (rw_writer mu = WHeld -> rw_readers mu = 0).

(** The mutexes count the goroutines that hold and await them. *)
Record locks_agree (sts : list lock_status) (m : Manager) : Prop := {
  la_wf : manager_wf m;
  la_refers : forall i st l, sts !! i = Some st -> refers_to st = Some l -> exists t, locks m !! t = Some l;
  la_mutex : forall t l, locks m !! t = Some l -> exists mu, mutexes m !! l = Some mu /\ mutex_agrees sts l mu;
}.

(** A pool whose goroutines keep the discipline, with locks to match. *)
Definition pool_ok {A} (c : list (Prog Sys A) * Sys) : Prop :=
  exists sts, Forall2 one_lock sts c.1 /\ locks_agree sts (sys_locks c.2).

(** ** Counting *)

Lemma sum_by_insert {A} (f : A -> Z) (l : list A) i x y :
  l !! i = Some x -> sum_by f (<[i := y]> l) = sum_by f l - f x + f y.
Proof.
  unfold sum_by. revert i. induction l as [|z l IH]; intros [|i] Hi; cbn in *; try done.
  - injection Hi as ->. lia.
  - rewrite IH by done. lia.
Qed.

Lemma count_nonneg st sts : 0 <= count_status st sts.
Proof. unfold count_status, sum_by, indicator. induction sts; cbn; [lia|]. case_decide; lia. Qed.

Lemma count_pos st sts : 0 < count_status st sts <-> exists i, sts !! i = Some st.
Proof.
  split.
  - unfold count_status, sum_by. induction sts as [|x sts IH]; cbn; [lia|]. unfold indicator at 1.
    case_decide as E; [exists 0%nat; by subst|]. intros Hp. destruct IH as [i Hi]; [lia|]. by exists (S i).
  - intros [i Hi]. revert i Hi. induction sts as [|x sts IH]; intros [|i] Hi; cbn in Hi; try done;
      change (0 < indicator st x + count_status st sts); unfold indicator.
    + injection Hi as ->. rewrite decide_True by done. pose proof (count_nonneg st sts). lia.
    + specialize (IH i Hi). case_decide; lia.
Qed.

Lemma count_insert st sts i x y :
  sts !! i = Some x -> count_status st (<[i := y]> sts) = count_status st sts - indicator st x + indicator st y.
Proof. apply sum_by_insert. Qed.

(** Two goroutines never hold the same mutex exclusively. *)
Lemma exclusive_unique sts m i j l :
  locks_agree sts m -> sts !! i = Some (ExclusiveBy l) -> sts !! j = Some (ExclusiveBy l) -> i = j.
Proof.
  intros [_ Href Hmu] Hi Hj. destruct (decide (i = j)) as [|Hne]; [done|]. exfalso.
  destruct (Href _ _ _ Hi eq_refl) as [t Ht]. destruct (Hmu t l Ht) as (mu & _ & _ & _ & He & _).
  assert (Hpos : 0 < count_status (ExclusiveBy l) (<[i := Idle]> sts)).
  { apply count_pos. exists j. by rewrite list_lookup_insert_ne. }
  rewrite (count_insert _ _ _ _ Idle Hi) in Hpos. unfold indicator in Hpos.
  rewrite decide_True, decide_False in Hpos by done. case_decide; lia.
Qed.

(** ** The locks follow the statuses *)

Lemma indicator_refers st st' l l' :
  refers_to st = Some l' -> refers_to st' = Some l \/ refers_to st' = None -> l' <> l -> indicator st st' = 0.
Proof. intros Hst Hst' Hne. unfold indicator. case_decide; [|done]. subst. destruct Hst'; congruence. Qed.

Lemma mutex_agrees_other sts i st st' l l' mu :
  sts !! i = Some st -> refers_to st = Some l \/ refers_to st = None ->
  refers_to st' = Some l \/ refers_to st' = None -> l' <> l ->
  mutex_agrees sts l' mu -> mutex_agrees (<[i := st']> sts) l' mu.
Proof.
  intros Hi Hst Hst' Hne (Hr & Ha & He & Hx). unfold mutex_agrees.
  rewrite !(count_insert _ _ _ _ st' Hi), !(indicator_refers _ st l l'), !(indicator_refers _ st' l l') by done.
  rewrite !Z.sub_0_r, !Z.add_0_r. done.
Qed.

(** The status of [i] and the mutex [l] it is about change together. *)
Lemma locks_agree_set sts m i st st' t l mu' :
  locks_agree sts m -> sts !! i = Some st -> locks m !! t = Some l ->
  refers_to st = Some l -> refers_to st' = Some l \/ refers_to st' = None ->
  mutex_agrees (<[i := st']> sts) l mu' -> locks_agree (<[i := st']> sts) (set_mutex l mu' m).
Proof.
  intros [Hwf Href Hmu] Hi Hl Hst Hst' Hag.
  destruct (set_mutex_wf m t l mu' Hwf Hl) as (Hwf' & _ & _). split; [done | |].
  - intros j st1 l1 Hj Hr. cbn. destruct (decide (j = i)) as [->|Hne].
    + rewrite list_lookup_insert_eq in Hj by (by eapply lookup_lt_Some). injection Hj as ->.
      destruct Hst'; [|congruence]. exists t. congruence.
    + rewrite list_lookup_insert_ne in Hj by done. by eapply Href.
  - intros t' l' Hl'. cbn in *. destruct (decide (l' = l)) as [->|Hne].
    + exists mu'. by rewrite lookup_insert_eq.
    + rewrite lookup_insert_ne by done. destruct (Hmu t' l' Hl') as (mu & E & Ha). exists mu. split; [done|].
      eapply mutex_agrees_other; [done | by left | done | done | done].
Qed.

(** Evaluates the counts of a mutex after a change of status. *)
Ltac counts Hi :=
  unfold mutex_agrees; rewrite !(count_insert _ _ _ _ _ Hi); unfold indicator; cbn [rw_readers rw_writer];
  repeat match goal with
  | H : context [decide _] |- _ => first [rewrite decide_True in H by congruence | rewrite decide_False in H by congruence]
  | |- context [decide _] => first [rewrite decide_True by congruence | rewrite decide_False by congruence]
  end.

Lemma locks_agree_move sts m i st op st' m' :
  locks_agree sts m -> sts !! i = Some st -> lock_move st op st' -> op m = Some m' ->
  locks_agree (<[i := st']> sts) m'.
Proof.
  intros Hag Hi Hmv Hop. pose proof Hag as [Hwf Href Hmu].
  assert (Hl : exists l, refers_to st = Some l) by (destruct Hmv; cbn; eauto). destruct Hl as [l Hl].
  destruct (Href _ _ _ Hi Hl) as [t Ht]. destruct (Hmu t l Ht) as ([w r] & E & Hr & Ha & He & Hx).
  cbn [rw_readers rw_writer] in *.
  assert (Hset : forall mu', refers_to st' = Some l \/ refers_to st' = None ->
    mutex_agrees (<[i := st']> sts) l mu' -> m' = set_mutex l mu' m -> locks_agree (<[i := st']> sts) m').
  { intros mu' Hst' Hm ->. by eapply locks_agree_set. }
  destruct Hmv; injection Hl as ->;
    unfold RLock, RUnlock, Lock_announce, Lock_acquire, Unlock in Hop; rewrite E in Hop; destruct w; try done.
  1,2,4,5,7: try (destruct (0 <? r); [|done]); injection Hop as <-; (eapply Hset; [by auto | | reflexivity]);
    counts Hi; split_and!; try done; lia.
  - destruct (Z.eqb_spec r 0); [|done]. injection Hop as <-. eapply Hset; [by auto | | reflexivity].
    counts Hi. split_and!; try done; lia.
  - destruct (Z.ltb_spec 0 r); [|done]. rewrite Hx in * by done. lia.
Qed.

Lemma locks_agree_lookup sts m i t :
  locks_agree sts m -> sts !! i = Some Idle ->
  locks_agree (<[i := Ready (getOrCreate t m).1]> sts) (getOrCreate t m).2.
Proof.
  intros Hag Hi. pose proof Hag as [Hwf Href Hmu].
  destruct (getOrCreate_wf m t Hwf) as (Hwf' & Hl & _). split; [done | |].
  - intros j st l Hj Hr. destruct (decide (j = i)) as [->|Hne].
    + rewrite list_lookup_insert_eq in Hj by (by eapply lookup_lt_Some). injection Hj as <-. injection Hr as <-. eauto.
    + rewrite list_lookup_insert_ne in Hj by done. destruct (Href _ _ _ Hj Hr) as [t' ?].
      exists t'. by apply getOrCreate_keeps.
  - assert (Hkeep : forall l' mu, mutex_agrees sts l' mu -> mutex_agrees (<[i := Ready (getOrCreate t m).1]> sts) l' mu).
    { intros l' mu (Hr & Ha & He & Hx). unfold mutex_agrees. rewrite !(count_insert _ _ _ _ _ Hi).
      unfold indicator. rewrite !decide_False by done. rewrite !Z.sub_0_r, !Z.add_0_r. done. }
    intros t' l' Hl'. unfold getOrCreate in *. destruct (locks m !! t) as [l|] eqn:Ht; cbn in *.
    { destruct (Hmu t' l' Hl') as (mu & E & Ha). exists mu. split; [done | by apply Hkeep]. }
    rewrite lookup_insert in Hl'. case_decide as Htt.
    + injection Hl' as <-. exists (mkRWMutex WNone 0). rewrite lookup_insert_eq. split; [done|]. apply Hkeep.
      assert (Hz : forall st, refers_to st = Some (next_mutex m) -> count_status st sts = 0).
      { intros st Hst. pose proof (count_nonneg st sts). destruct (decide (0 < count_status st sts)) as [Hp|]; [|lia].
        apply count_pos in Hp as [j Hj]. destruct (Href _ _ _ Hj Hst) as [t1 Ht1].
        destruct (wf_mutex _ Hwf _ _ Ht1). lia. }
      unfold mutex_agrees. cbn. rewrite !Hz by done. rewrite !decide_False by done. done.
    + destruct (Hmu t' l' Hl') as (mu & E & Ha). exists mu. destruct (wf_mutex _ Hwf _ _ Hl').
      rewrite lookup_insert_ne by lia. split; [done | by apply Hkeep].
Qed.

(** Free locks and goroutines that have not started. *)
Lemma free_agrees sts m : all_free m -> (forall st, st ∈ sts -> st = Idle) -> locks_agree sts m.
Proof.
  intros [Hwf Hfree] Hidle.
  assert (Hz : forall st, st <> Idle -> count_status st sts = 0).
  { intros st Hst. pose proof (count_nonneg st sts). destruct (decide (0 < count_status st sts)) as [Hp|]; [|lia].
    apply count_pos in Hp as [i Hi]. by destruct Hst; eapply Hidle, list_elem_of_lookup_2. }
  split; [done | |].
  - intros i st l Hi Hr. rewrite (Hidle st) in Hr; [done | by eapply list_elem_of_lookup_2].
  - intros t l Hl. destruct (wf_mutex _ Hwf t l Hl) as [[mu E] _]. exists mu. split; [done|].
    pose proof (mutex_of_lookup _ _ _ _ Hl E) as Hmu. rewrite Hfree in Hmu. subst mu.
    unfold mutex_agrees. cbn. rewrite !Hz by done. done.
Qed.

(** ** Steps keep the pool *)

Lemma pool_ok_step {A} (c c' : list (Prog Sys A) * Sys) : step c c' -> pool_ok c -> pool_ok c'.
Proof.
  intros [i ps s X f k x s' Hi Hf] (sts & Hps & Hag). cbn in *.
  destruct (Forall2_lookup_r _ _ _ _ _ Hps Hi) as (st & Hst & Hone). cbn in Hone.
  destruct Hone as [[Hcalm Hk]|[(-> & t & ptr & Hup & Hk)|(op & st' & Hmv & Hop & Hk)]].
  - destruct (Hcalm s) as (x1 & s1 & E & Hl). rewrite Hf in E. injection E as <- <-.
    exists sts. cbn. rewrite Hl. split; [|done].
    rewrite <- (list_insert_id sts i st) by done. by apply Forall2_insert.
  - destruct (Hup s) as (x1 & s1 & E & Hl). rewrite Hf in E. injection E as <- <-.
    exists (<[i := Ready (ptr x)]> sts). split; [by apply Forall2_insert|]. cbn.
    pose proof (locks_agree_lookup sts _ i t Hag Hst) as Hag'. by rewrite Hl in Hag'.
  - specialize (Hop s). destruct (op (sys_locks s)) as [m|] eqn:Eop; [|congruence].
    destruct Hop as (x1 & s1 & E & Hl). rewrite Hf in E. injection E as <- <-.
    exists (<[i := st']> sts). split; [by apply Forall2_insert|]. cbn. rewrite Hl. by eapply locks_agree_move.
Qed.

Lemma pool_ok_steps {A} (c c' : list (Prog Sys A) * Sys) : steps c c' -> pool_ok c -> pool_ok c'.
Proof. induction 1; [done|]. eauto using pool_ok_step. Qed.

(** ** A pool is never stuck *)

Section progress.
Context {A : Type} (ps : list (Prog Sys A)) (s : Sys) (sts : list lock_status).
Hypothesis Hps : Forall2 one_lock sts ps.
Hypothesis Hag : locks_agree sts (sys_locks s).
Hypothesis Hstuck : forall c, ~ step (ps, s) c.

(** A goroutine that has not finished waits for a lock. *)
Lemma stuck_waits i st :
  sts !! i = Some st ->
  st = Idle \/ exists op st', lock_move st op st' /\ op (sys_locks s) = None.
Proof.
  intros Hi. destruct (Forall2_lookup_l _ _ _ _ _ Hps Hi) as (p & Hp & Hone).
  destruct p as [a|X f k]; [by left|]. cbn in Hone.
  assert (Hno : forall x s', f s <> Some (x, s')).
  { intros x s' Hf. eapply Hstuck. by econstructor. }
  destruct Hone as [[Hcalm _]|[(-> & t & ptr & Hup & _)|(op & st' & Hmv & Hop & _)]].
  - destruct (Hcalm s) as (x & s' & E & _). by destruct (Hno x s').
  - by left.
  - right. exists op, st'. split; [done|]. specialize (Hop s). destruct (op (sys_locks s)); [|done].
    destruct Hop as (x & s' & E & _). by destruct (Hno x s').
Qed.

Lemma stuck_no_count st :
  (forall op st', lock_move st op st' -> op (sys_locks s) <> None) -> st <> Idle -> count_status st sts = 0.
Proof.
  intros Hmv Hne. pose proof (count_nonneg st sts). destruct (decide (0 < count_status st sts)) as [Hp|]; [|lia].
  apply count_pos in Hp as [i Hi]. destruct (stuck_waits i st Hi) as [|(op & st' & Hm & E)]; [done|].
  by destruct (Hmv op st' Hm).
Qed.

(** Nobody holds or awaits the mutex of any table. *)
Lemma stuck_mutex t l mu :
  locks (sys_locks s) !! t = Some l -> mutexes (sys_locks s) !! l = Some mu -> mu = free_mutex.
Proof.
  intros Hl E. destruct (la_mutex _ _ Hag t l Hl) as (mu' & E' & Hr & Ha & He & Hx).
  rewrite E in E'. injection E' as <-. destruct mu as [w r]. cbn in Hr, Ha, He, Hx.
  assert (Hsh : r = 0).
  { rewrite Hr. destruct (decide (0 < r)) as [Hp|]; [|pose proof (count_nonneg (SharedBy l) sts); lia].
    apply stuck_no_count; [|done]. intros op st' Hm. inversion Hm; subst. unfold RUnlock. rewrite E.
    by destruct (Z.ltb_spec 0 (count_status (SharedBy l) sts)); [|lia]. }
  assert (Hw : w <> WHeld).
  { intros ->. rewrite decide_True in He by done. rewrite (stuck_no_count (ExclusiveBy l)) in He; [done | | done].
    intros op st' Hm. inversion Hm; subst. unfold Unlock. by rewrite E. }
  assert (Hw' : w <> WWaiting).
  { intros ->. rewrite decide_True in Ha by done. rewrite (stuck_no_count (Announced l)) in Ha; [done | | done].
    intros op st' Hm. inversion Hm; subst. unfold Lock_acquire. rewrite E. by rewrite Hsh. }
  rewrite Hsh. by destruct w.
Qed.

Lemma stuck_idle i st : sts !! i = Some st -> st = Idle.
Proof.
  intros Hi. destruct (stuck_waits i st Hi) as [|(op & st' & Hm & E)]; [done|]. exfalso.
  assert (Hr : exists l, refers_to st = Some l) by (destruct Hm; cbn; eauto). destruct Hr as [l Hr].
  destruct (la_refers _ _ Hag _ _ _ Hi Hr) as [t Ht]. destruct (la_mutex _ _ Hag t l Ht) as (mu & Emu & Hmu).
  pose proof (stuck_mutex t l mu Ht Emu) as ->. destruct Hmu as (Hs & Ha & He & _). cbn in Hs, Ha, He.
  rewrite decide_False in Ha by done. rewrite decide_False in He by done.
  assert (Hpos : 0 < count_status st sts) by (apply count_pos; eauto).
  destruct Hm; injection Hr as ->; unfold RLock, Lock_announce in E; rewrite ?Emu in E; try done; lia.
Qed.

Lemma stuck_finished : (forall p, p ∈ ps -> exists a, p = Ret a) /\ all_free (sys_locks s).
Proof.
  split; [|split; [apply Hag|]].
  - intros p [i Hi]%list_elem_of_lookup_1. destruct (Forall2_lookup_r _ _ _ _ _ Hps Hi) as (st & Hst & Hone).
    pose proof (stuck_idle i st Hst) as ->. destruct p as [a|X f k]; [by exists a|]. exfalso. cbn in Hone.
    destruct Hone as [[Hcalm _]|[(_ & t & ptr & Hup & _)|(op & st' & Hmv & _)]]; [| |inversion Hmv].
    + destruct (Hcalm s) as (x & s' & E & _). eapply Hstuck. by econstructor.
    + destruct (Hup s) as (x & s' & E & _). eapply Hstuck. by econstructor.
  - intros t. unfold mutex_of. destruct (locks (sys_locks s) !! t) as [l|] eqn:Hl; [|done]. cbn.
    destruct (la_mutex _ _ Hag t l Hl) as (mu & E & _). rewrite E. cbn. by eapply stuck_mutex.
Qed.

End progress.

(** Whether a program's next action can happen. *)
Definition can_move {A} (s : Sys) (p : Prog Sys A) : bool :=
  match p with Ret _ => false | Act f _ => match f s with Some _ => true | None => false end end.

Lemma step_or_stuck {A} (ps : list (Prog Sys A)) s : (exists c, step (ps, s) c) \/ forall c, ~ step (ps, s) c.
Proof.
  destruct (decide (Exists (fun p => can_move s p = true) ps)) as [Hex|Hno].
  - left. apply Exists_exists in Hex as (p & Hin & Hp). apply list_elem_of_lookup_1 in Hin as [i Hi].
    destruct p as [a|X f k]; cbn in Hp; [done|]. destruct (f s) as [[x s']|] eqn:E; [|done].
    eexists. by econstructor.
  - right. intros c Hstep. apply Hno. remember (ps, s) as c0 eqn:Ec. destruct Hstep as [i ps' s0 X f k x s' Hi Hf].
    injection Ec as -> ->. apply Exists_exists. exists (Act f k).
    split; [by eapply list_elem_of_lookup_2 | cbn; by rewrite Hf].
Qed.

(** ** Every run ends *)

Section ends.
Context {S A : Type}.
Implicit Types (p q : Prog S A) (ps qs : list (Prog S A)).

(** [q] is what is left of [p] after its next action. *)
Definition remains p q : Prop := match p with Ret _ => False | Act f k => exists x, q = k x end.

(** One goroutine of the pool moves. *)
Definition pool_remains ps qs : Prop := exists i p q, ps !! i = Some p /\ remains p q /\ qs = <[i := q]> ps.

Lemma remains_sn p : sn remains p.
Proof. induction p as [a|X f k IH]; constructor; intros q Hq; [done|]. destruct Hq as [x ->]. apply IH. Qed.

Lemma pool_remains_cons p ps : sn remains p -> sn pool_remains ps -> sn pool_remains (p :: ps).
Proof.
  intros Hp. revert ps. induction Hp as [p _ IHp]. intros ps Hps. induction Hps as [ps Hps IHps].
  constructor. intros qs (i & p' & q & Hi & Hq & ->). destruct i as [|i]; cbn in *.
  - injection Hi as <-. apply IHp; [done | by constructor].
  - apply IHps. by exists i, p', q.
Qed.

Lemma pool_remains_sn ps : sn pool_remains ps.
Proof.
  induction ps as [|p ps IH].
  - constructor. by intros qs (i & p & q & Hi & _).
  - apply pool_remains_cons; [apply remains_sn | done].
Qed.

(** No pool of programs runs forever, whatever the schedule. *)
Lemma steps_end (c : list (Prog S A) * S) : sn step c.
Proof.
  destruct c as [ps s]. revert s. induction (pool_remains_sn ps) as [ps _ IH]. intros s.
  constructor. intros c' Hstep. unfold flip in Hstep. remember (ps, s) as c eqn:Ec.
  destruct Hstep as [i ps' s' X f k x s'' Hi Hf]. injection Ec as -> ->.
  apply IH. exists i, (Act f k), (k x). split_and!; [done | by exists x | done].
Qed.

End ends.

(** ** Programs of one lock *)


Lemma one_lock_bind {A B} st (p : Prog Sys A) (k : A -> Prog Sys B) :
  one_lock st p -> (forall a, one_lock Idle (k a)) -> one_lock st (bind p k).
Proof.
  revert st. induction p as [a|X f g IH]; intros st Hp Hk; cbn in *; [by subst|].
  destruct Hp as [[Hc Hg]|[(Hst & t & ptr & Hu & Hg)|(op & st' & Hm & Ho & Hg)]].
  - left. eauto.
  - right; left. split; [done|]. exists t, ptr. eauto.
  - right; right. exists op, st'. eauto.
Qed.

Lemma set_own_locks s : set_locks (sys_locks s) s = s.
Proof. by destruct s. Qed.

Lemma plain_calm {X} (f : Sys -> option (X * Sys)) :
  (forall s, exists x s', f s = Some (x, s') /\ forall m, f (set_locks m s) = Some (x, set_locks m s')) -> calm f.
Proof.
  intros Hf s. destruct (Hf s) as (x & s' & E & Em). exists x, s'. split; [done|].
  specialize (Em (sys_locks s)). rewrite set_own_locks, E in Em.
  apply (f_equal (fun r => from_option (fun p => sys_locks p.2) (sys_locks s) r)) in Em. exact Em.
Qed.

(** What a program does without touching the locks comes before the rest. *)
Lemma one_lock_plain {A B} st (p : Prog Sys A) (k : A -> Prog Sys B) :
  plain p -> (forall a, one_lock st (k a)) -> one_lock st (bind p k).
Proof.
  intros Hp Hk. induction p as [a|X f g IH]; cbn in *; [done|]. destruct Hp as [Hf Hg].
  left. split; [by apply plain_calm | eauto].
Qed.

Lemma operates_lock_op op : operates (fun s => (fun m => (tt, set_locks m s)) <$> op (sys_locks s)) op.
Proof. intros s. destruct (op (sys_locks s)); cbn; [by eexists _, _ | done]. Qed.

Lemma one_lock_release {B} st op (k : unit -> Prog Sys B) :
  lock_move st op Idle -> (forall x, one_lock Idle (k x)) -> one_lock st (bind (lock_op op) k).
Proof. intros Hm Hk. right; right. exists op, Idle. split; [done|]. split; [apply operates_lock_op | done]. Qed.

Lemma looks_up_get_mutex t :
  looks_up (fun s => Some (let (l, m) := getOrCreate t (sys_locks s) in (l, set_locks m s))) t (fun l => l).
Proof. intros s. destruct (getOrCreate t (sys_locks s)) as [l m] eqn:E. by eexists _, _. Qed.

Lemma one_lock_shared {A} t (p : Prog Sys A) : plain p -> one_lock Idle (with_shared t p).
Proof.
  intros Hp. right; left. split; [done|]. exists t, (fun l => l). split; [apply looks_up_get_mutex|]. intros l.
  right; right. exists (RLock l), (SharedBy l). split; [constructor|]. split; [apply operates_lock_op|]. intros [].
  apply (one_lock_plain _ p (fun r => let* _ := lock_op (RUnlock l) in Ret r)); [done|]. intros a.
  apply one_lock_release; [constructor | done].
Qed.

Lemma one_lock_exclusive {A} t (p : Prog Sys A) : plain p -> one_lock Idle (with_exclusive t p).
Proof.
  intros Hp. right; left. split; [done|]. exists t, (fun l => l). split; [apply looks_up_get_mutex|]. intros l.
  right; right. exists (Lock_announce l), (Announced l). split; [constructor|]. split; [apply operates_lock_op|]. intros [].
  right; right. exists (Lock_acquire l), (ExclusiveBy l). split; [constructor|]. split; [apply operates_lock_op|]. intros [].
  apply (one_lock_plain _ p (fun r => let* _ := lock_op (Unlock l) in Ret r)); [done|]. intros a.
  apply one_lock_release; [constructor | done].
Qed.

Lemma one_lock_calm {A} (p : Prog Sys A) : plain p -> one_lock Idle p.
Proof.
  induction p as [a|X f g IH]; intros Hp; [done|].
  destruct Hp as [Hf Hg]. left. split; [by apply plain_calm | auto].
Qed.
