(* ===== verification/PgClient.v ===== *)
(** * The persistence layer (internal/db/pg_client.go)

    Each SQL text of the file is one [sql_...] definition, each method one
    program of round trips.  A row of a query is decoded as [Scan] does: a
    NULL in a column scanned into a Go string is an error. *)
From S2P Require Import Prelude Prog Models PartitionSpec GoJson Postgres World.

(** [c.Pool.BeginTx(ctx, pgx.TxOptions{})] *)
Definition BeginTx : Prog Sys (result Z) := on_pg pg_begin.

(** [tx, err := BeginTx(ctx); if err != nil { return failed err };
    defer tx.Rollback(ctx); body] *)
Definition with_tx {A} (failed : error -> A) (body : Z -> Prog Sys A) : Prog Sys A :=
  let* r := BeginTx in
  match r with
  | Err e => Ret (failed e)
  | Ok tx => deferred (tx_rollback tx) (body tx)
  end.

Section pg_client.
Context `{Postgres} `{GoText}.

(** ** Tables *)

(** [table_name = $1 AND is_deleted = false] *)
Definition live_named (name : string) (r : tables_row) : bool :=
  String.eqb (t_table_name r) name && negb (t_is_deleted r).

Definition sql_insert_table (name schema spec props : string) : Stmt (list Z) :=
  with_jsonb schema (fun schema => with_jsonb spec (fun spec => with_jsonb props (fun props =>
    with_now (fun now => with_nextval SeqTables (fun id =>
      fun now' d q =>
        if existsb (fun r => String.eqb (t_table_name r) name) (tables d)
        then select (fun _ => []) now' d q
        else insert_row id
          (fun d => set_tables (tables d ++
             [mk_tables_row id name schema 1 (Some spec) 1 0 props now false]) d) now' d q))))).

Definition CreateTableTx (tx : Z) (tableName schemaJSON partitionSpecJSON propertiesJSON : string)
    : Prog Sys (result (Z * bool)) :=
  let* r := tx_query_row tx (sql_insert_table tableName schemaJSON partitionSpecJSON propertiesJSON) in
  Ret match r with
      | Ok tableID => Ok (tableID, true)
      | Err ErrNoRows => Ok (0, false)
      | Err e => Err e
      end.

Definition sql_select_table (name : string) : Stmt (list tables_row) :=
  select (fun d => List.filter (live_named name) (tables d)).

Definition scan_null : error := ErrText "cannot scan NULL into *string".

Definition scan_table (r : tables_row) : result TableRow :=
  match t_partition_spec r with
  | None => Err scan_null
  | Some spec =>
      Ok (mkTableRow (t_table_id r) (t_table_name r) (t_schema_json r) (t_schema_version r)
            spec (t_partition_spec_version r) (t_current_snapshot_id r) (t_properties r))
  end.

Definition GetTable (tableName : string) : Prog Sys (result (option TableRow)) :=
  let* r := pool_query_row (sql_select_table tableName) in
  Ret match r with
      | Ok row => result_map Some (scan_table row)
      | Err ErrNoRows => Ok None
      | Err e => Err e
      end.

Definition sql_select_table_id (name : string) : Stmt (list Z) :=
  select (fun d => map t_table_id (List.filter (live_named name) (tables d))).

Definition GetTableID (tableName : string) : Prog Sys (result Z) :=
  let* r := pool_query_row (sql_select_table_id tableName) in
  Ret match r with
      | Ok id => Ok id
      | Err ErrNoRows => Ok (-1)
      | Err e => Err e
      end.

Definition set_schema (schema : string) (version now : Z) (r : tables_row) : tables_row :=
  mk_tables_row (t_table_id r) (t_table_name r) schema version (t_partition_spec r)
    (t_partition_spec_version r) (t_current_snapshot_id r) (t_properties r) now (t_is_deleted r).

Definition sql_update_schema (schema : string) (version : Z) (name : string) : Stmt Z :=
  with_jsonb schema (fun schema => with_now (fun now =>
    modify (fun d => List.filter (live_named name) (tables d))
      (fun d => set_tables (update_where (live_named name) (set_schema schema version now) (tables d)) d))).

Definition has_table (id : Z) (d : DB) : bool := existsb (fun r => t_table_id r =? id) (tables d).

Definition sql_insert_schema_history (tableID version : Z) (schema summary : string) : Stmt Z :=
  with_jsonb schema (fun schema => with_now (fun now =>
    with_nextval SeqSchemaHistory (fun id =>
      check (has_table tableID) "23503" "schema_history"
        (modify (fun _ => [tt])
          (fun d => set_schema_history (schema_history d ++
             [mk_schema_history_row id tableID version schema now (Some summary)]) d))))).

Definition UpdateTableSchema (tx : Z) (tableName newSchemaJSON : string) (newVersion : Z)
    (changeSummary : string) : Prog Sys (result unit) :=
  try* _ := tx_exec tx (sql_update_schema newSchemaJSON newVersion tableName) in
  try* tableID := tx_query_row tx (sql_select_table_id tableName) in
  try* _ := tx_exec tx (sql_insert_schema_history tableID newVersion newSchemaJSON changeSummary) in
  Ret (Ok tt).

Definition set_name (name : string) (now : Z) (r : tables_row) : tables_row :=
  mk_tables_row (t_table_id r) name (t_schema_json r) (t_schema_version r) (t_partition_spec r)
    (t_partition_spec_version r) (t_current_snapshot_id r) (t_properties r) now (t_is_deleted r).

(** [table_name] is UNIQUE: no other row may have the new name. *)
Definition name_free_for (newName oldName : string) (d : DB) : bool :=
  negb (existsb (live_named oldName) (tables d)) ||
  negb (existsb (fun r => String.eqb (t_table_name r) newName && negb (live_named oldName r)) (tables d)).

Definition sql_rename_table (newName oldName : string) : Stmt Z :=
  with_now (fun now =>
    check (name_free_for newName oldName) "23505" "tables"
      (modify (fun d => List.filter (live_named oldName) (tables d))
        (fun d => set_tables (update_where (live_named oldName) (set_name newName now) (tables d)) d))).

Definition RenameTable (oldName newName : string) : Prog Sys (result bool) :=
  try* affected := pool_exec (sql_rename_table newName oldName) in
  Ret (Ok (0 <? affected)).

(** [DELETE FROM relation WHERE table_id = $1] on the referencing relations *)
Definition sql_delete_manifest_files (tableID : Z) : Stmt Z :=
  let cond r := mf_table_id r =? tableID in
  modify (fun d => List.filter cond (manifest_files d))
    (fun d => set_manifest_files (delete_where cond (manifest_files d)) d).

Definition sql_delete_manifest_lists (tableID : Z) : Stmt Z :=
  let cond r := ml_table_id r =? tableID in
  modify (fun d => List.filter cond (manifest_lists d))
    (fun d => set_manifest_lists (delete_where cond (manifest_lists d)) d).

Definition sql_delete_partitions (tableID : Z) : Stmt Z :=
  let cond r := p_table_id r =? tableID in
  modify (fun d => List.filter cond (partitions d))
    (fun d => set_partitions (delete_where cond (partitions d)) d).

(** Rows that still reference one of the snapshots to delete. *)
Definition snapshots_unreferenced (tableID : Z) (d : DB) : bool :=
  let doomed id := existsb (fun r => (s_snapshot_id r =? id) && (s_table_id r =? tableID)) (snapshots d) in
  negb (existsb (fun r => doomed (p_snapshot_id r)) (partitions d)) &&
  negb (existsb (fun r => doomed (mf_snapshot_id r)) (manifest_files d)) &&
  negb (existsb (fun r => doomed (ml_snapshot_id r)) (manifest_lists d)).

Definition sql_delete_snapshots (tableID : Z) : Stmt Z :=
  let cond r := s_table_id r =? tableID in
  check (snapshots_unreferenced tableID) "23503" "snapshots"
    (modify (fun d => List.filter cond (snapshots d))
      (fun d => set_snapshots (delete_where cond (snapshots d)) d)).

Definition sql_delete_schema_history (tableID : Z) : Stmt Z :=
  let cond r := sh_table_id r =? tableID in
  modify (fun d => List.filter cond (schema_history d))
    (fun d => set_schema_history (delete_where cond (schema_history d)) d).

Definition sql_delete_partition_specs (tableID : Z) : Stmt Z :=
  let cond r := ps_table_id r =? tableID in
  modify (fun d => List.filter cond (partition_specs d))
    (fun d => set_partition_specs (delete_where cond (partition_specs d)) d).

(** Every relation of init_db.sql with a [REFERENCES tables(table_id)]. *)
Definition table_unreferenced (id : Z) (d : DB) : bool :=
  negb (existsb (fun r => sh_table_id r =? id) (schema_history d)) &&
  negb (existsb (fun r => s_table_id r =? id) (snapshots d)) &&
  negb (existsb (fun r => p_table_id r =? id) (partitions d)) &&
  negb (existsb (fun r => x_table_id r =? id) (transactions d)) &&
  negb (existsb (fun r => mf_table_id r =? id) (manifest_files d)) &&
  negb (existsb (fun r => ml_table_id r =? id) (manifest_lists d)) &&
  negb (existsb (fun r => ps_table_id r =? id) (partition_specs d)).

(** [DELETE FROM tables WHERE table_name = $1] *)
Definition sql_delete_table (name : string) : Stmt Z :=
  let cond r := String.eqb (t_table_name r) name in
  check (fun d => forallb (fun r => negb (cond r) || table_unreferenced (t_table_id r) d) (tables d))
    "23503" "tables"
    (modify (fun d => List.filter cond (tables d))
      (fun d => set_tables (delete_where cond (tables d)) d)).

Definition set_deleted (now : Z) (r : tables_row) : tables_row :=
  mk_tables_row (t_table_id r) (t_table_name r) (t_schema_json r) (t_schema_version r)
    (t_partition_spec r) (t_partition_spec_version r) (t_current_snapshot_id r) (t_properties r)
    now true.

Definition sql_soft_delete_table (name : string) : Stmt Z :=
  with_now (fun now =>
    modify (fun d => List.filter (live_named name) (tables d))
      (fun d => set_tables (update_where (live_named name) (set_deleted now) (tables d)) d)).

(** The deletes of a purge once the table's id is known. *)
Definition purge_rows (tx tableID : Z) (tableName : string) : Prog Sys (result bool) :=
  try* _ := tx_exec tx (sql_delete_manifest_files tableID) in
  try* _ := tx_exec tx (sql_delete_manifest_lists tableID) in
  try* _ := tx_exec tx (sql_delete_partitions tableID) in
  try* _ := tx_exec tx (sql_delete_snapshots tableID) in
  try* _ := tx_exec tx (sql_delete_schema_history tableID) in
  try* _ := tx_exec tx (sql_delete_partition_specs tableID) in
  try* affected := tx_exec tx (sql_delete_table tableName) in
  Ret (Ok (0 <? affected)).

Definition DropTable (tx : Z) (tableName : string) (purge : bool) : Prog Sys (result bool) :=
  if purge then
    let* r := tx_query_row tx (sql_select_table_id tableName) in
    match r with
    | Err ErrNoRows => Ret (Ok false)
    | Err e => Ret (Err e)
    | Ok tableID => purge_rows tx tableID tableName
    end
  else
    try* affected := tx_exec tx (sql_soft_delete_table tableName) in
    Ret (Ok (0 <? affected)).

(** [ORDER BY table_id LIMIT $1 OFFSET $2] over the live tables *)
Definition sql_list_tables (limit offset : Z) : Stmt (list tables_row) :=
  check (fun _ => 0 <=? offset) "2201X" ""
    (select (fun d => take (Z.to_nat limit) (drop (Z.to_nat offset)
       (order_by t_table_id (List.filter (fun r => negb (t_is_deleted r)) (tables d)))))).

(** The scan loop: the first row that fails to scan ends it. *)
Fixpoint scan_all {A B} (scan : A -> result B) (rows : list A) : result (list B) :=
  match rows with
  | [] => Ok []
  | r :: rows' =>
      match scan r with
      | Err e => Err e
      | Ok b => result_map (cons b) (scan_all scan rows')
      end
  end.

Definition page_offset (pageToken : string) : Z :=
  if String.eqb pageToken "" then 0
  else match ParseInt pageToken with Some n => n | None => 0 end.

Definition ListTables (namespace : string) (pageSize : Z) (pageToken : string)
    : Prog Sys (result (list TableRow)) :=
  let limit := if pageSize <=? 0 then 100 else pageSize in
  try* rows := pool_query (sql_list_tables limit (page_offset pageToken)) in
  Ret (scan_all scan_table rows).

Definition sql_current_snapshot (name : string) : Stmt (list Z) :=
  select (fun d => map t_current_snapshot_id (List.filter (live_named name) (tables d))).

Definition GetCurrentSnapshot (tableName : string) : Prog Sys (result Z) :=
  let* r := pool_query_row (sql_current_snapshot tableName) in
  Ret match r with
      | Ok snapshotID => if snapshotID <? 0 then Ok 0 else Ok (uint64 snapshotID)
      | Err ErrNoRows => Ok 0
      | Err e => Err e
      end.

Definition sql_spec_version (name : string) : Stmt (list Z) :=
  select (fun d => map t_partition_spec_version (List.filter (live_named name) (tables d))).

Definition GetTableSpecVersion (tableName : string) : Prog Sys (result Z) :=
  let* r := pool_query_row (sql_spec_version tableName) in
  Ret match r with
      | Ok v => Ok v
      | Err ErrNoRows => Ok 0
      | Err e => Err e
      end.

(** ** Transactions *)

Definition sql_insert_transaction (clientID : string) (tableID readSnapshotID : Z) (isolation : string)
    : Stmt (list Z) :=
  with_nextval SeqTransactions (fun id =>
    check (has_table tableID) "23503" "transactions"
      (insert_row id
        (fun d => set_transactions (transactions d ++
           [mk_transactions_row id clientID tableID readSnapshotID "active" isolation None]) d))).

Definition InsertTransaction (clientID : string) (tableID readSnapshotID : Z) (isolation : string)
    : Prog Sys (result Z) :=
  let* r := pool_query_row (sql_insert_transaction clientID tableID (int64 readSnapshotID) isolation) in
  Ret match r with
      | Ok txnID => if txnID <? 0 then Ok 0 else Ok (uint64 txnID)
      | Err e => Err e
      end.

Definition set_status (status : string) (now : Z) (r : transactions_row) : transactions_row :=
  mk_transactions_row (x_txn_id r) (x_client_id r) (x_table_id r) (x_read_snapshot_id r) status
    (x_isolation_level r) (if String.eqb status "committed" then Some now else x_committed_at r).

Definition sql_update_transaction (status : string) (txnID : Z) : Stmt Z :=
  let cond r := x_txn_id r =? txnID in
  with_now (fun now =>
    modify (fun d => List.filter cond (transactions d))
      (fun d => set_transactions (update_where cond (set_status status now) (transactions d)) d)).

Definition UpdateTransactionStatus (txnID : Z) (status : string) : Prog Sys (result unit) :=
  try* _ := pool_exec (sql_update_transaction status (int64 txnID)) in Ret (Ok tt).

Definition IsUniqueViolation (e : error) : bool :=
  match e with PgError code _ => String.eqb code "23505" | _ => false end.

(** [pgtypeInt8Scan]: digits after an optional minus, wrapping at 64 bits. *)
Fixpoint scan_digits (s : string) (v : Z) : option Z :=
  match s with
  | EmptyString => Some v
  | String c s' =>
      match char_digit c with
      | Some d => scan_digits s' (int64 (int64 (v * 10) + d))
      | None => None
      end
  end.

Definition pgtypeInt8Scan (s : string) : option Z :=
  match s with
  | EmptyString => Some 0
  | String "-"%char s' => (fun v => int64 (v * -1)) <$> scan_digits s' 0
  | _ => (fun v => int64 (v * 1)) <$> scan_digits s 0
  end.

(** ** Partitions *)

Definition marshalColumnStats (stats : list ColumnStats) : string :=
  match stats with
  | [] => "[]"
  | _ => match json_marshal_stats stats with Ok b => b | Err _ => "[]" end
  end.

Definition unmarshalColumnStats (raw : string) : list ColumnStats :=
  if String.eqb raw "" || String.eqb raw "null" || String.eqb raw "{}" then []
  else match json_unmarshal_stats raw with Ok stats => stats | Err _ => [] end.

(** [table_id = $1 AND snapshot_id <= $2
     AND (is_deleted = false OR deleted_snapshot_id > $2)] *)
Definition visible (tableID snapshotID : Z) (r : partitions_row) : bool :=
  (p_table_id r =? tableID) && (p_snapshot_id r <=? snapshotID) &&
  (negb (p_is_deleted r) ||
   match p_deleted_snapshot_id r with Some d => snapshotID <? d | None => false end).

Definition sql_select_partitions (tableID snapshotID : Z) : Stmt (list partitions_row) :=
  select (fun d => order_by p_partition_id (List.filter (visible tableID snapshotID) (partitions d))).

Definition scan_partition (r : partitions_row) : PartitionRow :=
  mkPartitionRow (p_partition_id r) (p_table_id r) (p_snapshot_id r) (p_partition_key r)
    (p_data_file_path r) (p_file_format r) (p_row_count r) (p_size_bytes r)
    (unmarshalColumnStats (p_column_stats r)).

(** The nil slice of an absent table is [None]. *)
Definition QueryPartitions (tableName : string) (snapshotID : Z)
    : Prog Sys (result (option (list PartitionRow))) :=
  try* tableID := GetTableID tableName in
  if tableID <? 0 then Ret (Ok None)
  else
    try* rows := pool_query (sql_select_partitions tableID (int64 snapshotID)) in
    Ret (Ok (Some (map scan_partition rows))).

Definition sql_select_partitions_paged (tableID snapshotID last limit : Z) : Stmt (list partitions_row) :=
  select (fun d => take (Z.to_nat limit)
    (order_by p_partition_id
      (List.filter (fun r => visible tableID snapshotID r && (last <? p_partition_id r)) (partitions d)))).

Definition QueryPartitionsPaged (tableName : string) (snapshotID pageSize lastPartitionID : Z)
    : Prog Sys (result (option (list PartitionRow))) :=
  try* tableID := GetTableID tableName in
  if tableID <? 0 then Ret (Ok None)
  else
    let pageSize := if pageSize <=? 0 then 1000 else pageSize in
    try* rows := pool_query
      (sql_select_partitions_paged tableID (int64 snapshotID) lastPartitionID pageSize) in
    Ret (Ok (Some (map scan_partition rows))).

(** ** Snapshots and manifests *)

Definition has_snapshot (id : Z) (d : DB) : bool := existsb (fun r => s_snapshot_id r =? id) (snapshots d).

Definition sql_insert_snapshot (tableID parent : Z) (operation : string) (added deleted : Z) : Stmt (list Z) :=
  with_now (fun now => with_nextval SeqSnapshots (fun id =>
    check (has_table tableID) "23503" "snapshots"
      (insert_row id
        (fun d => set_snapshots (snapshots d ++
           [mk_snapshots_row id tableID parent now operation added deleted]) d)))).

Definition InsertSnapshotTx (tx : Z) (tableName : string) (parentSnapshotID : Z) (operation : string)
    (addedCount deletedCount : Z) : Prog Sys (result (Z * Z)) :=
  let* r := tx_query_row tx (sql_select_table_id tableName) in
  match r with
  | Err ErrNoRows => Ret (Ok (0, 0))
  | Err e => Ret (Err e)
  | Ok tableID =>
      try* rawID := tx_query_row tx
        (sql_insert_snapshot tableID (int64 parentSnapshotID) operation addedCount deletedCount) in
      Ret (Ok (if rawID <? 0 then 0 else uint64 rawID, tableID))
  end.

Definition sql_insert_manifest_file (row : ManifestFileRow) : Stmt (list Z) :=
  with_jsonb (mfr_PartitionSummaries row) (fun summaries =>
    with_nextval SeqManifestFiles (fun id =>
      check (fun d => has_table (mfr_TableID row) d && has_snapshot (mfr_SnapshotID row) d)
        "23503" "manifest_files"
        (insert_row id (fun d => set_manifest_files (manifest_files d ++
          [mk_manifest_files_row id (mfr_TableID row) (mfr_SnapshotID row) (mfr_ManifestPath row)
             (mfr_PartitionSpecID row) (mfr_AddedFilesCount row) (mfr_DeletedFilesCount row)
             (mfr_AddedRowsCount row) (mfr_DeletedRowsCount row) summaries]) d)))).

Definition InsertManifestFileTx (tx : Z) (row : ManifestFileRow) : Prog Sys (result Z) :=
  tx_query_row tx (sql_insert_manifest_file row).

(** [manifest_lists.snapshot_id] is UNIQUE. *)
Definition sql_insert_manifest_list (snapshotID tableID manifestCount : Z) : Stmt (list Z) :=
  with_nextval SeqManifestLists (fun id =>
    check (fun d => negb (existsb (fun r => ml_snapshot_id r =? snapshotID) (manifest_lists d)))
      "23505" "manifest_lists"
      (check (fun d => has_table tableID d && has_snapshot snapshotID d) "23503" "manifest_lists"
        (insert_row id (fun d => set_manifest_lists (manifest_lists d ++
          [mk_manifest_lists_row id snapshotID tableID manifestCount]) d)))).

Definition InsertManifestListTx (tx snapshotID tableID manifestCount : Z) : Prog Sys (result Z) :=
  tx_query_row tx (sql_insert_manifest_list snapshotID tableID manifestCount).

Definition sql_select_manifest_list (snapshotID tableID : Z) : Stmt (list manifest_lists_row) :=
  select (fun d => List.filter
    (fun r => (ml_snapshot_id r =? snapshotID) && (ml_table_id r =? tableID)) (manifest_lists d)).

Definition scan_manifest_list (r : manifest_lists_row) : ManifestListRow :=
  mkManifestListRow (ml_manifest_list_id r) (ml_snapshot_id r) (ml_table_id r) (ml_manifest_count r).

Definition sql_select_manifest_files (snapshotID : Z) : Stmt (list manifest_files_row) :=
  select (fun d => order_by mf_manifest_file_id
    (List.filter (fun r => mf_snapshot_id r =? snapshotID) (manifest_files d))).

Definition scan_manifest_file (r : manifest_files_row) : ManifestFileRow :=
  mkManifestFileRow (mf_manifest_file_id r) (mf_table_id r) (mf_snapshot_id r) (mf_manifest_path r)
    (mf_partition_spec_id r) (mf_added_files_count r) (mf_deleted_files_count r)
    (mf_added_rows_count r) (mf_deleted_rows_count r) (mf_partition_summaries r).

Definition GetManifestList (tableName : string) (snapshotID : Z)
    : Prog Sys (result (option (ManifestListRow * list ManifestFileRow))) :=
  try* tableID := GetTableID tableName in
  if tableID <? 0 then Ret (Ok None)
  else
    let* r := pool_query_row (sql_select_manifest_list (int64 snapshotID) tableID) in
    match r with
    | Err ErrNoRows => Ret (Ok None)
    | Err e => Ret (Err e)
    | Ok list =>
        try* files := pool_query (sql_select_manifest_files (int64 snapshotID)) in
        Ret (Ok (Some (scan_manifest_list list, map scan_manifest_file files)))
    end.

(** [manifest_files mf JOIN tables t ON t.table_id = mf.table_id] *)
Definition sql_select_manifest_file (manifestFileID : Z) (tableName : string)
    : Stmt (list manifest_files_row) :=
  select (fun d => List.flat_map
    (fun r => map (fun _ => r)
      (List.filter (fun t => (t_table_id t =? mf_table_id r) && live_named tableName t) (tables d)))
    (List.filter (fun r => mf_manifest_file_id r =? manifestFileID) (manifest_files d))).

Definition GetManifestFile (tableName : string) (manifestFileID : Z)
    : Prog Sys (result (option ManifestFileRow)) :=
  let* r := pool_query_row (sql_select_manifest_file manifestFileID tableName) in
  Ret match r with
      | Ok f => Ok (Some (scan_manifest_file f))
      | Err ErrNoRows => Ok None
      | Err e => Err e
      end.

Definition sql_insert_partition (tableID snapshotID : Z) (part : PartitionRow) (stats : string) : Stmt Z :=
  with_jsonb stats (fun stats => with_nextval SeqPartitions (fun id =>
    check (fun d => has_table tableID d && has_snapshot snapshotID d) "23503" "partitions"
      (modify (fun _ => [tt])
        (fun d => set_partitions (partitions d ++
          [mk_partitions_row id tableID snapshotID (pr_PartitionKey part) (pr_DataFilePath part)
             (pr_FileFormat part) (pr_RowCount part) (pr_SizeBytes part) stats false None]) d)))).

Definition InsertPartitionTx (tx : Z) (tableName : string) (snapshotID : Z) (part : PartitionRow)
    : Prog Sys (result unit) :=
  try* tableID := tx_query_row tx (sql_select_table_id tableName) in
  let statsJSON := marshalColumnStats (pr_ColumnStats part) in
  try* _ := tx_exec tx (sql_insert_partition tableID (int64 snapshotID) part statsJSON) in
  Ret (Ok tt).

(** *** Column bounds of a snapshot *)

(** [type agg struct] *)
Record agg := mkAgg {
  nullCount : Z; nanCount : Z; valueCount : Z; minValue : string; maxValue : string; hasMin : bool;
}.

Definition zero_agg : agg := mkAgg 0 0 0 "" "" false.

(** The body of the inner loop, on the column's accumulator. *)
Definition agg_add (cs : ColumnStats) (a : agg) : agg :=
  let takes_min :=
    negb (String.eqb (cs_MinValue cs) "") &&
    (negb (hasMin a) || string_ltb (cs_MinValue cs) (minValue a)) in
  let takes_max :=
    negb (String.eqb (cs_MaxValue cs) "") && string_ltb (maxValue a) (cs_MaxValue cs) in
  mkAgg (int64 (nullCount a + cs_NullCount cs)) (int64 (nanCount a + cs_NaNCount cs))
    (int64 (valueCount a + cs_ValueCount cs))
    (if takes_min then cs_MinValue cs else minValue a)
    (if takes_max then cs_MaxValue cs else maxValue a)
    (hasMin a || takes_min).

Definition agg_step (byCol : gmap Z agg) (cs : ColumnStats) : gmap Z agg :=
  <[cs_ColumnID cs := agg_add cs (default zero_agg (byCol !! cs_ColumnID cs))]> byCol.

Definition aggregate (rows : list PartitionRow) : gmap Z agg :=
  foldl agg_step ∅ (List.flat_map pr_ColumnStats rows).

Definition agg_stats (colID : Z) (a : agg) : ColumnStats :=
  mkColumnStats colID (nullCount a) (nanCount a) (valueCount a) (minValue a) (maxValue a) 0.

(** The result lists the map in its iteration order, one of the orders Go
    may take. *)
Definition GetColumnStatsForSnapshot (tableName : string) (snapshotID : Z)
    : Prog Sys (result (list ColumnStats)) :=
  try* rows := QueryPartitions tableName snapshotID in
  Ret (Ok (map (fun e => agg_stats e.1 e.2) (map_to_list (aggregate (default [] rows))))).

(** *** Deletion, table pointer, history *)

Definition set_part_deleted (deletedSnapshotID : Z) (r : partitions_row) : partitions_row :=
  mk_partitions_row (p_partition_id r) (p_table_id r) (p_snapshot_id r) (p_partition_key r)
    (p_data_file_path r) (p_file_format r) (p_row_count r) (p_size_bytes r) (p_column_stats r)
    true (Some deletedSnapshotID).

(** [table_id = $2 AND partition_key = $3 AND is_deleted = false] *)
Definition live_keyed (tableID : Z) (key : string) (r : partitions_row) : bool :=
  (p_table_id r =? tableID) && String.eqb (p_partition_key r) key && negb (p_is_deleted r).

Definition sql_mark_deleted (deletedSnapshotID tableID : Z) (key : string) : Stmt Z :=
  modify (fun d => List.filter (live_keyed tableID key) (partitions d))
    (fun d => set_partitions
      (update_where (live_keyed tableID key) (set_part_deleted deletedSnapshotID) (partitions d)) d).

Definition MarkPartitionDeletedTx (tx : Z) (tableName partitionKey : string) (deletedSnapshotID : Z)
    : Prog Sys (result unit) :=
  try* tableID := tx_query_row tx (sql_select_table_id tableName) in
  try* _ := tx_exec tx (sql_mark_deleted (int64 deletedSnapshotID) tableID partitionKey) in
  Ret (Ok tt).

Definition set_current_snapshot (snapshotID now : Z) (r : tables_row) : tables_row :=
  mk_tables_row (t_table_id r) (t_table_name r) (t_schema_json r) (t_schema_version r)
    (t_partition_spec r) (t_partition_spec_version r) snapshotID (t_properties r) now (t_is_deleted r).

Definition sql_update_snapshot (snapshotID : Z) (name : string) : Stmt Z :=
  with_now (fun now =>
    modify (fun d => List.filter (live_named name) (tables d))
      (fun d => set_tables
        (update_where (live_named name) (set_current_snapshot snapshotID now) (tables d)) d)).

Definition UpdateTableSnapshotTx (tx : Z) (tableName : string) (snapshotID : Z) : Prog Sys (result unit) :=
  try* _ := tx_exec tx (sql_update_snapshot (int64 snapshotID) tableName) in
  Ret (Ok tt).

Definition sql_select_snapshot (tableID snapshotID : Z) : Stmt (list snapshots_row) :=
  select (fun d => List.filter
    (fun r => (s_table_id r =? tableID) && (s_snapshot_id r =? snapshotID)) (snapshots d)).

Definition scan_snapshot (r : snapshots_row) : SnapshotRow :=
  mkSnapshotRow (s_snapshot_id r) (s_table_id r) (s_parent_snapshot_id r) (s_operation r)
    (s_added_files_count r) (s_deleted_files_count r) (pg_timestamp_text (s_committed_at r)).

Definition GetSnapshot (tableName : string) (snapshotID : Z) : Prog Sys (result (option SnapshotRow)) :=
  try* tableID := GetTableID tableName in
  if tableID <? 0 then Ret (Ok None)
  else
    let* r := pool_query_row (sql_select_snapshot tableID (int64 snapshotID)) in
    Ret match r with
        | Ok s => Ok (Some (scan_snapshot s))
        | Err ErrNoRows => Ok None
        | Err e => Err e
        end.

(** [ORDER BY committed_at DESC LIMIT $2] *)
Definition sql_list_snapshots (tableID limit : Z) : Stmt (list snapshots_row) :=
  select (fun d => take (Z.to_nat limit)
    (order_by (fun r => - s_committed_at r)
      (List.filter (fun r => s_table_id r =? tableID) (snapshots d)))).

Definition ListSnapshots (tableName : string) (limit : Z) : Prog Sys (result (list SnapshotRow)) :=
  try* tableID := GetTableID tableName in
  if tableID <? 0 then Ret (Ok [])
  else
    let limit := if limit <=? 0 then 50 else limit in
    try* rows := pool_query (sql_list_snapshots tableID limit) in
    Ret (Ok (map scan_snapshot rows)).

(** [partition_specs] is UNIQUE on (table_id, spec_version). *)
Definition sql_insert_partition_spec (tableID specVersion : Z) (spec summary : string) : Stmt Z :=
  with_jsonb spec (fun spec => with_now (fun now =>
    with_nextval SeqPartitionSpecs (fun id =>
      check (fun d => negb (existsb
              (fun r => (ps_table_id r =? tableID) && (ps_spec_version r =? specVersion))
              (partition_specs d))) "23505" "partition_specs"
        (check (has_table tableID) "23503" "partition_specs"
          (modify (fun _ => [tt])
            (fun d => set_partition_specs (partition_specs d ++
               [mk_partition_specs_row id tableID specVersion spec now (Some summary)]) d)))))).

Definition InsertPartitionSpecTx (tx tableID specVersion : Z) (specJSON changeSummary : string)
    : Prog Sys (result unit) :=
  try* _ := tx_exec tx (sql_insert_partition_spec tableID specVersion specJSON changeSummary) in
  Ret (Ok tt).

Definition set_spec (spec : string) (version now : Z) (r : tables_row) : tables_row :=
  mk_tables_row (t_table_id r) (t_table_name r) (t_schema_json r) (t_schema_version r)
    (Some spec) version (t_current_snapshot_id r) (t_properties r) now (t_is_deleted r).

Definition sql_update_spec (spec : string) (version : Z) (name : string) : Stmt Z :=
  with_jsonb spec (fun spec => with_now (fun now =>
    modify (fun d => List.filter (live_named name) (tables d))
      (fun d => set_tables (update_where (live_named name) (set_spec spec version now) (tables d)) d))).

Definition UpdateTablePartitionSpecTx (tx : Z) (tableName newSpecJSON : string) (newVersion : Z)
    : Prog Sys (result unit) :=
  try* _ := tx_exec tx (sql_update_spec newSpecJSON newVersion tableName) in
  Ret (Ok tt).

Definition scan_partition_spec (r : partition_specs_row) : PartitionSpecRow :=
  mkPartitionSpecRow (ps_partition_spec_id r) (ps_table_id r) (ps_spec_version r) (ps_spec_json r)
    (pg_timestamp_text (ps_changed_at r)) (default "" (ps_change_summary r)).

Definition sql_select_partition_spec (tableID specVersion : Z) : Stmt (list partition_specs_row) :=
  select (fun d => List.filter
    (fun r => (ps_table_id r =? tableID) && (ps_spec_version r =? specVersion)) (partition_specs d)).

Definition GetPartitionSpecByVersion (tableID specVersion : Z)
    : Prog Sys (result (option PartitionSpecRow)) :=
  let* r := pool_query_row (sql_select_partition_spec tableID specVersion) in
  Ret match r with
      | Ok row => Ok (Some (scan_partition_spec row))
      | Err ErrNoRows => Ok None
      | Err e => Err e
      end.

(** [ORDER BY spec_version DESC] *)
Definition sql_list_partition_specs (tableID : Z) : Stmt (list partition_specs_row) :=
  select (fun d => order_by (fun r => - ps_spec_version r)
    (List.filter (fun r => ps_table_id r =? tableID) (partition_specs d))).

Definition ListPartitionSpecHistory (tableID : Z) : Prog Sys (result (list PartitionSpecRow)) :=
  try* rows := pool_query (sql_list_partition_specs tableID) in
  Ret (Ok (map scan_partition_spec rows)).

Definition sql_count_partitions (tableID snapshotID : Z) : Stmt (list Z) :=
  select (fun d => [Z.of_nat (length (List.filter (visible tableID snapshotID) (partitions d)))]).

Definition GetVisiblePartitionCount (tableName : string) (snapshotID : Z) : Prog Sys (result Z) :=
  try* tableID := GetTableID tableName in
  if tableID <? 0 then Ret (Ok 0)
  else pool_query_row (sql_count_partitions tableID (int64 snapshotID)).

End pg_client.
