(* ===== verification/Config.v ===== *)
(** * Configuration (internal/config/config.go)

    [FromEnv] as a function of the environment; an unset variable and an
    empty one read the same. *)
From S2P Require Import Prelude.

(** [type Config struct]; the timeout is a [time.Duration], nanoseconds in
    an int64. *)
Record Config := mkConfig {
  PGConnString : string;
  GRPCAddress : string;
  CacheCapacity : Z;
  PoolSize : Z;
  TxnTimeout : Z;
  DisableCache : bool;
}.

Definition second : Z := 10 ^ 9.

(** [if n, err := strconv.Atoi(v); err == nil && n > 0] *)
Definition positive_int (v : string) : option Z :=
  match Atoi v with
  | Some n => if 0 <? n then Some n else None
  | None => None
  end.

Definition default_conn : string :=
  "host=localhost port=5432 dbname=metadata user=metadata_user password=metadata_pass".

Definition FromEnv (getenv : string -> string) : Config :=
  let set v := negb (String.eqb (getenv v) "") in
  mkConfig
    (if set "PG_CONN_STRING" then getenv "PG_CONN_STRING" else default_conn)
    (if set "GRPC_PORT" then "0.0.0.0:" ++ getenv "GRPC_PORT"
     else if set "GRPC_ADDRESS" then getenv "GRPC_ADDRESS" else "0.0.0.0:50051")
    (default 10000 (if set "CACHE_CAPACITY" then positive_int (getenv "CACHE_CAPACITY") else None))
    (default 20 (if set "POOL_SIZE" then positive_int (getenv "POOL_SIZE") else None))
    (default (300 * second)
      (if set "TXN_TIMEOUT_SEC"
       then (fun n => int64 (n * second)) <$> positive_int (getenv "TXN_TIMEOUT_SEC") else None))
    (if set "DISABLE_CACHE"
     then String.eqb (getenv "DISABLE_CACHE") "true" || String.eqb (getenv "DISABLE_CACHE") "1" ||
          String.eqb (getenv "DISABLE_CACHE") "TRUE"
     else false).

(** ** Lemmas *)

Lemma positive_int_spec v n : positive_int v = Some n -> 0 < n < 2 ^ 63.
Proof.
  unfold positive_int, Atoi. destruct (ParseInt v) as [m|] eqn:E; [|done].
  apply ParseInt_range in E. unfold is_int64 in E. destruct (Z.ltb_spec 0 m); [|done]. intros [= <-]. lia.
Qed.

(** ** Properties *)

(** C34. Whatever the environment, the configuration is usable: the cache
    capacity and the pool size are positive and fit an [int], and the
    transaction timeout is positive, unless the seconds asked for overflow an
    [int64] of nanoseconds. *)
Theorem config_bounds (getenv : string -> string) :
  0 < CacheCapacity (FromEnv getenv) < 2 ^ 63 /\ 0 < PoolSize (FromEnv getenv) < 2 ^ 63 /\
  (0 < TxnTimeout (FromEnv getenv) \/
   exists n, positive_int (getenv "TXN_TIMEOUT_SEC") = Some n /\ 2 ^ 63 <= n * second).
Proof.
  assert (Hdef : forall (b : bool) v d, 0 < d < 2 ^ 63 ->
    0 < default d (if b then positive_int v else None) < 2 ^ 63).
  { intros b v d Hd. destruct b; [|done]. destruct (positive_int v) as [n|] eqn:E; [|done].
    by apply positive_int_spec in E. }
  unfold FromEnv. cbn [CacheCapacity PoolSize TxnTimeout]. split; [by apply Hdef|]. split; [by apply Hdef|].
  destruct (negb (String.eqb (getenv "TXN_TIMEOUT_SEC") "")); [|by left].
  destruct (positive_int (getenv "TXN_TIMEOUT_SEC")) as [n|] eqn:E; [|by left].
  apply positive_int_spec in E as Hn. destruct (Z.lt_ge_cases (n * second) (2 ^ 63)) as [Hlt|Hge]; [left|right; by exists n].
  cbn [fmap option_fmap option_map default]. rewrite int64_id; unfold is_int64, second in *; cbn; lia.
Qed.

(** The overflow is reachable: a timeout of about 292 years is negative, and
    every transaction is expired when it commits. *)
Example timeout_overflows :
  TxnTimeout (FromEnv (fun v => if String.eqb v "TXN_TIMEOUT_SEC" then "9223372037" else "")) = -9223372036709551616.
Proof. vm_compute. reflexivity. Qed.
