(* ===== verification/ManifestStore.v ===== *)
(** * The manifest store (internal/catalog/manifest_store.go)

    Pure delegation to the persistence layer, without locks. *)
From S2P Require Import Prelude Prog Models Postgres World PgClient.

Definition GetManifestList (tableName : string) (snapshotID : Z)
    : Prog Sys (result (option (ManifestListRow * list ManifestFileRow))) :=
  PgClient.GetManifestList tableName snapshotID.

Definition GetManifestFile (tableName : string) (manifestFileID : Z)
    : Prog Sys (result (option ManifestFileRow)) :=
  PgClient.GetManifestFile tableName manifestFileID.
