(* ===== verification/SchemaStore.v ===== *)
(** * The schema store (internal/catalog/schema_store.go) *)
From S2P Require Import Prelude Prog Models PartitionSpec GoJson Postgres World PgClient.

(** [type SchemaVersion struct] *)
Record SchemaVersion := mkSchemaVersion {
  sv_Version : Z;
  sv_SchemaJSON : string;
  sv_ChangedAt : string;
  sv_ChangeSummary : string;
}.

(** The UTF-8 encodings of the runes [unicode.IsSpace] accepts, at the head
    of a string; the rest of the string. *)
Definition skip_space (s : string) : option string :=
  let byte c := Z.of_nat (Ascii.nat_of_ascii c) in
  match s with
  | EmptyString => None
  | String c s1 =>
      let b := byte c in
      if ((9 <=? b) && (b <=? 13)) || (b =? 32) then Some s1
      else match s1 with
      | EmptyString => None
      | String c2 s2 =>
          let b2 := byte c2 in
          if (b =? 194) && ((b2 =? 133) || (b2 =? 160)) then Some s2
          else match s2 with
          | EmptyString => None
          | String c3 s3 =>
              let b3 := byte c3 in
              if ((b =? 225) && (b2 =? 154) && (b3 =? 128)) ||
                 ((b =? 226) && (b2 =? 128) &&
                    (((128 <=? b3) && (b3 <=? 138)) || (b3 =? 168) || (b3 =? 169) || (b3 =? 175))) ||
                 ((b =? 226) && (b2 =? 129) && (b3 =? 159)) ||
                 ((b =? 227) && (b2 =? 128) && (b3 =? 128))
              then Some s3 else None
          end
      end
  end.

Fixpoint blank_upto (fuel : nat) (s : string) : bool :=
  match s, fuel with
  | EmptyString, _ => true
  | _, O => false
  | _, S fuel' => match skip_space s with Some s' => blank_upto fuel' s' | None => false end
  end.

(** [strings.TrimSpace(s) == ""]; a rune takes at least one byte. *)
Definition blank (s : string) : bool := blank_upto (String.length s) s.

Section schema_store.
Context `{Postgres} `{GoText}.

Definition GetCurrentSchema (tableName : string) : Prog Sys (result (option SchemaVersion)) :=
  with_shared tableName (
    try* table := PgClient.GetTable tableName in
    Ret (Ok ((fun table => mkSchemaVersion (tr_SchemaVersion table) (tr_SchemaJSON table) "" "current")
               <$> table))).

(** A row of [schema_history]; a NULL [change_summary] does not scan. *)
Definition scan_schema_version (r : schema_history_row) : result SchemaVersion :=
  match sh_change_summary r with
  | None => Err scan_null
  | Some summary =>
      Ok (mkSchemaVersion (sh_schema_version r) (sh_schema_json r)
            (pg_timestamp_text (sh_changed_at r)) summary)
  end.

Definition sql_schema_at (tableID version : Z) : Stmt (list schema_history_row) :=
  select (fun d => List.filter
    (fun r => (sh_table_id r =? tableID) && (sh_schema_version r =? version)) (schema_history d)).

(** Every error of the row, the absence of one included, is a nil schema. *)
Definition GetSchemaAtVersion (tableName : string) (version : Z)
    : Prog Sys (result (option SchemaVersion)) :=
  with_shared tableName (
    try* tableID := GetTableID tableName in
    if tableID <? 0 then Ret (Ok None)
    else
      let* r := pool_query_row (sql_schema_at tableID version) in
      Ret (Ok match r with
              | Ok row => match scan_schema_version row with Ok sv => Some sv | Err _ => None end
              | Err _ => None
              end)).

(** [ORDER BY schema_version DESC] *)
Definition sql_schema_history (tableID : Z) : Stmt (list schema_history_row) :=
  select (fun d => order_by (fun r => - sh_schema_version r)
    (List.filter (fun r => sh_table_id r =? tableID) (schema_history d))).

Definition ListSchemaHistory (tableName : string) : Prog Sys (result (list SchemaVersion)) :=
  with_shared tableName (
    try* tableID := GetTableID tableName in
    if tableID <? 0 then Ret (Ok [])
    else
      try* rows := pool_query (sql_schema_history tableID) in
      Ret (scan_all scan_schema_version rows)).

Definition ValidateSchemaChange (proposedJSON : string) : string :=
  if blank proposedJSON then "Proposed schema cannot be empty"
  else match json_unmarshal_object proposedJSON with
       | Err _ | Ok None => "Proposed schema must be valid JSON object"
       | Ok (Some O) => "Proposed schema cannot be empty"
       | Ok (Some _) => ""
       end.

End schema_store.
