(* ===== verification/SpecStore.v ===== *)
(** * The partition spec store (internal/catalog/partition_spec_store.go)

    Versions of a table's partition spec and the rules of their evolution. *)
From S2P Require Import Prelude Prog Models PartitionSpec GoJson Postgres World PgClient.

(** [type PartitionSpecVersion struct] *)
Record PartitionSpecVersion := mkPartitionSpecVersion {
  psv_Version : Z;
  psv_SpecJSON : string;
  psv_ChangedAt : string;
  psv_ChangeSummary : string;
}.

Section spec_store.
Context `{Postgres} `{GoText}.

Definition GetCurrentSpec (tableName : string) : Prog Sys (result (option PartitionSpecVersion)) :=
  with_shared tableName (
    try* table := PgClient.GetTable tableName in
    Ret (Ok ((fun table => mkPartitionSpecVersion (tr_PartitionSpecVersion table)
                (tr_PartitionSpec table) "" "current") <$> table))).

Definition spec_version_of (row : PartitionSpecRow) : PartitionSpecVersion :=
  mkPartitionSpecVersion (psr_SpecVersion row) (psr_SpecJSON row) (psr_ChangedAt row)
    (psr_ChangeSummary row).

Definition GetSpecAtVersion (tableName : string) (version : Z)
    : Prog Sys (result (option PartitionSpecVersion)) :=
  with_shared tableName (
    try* tableID := GetTableID tableName in
    if tableID <? 0 then Ret (Ok None)
    else
      try* row := GetPartitionSpecByVersion tableID version in
      Ret (Ok (spec_version_of <$> row))).

Definition ListSpecHistory (tableName : string) : Prog Sys (result (list PartitionSpecVersion)) :=
  with_shared tableName (
    try* tableID := GetTableID tableName in
    if tableID <? 0 then Ret (Ok [])
    else
      try* rows := ListPartitionSpecHistory tableID in
      Ret (Ok (map spec_version_of rows))).

(** ** Spec evolution *)

(** [f.TransformParam == nil || *f.TransformParam <= 0] *)
Definition param_missing (f : PartitionField) : bool :=
  match TransformParam f with None => true | Some p => p <=? 0 end.

(** The checks of one proposed field, in the order of the code; [seen] are
    the ids of the earlier fields. *)
Definition field_error (i : Z) (seen : list Z) (f : PartitionField) : option string :=
  let q := go_quote in
  if String.eqb (SourceColumn f) "" then
    Some ("field at index " ++ FormatInt i ++ " has empty source_column")%string
  else if negb (validTransforms (Transform f)) then
    Some ("field " ++ q (SourceColumn f) ++ " has unknown transform " ++ q (Transform f))%string
  else if paramRequired (Transform f) && param_missing f then
    Some ("field " ++ q (SourceColumn f) ++ " transform " ++ q (Transform f)
            ++ " requires a positive transform_param")%string
  else if negb (paramRequired (Transform f)) && negb (bool_decide (TransformParam f = None)) then
    Some ("field " ++ q (SourceColumn f) ++ " transform " ++ q (Transform f)
            ++ " must not have transform_param")%string
  else if existsb (Z.eqb (FieldID f)) seen then
    Some ("duplicate field_id " ++ FormatInt (FieldID f) ++ " in proposed spec")%string
  else None.

Fixpoint fields_error (i : Z) (seen : list Z) (fs : list PartitionField) : option string :=
  match fs with
  | [] => None
  | f :: fs' =>
      match field_error i seen f with
      | Some msg => Some msg
      | None => fields_error (i + 1) (FieldID f :: seen) fs'
      end
  end.

(** [maxCurrentID], which starts at zero. *)
Definition max_field_id (fs : list PartitionField) : Z :=
  foldl (fun m f => if m <? FieldID f then FieldID f else m) 0 fs.

Definition same_id (f g : PartitionField) : bool := FieldID g =? FieldID f.

(** The check of one existing field against the first proposed field with
    its id. *)
Definition kept_error (proposed : list PartitionField) (cf : PartitionField) : option string :=
  let q := go_quote in
  match List.find (same_id cf) proposed with
  | None =>
      Some ("field_id " ++ FormatInt (FieldID cf) ++ " (" ++ q (SourceColumn cf)
              ++ ") was removed; partition fields cannot be removed")%string
  | Some pf =>
      if negb (String.eqb (SourceColumn pf) (SourceColumn cf)) then
        Some ("field_id " ++ FormatInt (FieldID cf) ++ ": cannot change source_column from "
                ++ q (SourceColumn cf) ++ " to " ++ q (SourceColumn pf))%string
      else if negb (String.eqb (Transform pf) (Transform cf)) then
        Some ("field_id " ++ FormatInt (FieldID cf) ++ ": cannot change transform from "
                ++ q (Transform cf) ++ " to " ++ q (Transform pf))%string
      else None
  end.

Definition new_id_error (current : list PartitionField) (pf : PartitionField) : option string :=
  if negb (existsb (same_id pf) current) && (FieldID pf <=? max_field_id current) then
    Some ("new field_id " ++ FormatInt (FieldID pf)
            ++ " must be greater than all existing field_ids (max="
            ++ FormatInt (max_field_id current) ++ ")")%string
  else None.

(** The first message of a loop that returns on a problem. *)
Fixpoint first_error {A} (f : A -> option string) (l : list A) : option string :=
  match l with
  | [] => None
  | x :: l' => match f x with Some msg => Some msg | None => first_error f l' end
  end.

(** The comparison with the current spec. *)
Definition evolution_error (current proposed : list PartitionField) : option string :=
  match first_error (kept_error proposed) current with
  | Some msg => Some msg
  | None => first_error (new_id_error current) proposed
  end.

(** The empty string accepts the change. *)
Definition ValidateSpecChange (currentJSON proposedJSON : string) : string :=
  match json_unmarshal_spec proposedJSON with
  | Err e => "proposed partition spec is not valid JSON: " ++ error_text e
  | Ok proposed =>
      if bool_decide (Fields proposed = []) then "proposed partition spec must have at least one field"
      else match fields_error 0 [] (Fields proposed) with
      | Some msg => msg
      | None =>
          if String.eqb currentJSON "" then ""
          else match json_unmarshal_spec currentJSON with
          | Err _ => ""
          | Ok current => default "" (evolution_error (Fields current) (Fields proposed))
          end
      end
  end.

End spec_store.
