(* ===== verification/Catalog.v ===== *)
(** * The catalog manager (internal/catalog/catalog_manager.go)

    Table DDL under the per-table locks.  A method is the program of its
    calls, [defer]s included; the manager itself has no state but the shared
    one. *)
From S2P Require Import Prelude Prog Models PartitionSpec GoJson Postgres World PgClient.

(** The result structs of the manager all have these two fields. *)
Record OpResult := mkOpResult { Success : bool; ErrorMsg : string }.

Definition CreateTableResult : Type := OpResult.
Definition AlterResult : Type := OpResult.
Definition DropResult : Type := OpResult.

Definition succeeded : OpResult := mkOpResult true "".
Definition failed (msg : string) : OpResult := mkOpResult false msg.

(** [ErrorMsg: err.Error()] *)
Definition failed_err (e : error) : OpResult := failed (error_text e).

Section catalog_manager.
Context `{Postgres} `{GoText}.

(** [tx.Commit(ctx)] and the method's last return. *)
Definition finish_tx (tx : Z) : Prog Sys OpResult :=
  try* _ := tx_commit tx catch e in Ret (failed_err e) then
  Ret succeeded.

Definition CreateTable (tableName schemaJSON partitionSpecJSON propertiesJSON : string)
    : Prog Sys CreateTableResult :=
  with_exclusive tableName (
    with_tx (fun e => failed ("failed to begin tx: " ++ error_text e)) (fun tx =>
      let* r := CreateTableTx tx tableName schemaJSON partitionSpecJSON propertiesJSON in
      match r with
      | Err e => Ret (failed ("failed to create table: " ++ error_text e))
      | Ok (tableID, created) =>
          if negb created then Ret (failed ("table already exists: " ++ tableName))
          else
            try* _ := (if negb (String.eqb partitionSpecJSON "") && negb (String.eqb partitionSpecJSON "null")
                       then InsertPartitionSpecTx tx tableID 1 partitionSpecJSON "initial spec"
                       else Ret (Ok tt))
              catch e in Ret (failed ("failed to record initial partition spec: " ++ error_text e)) then
            finish_tx tx
      end)).

Definition AlterTablePartitionSpec (tableName newSpecJSON changeSummary : string) : Prog Sys AlterResult :=
  with_exclusive tableName (
    try* existing := PgClient.GetTable tableName catch e in Ret (failed_err e) then
    match existing with
    | None => Ret (failed ("table not found: " ++ tableName))
    | Some existing =>
        with_tx failed_err (fun tx =>
          let newVersion := int32 (tr_PartitionSpecVersion existing + 1) in
          try* _ := UpdateTablePartitionSpecTx tx tableName newSpecJSON newVersion
            catch e in Ret (failed ("failed to update partition spec: " ++ error_text e)) then
          try* _ := InsertPartitionSpecTx tx (tr_TableID existing) newVersion newSpecJSON changeSummary
            catch e in Ret (failed ("failed to record spec history: " ++ error_text e)) then
          finish_tx tx)
    end).

Definition GetTable (tableName : string) : Prog Sys (result (option TableRow)) :=
  with_shared tableName (PgClient.GetTable tableName).

Definition AlterTableSchema (tableName newSchemaJSON changeSummary : string) : Prog Sys AlterResult :=
  with_exclusive tableName (
    try* existing := PgClient.GetTable tableName catch e in Ret (failed_err e) then
    match existing with
    | None => Ret (failed ("table not found: " ++ tableName))
    | Some existing =>
        with_tx failed_err (fun tx =>
          let newVersion := int32 (tr_SchemaVersion existing + 1) in
          try* _ := UpdateTableSchema tx tableName newSchemaJSON newVersion changeSummary
            catch e in Ret (failed ("failed to update schema for: " ++ tableName)) then
          finish_tx tx)
    end).

Definition RenameTable (oldName newName : string) : Prog Sys AlterResult :=
  with_exclusive oldName (
    with_exclusive newName (
      try* ok := PgClient.RenameTable oldName newName catch e in Ret (failed_err e) then
      Ret (if (ok : bool) then succeeded
           else failed ("failed to rename " ++ oldName ++ " to " ++ newName)))).

Definition DropTable (tableName : string) (purge : bool) : Prog Sys DropResult :=
  with_exclusive tableName (
    with_tx failed_err (fun tx =>
      try* ok := PgClient.DropTable tx tableName purge catch e in Ret (failed_err e) then
      if (ok : bool) then finish_tx tx
      else Ret (failed ("failed to drop table: " ++ tableName)))).

Definition ListTables (namespace : string) (pageSize : Z) (pageToken : string)
    : Prog Sys (result (list TableRow)) :=
  PgClient.ListTables namespace pageSize pageToken.

End catalog_manager.
