(* ===== verification/Registry.v ===== *)
(** * The partition registry (internal/catalog/partition_registry.go)

    Reads of the visible data files, through the cache, and the snapshot
    commit.  The cache key of a table's snapshot is its name, a colon and the
    snapshot in decimal. *)
From S2P Require Import Prelude Prog LRU MVCC Lock Models PartitionSpec GoJson Postgres World PgClient.

(** [type PartitionStats struct] *)
Record PartitionStats := mkPartitionStats {
  TotalPartitions : Z;
  TotalRows : Z;
  TotalBytes : Z;
  AvgSizeBytes : Z;
}.

(** [type CommitResult struct] *)
Record CommitResult := mkCommitResult {
  cr_Success : bool;
  cr_SnapshotID : Z;
  cr_ErrorMsg : string;
}.

(** The registry: the cache it makes, its switch and the managers it is given
    are the whole shared state, besides the process clock. *)
Definition NewPartitionRegistry (pg : PG) (locks : Manager) (mvcc : MVCCManager) (cacheCapacity : Z)
    (disableCache : bool) (clock : Z) : Sys :=
  mkSys pg locks mvcc (NewLRU cacheCapacity) disableCache clock.

Definition commit_failed (msg : string) : CommitResult := mkCommitResult false 0 msg.

Definition makeCacheKey (table : string) (snapshot : Z) : string :=
  table ++ ":" ++ FormatUint snapshot.

(** The predicate [InvalidateTableCache] passes to the cache. *)
Definition table_key (tableName key : string) : bool := has_prefix (tableName ++ ":") key.

Definition InvalidateTableCache (tableName : string) : Prog Sys Z :=
  on_cache (InvalidateIf (table_key tableName)).

Definition CacheHitRate : Prog Sys SpecFloat.spec_float := on_cache (fun c => (HitRate c, c)).
Definition CacheSize : Prog Sys Z := on_cache (fun c => (Size c, c)).
Definition CacheHits : Prog Sys Z := on_cache (fun c => (hits c, c)).
Definition CacheMisses : Prog Sys Z := on_cache (fun c => (misses c, c)).

(** The loop of [GetStats]. *)
Definition add_stats (s : PartitionStats) (p : PartitionRow) : PartitionStats :=
  mkPartitionStats (TotalPartitions s) (int64 (TotalRows s + pr_RowCount p))
    (int64 (TotalBytes s + pr_SizeBytes p)) (AvgSizeBytes s).

Definition partition_stats (rows : list PartitionRow) : PartitionStats :=
  let stats := foldl add_stats (mkPartitionStats (Z.of_nat (length rows)) 0 0 0) rows in
  mkPartitionStats (TotalPartitions stats) (TotalRows stats) (TotalBytes stats)
    (if 0 <? TotalPartitions stats then int64 (TotalBytes stats ÷ TotalPartitions stats) else 0).

Definition conflict_text (parent current : Z) : string :=
  "conflict: snapshot " ++ FormatUint parent ++ " is no longer current (current="
    ++ FormatUint current ++ ")".

Definition manifest_path (tableName : string) (snap count : Z) : string :=
  "iceberg://" ++ tableName ++ "/" ++ FormatUint snap ++ "/" ++ FormatInt count ++ ".avro".

Definition len32 {A} (l : list A) : Z := int32 (Z.of_nat (length l)).

Definition total_rows (parts : list PartitionRow) : Z :=
  foldl (fun acc p => int64 (acc + pr_RowCount p)) 0 parts.

Section partition_registry.
Context `{Postgres} `{GoText}.

Definition resolveSnapshot (tableName : string) (snapshotID : Z) : Prog Sys (result Z) :=
  if negb (snapshotID =? 0) then Ret (Ok snapshotID) else GetCurrentSnapshot tableName.

Definition GetPartitions (tableName : string) (snapshotID : Z)
    : Prog Sys (result (option (list PartitionRow))) :=
  with_shared tableName (
    try* readSnap := resolveSnapshot tableName snapshotID in
    let key := makeCacheKey tableName readSnap in
    let* disabled := cache_disabled in
    let* cached := (if disabled then Ret None else on_cache (Get key)) in
    match cached with
    | Some cached => Ret (Ok (Some cached))
    | None =>
        try* rows := QueryPartitions tableName readSnap in
        match rows with
        | None => Ret (Ok None)
        | Some rows =>
            let* _ := (if disabled then Ret tt else on_cache (fun c => (tt, Put key rows c))) in
            Ret (Ok (Some rows))
        end
    end).

Definition GetPartitionsPaged (tableName : string) (snapshotID pageSize lastPartitionID : Z)
    : Prog Sys (result (option (list PartitionRow))) :=
  with_shared tableName (
    try* readSnap := resolveSnapshot tableName snapshotID in
    QueryPartitionsPaged tableName readSnap pageSize lastPartitionID).

Definition GetStats (tableName : string) : Prog Sys (result PartitionStats) :=
  with_shared tableName (
    try* readSnap := resolveSnapshot tableName 0 in
    try* rows := QueryPartitions tableName readSnap in
    Ret (Ok match rows with
            | None => mkPartitionStats 0 0 0 0
            | Some rows => partition_stats rows
            end)).

(** ** The commit *)

(** [summariesJSON, _ := json.Marshal(summaries)]: no text on an error. *)
Definition summaries_json (keys : list string) : string :=
  match json_marshal_summaries (map (fun k => {[ "partition_key" := k ]}) keys) with
  | Ok b => b
  | Err _ => ""
  end.

Definition added_manifest (tableName : string) (tableID newSnap specVersion : Z) (parts : list PartitionRow)
    : ManifestFileRow :=
  mkManifestFileRow 0 tableID (int64 newSnap) (manifest_path tableName newSnap 0) specVersion
    (len32 parts) 0 (total_rows parts) 0 (summaries_json (map pr_PartitionKey parts)).

Definition deleted_manifest (tableName : string) (tableID newSnap specVersion count : Z) (keys : list string)
    : ManifestFileRow :=
  mkManifestFileRow 0 tableID (int64 newSnap) (manifest_path tableName newSnap count) specVersion
    0 (len32 keys) 0 0 (summaries_json keys).

(** [InsertManifestFileTx], unless there is nothing to record. *)
Definition insert_manifest (tx : Z) (needed : bool) (mf : ManifestFileRow) : Prog Sys (result unit) :=
  if needed then try* _ := InsertManifestFileTx tx mf in Ret (Ok tt) else Ret (Ok tt).

Definition is_empty {A} (l : list A) : bool := match l with [] => true | _ => false end.

(** The rest of the transaction once the files are in place: manifests, the
    table's pointer and the commit. *)
Definition commit_manifests_tx (tx : Z) (tableName : string) (tableID newSnap specVersion : Z)
    (newPartitions : list PartitionRow) (deletedPartitionKeys : list string) : Prog Sys (result Z) :=
  let addedCount := if is_empty newPartitions then 0 else 1 in
  let manifestCount := if is_empty deletedPartitionKeys then addedCount else addedCount + 1 in
  try* _ := insert_manifest tx (negb (is_empty newPartitions))
      (added_manifest tableName tableID newSnap specVersion newPartitions)
    catch e in Ret (Err (ErrText ("failed to insert added manifest: " ++ error_text e))) then
  try* _ := insert_manifest tx (negb (is_empty deletedPartitionKeys))
      (deleted_manifest tableName tableID newSnap specVersion addedCount deletedPartitionKeys)
    catch e in Ret (Err (ErrText ("failed to insert deleted manifest: " ++ error_text e))) then
  try* _ := InsertManifestListTx tx (int64 newSnap) tableID (int32 manifestCount)
    catch e in Ret (Err (ErrText ("failed to insert manifest list: " ++ error_text e))) then
  try* _ := UpdateTableSnapshotTx tx tableName newSnap
    catch e in Ret (Err (ErrText "failed to update table snapshot pointer")) then
  try* _ := tx_commit tx in
  Ret (Ok newSnap).

(** Everything between [BeginTx] and the cache invalidation. *)
Definition commit_tx (tx : Z) (tableName : string) (parentSnapshotID : Z) (operation : string)
    (specVersion : Z) (newPartitions : list PartitionRow) (deletedPartitionKeys : list string)
    : Prog Sys (result Z) :=
  try* ids := InsertSnapshotTx tx tableName parentSnapshotID operation
      (len32 newPartitions) (len32 deletedPartitionKeys) in
  let '(newSnap, tableID) := ids in
  if newSnap =? 0 then Ret (Err (ErrText "failed to insert snapshot record"))
  else
    try* _ := for_each newPartitions (fun part =>
        try* _ := InsertPartitionTx tx tableName newSnap part
          catch e in Ret (Err (ErrText ("failed to insert partition: " ++ pr_PartitionKey part))) then
        Ret (Ok tt)) in
    try* _ := for_each deletedPartitionKeys (fun key =>
        try* _ := MarkPartitionDeletedTx tx tableName key newSnap
          catch e in Ret (Err (ErrText ("failed to mark partition deleted: " ++ key))) then
        Ret (Ok tt)) in
    commit_manifests_tx tx tableName tableID newSnap specVersion newPartitions deletedPartitionKeys.

Definition CommitSnapshot (tableName : string) (parentSnapshotID : Z) (operation : string)
    (newPartitions : list PartitionRow) (deletedPartitionKeys : list string) : Prog Sys CommitResult :=
  with_exclusive tableName (
    try* currentSpecVersion := GetTableSpecVersion tableName
      catch e in Ret (commit_failed ("failed to get spec version: " ++ error_text e)) then
    try* currentSnap := GetCurrentSnapshot tableName
      catch e in Ret (commit_failed (error_text e)) then
    if negb (ValidateParentSnapshot tableName parentSnapshotID currentSnap)
    then Ret (commit_failed (conflict_text parentSnapshotID currentSnap))
    else
      with_tx (fun e => commit_failed (error_text e)) (fun tx =>
        try* newSnap := commit_tx tx tableName parentSnapshotID operation currentSpecVersion
            newPartitions deletedPartitionKeys
          catch e in Ret (commit_failed (error_text e)) then
        let* _ := InvalidateTableCache tableName in
        Ret (mkCommitResult true newSnap ""))).

End partition_registry.
