(* ===== verification/Proto.v ===== *)
(** * Messages of the gRPC interface (gen/metadata/metadata_service.pb.go)

    One Record per generated struct, without the protobuf bookkeeping fields;
    the generated getters are the projections.  Enums are open [int32]s in
    proto3, so an enum type is [Z] with its named constants. *)
From S2P Require Import Prelude.

(** [type IsolationLevel int32] *)
Definition IsolationLevel : Type := Z.
Definition IsolationLevel_SNAPSHOT : IsolationLevel := 0.
Definition IsolationLevel_READ_COMMITTED : IsolationLevel := 1.

(** [type PartitionTransform int32] *)
Definition ProtoTransform : Type := Z.
Definition PartitionTransform_IDENTITY : ProtoTransform := 0.
Definition PartitionTransform_YEAR : ProtoTransform := 1.
Definition PartitionTransform_MONTH : ProtoTransform := 2.
Definition PartitionTransform_DAY : ProtoTransform := 3.
Definition PartitionTransform_HOUR : ProtoTransform := 4.
Definition PartitionTransform_BUCKET : ProtoTransform := 5.
Definition PartitionTransform_TRUNCATE : ProtoTransform := 6.

Record CreateTableRequest := mkCreateTableRequest {
  ctr_TableName : string;
  ctr_SchemaJson : string;
  ctr_PartitionSpec : string;
  ctr_Properties : gmap string string;
}.

Record TableRequest := mkTableRequest {
  tq_TableName : string;
  tq_SnapshotId : Z;
}.

Record ProtoColumnStats := mkProtoColumnStats {
  pcs_ColumnId : Z;
  pcs_NullCount : Z;
  pcs_NanCount : Z;
  pcs_ValueCount : Z;
  pcs_MinValue : string;
  pcs_MaxValue : string;
  pcs_SizeBytes : Z;
}.

Record PartitionInfo := mkPartitionInfo {
  pi_PartitionKey : string;
  pi_DataFilePath : string;
  pi_RowCount : Z;
  pi_SizeBytes : Z;
  pi_SnapshotId : Z;
  pi_FileFormat : string;
  pi_ColumnStats : list ProtoColumnStats;
}.

Record TableMetadataResponse := mkTableMetadataResponse {
  tmr_TableName : string;
  tmr_SchemaJson : string;
  tmr_CurrentSnapshotId : Z;
  tmr_SchemaVersion : Z;
  tmr_Partitions : list PartitionInfo;
  tmr_Properties : gmap string string;
  tmr_TotalRowCount : Z;
  tmr_TotalSizeBytes : Z;
}.

Record ProtoPartitionField := mkProtoPartitionField {
  pf_FieldId : Z;
  pf_SourceColumn : string;
  pf_Transform : ProtoTransform;
  pf_TransformParam : Z;
}.

Record PartitionSpecProto := mkPartitionSpecProto {
  psp_Fields : list ProtoPartitionField;
}.

Record RenameTableProto := mkRenameTableProto {
  rt_NewName : string;
}.

(** The [oneof alteration] of [AlterTableRequest]; a nil message pointer is
    [None]. *)
Inductive Alteration :=
| AlterTableRequest_NewSchemaJson (NewSchemaJson : string)
| AlterTableRequest_NewPartitionSpec (NewPartitionSpec : option PartitionSpecProto)
| AlterTableRequest_Rename (Rename : option RenameTableProto).

Record AlterTableRequest := mkAlterTableRequest {
  atr_TableName : string;
  atr_Alteration : option Alteration;
}.

Record DropTableRequest := mkDropTableRequest {
  dtr_TableName : string;
  dtr_Purge : bool;
}.

Record ListTablesRequest := mkListTablesRequest {
  ltr_Namespace : string;
  ltr_PageSize : Z;
  ltr_PageToken : string;
}.

Record TableSummary := mkTableSummary {
  ts_TableName : string;
  ts_CurrentSnapshotId : Z;
  ts_TotalPartitions : Z;
}.

Record ListTablesResponse := mkListTablesResponse {
  lts_Tables : list TableSummary;
  lts_NextPageToken : string;
}.

Record PartitionRequest := mkPartitionRequest {
  pq_TableName : string;
  pq_FilterExpr : string;
  pq_SnapshotId : Z;
  pq_PageSize : Z;
  pq_PageToken : string;
}.

Record PartitionListResponse := mkPartitionListResponse {
  plr_Partitions : list PartitionInfo;
  plr_NextPageToken : string;
  plr_TotalCount : Z;
}.

Record PartitionStatsRequest := mkPartitionStatsRequest {
  psq_TableName : string;
}.

Record PartitionStatsResponse := mkPartitionStatsResponse {
  pss_TotalPartitions : Z;
  pss_TotalRows : Z;
  pss_TotalBytes : Z;
  pss_AvgPartitionSizeBytes : Z;
}.

Record SnapshotRequest := mkSnapshotRequest {
  snq_TableName : string;
  snq_NewPartitions : list PartitionInfo;
  snq_DeletedPartitionKeys : list string;
  snq_ParentSnapshotId : Z;
  snq_Operation : string;
}.

Record SnapshotResponse := mkSnapshotResponse {
  sns_SnapshotId : Z;
  sns_Success : bool;
  sns_ErrorMsg : string;
}.

Record GetSnapshotRequest := mkGetSnapshotRequest {
  gsr_TableName : string;
  gsr_SnapshotId : Z;
}.

Record SnapshotDetail := mkSnapshotDetail {
  sd_SnapshotId : Z;
  sd_ParentSnapshotId : Z;
  sd_Operation : string;
  sd_AddedPartitions : Z;
  sd_DeletedPartitions : Z;
  sd_CommittedAt : string;
}.

Record ListSnapshotsRequest := mkListSnapshotsRequest {
  lsq_TableName : string;
  lsq_Limit : Z;
}.

Record ListSnapshotsResponse := mkListSnapshotsResponse {
  lss_Snapshots : list SnapshotDetail;
}.

Record TransactionRequest := mkTransactionRequest {
  txq_ClientId : string;
  txq_TableName : string;
  txq_Isolation : IsolationLevel;
}.

Record TransactionResponse := mkTransactionResponse {
  txs_TxnId : Z;
  txs_ReadSnapshotId : Z;
}.

Record CommitRequest := mkCommitRequest {
  cq_TxnId : Z;
}.

Record AbortRequest := mkAbortRequest {
  aq_TxnId : Z;
}.

Record OperationResponse := mkOperationResponse {
  opr_Success : bool;
  opr_ErrorMsg : string;
}.

Record GetPartitionSpecRequest := mkGetPartitionSpecRequest {
  gpq_TableName : string;
  gpq_SpecVersion : Z;
}.

Record PartitionSpecResponse := mkPartitionSpecResponse {
  gps_TableName : string;
  gps_SpecVersion : Z;
  gps_Spec : option PartitionSpecProto;
  gps_ChangedAt : string;
  gps_ChangeSummary : string;
}.

Record ListPartitionSpecsRequest := mkListPartitionSpecsRequest {
  lpq_TableName : string;
}.

Record ListPartitionSpecsResponse := mkListPartitionSpecsResponse {
  lps_Specs : list PartitionSpecResponse;
}.

Record GetManifestListRequest := mkGetManifestListRequest {
  gmq_TableName : string;
  gmq_SnapshotId : Z;
}.

Record ManifestFileSummary := mkManifestFileSummary {
  mfs_ManifestFileId : Z;
  mfs_ManifestPath : string;
  mfs_PartitionSpecId : Z;
  mfs_AddedFilesCount : Z;
  mfs_DeletedFilesCount : Z;
  mfs_AddedRowsCount : Z;
  mfs_DeletedRowsCount : Z;
  mfs_PartitionSummariesJson : string;
}.

Record ManifestListResponse := mkManifestListResponse {
  mls_SnapshotId : Z;
  mls_ManifestCount : Z;
  mls_Manifests : list ManifestFileSummary;
}.

Record GetManifestRequest := mkGetManifestRequest {
  gmr_TableName : string;
  gmr_ManifestFileId : Z;
}.

Record GetColumnStatsRequest := mkGetColumnStatsRequest {
  gcq_TableName : string;
  gcq_SnapshotId : Z;
}.

Record ColumnBounds := mkColumnBounds {
  cb_ColumnId : Z;
  cb_MinValue : string;
  cb_MaxValue : string;
  cb_NullCount : Z;
  cb_NanCount : Z;
  cb_ValueCount : Z;
}.

Record GetColumnStatsResponse := mkGetColumnStatsResponse {
  gcs_SnapshotId : Z;
  gcs_ColumnBounds : list ColumnBounds;
}.

Record ManifestFileDetail := mkManifestFileDetail {
  mfd_ManifestFileId : Z;
  mfd_SnapshotId : Z;
  mfd_ManifestPath : string;
  mfd_PartitionSpecId : Z;
  mfd_AddedFilesCount : Z;
  mfd_DeletedFilesCount : Z;
  mfd_AddedRowsCount : Z;
  mfd_DeletedRowsCount : Z;
  mfd_PartitionSummariesJson : string;
}.
