(* ===== verification/Server.v ===== *)
(** * The gRPC handlers (internal/server/metadata_server.go)

    One program per RPC, from the request message to a reply or a status
    error, composed of the catalog, registry and store operations. *)
From S2P Require Import Prelude Prog LRU MVCC Lock Models PartitionSpec GoJson Postgres World PgClient.
From S2P Require Import ManifestStore Config SchemaStore SpecStore Catalog Registry Proto.

(** [google.golang.org/grpc/codes], the ones used *)
Inductive code := InvalidArgument | NotFound | Internal.

(** What a handler returns: a message, or [status.Error]. *)
Inductive rpc (A : Type) : Type :=
| Reply (a : A)
| Status (c : code) (msg : string).
Arguments Reply {A} a.
Arguments Status {A} c msg.

(** [status.Error(codes.Internal, err.Error())] *)
Definition internal {A} (e : error) : rpc A := Status Internal (error_text e).

(** [x, err := p; if err != nil { return nil, status.Error(codes.Internal, err.Error()) }; k] *)
Notation "'rpc*' x := p 'in' k" :=
  (bind p (fun r => match r with Ok x => k | Err e => Ret (internal e) end))
  (at level 10, x pattern, p at level 100, k at level 200) : prog_scope.

(** [New]: the shared state of a fresh server on the given connections. *)
Definition New (cfg : Config) (pgClient : PG) (clock : Z) : Sys :=
  let locks := Lock.NewManager in
  let mvcc := NewMVCCManager (TxnTimeout cfg) in
  NewPartitionRegistry pgClient locks mvcc (CacheCapacity cfg) (DisableCache cfg) clock.

Definition defaultString (v fallback : string) : string :=
  if String.eqb v "" then fallback else v.

(** ** Conversions *)

Definition protoTransformToString (t : ProtoTransform) : PartitionTransform :=
  if t =? PartitionTransform_YEAR then TransformYear
  else if t =? PartitionTransform_MONTH then TransformMonth
  else if t =? PartitionTransform_DAY then TransformDay
  else if t =? PartitionTransform_HOUR then TransformHour
  else if t =? PartitionTransform_BUCKET then TransformBucket
  else if t =? PartitionTransform_TRUNCATE then TransformTruncate
  else TransformIdentity.

Definition stringTransformToProto (t : PartitionTransform) : ProtoTransform :=
  if String.eqb t TransformYear then PartitionTransform_YEAR
  else if String.eqb t TransformMonth then PartitionTransform_MONTH
  else if String.eqb t TransformDay then PartitionTransform_DAY
  else if String.eqb t TransformHour then PartitionTransform_HOUR
  else if String.eqb t TransformBucket then PartitionTransform_BUCKET
  else if String.eqb t TransformTruncate then PartitionTransform_TRUNCATE
  else PartitionTransform_IDENTITY.

Definition proto_to_field (f : ProtoPartitionField) : PartitionField :=
  mkPartitionField (pf_FieldId f) (pf_SourceColumn f) (protoTransformToString (pf_Transform f))
    (if negb (pf_TransformParam f =? 0) then Some (pf_TransformParam f) else None).

Definition protoToPartitionSpec (p : option PartitionSpecProto) : PartitionSpec :=
  match p with
  | None => mkPartitionSpec []
  | Some p => mkPartitionSpec (map proto_to_field (psp_Fields p))
  end.

Definition field_to_proto (f : PartitionField) : ProtoPartitionField :=
  mkProtoPartitionField (int32 (FieldID f)) (SourceColumn f) (stringTransformToProto (Transform f))
    (match TransformParam f with Some v => int32 v | None => 0 end).

Definition partitionSpecToProto (spec : PartitionSpec) : PartitionSpecProto :=
  mkPartitionSpecProto (map field_to_proto (Fields spec)).

Definition protoToColumnStats (proto : list ProtoColumnStats) : list ColumnStats :=
  map (fun cs => mkColumnStats (pcs_ColumnId cs) (pcs_NullCount cs) (pcs_NanCount cs)
                   (pcs_ValueCount cs) (pcs_MinValue cs) (pcs_MaxValue cs) (pcs_SizeBytes cs)) proto.

Definition columnStatsToProto (stats : list ColumnStats) : list ProtoColumnStats :=
  map (fun cs => mkProtoColumnStats (cs_ColumnID cs) (cs_NullCount cs) (cs_NaNCount cs)
                   (cs_ValueCount cs) (cs_MinValue cs) (cs_MaxValue cs) (cs_SizeBytes cs)) stats.

(** [PartitionInfo] of a row, with or without its column statistics. *)
Definition partition_info (stats : bool) (p : PartitionRow) : PartitionInfo :=
  mkPartitionInfo (pr_PartitionKey p) (pr_DataFilePath p) (pr_RowCount p) (pr_SizeBytes p)
    (uint64 (pr_SnapshotID p)) (pr_FileFormat p)
    (if stats then columnStatsToProto (pr_ColumnStats p) else []).

Definition snapshot_detail (snap : SnapshotRow) : SnapshotDetail :=
  mkSnapshotDetail (uint64 (sr_SnapshotID snap)) (uint64 (sr_ParentSnapshotID snap)) (sr_Operation snap)
    (sr_AddedFilesCount snap) (sr_DeletedFilesCount snap) (sr_CommittedAt snap).

Definition to_response (r : OpResult) : OperationResponse := mkOperationResponse (Success r) (ErrorMsg r).

(** [ParseInt] of a page token, zero when absent or malformed. *)
Definition token_value (token : string) : Z :=
  if negb (String.eqb token "") then default 0 (ParseInt token) else 0.

Section metadata_server.
Context `{Postgres} `{GoText}.

Definition propertiesToJSON (props : gmap string string) : string :=
  if bool_decide (size props = 0%nat) then "{}"
  else match json_marshal_properties props with Ok b => b | Err _ => "{}" end.

Definition initialSpecJSON (rawSpec : string) : string :=
  if String.eqb rawSpec "" then ""
  else match json_marshal_spec (mkPartitionSpec [mkPartitionField 1 rawSpec TransformIdentity None]) with
       | Ok b => b
       | Err _ => ""
       end.

(** ** Tables *)

Definition CreateTable (req : CreateTableRequest) : Prog Sys (rpc OperationResponse) :=
  let* result := Catalog.CreateTable (ctr_TableName req) (ctr_SchemaJson req)
    (initialSpecJSON (ctr_PartitionSpec req)) (propertiesToJSON (ctr_Properties req)) in
  Ret (Reply (to_response result)).

Definition table_snapshot (table : TableRow) : Z :=
  if tr_CurrentSnapshotID table <? 0 then 0 else uint64 (tr_CurrentSnapshotID table).

Definition total (f : PartitionRow -> Z) (parts : list PartitionRow) : Z :=
  foldl (fun acc p => int64 (acc + f p)) 0 parts.

Definition GetTableMetadata (req : TableRequest) : Prog Sys (rpc TableMetadataResponse) :=
  let tableName := tq_TableName req in
  if String.eqb tableName "" then Ret (Status InvalidArgument "table_name is required")
  else
    rpc* table := Catalog.GetTable tableName in
    match table with
    | None => Ret (Status NotFound ("table not found: " ++ tableName))
    | Some table =>
        let readSnapshot := if tq_SnapshotId req =? 0 then table_snapshot table else tq_SnapshotId req in
        rpc* parts := Registry.GetPartitions tableName readSnapshot in
        let parts := default [] parts in
        match (if negb (String.eqb (tr_PropertiesJSON table) "")
               then json_unmarshal_properties (tr_PropertiesJSON table) else Ok ∅) with
        | Err _ => Ret (Status Internal "failed to parse table properties JSON")
        | Ok properties =>
            Ret (Reply (mkTableMetadataResponse (tr_TableName table) (tr_SchemaJSON table) readSnapshot
              (tr_SchemaVersion table) (map (partition_info true) parts) properties
              (total pr_RowCount parts) (total pr_SizeBytes parts)))
        end
    end.

Definition alter_schema (tableName newSchemaJson : string) : Prog Sys (rpc OperationResponse) :=
  rpc* current := GetCurrentSchema tableName in
  let msg := match current with Some _ => ValidateSchemaChange newSchemaJson | None => "" end in
  if negb (String.eqb msg "") then Ret (Reply (mkOperationResponse false msg))
  else
    let* result := Catalog.AlterTableSchema tableName newSchemaJson "schema evolution via AlterTable" in
    let* _ := InvalidateTableCache tableName in
    Ret (Reply (to_response result)).

Definition alter_rename (tableName : string) (rename : option RenameTableProto)
    : Prog Sys (rpc OperationResponse) :=
  let newName := match rename with Some r => rt_NewName r | None => "" end in
  if String.eqb newName "" then Ret (Status InvalidArgument "new table name is required")
  else
    let* result := Catalog.RenameTable tableName newName in
    let* _ := InvalidateTableCache tableName in
    let* _ := InvalidateTableCache newName in
    Ret (Reply (to_response result)).

Definition alter_spec (tableName : string) (p : option PartitionSpecProto)
    : Prog Sys (rpc OperationResponse) :=
  match json_marshal_spec (protoToPartitionSpec p) with
  | Err _ => Ret (Reply (mkOperationResponse false "invalid partition spec"))
  | Ok proposedJSON =>
      rpc* current := GetCurrentSpec tableName in
      let currentJSON := match current with Some sv => psv_SpecJSON sv | None => "" end in
      let msg := ValidateSpecChange currentJSON proposedJSON in
      if negb (String.eqb msg "") then Ret (Reply (mkOperationResponse false msg))
      else
        let* result := Catalog.AlterTablePartitionSpec tableName proposedJSON
          "partition spec evolution via AlterTable" in
        let* _ := InvalidateTableCache tableName in
        Ret (Reply (to_response result))
  end.

Definition AlterTable (req : AlterTableRequest) : Prog Sys (rpc OperationResponse) :=
  let tableName := atr_TableName req in
  if String.eqb tableName "" then Ret (Status InvalidArgument "table_name is required")
  else match atr_Alteration req with
  | Some (AlterTableRequest_NewSchemaJson s) => alter_schema tableName s
  | Some (AlterTableRequest_Rename r) => alter_rename tableName r
  | Some (AlterTableRequest_NewPartitionSpec p) => alter_spec tableName p
  | None => Ret (Reply (mkOperationResponse false "no alteration specified"))
  end.

Definition DropTable (req : DropTableRequest) : Prog Sys (rpc OperationResponse) :=
  let tableName := dtr_TableName req in
  if String.eqb tableName "" then Ret (Status InvalidArgument "table_name is required")
  else
    let* result := Catalog.DropTable tableName (dtr_Purge req) in
    if Success result then
      let* _ := InvalidateTableCache tableName in Ret (Reply (to_response result))
    else Ret (Reply (to_response result)).

(** The loop of [ListTables]: a round trip per table that has a snapshot. *)
Fixpoint list_summaries (rows : list TableRow) : Prog Sys (result (list TableSummary)) :=
  match rows with
  | [] => Ret (Ok [])
  | t :: rows' =>
      let currentSnapshotID :=
        if 0 <? tr_CurrentSnapshotID t then uint64 (tr_CurrentSnapshotID t) else 0 in
      try* totalPartitions :=
        (if 0 <? currentSnapshotID then GetVisiblePartitionCount (tr_TableName t) currentSnapshotID
         else Ret (Ok 0)) in
      try* rest := list_summaries rows' in
      Ret (Ok (mkTableSummary (tr_TableName t) currentSnapshotID totalPartitions :: rest))
  end.

Definition tables_next_token (req : ListTablesRequest) (rows : list TableRow) : string :=
  if (0 <? ltr_PageSize req) && (Z.of_nat (length rows) =? ltr_PageSize req)
  then FormatInt (int64 (token_value (ltr_PageToken req) + Z.of_nat (length rows)))
  else "".

Definition ListTables (req : ListTablesRequest) : Prog Sys (rpc ListTablesResponse) :=
  rpc* rows := Catalog.ListTables (ltr_Namespace req) (ltr_PageSize req) (ltr_PageToken req) in
  rpc* summaries := list_summaries rows in
  Ret (Reply (mkListTablesResponse summaries (tables_next_token req rows))).

(** ** Partitions *)

Definition partitions_next_token (req : PartitionRequest) (rows : list PartitionRow) : string :=
  match last rows with
  | Some p => if 0 <? pq_PageSize req then FormatInt (pr_PartitionID p) else ""
  | None => ""
  end.

Definition GetPartitions (req : PartitionRequest) : Prog Sys (rpc PartitionListResponse) :=
  let lastID := token_value (pq_PageToken req) in
  rpc* rows :=
    (if 0 <? pq_PageSize req
     then Registry.GetPartitionsPaged (pq_TableName req) (pq_SnapshotId req) (pq_PageSize req) lastID
     else Registry.GetPartitions (pq_TableName req) (pq_SnapshotId req)) in
  match rows with
  | None => Ret (Status NotFound ("table not found: " ++ pq_TableName req))
  | Some rows =>
      Ret (Reply (mkPartitionListResponse (map (partition_info false) rows)
        (partitions_next_token req rows) (Z.of_nat (length rows))))
  end.

Definition GetPartitionStats (req : PartitionStatsRequest) : Prog Sys (rpc PartitionStatsResponse) :=
  let tableName := psq_TableName req in
  if String.eqb tableName "" then Ret (Status InvalidArgument "table_name is required")
  else
    rpc* stats := GetStats tableName in
    Ret (Reply (mkPartitionStatsResponse (TotalPartitions stats) (TotalRows stats) (TotalBytes stats)
      (AvgSizeBytes stats))).

(** ** Snapshots *)

(** The loop of [CommitSnapshot] over the requested files: the rows, or the
    key of the first file without rows. *)
Fixpoint new_parts (ps : list PartitionInfo) : string + list PartitionRow :=
  match ps with
  | [] => inr []
  | p :: ps' =>
      if pi_RowCount p <=? 0 then inl (pi_PartitionKey p)
      else match new_parts ps' with
           | inl k => inl k
           | inr rows =>
               inr (mkPartitionRow 0 0 0 (pi_PartitionKey p) (pi_DataFilePath p)
                      (defaultString (pi_FileFormat p) "parquet") (pi_RowCount p) (pi_SizeBytes p)
                      (protoToColumnStats (pi_ColumnStats p)) :: rows)
           end
  end.

Definition CommitSnapshot (req : SnapshotRequest) : Prog Sys (rpc SnapshotResponse) :=
  match new_parts (snq_NewPartitions req) with
  | inl key =>
      Ret (Reply (mkSnapshotResponse 0 false ("partition " ++ go_quote key ++ ": row_count must be > 0")))
  | inr newParts =>
      let* result := Registry.CommitSnapshot (snq_TableName req) (snq_ParentSnapshotId req)
        (defaultString (snq_Operation req) "append") newParts (snq_DeletedPartitionKeys req) in
      Ret (Reply (mkSnapshotResponse (cr_SnapshotID result) (cr_Success result) (cr_ErrorMsg result)))
  end.

Definition column_bounds (cs : ColumnStats) : ColumnBounds :=
  mkColumnBounds (cs_ColumnID cs) (cs_MinValue cs) (cs_MaxValue cs) (cs_NullCount cs) (cs_NaNCount cs)
    (cs_ValueCount cs).

(** The bounds of a resolved snapshot. *)
Definition column_stats_at (tableName : string) (snapshotID : Z) : Prog Sys (rpc GetColumnStatsResponse) :=
  rpc* stats := GetColumnStatsForSnapshot tableName snapshotID in
  Ret (Reply (mkGetColumnStatsResponse snapshotID (map column_bounds stats))).

Definition GetColumnStats (req : GetColumnStatsRequest) : Prog Sys (rpc GetColumnStatsResponse) :=
  let tableName := gcq_TableName req in
  if String.eqb tableName "" then Ret (Status InvalidArgument "table_name is required")
  else if gcq_SnapshotId req =? 0 then
    rpc* current := GetCurrentSnapshot tableName in
    if current =? 0 then Ret (Status NotFound ("table has no snapshots: " ++ tableName))
    else column_stats_at tableName current
  else column_stats_at tableName (gcq_SnapshotId req).

Definition GetSnapshot (req : GetSnapshotRequest) : Prog Sys (rpc SnapshotDetail) :=
  rpc* snap := PgClient.GetSnapshot (gsr_TableName req) (gsr_SnapshotId req) in
  Ret match snap with
      | None => Status NotFound "snapshot not found"
      | Some snap => Reply (snapshot_detail snap)
      end.

Definition ListSnapshots (req : ListSnapshotsRequest) : Prog Sys (rpc ListSnapshotsResponse) :=
  rpc* snapshots := PgClient.ListSnapshots (lsq_TableName req) (lsq_Limit req) in
  Ret (Reply (mkListSnapshotsResponse (map snapshot_detail snapshots))).

(** ** Transactions *)

Definition BeginTransaction (req : TransactionRequest) : Prog Sys (rpc TransactionResponse) :=
  let tableName := txq_TableName req in
  if String.eqb (txq_ClientId req) "" then Ret (Status InvalidArgument "client_id is required")
  else if String.eqb tableName "" then Ret (Status InvalidArgument "table_name is required")
  else
    rpc* table := Catalog.GetTable tableName in
    match table with
    | None => Ret (Status NotFound ("table not found: " ++ tableName))
    | Some table =>
        let readSnapshot :=
          if 0 <? tr_CurrentSnapshotID table then uint64 (tr_CurrentSnapshotID table) else 0 in
        let isolation :=
          if txq_Isolation req =? IsolationLevel_READ_COMMITTED then "read_committed" else "snapshot" in
        rpc* txnID := InsertTransaction (txq_ClientId req) (tr_TableID table) readSnapshot isolation in
        let* _ := on_mvcc (fun now m => (tt, RegisterTransaction now txnID readSnapshot m)) in
        Ret (Reply (mkTransactionResponse txnID readSnapshot))
    end.

Definition CommitTransaction (req : CommitRequest) : Prog Sys (rpc OperationResponse) :=
  let* ok := on_mvcc (fun now m => MVCC.CommitTransaction now (cq_TxnId req) m) in
  if negb ok then Ret (Reply (mkOperationResponse false "transaction not found or expired"))
  else
    rpc* _ := UpdateTransactionStatus (cq_TxnId req) "committed" in
    Ret (Reply (mkOperationResponse true "")).

Definition AbortTransaction (req : AbortRequest) : Prog Sys (rpc OperationResponse) :=
  let* _ := on_mvcc (fun _ m => (tt, MVCC.AbortTransaction (aq_TxnId req) m)) in
  rpc* _ := UpdateTransactionStatus (aq_TxnId req) "aborted" in
  Ret (Reply (mkOperationResponse true "")).

Definition CleanupExpiredTransactions : Prog Sys Z := on_mvcc MVCC.CleanupExpiredTransactions.

(** ** Partition specs *)

Definition spec_response (tableName : string) (sv : PartitionSpecVersion) (spec : PartitionSpec)
    : PartitionSpecResponse :=
  mkPartitionSpecResponse tableName (psv_Version sv) (Some (partitionSpecToProto spec))
    (psv_ChangedAt sv) (psv_ChangeSummary sv).

Definition GetPartitionSpec (req : GetPartitionSpecRequest) : Prog Sys (rpc PartitionSpecResponse) :=
  let tableName := gpq_TableName req in
  if String.eqb tableName "" then Ret (Status InvalidArgument "table_name is required")
  else
    rpc* sv := (if gpq_SpecVersion req =? 0 then GetCurrentSpec tableName
                else GetSpecAtVersion tableName (gpq_SpecVersion req)) in
    match sv with
    | None => Ret (Status NotFound "partition spec not found")
    | Some sv =>
        Ret match json_unmarshal_spec (psv_SpecJSON sv) with
            | Err _ => Status Internal "corrupt spec JSON"
            | Ok spec => Reply (spec_response tableName sv spec)
            end
    end.

(** A version whose JSON does not decode is skipped. *)
Definition spec_responses (tableName : string) (history : list PartitionSpecVersion)
    : list PartitionSpecResponse :=
  List.flat_map (fun sv => match json_unmarshal_spec (psv_SpecJSON sv) with
                           | Err _ => []
                           | Ok spec => [spec_response tableName sv spec]
                           end) history.

Definition ListPartitionSpecs (req : ListPartitionSpecsRequest)
    : Prog Sys (rpc ListPartitionSpecsResponse) :=
  let tableName := lpq_TableName req in
  if String.eqb tableName "" then Ret (Status InvalidArgument "table_name is required")
  else
    rpc* history := ListSpecHistory tableName in
    Ret (Reply (mkListPartitionSpecsResponse (spec_responses tableName history))).

(** ** Manifests *)

Definition manifest_summary (f : ManifestFileRow) : ManifestFileSummary :=
  mkManifestFileSummary (mfr_ManifestFileID f) (mfr_ManifestPath f) (mfr_PartitionSpecID f)
    (mfr_AddedFilesCount f) (mfr_DeletedFilesCount f) (mfr_AddedRowsCount f) (mfr_DeletedRowsCount f)
    (mfr_PartitionSummaries f).

Definition GetManifestList (req : GetManifestListRequest) : Prog Sys (rpc ManifestListResponse) :=
  if String.eqb (gmq_TableName req) "" then Ret (Status InvalidArgument "table_name is required")
  else if gmq_SnapshotId req =? 0 then Ret (Status InvalidArgument "snapshot_id is required")
  else
    rpc* r := ManifestStore.GetManifestList (gmq_TableName req) (gmq_SnapshotId req) in
    Ret match r with
        | None => Status NotFound "manifest list not found for snapshot"
        | Some (list, files) =>
            Reply (mkManifestListResponse (gmq_SnapshotId req) (mlr_ManifestCount list)
              (map manifest_summary files))
        end.

Definition manifest_detail (f : ManifestFileRow) : ManifestFileDetail :=
  mkManifestFileDetail (mfr_ManifestFileID f) (uint64 (mfr_SnapshotID f)) (mfr_ManifestPath f)
    (mfr_PartitionSpecID f) (mfr_AddedFilesCount f) (mfr_DeletedFilesCount f) (mfr_AddedRowsCount f)
    (mfr_DeletedRowsCount f) (mfr_PartitionSummaries f).

Definition GetManifest (req : GetManifestRequest) : Prog Sys (rpc ManifestFileDetail) :=
  if String.eqb (gmr_TableName req) "" then Ret (Status InvalidArgument "table_name is required")
  else if gmr_ManifestFileId req =? 0 then Ret (Status InvalidArgument "manifest_file_id is required")
  else
    rpc* r := ManifestStore.GetManifestFile (gmr_TableName req) (gmr_ManifestFileId req) in
    Ret match r with
        | None => Status NotFound "manifest file not found"
        | Some f => Reply (manifest_detail f)
        end.

End metadata_server.
