(* ===== verification/PgFacts.v ===== *)
(** * Reasoning about round trips

    Rules for the total-correctness judgement [wp] of the SQL actions of
    [World]: what a statement run outside a transaction, inside one, a commit
    and a rollback may do, whatever the network does.  Each rule has one case
    per outcome; the error case also says that the server refused the
    statement when the network is [quiet]. *)
From S2P Require Import Prelude Prog Models Postgres World PgClient.

(** Every round trip will be delivered. *)
Definition quiet (s : Sys) : Prop := pg_net (sys_pg s) = [].

(** Sequences advance, and never past the last value of their type. *)
Definition seqs_le (q q' : Seqs) : Prop := forall n, q n <= q' n /\ (q n < 2 ^ 63 -> q' n < 2 ^ 63).

(** A stretch of SQL work: only the database side of the system moves. *)
Record frame (s s' : Sys) : Prop := {
  fr_mvcc : sys_mvcc s' = sys_mvcc s;
  fr_cache : sys_cache s' = sys_cache s;
  fr_disable : sys_disable_cache s' = sys_disable_cache s;
  fr_clock : sys_clock s' = sys_clock s;
  fr_now : pg_now (sys_pg s') = pg_now (sys_pg s);
  fr_quiet : quiet s -> quiet s';
  fr_seqs : seqs_le (pg_seqs (sys_pg s)) (pg_seqs (sys_pg s'));
}.

(** A statement only advances sequences. *)
Definition monotone {A} (st : Stmt A) : Prop := forall now d q, seqs_le q (st now d q).2.

(** Transaction [tx], begun at [start], is open and sees [d]. *)
Definition txn (tx start : Z) (d : DB) (s : Sys) : Prop :=
  exists log, pg_txs (sys_pg s) !! tx = Some (mkTxState start (Some log)) /\ tx_view log (db s) = d.

Lemma seqs_le_refl q : seqs_le q q.
Proof. by split. Qed.

Lemma seqs_le_trans q1 q2 q3 : seqs_le q1 q2 -> seqs_le q2 q3 -> seqs_le q1 q3.
Proof. intros H1 H2 n. destruct (H1 n), (H2 n). split; [lia | auto]. Qed.

#[export] Instance seqs_le_preorder : PreOrder seqs_le.
Proof. split; [exact seqs_le_refl | exact seqs_le_trans]. Qed.

(** ** Monotone statements *)

Create HintDb stmt.

Section monotone.
Context `{Postgres}.

Lemma monotone_select {A} (f : DB -> A) : monotone (select f).
Proof. intros now d q. apply seqs_le_refl. Qed.

Lemma monotone_refuse {A} e : monotone (refuse (A := A) e).
Proof. intros now d q. apply seqs_le_refl. Qed.

Lemma monotone_modify {A} (f : DB -> list A) g : monotone (modify f g).
Proof. intros now d q. apply seqs_le_refl. Qed.

Lemma monotone_insert_row {A} (a : A) g : monotone (insert_row a g).
Proof. intros now d q. apply seqs_le_refl. Qed.

Lemma monotone_with_now {A} (k : Z -> Stmt A) : (forall t, monotone (k t)) -> monotone (with_now k).
Proof. intros Hk now d q. apply Hk. Qed.

Lemma monotone_with_jsonb {A} t (k : string -> Stmt A) : (forall j, monotone (k j)) -> monotone (with_jsonb t k).
Proof.
  intros Hk now d q. unfold with_jsonb. destruct (pg_jsonb t); [apply Hk | apply seqs_le_refl].
Qed.

Lemma monotone_check {A} b code rel (k : Stmt A) : monotone k -> monotone (check b code rel k).
Proof. intros Hk now d q. unfold check. destruct (b d); [apply Hk | apply seqs_le_refl]. Qed.

Lemma seq_bump_le n q : q n < 2 ^ 63 - 1 -> seqs_le q (seq_bump n q).
Proof. intros Hq n'. unfold seq_bump. case_decide; [subst|]; lia. Qed.

Lemma monotone_with_nextval {A} n (k : Z -> Stmt A) :
  (forall i, monotone (k i)) -> monotone (with_nextval n k).
Proof.
  intros Hk now d q. unfold with_nextval. destruct (Z.ltb_spec (q n) (2 ^ 63 - 1)); [|apply seqs_le_refl].
  etrans; [by apply (seq_bump_le n)|]. apply Hk.
Qed.

(** An insert that may meet a conflict. *)
Lemma monotone_if {A} (b : DB -> bool) (st1 st2 : Stmt A) :
  monotone st1 -> monotone st2 -> monotone (fun now d q => if b d then st1 now d q else st2 now d q).
Proof. intros H1 H2 now d q. cbn. destruct (b d); [apply H1 | apply H2]. Qed.

End monotone.

#[export] Hint Resolve monotone_select monotone_refuse monotone_modify monotone_insert_row : stmt.
#[export] Hint Resolve monotone_with_now monotone_with_jsonb monotone_check monotone_with_nextval
  monotone_if : stmt.

(** Proves [monotone] of a statement built from the combinators, [tac]
    unfolding its name. *)
Ltac solve_monotone := cbv zeta; eauto 12 with stmt.

(** ** Frames *)

Lemma frame_refl s : frame s s.
Proof. split; try done; apply seqs_le_refl. Qed.

Lemma frame_trans s1 s2 s3 : frame s1 s2 -> frame s2 s3 -> frame s1 s3.
Proof. intros [] []. split; try congruence; [auto | etrans; eauto]. Qed.

Lemma frame_locks m s s' : frame s s' -> frame s (set_locks m s').
Proof. intros []. by split. Qed.

Lemma frame_locks_l m s s' : frame (set_locks m s) s' -> frame s s'.
Proof. intros []. by split. Qed.

#[export] Instance frame_preorder : PreOrder frame.
Proof. split; [exact frame_refl | exact frame_trans]. Qed.

#[export] Hint Resolve frame_refl frame_locks : stmt.

(** Chains of frames. *)
Ltac frames := solve [eauto 6 using frame_trans, frame_refl, frame_locks].

Lemma frame_pg w s :
  pg_now w = pg_now (sys_pg s) -> (quiet s -> pg_net w = []) ->
  seqs_le (pg_seqs (sys_pg s)) (pg_seqs w) -> frame s (set_pg w s).
Proof. intros. by split. Qed.

Lemma quiet_tail s : quiet s -> tail (pg_net (sys_pg s)) = [].
Proof. unfold quiet. by intros ->. Qed.

Lemma quiet_fault s : quiet s -> next_fault (sys_pg s) = Delivered.
Proof. unfold quiet, next_fault. by intros ->. Qed.

Lemma wp_on_pg {A} (f : PG -> A * PG) s (Q : A -> Sys -> Prop) :
  wp (on_pg f) s Q <-> Q (f (sys_pg s)).1 (set_pg (f (sys_pg s)).2 s).
Proof. unfold on_pg. rewrite wp_act. by destruct (f (sys_pg s)). Qed.

(** A stretch of queries: nothing but the network moves. *)
Definition unchanged (s s' : Sys) : Prop :=
  frame s s' /\ db s' = db s /\ pg_seqs (sys_pg s') = pg_seqs (sys_pg s).

Lemma unchanged_refl s : unchanged s s.
Proof. split; [apply frame_refl | done]. Qed.

Lemma unchanged_trans s1 s2 s3 : unchanged s1 s2 -> unchanged s2 s3 -> unchanged s1 s3.
Proof. intros (? & ? & ?) (? & ? & ?). split; [frames | by split; congruence]. Qed.

#[export] Instance unchanged_preorder : PreOrder unchanged.
Proof. split; [exact unchanged_refl | exact unchanged_trans]. Qed.

Lemma unchanged_db s s' : unchanged s s' -> db s' = db s.
Proof. by intros (_ & ? & _). Qed.

Lemma unchanged_quiet s s' : unchanged s s' -> quiet s -> quiet s'.
Proof. intros [Hf _]. apply Hf. Qed.

(** The frame of a state that only differs on the database side. *)
Ltac solve_frame :=
  apply frame_pg; [done | by intros ?; apply quiet_tail | first [done | apply seqs_le_refl]].

(** ** Outside transactions *)

(** A statement of its own: it takes effect or not, and an error hides which. *)
Lemma wp_pool {A} (st : Stmt A) s (Q : result A -> Sys -> Prop) :
  monotone st ->
  let r := st (pg_now (sys_pg s)) (db s) (pg_seqs (sys_pg s)) in
  (forall e s', frame s s' -> (quiet s -> exists q, r = (Err e, q)) ->
     (e <> ErrNoRows \/ exists q, r = (Err e, q)) ->
     db s' = db s \/ (exists a eff q, r = (Ok (a, eff), q) /\ db s' = eff (db s) /\ pg_seqs (sys_pg s') = q) ->
     pg_seqs (sys_pg s') = pg_seqs (sys_pg s) \/ pg_seqs (sys_pg s') = r.2 -> Q (Err e) s') ->
  (forall a eff q s', r = (Ok (a, eff), q) -> frame s s' -> db s' = eff (db s) ->
     pg_seqs (sys_pg s') = q -> Q (Ok a) s') ->
  wp (on_pg (pool st)) s Q.
Proof.
  intros Hmono r Herr Hok. rewrite wp_on_pg. unfold pool.
  specialize (Hmono (pg_now (sys_pg s)) (db s) (pg_seqs (sys_pg s))). fold r in Hmono.
  assert (Ex : exec_pool st (use_fault (sys_pg s)) =
    match r with
    | (Ok (a, eff), q) => (Ok a, set_seqs q (set_db (eff (db s)) (use_fault (sys_pg s))))
    | (Err e, q) => (Err e, set_seqs q (use_fault (sys_pg s)))
    end) by done.
  rewrite Ex. clearbody r. clear Ex.
  destruct (next_fault (sys_pg s)) as [|e|e] eqn:Ef.
  - destruct r as [[[a eff]|e] q]; simpl in *.
    + eapply Hok; [done| |done..]. solve_frame.
    + eapply Herr; [|by eauto|by eauto|by left|by right]. solve_frame.
  - eapply Herr; [| |by left|by left|by left].
    + solve_frame.
    + intros Hq. by rewrite quiet_fault in Ef.
  - assert (Hno : quiet s -> exists q : Seqs, r = (Err (ErrText e), q)) by (intros Hq; by rewrite quiet_fault in Ef).
    destruct r as [[[a eff]|e'] q]; simpl in *.
    + eapply Herr; [| done | by left | by right; exists a, eff, q | by right]. solve_frame.
    + eapply Herr; [| done | by left | by left | by right]. solve_frame.
Qed.

(** A query changes nothing and answers from the committed rows. *)
Lemma wp_pool_select {A} (f : DB -> A) s (Q : result A -> Sys -> Prop) :
  (forall e s', unchanged s s' -> ~ quiet s -> e <> ErrNoRows -> Q (Err e) s') ->
  (forall s', unchanged s s' -> Q (Ok (f (db s))) s') ->
  wp (on_pg (pool (select f))) s Q.
Proof.
  intros Herr Hok. apply wp_pool; [apply monotone_select | |].
  - intros e s' Hf Hq He Hd Hs. apply Herr; [split; [done|split] | |].
    + destruct Hd as [|(a & eff & q & [= <- <- <-] & ? & _)]; done.
    + by destruct Hs.
    + intros Hsq. by destruct (Hq Hsq) as [q [=]].
    + by destruct He as [|[q [=]]].
  - intros a eff q s' [= <- <- <-] Hf Hd Hs. by apply Hok.
Qed.

Lemma wp_pool_query {A} (f : DB -> list A) s (Q : result (list A) -> Sys -> Prop) :
  (forall e s', unchanged s s' -> ~ quiet s -> e <> ErrNoRows -> Q (Err e) s') ->
  (forall s', unchanged s s' -> Q (Ok (f (db s))) s') ->
  wp (pool_query (select f)) s Q.
Proof. apply wp_pool_select. Qed.

Lemma wp_pool_query_row {A} (f : DB -> list A) s (Q : result A -> Sys -> Prop) :
  (forall e s', unchanged s s' -> ~ quiet s -> e <> ErrNoRows -> Q (Err e) s') ->
  (forall s', unchanged s s' -> Q (first_row (Ok (f (db s)))) s') ->
  wp (pool_query_row (select f)) s Q.
Proof.
  intros Herr Hok. unfold pool_query_row. rewrite wp_bind. apply wp_pool_select; intros; rewrite wp_ret.
  - by apply Herr.
  - by apply Hok.
Qed.

(** ** Inside a transaction *)

Section in_tx.
Context `{Postgres}.

(** A statement of a transaction: nothing is committed, and an error leaves
    nothing to commit. *)
Lemma wp_in_tx {A} tx start d (st : Stmt A) s (Q : result A -> Sys -> Prop) :
  monotone st -> txn tx start d s ->
  let r := st start d (pg_seqs (sys_pg s)) in
  (forall e s', frame s s' -> db s' = db s -> (quiet s -> exists q, r = (Err e, q)) ->
     (e <> ErrNoRows \/ exists q, r = (Err e, q)) -> Q (Err e) s') ->
  (forall a eff q s', r = (Ok (a, eff), q) -> frame s s' -> db s' = db s -> txn tx start (eff d) s' ->
     pg_seqs (sys_pg s') = q -> Q (Ok a) s') ->
  wp (on_pg (in_tx tx st)) s Q.
Proof.
  intros Hmono (log & Htx & Hd) r Herr Hok. rewrite wp_on_pg. unfold in_tx. rewrite Htx.
  specialize (Hmono start d (pg_seqs (sys_pg s))). fold r in Hmono.
  assert (Ex : exec_tx tx (mkTxState start (Some log)) st (use_fault (sys_pg s)) =
    match r with
    | (Ok (a, eff), q) => (Ok a, set_seqs q (set_txs (<[tx := mkTxState start (Some (log ++ [eff]))]>
                                   (pg_txs (sys_pg s))) (use_fault (sys_pg s))))
    | (Err e, q) => (Err e, set_seqs q (tx_abort tx (mkTxState start (Some log)) (use_fault (sys_pg s))))
    end).
  { unfold exec_tx. simpl. unfold db in Hd. by rewrite Hd. }
  rewrite Ex. clearbody r. clear Ex.
  destruct (next_fault (sys_pg s)) as [|e|e] eqn:Ef.
  - destruct r as [[[a eff]|e] q]; simpl in *.
    + eapply Hok; [done| |done| |done].
      * solve_frame.
      * exists (log ++ [eff]). unfold db in *. simpl. rewrite lookup_insert_eq. split; [done|].
        unfold tx_view in *. by rewrite foldl_app, Hd.
    + eapply Herr; [| done | by eauto | by eauto]. solve_frame.
  - eapply Herr; [| done | intros Hq; by rewrite quiet_fault in Ef | by left].
    solve_frame.
  - assert (Hno : quiet s -> exists q : Seqs, r = (Err (ErrText e), q)) by (intros Hq; by rewrite quiet_fault in Ef).
    destruct r as [[[a eff]|e'] q]; simpl in *;
      (eapply Herr; [solve_frame | done | done | by left]).
Qed.

Lemma wp_tx_exec tx start d (st : Stmt Z) s (Q : result Z -> Sys -> Prop) :
  monotone st -> txn tx start d s ->
  let r := st start d (pg_seqs (sys_pg s)) in
  (forall e s', frame s s' -> db s' = db s -> (quiet s -> exists q, r = (Err e, q)) ->
     (e <> ErrNoRows \/ exists q, r = (Err e, q)) -> Q (Err e) s') ->
  (forall a eff q s', r = (Ok (a, eff), q) -> frame s s' -> db s' = db s -> txn tx start (eff d) s' ->
     pg_seqs (sys_pg s') = q -> Q (Ok a) s') ->
  wp (tx_exec tx st) s Q.
Proof. apply wp_in_tx. Qed.

Lemma wp_tx_query_row {A} tx start d (st : Stmt (list A)) s (Q : result A -> Sys -> Prop) :
  monotone st -> txn tx start d s ->
  let r := st start d (pg_seqs (sys_pg s)) in
  (forall e s', frame s s' -> db s' = db s -> (quiet s -> exists q, r = (Err e, q)) ->
     (e <> ErrNoRows \/ exists q, r = (Err e, q)) -> Q (Err e) s') ->
  (forall a eff q s', r = (Ok (a, eff), q) -> frame s s' -> db s' = db s -> txn tx start (eff d) s' ->
     pg_seqs (sys_pg s') = q -> Q (first_row (Ok a)) s') ->
  wp (tx_query_row tx st) s Q.
Proof.
  intros Hm Htx r Herr Hok. unfold tx_query_row. rewrite wp_bind.
  eapply wp_in_tx; [done | done | |]; intros; rewrite wp_ret; eauto.
Qed.

(** A query inside a transaction. *)
Lemma wp_tx_select_row {A} tx start d (f : DB -> list A) s (Q : result A -> Sys -> Prop) :
  txn tx start d s ->
  (forall e s', frame s s' -> db s' = db s -> ~ quiet s -> e <> ErrNoRows -> Q (Err e) s') ->
  (forall s', frame s s' -> db s' = db s -> txn tx start d s' ->
     pg_seqs (sys_pg s') = pg_seqs (sys_pg s) -> Q (first_row (Ok (f d))) s') ->
  wp (tx_query_row tx (select f)) s Q.
Proof.
  intros Htx Herr Hok. eapply wp_tx_query_row; [apply monotone_select | done | |].
  - intros e s' Hf Hd Hq He. apply Herr; [done | done| |].
    + intros Hs. by destruct (Hq Hs) as [q [=]].
    + by destruct He as [|[q [=]]].
  - intros a eff q s' [= <- <- <-]. apply Hok.
Qed.

End in_tx.

(** ** Transactions *)

Lemma wp_BeginTx s (Q : result Z -> Sys -> Prop) :
  (forall e s', frame s s' -> ~ quiet s -> db s' = db s -> Q (Err e) s') ->
  (forall tx s', frame s s' -> db s' = db s -> pg_seqs (sys_pg s') = pg_seqs (sys_pg s) ->
     txn tx (pg_now (sys_pg s)) (db s) s' -> Q (Ok tx) s') ->
  wp BeginTx s Q.
Proof.
  intros Herr Hok. unfold BeginTx. rewrite wp_on_pg. unfold pg_begin.
  destruct (next_fault (sys_pg s)) as [|e|e] eqn:Ef; simpl.
  - apply Hok; [|done|done|].
    + solve_frame.
    + exists []. simpl. by rewrite lookup_insert_eq.
  - apply Herr; [|intros Hq; by rewrite quiet_fault in Ef|done].
    solve_frame.
  - apply Herr; [|intros Hq; by rewrite quiet_fault in Ef|done].
    solve_frame.
Qed.

(** The commit of an open transaction installs what it saw; an error hides
    whether it did. *)
Lemma wp_tx_commit tx start d s (Q : result unit -> Sys -> Prop) :
  txn tx start d s ->
  (forall e s', frame s s' -> ~ quiet s -> pg_seqs (sys_pg s') = pg_seqs (sys_pg s) ->
     db s' = db s \/ db s' = d -> Q (Err e) s') ->
  (forall s', frame s s' -> pg_seqs (sys_pg s') = pg_seqs (sys_pg s) -> db s' = d -> Q (Ok tt) s') ->
  wp (tx_commit tx) s Q.
Proof.
  intros (log & Htx & Hd) Herr Hok. unfold tx_commit. rewrite wp_on_pg. unfold pg_commit. rewrite Htx.
  destruct (next_fault (sys_pg s)) as [|e|e] eqn:Ef; simpl.
  - apply Hok; [|done|by rewrite <- Hd]. solve_frame.
  - apply Herr; [|intros Hq; by rewrite quiet_fault in Ef|done|by left].
    solve_frame.
  - apply Herr; [|intros Hq; by rewrite quiet_fault in Ef|done|by right; rewrite <- Hd].
    solve_frame.
Qed.

Lemma wp_tx_rollback tx s (Q : unit -> Sys -> Prop) :
  (forall s', frame s s' -> db s' = db s -> pg_seqs (sys_pg s') = pg_seqs (sys_pg s) -> Q tt s') ->
  wp (tx_rollback tx) s Q.
Proof. intros HQ. unfold tx_rollback. rewrite wp_on_pg. by apply HQ. Qed.

(** A transaction with its deferred rollback. *)
Lemma wp_with_tx {A} (failed : error -> A) (body : Z -> Prog Sys A) s (Q : A -> Sys -> Prop) :
  (forall e s', frame s s' -> ~ quiet s -> db s' = db s -> Q (failed e) s') ->
  (forall tx s1, frame s s1 -> db s1 = db s -> pg_seqs (sys_pg s1) = pg_seqs (sys_pg s) ->
     txn tx (pg_now (sys_pg s)) (db s) s1 ->
     wp (body tx) s1 (fun a s2 => forall s3, frame s2 s3 -> db s3 = db s2 ->
       pg_seqs (sys_pg s3) = pg_seqs (sys_pg s2) -> Q a s3)) ->
  wp (with_tx failed body) s Q.
Proof.
  intros Herr Hbody. unfold with_tx. rewrite wp_bind. apply wp_BeginTx.
  - intros e s' Hf Hq Hd. rewrite wp_ret. by apply Herr.
  - intros tx s1 Hf Hd Hs Htx. rewrite wp_deferred. eapply wp_mono; [by apply Hbody|].
    intros a s2 HQ. apply wp_tx_rollback. intros s3 Hf3 Hd3 Hs3. by apply HQ.
Qed.

Lemma plain_with_tx {A} (failed : error -> A) (body : Z -> Prog Sys A) :
  (forall tx, plain (body tx)) -> plain (with_tx failed body).
Proof.
  intros Hb. apply plain_bind; [apply plain_on_pg|]. intros [tx|e]; [|apply plain_ret].
  apply plain_deferred; auto with plain.
Qed.

Lemma plain_BeginTx : plain BeginTx.
Proof. apply plain_on_pg. Qed.

#[export] Hint Resolve plain_with_tx plain_BeginTx : plain.
