(* ===== verification/PgPlain.v ===== *)
(** * No method of the persistence layer locks or waits

    Every one is [plain], so the locks around a handler's body are invisible
    to what the body does. *)
From S2P Require Import Prelude Prog Models PartitionSpec GoJson Postgres World PgClient PgFacts.

Section plain.
Context `{Postgres} `{GoText}.

Lemma plain_CreateTableTx tx a b c d : plain (CreateTableTx tx a b c d).
Proof. unfold CreateTableTx. solve_plain. Qed.

Lemma plain_GetTable a : plain (GetTable a).
Proof. unfold GetTable. solve_plain. Qed.

Lemma plain_GetTableID a : plain (GetTableID a).
Proof. unfold GetTableID. solve_plain. Qed.

#[local] Hint Resolve plain_GetTableID : plain.

Lemma plain_UpdateTableSchema tx a b c d : plain (UpdateTableSchema tx a b c d).
Proof. unfold UpdateTableSchema. solve_plain. Qed.

Lemma plain_RenameTable a b : plain (RenameTable a b).
Proof. unfold RenameTable. solve_plain. Qed.

Lemma plain_purge_rows tx a b : plain (purge_rows tx a b).
Proof. unfold purge_rows. solve_plain. Qed.

#[local] Hint Resolve plain_purge_rows : plain.

Lemma plain_DropTable tx a b : plain (DropTable tx a b).
Proof. unfold DropTable. solve_plain. Qed.

Lemma plain_ListTables a b c : plain (ListTables a b c).
Proof. unfold ListTables. solve_plain. Qed.

Lemma plain_GetCurrentSnapshot a : plain (GetCurrentSnapshot a).
Proof. unfold GetCurrentSnapshot. solve_plain. Qed.

Lemma plain_GetTableSpecVersion a : plain (GetTableSpecVersion a).
Proof. unfold GetTableSpecVersion. solve_plain. Qed.

Lemma plain_InsertTransaction a b c d : plain (InsertTransaction a b c d).
Proof. unfold InsertTransaction. solve_plain. Qed.

Lemma plain_UpdateTransactionStatus a b : plain (UpdateTransactionStatus a b).
Proof. unfold UpdateTransactionStatus. solve_plain. Qed.

Lemma plain_QueryPartitions a b : plain (QueryPartitions a b).
Proof. unfold QueryPartitions. solve_plain. Qed.

#[local] Hint Resolve plain_QueryPartitions : plain.

Lemma plain_QueryPartitionsPaged a b c d : plain (QueryPartitionsPaged a b c d).
Proof. unfold QueryPartitionsPaged. solve_plain. Qed.

Lemma plain_InsertSnapshotTx tx a b c d e : plain (InsertSnapshotTx tx a b c d e).
Proof. unfold InsertSnapshotTx. solve_plain. Qed.

Lemma plain_InsertManifestFileTx tx a : plain (InsertManifestFileTx tx a).
Proof. unfold InsertManifestFileTx. solve_plain. Qed.

Lemma plain_InsertManifestListTx tx a b c : plain (InsertManifestListTx tx a b c).
Proof. unfold InsertManifestListTx. solve_plain. Qed.

Lemma plain_GetManifestList a b : plain (GetManifestList a b).
Proof. unfold GetManifestList. solve_plain. Qed.

Lemma plain_GetManifestFile a b : plain (GetManifestFile a b).
Proof. unfold GetManifestFile. solve_plain. Qed.

Lemma plain_InsertPartitionTx tx a b c : plain (InsertPartitionTx tx a b c).
Proof. unfold InsertPartitionTx. solve_plain. Qed.

Lemma plain_GetColumnStatsForSnapshot a b : plain (GetColumnStatsForSnapshot a b).
Proof. unfold GetColumnStatsForSnapshot. solve_plain. Qed.

Lemma plain_MarkPartitionDeletedTx tx a b c : plain (MarkPartitionDeletedTx tx a b c).
Proof. unfold MarkPartitionDeletedTx. solve_plain. Qed.

Lemma plain_UpdateTableSnapshotTx tx a b : plain (UpdateTableSnapshotTx tx a b).
Proof. unfold UpdateTableSnapshotTx. solve_plain. Qed.

Lemma plain_GetSnapshot a b : plain (GetSnapshot a b).
Proof. unfold GetSnapshot. solve_plain. Qed.

Lemma plain_ListSnapshots a b : plain (ListSnapshots a b).
Proof. unfold ListSnapshots. solve_plain. Qed.

Lemma plain_InsertPartitionSpecTx tx a b c d : plain (InsertPartitionSpecTx tx a b c d).
Proof. unfold InsertPartitionSpecTx. solve_plain. Qed.

Lemma plain_UpdateTablePartitionSpecTx tx a b c : plain (UpdateTablePartitionSpecTx tx a b c).
Proof. unfold UpdateTablePartitionSpecTx. solve_plain. Qed.

Lemma plain_GetPartitionSpecByVersion a b : plain (GetPartitionSpecByVersion a b).
Proof. unfold GetPartitionSpecByVersion. solve_plain. Qed.

Lemma plain_ListPartitionSpecHistory a : plain (ListPartitionSpecHistory a).
Proof. unfold ListPartitionSpecHistory. solve_plain. Qed.

Lemma plain_GetVisiblePartitionCount a b : plain (GetVisiblePartitionCount a b).
Proof. unfold GetVisiblePartitionCount. solve_plain. Qed.

End plain.

#[export] Hint Resolve plain_CreateTableTx plain_GetTable plain_GetTableID plain_UpdateTableSchema
  plain_RenameTable plain_purge_rows plain_DropTable plain_ListTables plain_GetCurrentSnapshot
  plain_GetTableSpecVersion plain_InsertTransaction plain_UpdateTransactionStatus
  plain_QueryPartitions plain_QueryPartitionsPaged plain_InsertSnapshotTx plain_InsertManifestFileTx
  plain_InsertManifestListTx plain_GetManifestList plain_GetManifestFile plain_InsertPartitionTx
  plain_GetColumnStatsForSnapshot plain_MarkPartitionDeletedTx plain_UpdateTableSnapshotTx
  plain_GetSnapshot plain_ListSnapshots plain_InsertPartitionSpecTx plain_UpdateTablePartitionSpecTx
  plain_GetPartitionSpecByVersion plain_ListPartitionSpecHistory plain_GetVisiblePartitionCount :
  plain.
