(* ===== verification/Reads.v ===== *)
(** * Reads of the committed rows

    What each query of the persistence layer answers, as a function of the
    committed database, and the rules that say so: a query leaves the
    database alone, fails only when the network does, and otherwise answers
    that function. *)
From S2P Require Import Prelude Prog Models PartitionSpec GoJson Postgres World PgClient PgFacts.

(** The live table of a name: the row the queries see first. *)
Definition live_table (name : string) (d : DB) : option tables_row :=
  head (List.filter (live_named name) (tables d)).

Definition table_id (name : string) (d : DB) : option Z := t_table_id <$> live_table name d.

(** What [GetTableID] answers. *)
Definition table_id_or (name : string) (d : DB) : Z := default (-1) (table_id name d).

(** What [GetCurrentSnapshot] answers. *)
Definition current_snapshot (name : string) (d : DB) : Z :=
  match live_table name d with
  | Some r => if t_current_snapshot_id r <? 0 then 0 else uint64 (t_current_snapshot_id r)
  | None => 0
  end.

(** What [GetTableSpecVersion] answers. *)
Definition current_spec_version (name : string) (d : DB) : Z :=
  match live_table name d with Some r => t_partition_spec_version r | None => 0 end.

(** What [GetTable] answers. *)
Definition table_row (name : string) (d : DB) : result (option TableRow) :=
  match live_table name d with
  | Some r => result_map Some (scan_table r)
  | None => Ok None
  end.

Section answers.
Context `{GoText}.

(** The rows visible at a snapshot, in id order. *)
Definition visible_rows (id snap : Z) (d : DB) : list partitions_row :=
  order_by p_partition_id (List.filter (visible id snap) (partitions d)).

(** What [QueryPartitions] answers. *)
Definition partitions_at (name : string) (snap : Z) (d : DB) : option (list PartitionRow) :=
  if table_id_or name d <? 0 then None
  else Some (map scan_partition (visible_rows (table_id_or name d) (int64 snap) d)).

(** What [QueryPartitionsPaged] answers, for a positive page size. *)
Definition partitions_page (name : string) (snap size last : Z) (d : DB) : option (list PartitionRow) :=
  if table_id_or name d <? 0 then None
  else Some (map scan_partition (take (Z.to_nat size)
    (order_by p_partition_id
      (List.filter (fun r => visible (table_id_or name d) (int64 snap) r && (last <? p_partition_id r))
         (partitions d))))).

(** ** Rules *)

Lemma head_map {A B} (f : A -> B) (l : list A) : head (map f l) = f <$> head l.
Proof. by destruct l. Qed.

Lemma first_row_head {A} (l : list A) :
  first_row (Ok l) = match head l with Some x => Ok x | None => Err ErrNoRows end.
Proof. by destruct l. Qed.

Lemma first_row_table_id name d :
  first_row (Ok (map t_table_id (List.filter (live_named name) (tables d)))) =
  match table_id name d with Some id => Ok id | None => Err ErrNoRows end.
Proof. by rewrite first_row_head, head_map. Qed.

Lemma live_table_in name d r : live_table name d = Some r -> r ∈ tables d /\ live_named name r = true.
Proof.
  unfold live_table. destruct (List.filter _ _) as [|r' l] eqn:E; [done|]. intros [= <-].
  assert (Hin : In r' (List.filter (live_named name) (tables d))) by (rewrite E; by left).
  apply filter_In in Hin as [? ?]. split; [by apply list_elem_of_In | done].
Qed.

(** An update of the live rows of a name that keeps names and the deletion
    mark keeps which rows are live under any name. *)
Lemma live_table_update (c : tables_row -> bool) u name d d' :
  tables d' = update_where c u (tables d) -> (forall r, t_table_name (u r) = t_table_name r) ->
  (forall r, t_is_deleted (u r) = t_is_deleted r) ->
  live_table name d' = (fun r => if c r then u r else r) <$> live_table name d.
Proof.
  intros Ht Hn Hd. unfold live_table. rewrite Ht. unfold update_where. rewrite filter_map_comm, head_map.
  f_equal. f_equal. apply filter_ext_elem. intros r _. unfold live_named. destruct (c r); [|done].
  by rewrite Hn, Hd.
Qed.

Lemma has_table_id name d id : table_id name d = Some id -> has_table id d = true.
Proof.
  unfold table_id, has_table. destruct (live_table name d) as [r|] eqn:E; [|done]. intros [= <-].
  apply live_table_in in E as [Hin _]. rewrite existsb_exists. exists r.
  split; [by apply list_elem_of_In | apply Z.eqb_refl].
Qed.

Lemma wp_GetTableID name s (Q : result Z -> Sys -> Prop) :
  (forall e s', unchanged s s' -> ~ quiet s -> Q (Err e) s') ->
  (forall s', unchanged s s' -> Q (Ok (table_id_or name (db s))) s') ->
  wp (GetTableID name) s Q.
Proof.
  intros Herr Hok. unfold GetTableID. rewrite wp_bind. apply wp_pool_query_row.
  - intros e s' Hu Hq He. rewrite wp_ret. destruct e; [done|by apply Herr..].
  - intros s' Hu. rewrite wp_ret, first_row_table_id. specialize (Hok s' Hu).
    unfold table_id_or in Hok. by destruct (table_id name (db s)).
Qed.

Lemma wp_GetCurrentSnapshot name s (Q : result Z -> Sys -> Prop) :
  (forall e s', unchanged s s' -> ~ quiet s -> Q (Err e) s') ->
  (forall s', unchanged s s' -> Q (Ok (current_snapshot name (db s))) s') ->
  wp (GetCurrentSnapshot name) s Q.
Proof.
  intros Herr Hok. unfold GetCurrentSnapshot. rewrite wp_bind. apply wp_pool_query_row.
  - intros e s' Hu Hq He. rewrite wp_ret. destruct e; [done|by apply Herr..].
  - intros s' Hu. rewrite wp_ret, first_row_head, head_map. specialize (Hok s' Hu).
    unfold current_snapshot, live_table in Hok. destruct (head _) as [r|]; cbn; [|done].
    by destruct (t_current_snapshot_id r <? 0).
Qed.

Lemma wp_GetTableSpecVersion name s (Q : result Z -> Sys -> Prop) :
  (forall e s', unchanged s s' -> ~ quiet s -> Q (Err e) s') ->
  (forall s', unchanged s s' -> Q (Ok (current_spec_version name (db s))) s') ->
  wp (GetTableSpecVersion name) s Q.
Proof.
  intros Herr Hok. unfold GetTableSpecVersion. rewrite wp_bind. apply wp_pool_query_row.
  - intros e s' Hu Hq He. rewrite wp_ret. destruct e; [done|by apply Herr..].
  - intros s' Hu. rewrite wp_ret, first_row_head, head_map. specialize (Hok s' Hu).
    unfold current_spec_version, live_table in Hok. by destruct (head _).
Qed.

Lemma wp_GetTable name s (Q : result (option TableRow) -> Sys -> Prop) :
  (forall e s', unchanged s s' -> ~ quiet s -> Q (Err e) s') ->
  (forall s', unchanged s s' -> Q (table_row name (db s)) s') ->
  wp (GetTable name) s Q.
Proof.
  intros Herr Hok. unfold GetTable. rewrite wp_bind. apply wp_pool_query_row.
  - intros e s' Hu Hq He. rewrite wp_ret. destruct e; [done|by apply Herr..].
  - intros s' Hu. rewrite wp_ret, first_row_head. specialize (Hok s' Hu).
    unfold table_row, live_table in Hok. by destruct (head _).
Qed.

Lemma wp_QueryPartitions name snap s (Q : result (option (list PartitionRow)) -> Sys -> Prop) :
  (forall e s', unchanged s s' -> ~ quiet s -> Q (Err e) s') ->
  (forall s', unchanged s s' -> Q (Ok (partitions_at name snap (db s))) s') ->
  wp (QueryPartitions name snap) s Q.
Proof.
  intros Herr Hok. unfold QueryPartitions. rewrite wp_bind. apply wp_GetTableID.
  - intros e s' Hu Hq. rewrite wp_ret. by apply Herr.
  - intros s1 Hu1. unfold partitions_at in Hok. destruct (table_id_or name (db s) <? 0).
    { rewrite wp_ret. by apply Hok. }
    rewrite wp_bind. apply wp_pool_query.
    + intros e s2 Hu2 Hq _. rewrite wp_ret. apply Herr; [by etrans|].
      intros Hs. by apply Hq, (unchanged_quiet _ _ Hu1).
    + intros s2 Hu2. rewrite wp_ret, (unchanged_db _ _ Hu1). apply Hok. by etrans.
Qed.

Lemma wp_QueryPartitionsPaged name snap size last s
    (Q : result (option (list PartitionRow)) -> Sys -> Prop) :
  0 < size ->
  (forall e s', unchanged s s' -> ~ quiet s -> Q (Err e) s') ->
  (forall s', unchanged s s' -> Q (Ok (partitions_page name snap size last (db s))) s') ->
  wp (QueryPartitionsPaged name snap size last) s Q.
Proof.
  intros Hsize Herr Hok. unfold QueryPartitionsPaged. rewrite wp_bind. apply wp_GetTableID.
  - intros e s' Hu Hq. rewrite wp_ret. by apply Herr.
  - intros s1 Hu1. unfold partitions_page in Hok. destruct (table_id_or name (db s) <? 0).
    { rewrite wp_ret. by apply Hok. }
    destruct (Z.leb_spec size 0); [lia|]. rewrite wp_bind. apply wp_pool_query.
    + intros e s2 Hu2 Hq _. rewrite wp_ret. apply Herr; [by etrans|].
      intros Hs. by apply Hq, (unchanged_quiet _ _ Hu1).
    + intros s2 Hu2. rewrite wp_ret, (unchanged_db _ _ Hu1). apply Hok. by etrans.
Qed.

End answers.
