(* ===== verification/Commit.v ===== *)
(** * The snapshot commit: specification and atomicity

    [commit_db] says in closed form what a successful [CommitSnapshot] makes
    of the database; [commit_ready] is what it needs to succeed.  The theorems
    state that the registry's commit implements it: all or nothing whatever
    the network does, and all of it when every round trip is delivered. *)
From S2P Require Import Prelude Prog LRU MVCC Lock Models PartitionSpec GoJson Postgres World PgClient PgFacts.
From S2P Require Import Reads Registry.

(** ** The specification *)

Section commit_spec.
Context `{Postgres} `{GoText}.

(** The rows of the new files, with the ids after [next]. *)
Fixpoint new_rows (next tableID snap : Z) (parts : list PartitionRow) : list partitions_row :=
  match parts with
  | [] => []
  | p :: parts' =>
      mk_partitions_row (next + 1) tableID snap (pr_PartitionKey p) (pr_DataFilePath p)
        (pr_FileFormat p) (pr_RowCount p) (pr_SizeBytes p)
        (default "" (pg_jsonb (marshalColumnStats (pr_ColumnStats p)))) false None
      :: new_rows (next + 1) tableID snap parts'
  end.

(** The live rows of the table under one of the keys. *)
Definition keyed (tableID : Z) (keys : list string) (r : partitions_row) : bool :=
  existsb (fun k => live_keyed tableID k r) keys.

(** The row of a manifest, under the id [id]. *)
Definition manifest_row (id : Z) (mf : ManifestFileRow) : manifest_files_row :=
  mk_manifest_files_row id (mfr_TableID mf) (mfr_SnapshotID mf) (mfr_ManifestPath mf)
    (mfr_PartitionSpecID mf) (mfr_AddedFilesCount mf) (mfr_DeletedFilesCount mf)
    (mfr_AddedRowsCount mf) (mfr_DeletedRowsCount mf) (default "" (pg_jsonb (mfr_PartitionSummaries mf))).

Fixpoint manifest_rows (next : Z) (mfs : list ManifestFileRow) : list manifest_files_row :=
  match mfs with
  | [] => []
  | mf :: mfs' => manifest_row (next + 1) mf :: manifest_rows (next + 1) mfs'
  end.

(** The manifests of a commit: one for the added files, one for the deleted
    keys, each only when there are any. *)
Definition commit_manifests (tableName : string) (tableID snap specVersion : Z)
    (parts : list PartitionRow) (keys : list string) : list ManifestFileRow :=
  (if is_empty parts then [] else [added_manifest tableName tableID snap specVersion parts]) ++
  (if is_empty keys then []
   else [deleted_manifest tableName tableID snap specVersion (if is_empty parts then 0 else 1) keys]).

(** The database after the commit of [parts] and [keys] on [d]. *)
Definition commit_db (now : Z) (q : Seqs) (tableName : string) (tableID parent : Z) (operation : string)
    (specVersion : Z) (parts : list PartitionRow) (keys : list string) (d : DB) : DB :=
  let snap := q SeqSnapshots + 1 in
  let mfs := commit_manifests tableName tableID snap specVersion parts keys in
  mkDB
    (update_where (live_named tableName) (set_current_snapshot snap now) (tables d))
    (schema_history d)
    (snapshots d ++ [mk_snapshots_row snap tableID parent now operation (len32 parts) (len32 keys)])
    (update_where (keyed tableID keys) (set_part_deleted snap)
       (partitions d ++ new_rows (q SeqPartitions) tableID snap parts))
    (transactions d)
    (manifest_files d ++ manifest_rows (q SeqManifestFiles) mfs)
    (manifest_lists d ++
       [mk_manifest_lists_row (q SeqManifestLists + 1) snap tableID (Z.of_nat (length mfs))])
    (partition_specs d).

(** [n] more values of a sequence. *)
Definition seq_room (q : Seqs) (n : seq_name) (k : nat) : Prop := 0 <= q n /\ q n + Z.of_nat k <= 2 ^ 63 - 1.

(** What the server needs to accept every statement of the commit. *)
Record commit_ready (q : Seqs) (tableName : string) (parts : list PartitionRow) (keys : list string)
    (d : DB) : Prop := {
  cr_table : table_id tableName d <> None;
  cr_snapshots : seq_room q SeqSnapshots 1;
  cr_partitions : seq_room q SeqPartitions (length parts);
  cr_files : seq_room q SeqManifestFiles 2;
  cr_lists : seq_room q SeqManifestLists 1;
  cr_unlisted : forall r, r ∈ manifest_lists d -> ml_snapshot_id r <= q SeqSnapshots;
  cr_stats : forall p, p ∈ parts -> pg_jsonb (marshalColumnStats (pr_ColumnStats p)) <> None;
  cr_summaries : pg_jsonb (summaries_json (map pr_PartitionKey parts)) <> None /\
                 pg_jsonb (summaries_json keys) <> None;
}.

End commit_spec.

(** ** Outcomes of the statements *)

Section outcomes.
Context `{Postgres} `{GoText}.
Implicit Types (d : DB) (q : Seqs).

Lemma seq_bump_same n q : seq_bump n q n = q n + 1.
Proof. unfold seq_bump. by rewrite decide_True. Qed.

Lemma seq_bump_other n n' q : n' <> n -> seq_bump n q n' = q n'.
Proof. intros. unfold seq_bump. by rewrite decide_False. Qed.

End outcomes.

(** Case analysis of an executed statement [st now d q = r] in hypothesis
    [H], all combinators unfolded. *)
Ltac stmt_cases H :=
  cbv beta iota zeta delta [with_jsonb with_now with_nextval check modify insert_row refuse select] in H;
  repeat match type of H with
  | context [match pg_jsonb ?x with _ => _ end] => destruct (pg_jsonb x) eqn:?
  | context [if ?b then _ else _] => destruct b eqn:?
  end;
  try discriminate H; injection H; clear H; intros; subst.

(** ** The parts of the commit *)

Section parts.
Context `{Postgres} `{GoText}.
Implicit Types (d : DB) (q : Seqs).

Lemma wp_select_table_id tx start d name s (Q : result Z -> Sys -> Prop) :
  txn tx start d s ->
  (forall e s', frame s s' -> db s' = db s -> (quiet s -> table_id name d = None) -> Q (Err e) s') ->
  (forall id s', table_id name d = Some id -> frame s s' -> db s' = db s -> txn tx start d s' ->
     pg_seqs (sys_pg s') = pg_seqs (sys_pg s) -> Q (Ok id) s') ->
  wp (tx_query_row tx (sql_select_table_id name)) s Q.
Proof.
  intros Htx Herr Hok. eapply wp_tx_select_row; [done| |].
  - intros e s' Hf Hd Hq _. by apply Herr.
  - intros s' Hf Hd Htx' Hs. rewrite first_row_table_id.
    destruct (table_id name d) as [id|] eqn:E; [by apply Hok | by apply Herr].
Qed.

(** One file of the commit. *)
Lemma wp_InsertPartitionTx tx start d name id snap part s (Q : result unit -> Sys -> Prop) :
  txn tx start d s -> table_id name d = Some id -> is_int64 snap ->
  (forall e s', frame s s' -> db s' = db s ->
     (quiet s -> pg_jsonb (marshalColumnStats (pr_ColumnStats part)) <> None ->
      seq_room (pg_seqs (sys_pg s)) SeqPartitions 1 -> has_snapshot snap d = true -> False) ->
     Q (Err e) s') ->
  (forall s', frame s s' -> db s' = db s ->
     txn tx start (set_partitions (partitions d ++
       new_rows (pg_seqs (sys_pg s) SeqPartitions) id snap [part]) d) s' ->
     pg_seqs (sys_pg s') = seq_bump SeqPartitions (pg_seqs (sys_pg s)) -> Q (Ok tt) s') ->
  wp (InsertPartitionTx tx name snap part) s Q.
Proof.
  intros Htx Hid Hsnap Herr Hok. unfold InsertPartitionTx. rewrite wp_bind.
  eapply wp_select_table_id; [done| |].
  - intros e s' Hf Hd Hn. rewrite wp_ret. apply Herr; [done..|]. intros Hq _ _ _. rewrite Hn in Hid; done.
  - intros id' s1 Hid' Hf1 Hd1 Htx1 Hs1. rewrite Hid in Hid'. injection Hid' as <-.
    rewrite wp_bind. rewrite int64_id by done.
    eapply wp_tx_exec; [unfold sql_insert_partition; solve_monotone | done | |].
    + intros e s2 Hf2 Hd2 Hr _. rewrite wp_ret. apply Herr; [frames | by rewrite Hd2 |].
      intros Hq Hj [Hlo Hhi] Hsn. destruct (Hr (fr_quiet _ _ Hf1 Hq)) as [q' Hr'].
      unfold sql_insert_partition in Hr'. rewrite Hs1 in Hr'. stmt_cases Hr'.
      * rewrite (has_table_id name d id), Hsn in * by done. done.
      * lia.
      * done.
    + intros a eff q' s2 Hr Hf2 Hd2 Htx2 Hs2. rewrite wp_ret.
      unfold sql_insert_partition in Hr. rewrite Hs1 in Hr. stmt_cases Hr.
      apply Hok; [frames | by rewrite Hd2 | | done].
      cbn [new_rows]. by match goal with E : pg_jsonb _ = _ |- _ => rewrite E end.
Qed.

(** All the files of the commit. *)
Lemma wp_insert_partitions tx start name id snap parts : forall d s (Q : result unit -> Sys -> Prop),
  txn tx start d s -> table_id name d = Some id -> is_int64 snap ->
  (forall e s', frame s s' -> db s' = db s ->
     (quiet s -> (forall p, p ∈ parts -> pg_jsonb (marshalColumnStats (pr_ColumnStats p)) <> None) ->
      seq_room (pg_seqs (sys_pg s)) SeqPartitions (length parts) -> has_snapshot snap d = true -> False) ->
     Q (Err e) s') ->
  (forall s', frame s s' -> db s' = db s ->
     txn tx start (set_partitions (partitions d ++
       new_rows (pg_seqs (sys_pg s) SeqPartitions) id snap parts) d) s' ->
     pg_seqs (sys_pg s') SeqPartitions = pg_seqs (sys_pg s) SeqPartitions + Z.of_nat (length parts) ->
     (forall n, n <> SeqPartitions -> pg_seqs (sys_pg s') n = pg_seqs (sys_pg s) n) -> Q (Ok tt) s') ->
  wp (for_each parts (fun part =>
        try* _ := InsertPartitionTx tx name snap part
          catch e in Ret (Err (ErrText ("failed to insert partition: " ++ pr_PartitionKey part))) then
        Ret (Ok tt))) s Q.
Proof.
  induction parts as [|p parts IH]; intros d s Q Htx Hid Hsnap Herr Hok; cbn [for_each].
  - apply Hok; [done | done | | cbn; lia | done].
    destruct Htx as (log & Hl & Hv). exists log. split; [done|]. rewrite Hv. cbn.
    rewrite app_nil_r. by destruct d.
  - rewrite !wp_bind. eapply wp_InsertPartitionTx; [done..| |].
    + intros e s1 Hf1 Hd1 Hno. rewrite !wp_ret. apply Herr; [done..|]. intros Hq Hj [Hlo Hhi] Hsn.
      apply Hno; [done | apply Hj; left | split; [done | cbn in Hhi; lia] | done].
    + intros s1 Hf1 Hd1 Htx1 Hs1. rewrite !wp_ret. eapply IH; [done | done | done | |].
      * intros e s2 Hf2 Hd2 Hno. apply Herr; [frames | congruence |]. intros Hq Hj [Hlo Hhi] Hsn.
        apply Hno; [by apply (fr_quiet _ _ Hf1) | by intros p' ?; apply Hj; right | | done].
        unfold seq_room. rewrite Hs1, seq_bump_same. cbn [length] in Hhi. split; lia.
      * intros s2 Hf2 Hd2 Htx2 Hs2 Ho2. rewrite Hs1 in Hs2, Htx2, Ho2. rewrite seq_bump_same in Hs2, Htx2.
        apply Hok; [frames | congruence | | cbn; lia |].
        -- cbn in Htx2 |- *. by rewrite <- app_assoc in Htx2.
        -- intros n Hn. by rewrite Ho2, seq_bump_other.
Qed.

(** One deleted key. *)
Lemma wp_MarkPartitionDeletedTx tx start d name id snap key s (Q : result unit -> Sys -> Prop) :
  txn tx start d s -> table_id name d = Some id -> is_int64 snap ->
  (forall e s', frame s s' -> db s' = db s -> ~ quiet s -> Q (Err e) s') ->
  (forall s', frame s s' -> db s' = db s ->
     txn tx start (set_partitions
       (update_where (live_keyed id key) (set_part_deleted snap) (partitions d)) d) s' ->
     pg_seqs (sys_pg s') = pg_seqs (sys_pg s) -> Q (Ok tt) s') ->
  wp (MarkPartitionDeletedTx tx name key snap) s Q.
Proof.
  intros Htx Hid Hsnap Herr Hok. unfold MarkPartitionDeletedTx. rewrite wp_bind.
  eapply wp_select_table_id; [done| |].
  - intros e s' Hf Hd Hn. rewrite wp_ret. apply Herr; [done..|]. intros Hq. by rewrite Hn in Hid.
  - intros id' s1 Hid' Hf1 Hd1 Htx1 Hs1. rewrite Hid in Hid'. injection Hid' as <-.
    rewrite wp_bind. rewrite int64_id by done.
    eapply wp_tx_exec; [apply monotone_modify | done | |].
    + intros e s2 Hf2 Hd2 Hr _. rewrite wp_ret. apply Herr; [frames | congruence |].
      intros Hq. by destruct (Hr (fr_quiet _ _ Hf1 Hq)) as [q' [=]].
    + intros a eff q' s2 [= <- <- <-] Hf2 Hd2 Htx2 Hs2. rewrite wp_ret.
      apply Hok; [frames | congruence | done | congruence].
Qed.

Lemma live_keyed_deleted id key snap r : live_keyed id key (set_part_deleted snap r) = false.
Proof. unfold live_keyed. cbn. by rewrite andb_false_r. Qed.

Lemma update_where_keyed id snap key keys rows :
  update_where (keyed id keys) (set_part_deleted snap)
    (update_where (live_keyed id key) (set_part_deleted snap) rows) =
  update_where (keyed id (key :: keys)) (set_part_deleted snap) rows.
Proof.
  unfold update_where. rewrite List.map_map. apply List.map_ext. intros r. cbn.
  destruct (live_keyed id key r) eqn:E; [|done].
  replace (keyed id keys (set_part_deleted snap r)) with false; [done|].
  unfold keyed. induction keys as [|k keys IH]; [done|]. cbn. by rewrite live_keyed_deleted, <- IH.
Qed.

(** All the deleted keys. *)
Lemma wp_mark_partitions tx start name id snap keys : forall d s (Q : result unit -> Sys -> Prop),
  txn tx start d s -> table_id name d = Some id -> is_int64 snap ->
  (forall e s', frame s s' -> db s' = db s -> ~ quiet s -> Q (Err e) s') ->
  (forall s', frame s s' -> db s' = db s ->
     txn tx start (set_partitions
       (update_where (keyed id keys) (set_part_deleted snap) (partitions d)) d) s' ->
     pg_seqs (sys_pg s') = pg_seqs (sys_pg s) -> Q (Ok tt) s') ->
  wp (for_each keys (fun key =>
        try* _ := MarkPartitionDeletedTx tx name key snap
          catch e in Ret (Err (ErrText ("failed to mark partition deleted: " ++ key))) then
        Ret (Ok tt))) s Q.
Proof.
  induction keys as [|k keys IH]; intros d s Q Htx Hid Hsnap Herr Hok; cbn [for_each].
  - apply Hok; [done | done | | done].
    destruct Htx as (log & Hl & Hv). exists log. split; [done|]. rewrite Hv.
    unfold update_where, keyed. cbn. rewrite List.map_id. by destruct d.
  - rewrite !wp_bind. eapply wp_MarkPartitionDeletedTx; [done..| |].
    + intros e s1 Hf1 Hd1 Hno. rewrite !wp_ret. by apply Herr.
    + intros s1 Hf1 Hd1 Htx1 Hs1. rewrite !wp_ret. eapply IH; [done | done | done | |].
      * intros e s2 Hf2 Hd2 Hno. apply Herr; [frames | congruence |]. intros Hq. by apply Hno, (fr_quiet _ _ Hf1).
      * intros s2 Hf2 Hd2 Htx2 Hs2. apply Hok; [frames | congruence | | congruence].
        rewrite <- update_where_keyed. exact Htx2.
Qed.

(** The snapshot record; a table that is not there gives the id zero. *)
Lemma wp_InsertSnapshotTx tx start d name parent operation added deleted s
    (Q : result (Z * Z) -> Sys -> Prop) :
  txn tx start d s -> 0 <= pg_seqs (sys_pg s) SeqSnapshots ->
  (forall e s', frame s s' -> db s' = db s ->
     (quiet s -> seq_room (pg_seqs (sys_pg s)) SeqSnapshots 1 -> False) -> Q (Err e) s') ->
  (forall s', frame s s' -> db s' = db s -> table_id name d = None -> Q (Ok (0, 0)) s') ->
  (forall id s', let snap := pg_seqs (sys_pg s) SeqSnapshots + 1 in
     table_id name d = Some id -> 1 <= snap < 2 ^ 63 -> frame s s' -> db s' = db s ->
     txn tx start (set_snapshots (snapshots d ++
       [mk_snapshots_row snap id (int64 parent) start operation added deleted]) d) s' ->
     pg_seqs (sys_pg s') = seq_bump SeqSnapshots (pg_seqs (sys_pg s)) -> Q (Ok (snap, id)) s') ->
  wp (InsertSnapshotTx tx name parent operation added deleted) s Q.
Proof.
  intros Htx Hq0 Herr Hnone Hok. unfold InsertSnapshotTx. rewrite wp_bind.
  eapply wp_tx_select_row; [done| |].
  - intros e s' Hf Hd Hn He. destruct e; [done| |]; rewrite wp_ret; by apply Herr.
  - intros s1 Hf1 Hd1 Htx1 Hs1. rewrite first_row_table_id.
    destruct (table_id name d) as [id|] eqn:Hid; [|rewrite wp_ret; by apply Hnone].
    rewrite wp_bind. eapply wp_tx_query_row; [unfold sql_insert_snapshot; solve_monotone | done | |].
    + intros e s2 Hf2 Hd2 Hr _. rewrite wp_ret. apply Herr; [frames | congruence |].
      intros Hq [Hlo Hhi]. destruct (Hr (fr_quiet _ _ Hf1 Hq)) as [q' Hr'].
      unfold sql_insert_snapshot in Hr'. rewrite Hs1 in Hr'. stmt_cases Hr'.
      * by rewrite (has_table_id name d id) in *.
      * lia.
    + intros a eff q' s2 Hr Hf2 Hd2 Htx2 Hs2. unfold sql_insert_snapshot in Hr. rewrite Hs1 in Hr.
      stmt_cases Hr. cbn [first_row]. rewrite wp_ret.
      assert (1 <= pg_seqs (sys_pg s) SeqSnapshots + 1 < 2 ^ 63) by lia.
      destruct (Z.ltb_spec (pg_seqs (sys_pg s) SeqSnapshots + 1) 0); [lia|].
      rewrite uint64_id by (unfold is_uint64; lia).
      apply Hok; [done | done | frames | congruence | done | done].
Qed.

(** A manifest, when there is one to record. *)
Lemma wp_insert_manifest tx start d (needed : bool) mf s (Q : result unit -> Sys -> Prop) :
  txn tx start d s ->
  (forall e s', frame s s' -> db s' = db s ->
     (quiet s -> pg_jsonb (mfr_PartitionSummaries mf) <> None ->
      seq_room (pg_seqs (sys_pg s)) SeqManifestFiles 1 ->
      has_table (mfr_TableID mf) d && has_snapshot (mfr_SnapshotID mf) d = true -> False) -> Q (Err e) s') ->
  (forall s', let mfs := if needed then [mf] else [] in
     frame s s' -> db s' = db s ->
     txn tx start (set_manifest_files (manifest_files d ++
       manifest_rows (pg_seqs (sys_pg s) SeqManifestFiles) mfs) d) s' ->
     pg_seqs (sys_pg s') SeqManifestFiles =
       pg_seqs (sys_pg s) SeqManifestFiles + Z.of_nat (length mfs) ->
     (forall n, n <> SeqManifestFiles -> pg_seqs (sys_pg s') n = pg_seqs (sys_pg s) n) -> Q (Ok tt) s') ->
  wp (insert_manifest tx needed mf) s Q.
Proof.
  intros Htx Herr Hok. unfold insert_manifest. destruct needed.
  - rewrite wp_bind. unfold InsertManifestFileTx.
    eapply wp_tx_query_row; [unfold sql_insert_manifest_file; solve_monotone | done | |].
    + intros e s2 Hf2 Hd2 Hr _. rewrite wp_ret. apply Herr; [frames | congruence |].
      intros Hq Hj [Hlo Hhi] Hfk. destruct (Hr Hq) as [q' Hr'].
      unfold sql_insert_manifest_file in Hr'. stmt_cases Hr'; solve [done | lia].
    + intros a eff q' s2 Hr Hf2 Hd2 Htx2 Hs2. unfold sql_insert_manifest_file in Hr.
      stmt_cases Hr. cbn [first_row]. rewrite wp_ret. apply Hok; [frames | congruence | | |].
      * cbn [manifest_rows]. unfold manifest_row.
        by match goal with E : pg_jsonb _ = _ |- _ => rewrite E end.
      * match goal with E : seq_bump _ _ = _ |- _ => rewrite <- E end. by rewrite seq_bump_same.
      * intros n Hn. match goal with E : seq_bump _ _ = _ |- _ => rewrite <- E end.
        by rewrite seq_bump_other.
  - rewrite wp_ret. apply Hok; [done | done | | cbn; lia | done].
    destruct Htx as (log & Hl & Hv). exists log. split; [done|]. rewrite Hv. cbn.
    rewrite app_nil_r. by destruct d.
Qed.

Lemma wp_InsertManifestListTx tx start d snap id count s (Q : result Z -> Sys -> Prop) :
  txn tx start d s ->
  (forall e s', frame s s' -> db s' = db s ->
     (quiet s -> seq_room (pg_seqs (sys_pg s)) SeqManifestLists 1 ->
      (forall r, r ∈ manifest_lists d -> ml_snapshot_id r <> snap) ->
      has_table id d && has_snapshot snap d = true -> False) -> Q (Err e) s') ->
  (forall i s', frame s s' -> db s' = db s ->
     txn tx start (set_manifest_lists (manifest_lists d ++
       [mk_manifest_lists_row (pg_seqs (sys_pg s) SeqManifestLists + 1) snap id count]) d) s' ->
     pg_seqs (sys_pg s') = seq_bump SeqManifestLists (pg_seqs (sys_pg s)) -> Q (Ok i) s') ->
  wp (InsertManifestListTx tx snap id count) s Q.
Proof.
  intros Htx Herr Hok. unfold InsertManifestListTx.
  eapply wp_tx_query_row; [unfold sql_insert_manifest_list; solve_monotone | done | |].
  - intros e s2 Hf2 Hd2 Hr _. apply Herr; [frames | congruence |].
    intros Hq [Hlo Hhi] Hnew Hfk. destruct (Hr Hq) as [q' Hr'].
    unfold sql_insert_manifest_list in Hr'. stmt_cases Hr'; [done | | lia].
    match goal with E : negb _ = false |- _ => apply negb_false_iff, existsb_exists in E as (r & Hin & Heq) end.
    apply Z.eqb_eq in Heq. apply (Hnew r); [by apply list_elem_of_In | done].
  - intros a eff q' s2 Hr Hf2 Hd2 Htx2 Hs2. unfold sql_insert_manifest_list in Hr.
    stmt_cases Hr. cbn [first_row]. apply Hok; [frames | congruence | done | done].
Qed.

Lemma wp_UpdateTableSnapshotTx tx start d name snap s (Q : result unit -> Sys -> Prop) :
  txn tx start d s -> is_int64 snap ->
  (forall e s', frame s s' -> db s' = db s -> ~ quiet s -> Q (Err e) s') ->
  (forall s', frame s s' -> db s' = db s ->
     txn tx start (set_tables
       (update_where (live_named name) (set_current_snapshot snap start) (tables d)) d) s' ->
     pg_seqs (sys_pg s') = pg_seqs (sys_pg s) -> Q (Ok tt) s') ->
  wp (UpdateTableSnapshotTx tx name snap) s Q.
Proof.
  intros Htx Hsnap Herr Hok. unfold UpdateTableSnapshotTx. rewrite wp_bind, int64_id by done.
  eapply wp_tx_exec; [unfold sql_update_snapshot; solve_monotone | done | |].
  - intros e s2 Hf2 Hd2 Hr _. rewrite wp_ret. apply Herr; [done..|].
    intros Hq. by destruct (Hr Hq) as [q' [=]].
  - intros a eff q' s2 [= <- <- <-] Hf2 Hd2 Htx2 Hs2. rewrite wp_ret. by apply Hok.
Qed.

Lemma length_manifest_rows next mfs : length (manifest_rows next mfs) = length mfs.
Proof. revert next. induction mfs; intros; cbn; [done | by f_equal]. Qed.

Lemma elem_of_manifest_rows next mfs r :
  r ∈ manifest_rows next mfs ->
  exists mf, mf ∈ mfs /\ mf_table_id r = mfr_TableID mf /\ mf_snapshot_id r = mfr_SnapshotID mf.
Proof.
  revert next. induction mfs as [|mf mfs IH]; intros next; cbn; [by intros ?%elem_of_nil|].
  intros [->|Hin]%elem_of_cons; [exists mf; split; [left | done]|].
  destruct (IH _ Hin) as (mf' & ? & ?). exists mf'. split; [by right | done].
Qed.

Lemma manifest_rows_ids next mfs r :
  r ∈ manifest_rows next mfs -> next < mf_manifest_file_id r <= next + Z.of_nat (length mfs).
Proof.
  revert next. induction mfs as [|mf mfs IH]; intros next; cbn -[Z.of_nat]; [by intros ?%elem_of_nil|].
  intros [->|Hin]%elem_of_cons; [cbn -[Z.of_nat]; lia|]. apply IH in Hin. lia.
Qed.

Lemma NoDup_manifest_rows next mfs : NoDup (map mf_manifest_file_id (manifest_rows next mfs)).
Proof.
  revert next. induction mfs as [|mf mfs IH]; intros next; cbn; [apply NoDup_nil_2|]. apply NoDup_cons. split; [|done].
  intros Hin. apply list_elem_of_In, in_map_iff in Hin as (r & Hr & Hin). apply list_elem_of_In, manifest_rows_ids in Hin. lia.
Qed.

Lemma manifest_rows_app next mfs mfs' :
  manifest_rows next (mfs ++ mfs') =
  manifest_rows next mfs ++ manifest_rows (next + Z.of_nat (length mfs)) mfs'.
Proof.
  revert next. induction mfs as [|mf mfs IH]; intros next; cbn [app manifest_rows length].
  - by rewrite Z.add_0_r.
  - rewrite IH. replace (next + 1 + Z.of_nat (length mfs)) with (next + Z.of_nat (S (length mfs))) by lia. done.
Qed.

Lemma has_snapshot_new snap id parent now operation added deleted d :
  has_snapshot snap (set_snapshots (snapshots d ++
    [mk_snapshots_row snap id parent now operation added deleted]) d) = true.
Proof.
  unfold has_snapshot. cbn. rewrite existsb_app. cbn. by rewrite Z.eqb_refl, orb_true_r.
Qed.

(** Manifests of a commit. *)
Definition manifest_count (parts : list PartitionRow) (keys : list string) : Z :=
  (if is_empty parts then 0 else 1) + (if is_empty keys then 0 else 1).

(** The sequences after a commit. *)
Record commit_seqs (q : Seqs) (parts : list PartitionRow) (keys : list string) (q' : Seqs) : Prop := {
  cq_snapshots : q' SeqSnapshots = q SeqSnapshots + 1;
  cq_partitions : q' SeqPartitions = q SeqPartitions + Z.of_nat (length parts);
  cq_manifests : q' SeqManifestFiles = q SeqManifestFiles + manifest_count parts keys;
}.

(** How a transaction that is to become [commit_db] may end. *)
Definition commit_outcome (name : string) (parent : Z) (operation : string) (specVersion : Z)
    (parts : list PartitionRow) (keys : list string) (s : Sys) (r : result Z) (s' : Sys) : Prop :=
  let q := pg_seqs (sys_pg s) in
  let committed := exists id, table_id name (db s) = Some id /\
    db s' = commit_db (pg_now (sys_pg s)) q name id (int64 parent) operation specVersion parts keys (db s) /\
    commit_seqs q parts keys (pg_seqs (sys_pg s')) in
  frame s s' /\
  match r with
  | Ok snap => snap = q SeqSnapshots + 1 /\ committed
  | Err _ => (db s' = db s \/ (~ quiet s /\ committed)) /\
             ~ (quiet s /\ commit_ready q name parts keys (db s))
  end.

(** An error before the commit. *)
Lemma commit_outcome_err name parent operation specVersion parts keys s e s' :
  frame s s' -> db s' = db s -> (quiet s -> commit_ready (pg_seqs (sys_pg s)) name parts keys (db s) -> False) ->
  commit_outcome name parent operation specVersion parts keys s (Err e) s'.
Proof. intros Hf Hd Hno. split; [done|]. split; [by left|]. intros [Hq Hr]. eauto. Qed.

(** The database once the manifests and the pointer are in. *)
Definition manifests_db (start : Z) (q : Seqs) (name : string) (id snap : Z) (mfs : list ManifestFileRow)
    (d : DB) : DB :=
  mkDB (update_where (live_named name) (set_current_snapshot snap start) (tables d))
    (schema_history d) (snapshots d) (partitions d) (transactions d)
    (manifest_files d ++ manifest_rows (q SeqManifestFiles) mfs)
    (manifest_lists d ++
       [mk_manifest_lists_row (q SeqManifestLists + 1) snap id (Z.of_nat (length mfs))])
    (partition_specs d).

(** What the manifests need; [d] is the transaction's view. *)
Record manifests_ready (q : Seqs) (snap : Z) (parts : list PartitionRow) (keys : list string)
    (d : DB) : Prop := {
  mr_files : seq_room q SeqManifestFiles 2;
  mr_lists : seq_room q SeqManifestLists 1;
  mr_unlisted : forall r, r ∈ manifest_lists d -> ml_snapshot_id r <> snap;
  mr_added : pg_jsonb (summaries_json (map pr_PartitionKey parts)) <> None;
  mr_deleted : pg_jsonb (summaries_json keys) <> None;
}.

Lemma commit_manifests_count name id snap specVersion parts keys :
  int32 (if is_empty keys then if is_empty parts then 0 else 1 else (if is_empty parts then 0 else 1) + 1) =
  Z.of_nat (length (commit_manifests name id snap specVersion parts keys)).
Proof. unfold commit_manifests. destruct (is_empty parts), (is_empty keys); reflexivity. Qed.

Lemma length_commit_manifests name id snap specVersion parts keys :
  Z.of_nat (length (commit_manifests name id snap specVersion parts keys)) = manifest_count parts keys.
Proof. unfold commit_manifests, manifest_count. by destruct (is_empty parts), (is_empty keys). Qed.

Lemma commit_manifests_split name id snap specVersion parts keys :
  commit_manifests name id snap specVersion parts keys =
  (if negb (is_empty parts) then [added_manifest name id snap specVersion parts] else []) ++
  (if negb (is_empty keys)
   then [deleted_manifest name id snap specVersion (if is_empty parts then 0 else 1) keys] else []).
Proof. unfold commit_manifests. by destruct (is_empty parts), (is_empty keys). Qed.

Lemma wp_commit_manifests_tx tx start d name id snap specVersion parts keys s :
  txn tx start d s -> has_table id d = true -> has_snapshot snap d = true -> 1 <= snap < 2 ^ 63 ->
  let q := pg_seqs (sys_pg s) in
  let d' := manifests_db start q name id snap (commit_manifests name id snap specVersion parts keys) d in
  wp (commit_manifests_tx tx name id snap specVersion parts keys) s (fun r s' =>
    let committed := db s' = d' /\
       pg_seqs (sys_pg s') SeqManifestFiles = q SeqManifestFiles + manifest_count parts keys /\
       (forall n, n <> SeqManifestFiles -> n <> SeqManifestLists -> pg_seqs (sys_pg s') n = pg_seqs (sys_pg s) n) in
    frame s s' /\
    match r with
    | Ok snap' => snap' = snap /\ committed
    | Err _ => (db s' = db s \/ (~ quiet s /\ committed)) /\ ~ (quiet s /\ manifests_ready q snap parts keys d)
    end).
Proof.
  intros Htx Ht Hsn Hsnap q d'. subst q. unfold commit_manifests_tx. cbv zeta.
  assert (Hsnap64 : is_int64 snap) by (unfold is_int64; lia).
  assert (Hfk : has_table id d && has_snapshot snap d = true) by (by rewrite Ht, Hsn).
  rewrite wp_bind. eapply wp_insert_manifest; [done | |].
  { intros e s1 Hf1 Hd1 Hno. rewrite wp_ret. split; [done|]. split; [by left|]. intros [Hq [[? ?]]].
    apply Hno; [done | done | unfold seq_room; lia |]. cbn. by rewrite int64_id. }
  intros s1 mfs1 Hf1 Hd1 Htx1 Hs1 Ho1.
  rewrite wp_bind. eapply wp_insert_manifest; [done | |].
  { intros e s2 Hf2 Hd2 Hno. rewrite wp_ret. split; [frames|]. split; [left; congruence|]. intros [Hq [[? ?]]].
    apply Hno; [by apply (fr_quiet _ _ Hf1) | done | | cbn; by rewrite int64_id].
    unfold seq_room. rewrite Hs1. subst mfs1. destruct (negb (is_empty parts)); cbn [length]; lia. }
  intros s2 mfs2 Hf2 Hd2 Htx2 Hs2 Ho2. rewrite commit_manifests_count with name id snap specVersion parts keys, int64_id by done.
  rewrite wp_bind. eapply wp_InsertManifestListTx; [done | |].
  { intros e s3 Hf3 Hd3 Hno. rewrite wp_ret. split; [frames|]. split; [left; congruence|]. intros [Hq Hr].
    apply Hno; [by apply (fr_quiet _ _ Hf2), (fr_quiet _ _ Hf1) | | exact (mr_unlisted _ _ _ _ _ Hr) | exact Hfk].
    unfold seq_room. rewrite Ho2, Ho1 by done. apply Hr. }
  intros i s3 Hf3 Hd3 Htx3 Hs3. rewrite (Ho2 SeqManifestLists), (Ho1 SeqManifestLists) in Htx3 by done.
  rewrite wp_bind. eapply wp_UpdateTableSnapshotTx; [done | done | |].
  { intros e s4 Hf4 Hd4 Hno. rewrite wp_ret. split; [frames|]. split; [left; congruence|]. intros [Hq _].
    by apply Hno, (fr_quiet _ _ Hf3), (fr_quiet _ _ Hf2), (fr_quiet _ _ Hf1). }
  intros s4 Hf4 Hd4 Htx4 Hs4.
  assert (Hsq : forall n, n <> SeqManifestFiles -> n <> SeqManifestLists ->
            pg_seqs (sys_pg s4) n = pg_seqs (sys_pg s) n).
  { intros n Hn1 Hn2. by rewrite Hs4, Hs3, seq_bump_other, Ho2, Ho1. }
  assert (Hsm : pg_seqs (sys_pg s4) SeqManifestFiles = pg_seqs (sys_pg s) SeqManifestFiles + manifest_count parts keys).
  { rewrite Hs4, Hs3, seq_bump_other, Hs2, Hs1 by done. subst mfs1 mfs2. unfold manifest_count.
    destruct (is_empty parts), (is_empty keys); cbn; lia. }
  assert (Hd' : txn tx start d' s4).
  { unfold d', manifests_db. rewrite commit_manifests_split. fold mfs1 mfs2. rewrite manifest_rows_app.
    rewrite Hs1 in Htx4. cbn in Htx4. rewrite <- app_assoc in Htx4.
    rewrite commit_manifests_split in Htx4. exact Htx4. }
  rewrite wp_bind. eapply wp_tx_commit; [done | |].
  - intros e s5 Hf5 Hno Hs5 Hd5. rewrite wp_ret. split; [frames|]. split.
    + destruct Hd5 as [->|Hd5]; [left; congruence | right; split; [|split; [done|]; by rewrite Hs5; split]]. intros Hq.
      by apply Hno, (fr_quiet _ _ Hf4), (fr_quiet _ _ Hf3), (fr_quiet _ _ Hf2), (fr_quiet _ _ Hf1).
    + intros [Hq _]. by apply Hno, (fr_quiet _ _ Hf4), (fr_quiet _ _ Hf3), (fr_quiet _ _ Hf2), (fr_quiet _ _ Hf1).
  - intros s5 Hf5 Hs5 Hd5. rewrite wp_ret. split; [frames|]. split; [done|]. split; [done|]. by rewrite Hs5; split.
Qed.

(** The rows of the commit are in place: the manifests make it whole. *)
Lemma manifests_commit_db start q q' name id parent operation specVersion parts keys d d3 :
  let snap := q SeqSnapshots + 1 in
  q' SeqManifestFiles = q SeqManifestFiles -> q' SeqManifestLists = q SeqManifestLists ->
  d3 = set_partitions (update_where (keyed id keys) (set_part_deleted snap)
         (partitions d ++ new_rows (q SeqPartitions) id snap parts))
       (set_snapshots (snapshots d ++
         [mk_snapshots_row snap id (int64 parent) start operation (len32 parts) (len32 keys)]) d) ->
  manifests_db start q' name id snap (commit_manifests name id snap specVersion parts keys) d3 =
  commit_db start q name id (int64 parent) operation specVersion parts keys d.
Proof. intros snap Hf Hl ->. unfold manifests_db, commit_db. cbn -[update_where commit_manifests]. by rewrite Hf, Hl. Qed.

Lemma wp_commit_tx tx name parent operation specVersion parts keys s0 s :
  frame s0 s -> db s = db s0 -> pg_seqs (sys_pg s) = pg_seqs (sys_pg s0) ->
  txn tx (pg_now (sys_pg s0)) (db s0) s -> 0 <= pg_seqs (sys_pg s0) SeqSnapshots ->
  wp (commit_tx tx name parent operation specVersion parts keys) s
    (commit_outcome name parent operation specVersion parts keys s0).
Proof.
  intros Hf0 Hd0 Hs0 Htx Hq0. unfold commit_tx. rewrite wp_bind.
  eapply wp_InsertSnapshotTx; [done | by rewrite Hs0 | | |]; rewrite ?Hs0.
  { intros e s1 Hf Hd Hno. apply commit_outcome_err; [frames | congruence |].
    intros Hq Hr. apply Hno; [by apply (fr_quiet _ _ Hf0) | apply Hr]. }
  { intros s1 Hf Hd Hid. cbv zeta. apply commit_outcome_err; [frames | congruence |].
    intros Hq Hr. by destruct (cr_table _ _ _ _ _ Hr). }
  intros id s1 snap Hid Hsnap Hf1 Hd1 Htx1 Hs1.
  destruct (Z.eqb_spec snap 0) as [|_]; [lia|].
  assert (Hsnap64 : is_int64 snap) by (unfold is_int64; lia).
  rewrite wp_bind. eapply (wp_insert_partitions _ _ _ id); [done | done | done | |].
  { intros e s2 Hf2 Hd2 Hno. apply commit_outcome_err; [frames | congruence |]. intros Hq Hr.
    apply Hno; [by apply (fr_quiet _ _ Hf1), (fr_quiet _ _ Hf0) | apply Hr | | apply has_snapshot_new].
    unfold seq_room. rewrite Hs1, seq_bump_other by done. apply Hr. }
  intros s2 Hf2 Hd2 Htx2 Hs2 Ho2. rewrite Hs1 in Hs2, Htx2, Ho2. rewrite seq_bump_other in Htx2 by done.
  rewrite wp_bind. eapply (wp_mark_partitions _ _ _ id); [done | done | done | |].
  { intros e s3 Hf3 Hd3 Hno. apply commit_outcome_err; [frames | congruence |]. intros Hq Hr.
    by apply Hno, (fr_quiet _ _ Hf2), (fr_quiet _ _ Hf1), (fr_quiet _ _ Hf0). }
  intros s3 Hf3 Hd3 Htx3 Hs3.
  assert (Hsq : forall n, n <> SeqPartitions -> n <> SeqSnapshots ->
            pg_seqs (sys_pg s3) n = pg_seqs (sys_pg s0) n).
  { intros n Hn1 Hn2. by rewrite Hs3, Ho2, seq_bump_other. }
  eapply wp_mono; [eapply wp_commit_manifests_tx; [done | | apply has_snapshot_new | done]|].
  { exact (has_table_id name _ id Hid). }
  intros r s4 [Hf4 Hr]. rewrite (manifests_commit_db _ (pg_seqs (sys_pg s0)) _ name id parent operation
    specVersion parts keys (db s0)) in Hr by (try apply Hsq; reflexivity || done).
  assert (Hsn : pg_seqs (sys_pg s3) SeqSnapshots = snap).
  { by rewrite Hs3, Ho2, seq_bump_same. }
  assert (Hpn : pg_seqs (sys_pg s3) SeqPartitions =
                pg_seqs (sys_pg s0) SeqPartitions + Z.of_nat (length parts)).
  { by rewrite Hs3, Hs2, seq_bump_other. }
  assert (Hcq : forall q', q' SeqManifestFiles = pg_seqs (sys_pg s3) SeqManifestFiles + manifest_count parts keys ->
    (forall n, n <> SeqManifestFiles -> n <> SeqManifestLists -> q' n = pg_seqs (sys_pg s3) n) ->
    commit_seqs (pg_seqs (sys_pg s0)) parts keys q').
  { intros q' Hm Ho. split; [by rewrite Ho | by rewrite Ho|]. by rewrite Hm, Hsq. }
  split; [frames|]. destruct r as [snap'|e].
  - destruct Hr as (-> & Hd4 & Hm4 & Ho4). split; [done|]. exists id. auto.
  - destruct Hr as [Hd4 Hno]. split.
    + destruct Hd4 as [Hd4|(Hnq & Hd4 & Hm4 & Ho4)]; [left; congruence | right; split].
      2: { exists id. auto. }
      intros Hq. by apply Hnq, (fr_quiet _ _ Hf3), (fr_quiet _ _ Hf2), (fr_quiet _ _ Hf1), (fr_quiet _ _ Hf0).
    + intros [Hq Hr]. apply Hno. split.
      { by apply (fr_quiet _ _ Hf3), (fr_quiet _ _ Hf2), (fr_quiet _ _ Hf1), (fr_quiet _ _ Hf0). }
      split; [unfold seq_room; rewrite Hsq by done; apply Hr
             |unfold seq_room; rewrite Hsq by done; apply Hr | | apply Hr | apply Hr].
      intros r Hin. pose proof (cr_unlisted _ _ _ _ _ Hr r Hin). lia.
Qed.

End parts.
