(* ===== verification/Wf.v ===== *)
(** * Well-formed catalogs

    The invariant of the database: unique ids and names, a current snapshot
    that is the last of its table, snapshots that form one chain per table,
    files whose lifetime lies between snapshots of their own table, one
    manifest list per snapshot, which counts its manifest files, and spec
    versions of existing tables.  Ids stay below the sequences that issue
    them. *)
From S2P Require Import Prelude Prog Models PartitionSpec GoJson Postgres World PgClient PgFacts Reads.

(** ** Snapshot chains *)

(** The snapshots of a table. *)
Definition snapshot_ids (id : Z) (d : DB) : list Z :=
  map s_snapshot_id (List.filter (fun r => s_table_id r =? id) (snapshots d)).

Definition max_list (l : list Z) : Z := foldr Z.max 0 l.

(** The last snapshot of a table, zero when it has none. *)
Definition head_snapshot (id : Z) (d : DB) : Z := max_list (snapshot_ids id d).

(** The last snapshot of a table before [n]. *)
Definition latest_below (id n : Z) (d : DB) : Z :=
  max_list (List.filter (fun i => i <? n) (snapshot_ids id d)).

(** An id that sequence [n] issued. *)
Definition issued (q : Seqs) (n : seq_name) (i : Z) : Prop := 1 <= i <= q n.

Definition table_wf (q : Seqs) (d : DB) (r : tables_row) : Prop :=
  issued q SeqTables (t_table_id r) /\ t_partition_spec r <> None /\
  t_current_snapshot_id r = head_snapshot (t_table_id r) d.

Definition snapshot_wf (q : Seqs) (d : DB) (r : snapshots_row) : Prop :=
  issued q SeqSnapshots (s_snapshot_id r) /\ has_table (s_table_id r) d = true /\
  s_parent_snapshot_id r = latest_below (s_table_id r) (s_snapshot_id r) d.

(** A file is added by a snapshot of its table, and deleted, if at all, by a
    snapshot of its table that is not earlier. *)
Definition partition_wf (q : Seqs) (d : DB) (r : partitions_row) : Prop :=
  issued q SeqPartitions (p_partition_id r) /\
  p_snapshot_id r ∈ snapshot_ids (p_table_id r) d /\
  match p_deleted_snapshot_id r with
  | None => p_is_deleted r = false
  | Some n => p_is_deleted r = true /\ n ∈ snapshot_ids (p_table_id r) d /\ p_snapshot_id r <= n
  end.

(** The manifest files of a snapshot. *)
Definition manifests_of (snap : Z) (d : DB) : list manifest_files_row :=
  List.filter (fun r => mf_snapshot_id r =? snap) (manifest_files d).

Record db_wf (q : Seqs) (d : DB) : Prop := {
  wf_seqs : forall n, 0 <= q n < 2 ^ 63;
  wf_table_ids : NoDup (map t_table_id (tables d));
  wf_names : NoDup (map t_table_name (tables d));
  wf_tables : forall r, r ∈ tables d -> table_wf q d r;
  wf_snapshot_ids : NoDup (map s_snapshot_id (snapshots d));
  wf_snapshots : forall r, r ∈ snapshots d -> snapshot_wf q d r;
  wf_partition_ids : NoDup (map p_partition_id (partitions d));
  wf_partitions : forall r, r ∈ partitions d -> partition_wf q d r;
  wf_manifest_lists : map (fun r => (ml_snapshot_id r, ml_table_id r)) (manifest_lists d) ≡ₚ
                      map (fun r => (s_snapshot_id r, s_table_id r)) (snapshots d);
  wf_manifest_files : forall r, r ∈ manifest_files d -> mf_snapshot_id r ∈ snapshot_ids (mf_table_id r) d;
  wf_manifest_ids : NoDup (map mf_manifest_file_id (manifest_files d));
  wf_manifest_issued : forall r, r ∈ manifest_files d -> issued q SeqManifestFiles (mf_manifest_file_id r);
  wf_manifest_counts : forall l, l ∈ manifest_lists d ->
    ml_manifest_count l = Z.of_nat (length (manifests_of (ml_snapshot_id l) d));
  wf_specs : forall r, r ∈ partition_specs d -> has_table (ps_table_id r) d = true;
}.

(** The files of a table that are not deleted. *)
Definition live_files (id : Z) (d : DB) : list partitions_row :=
  List.filter (fun r => (p_table_id r =? id) && negb (p_is_deleted r)) (partitions d).

(** ** Lemmas *)

Lemma max_list_nonneg l : 0 <= max_list l.
Proof. induction l; cbn; unfold max_list in *; lia. Qed.

Lemma max_list_ge l x : x ∈ l -> x <= max_list l.
Proof.
  unfold max_list. induction l as [|y l IH]; [by intros ?%elem_of_nil|].
  rewrite elem_of_cons. cbn. intros [->|Hin]; [lia|]. specialize (IH Hin). lia.
Qed.

Lemma max_list_in l : max_list l = 0 \/ max_list l ∈ l.
Proof.
  induction l as [|y l [IH|IH]]; [by left| |]; unfold max_list in *; cbn; rewrite elem_of_cons.
  - rewrite IH. destruct (Z.max_spec y 0) as [[? ->]|[? ->]]; [by left | by right; left].
  - destruct (Z.max_spec y (foldr Z.max 0 l)) as [[? ->]|[? ->]]; [by right; right | by right; left].
Qed.

Lemma max_list_app l l' : max_list (l ++ l') = Z.max (max_list l) (max_list l').
Proof.
  unfold max_list. induction l as [|x l IH]; cbn; [|by rewrite IH, Z.max_assoc].
  pose proof (max_list_nonneg l'). unfold max_list in *. lia.
Qed.

Lemma max_list_bound l n : (forall x, x ∈ l -> x <= n) -> 0 <= n -> max_list l <= n.
Proof.
  intros Hl Hn. destruct (max_list_in l) as [->|Hin]; [done | by apply Hl].
Qed.

Lemma elem_of_snapshot_ids id d n :
  n ∈ snapshot_ids id d <-> exists r, r ∈ snapshots d /\ s_table_id r = id /\ s_snapshot_id r = n.
Proof.
  unfold snapshot_ids. rewrite list_elem_of_In, in_map_iff. split.
  - intros (r & <- & [Hin Hid]%filter_In). apply Z.eqb_eq in Hid. exists r. by rewrite list_elem_of_In.
  - intros (r & Hin & Hid & <-). exists r. split; [done|]. apply filter_In.
    by rewrite <- list_elem_of_In, Z.eqb_eq.
Qed.

Lemma head_snapshot_nonneg id d : 0 <= head_snapshot id d.
Proof. apply max_list_nonneg. Qed.

Lemma snapshot_le_head id d n : n ∈ snapshot_ids id d -> n <= head_snapshot id d.
Proof. apply max_list_ge. Qed.

Section wf.
Context {q : Seqs} {d : DB} (Hwf : db_wf q d).

Lemma snapshot_id_issued id n : n ∈ snapshot_ids id d -> issued q SeqSnapshots n.
Proof. intros (r & Hin & _ & <-)%elem_of_snapshot_ids. by apply (wf_snapshots _ _ Hwf). Qed.

Lemma head_snapshot_bound id : head_snapshot id d <= q SeqSnapshots /\ head_snapshot id d < 2 ^ 63.
Proof.
  unfold head_snapshot. destruct (max_list_in (snapshot_ids id d)) as [->|Hin].
  - pose proof (wf_seqs _ _ Hwf SeqSnapshots). lia.
  - apply snapshot_id_issued in Hin as [? ?]. pose proof (wf_seqs _ _ Hwf SeqSnapshots). lia.
Qed.

Lemma live_table_wf name r : live_table name d = Some r -> table_wf q d r.
Proof. intros [Hin _]%live_table_in. by apply (wf_tables _ _ Hwf). Qed.

Lemma table_id_or_spec name :
  match table_id name d with
  | Some id => table_id_or name d = id /\ 1 <= id
  | None => table_id_or name d = -1
  end.
Proof.
  unfold table_id_or, table_id. destruct (live_table name d) as [r|] eqn:E; [|done]. cbn.
  apply live_table_wf in E as [[? _] _]. by split.
Qed.

(** The table pointer, read as the commit and the readers do. *)
Lemma current_snapshot_head name id :
  table_id name d = Some id -> current_snapshot name d = head_snapshot id d.
Proof.
  unfold table_id, current_snapshot. destruct (live_table name d) as [r|] eqn:E; [|done]. intros [= <-].
  apply live_table_wf in E as (_ & _ & ->).
  pose proof (head_snapshot_nonneg (t_table_id r) d). pose proof (head_snapshot_bound (t_table_id r)).
  destruct (Z.ltb_spec (head_snapshot (t_table_id r) d) 0); [lia|].
  apply uint64_id. unfold is_uint64. lia.
Qed.

(** At the table's last snapshot, or any later one, the visible files are the
    live ones. *)
Lemma visible_live id n r :
  head_snapshot id d <= n -> r ∈ partitions d ->
  visible id n r = (p_table_id r =? id) && negb (p_is_deleted r).
Proof.
  intros Hn Hin. unfold visible. destruct (Z.eqb_spec (p_table_id r) id) as [<-|]; [|done]. cbn.
  destruct (wf_partitions _ _ Hwf r Hin) as (_ & Hs & Hdel). apply snapshot_le_head in Hs.
  destruct (Z.leb_spec (p_snapshot_id r) n); [|lia]. cbn.
  destruct (p_deleted_snapshot_id r) as [m|].
  - destruct Hdel as (-> & Hm & _). apply snapshot_le_head in Hm. cbn.
    destruct (Z.ltb_spec n m); [lia | done].
  - by rewrite Hdel.
Qed.

Lemma visible_at_head id n :
  head_snapshot id d <= n -> List.filter (visible id n) (partitions d) = live_files id d.
Proof. intros Hn. apply filter_ext_elem. intros r Hin. by apply visible_live. Qed.

(** Names identify live tables. *)
Lemma live_table_unique name r :
  r ∈ tables d -> live_named name r = true -> live_table name d = Some r.
Proof.
  intros Hin Hr. unfold live_table.
  assert (Hin' : In r (List.filter (live_named name) (tables d))).
  { apply filter_In. by rewrite <- list_elem_of_In. }
  destruct (List.filter _ _) as [|r0 l] eqn:E; [done|]. cbn. f_equal.
  assert (H0 : In r0 (List.filter (live_named name) (tables d))) by (rewrite E; by left).
  apply filter_In in H0 as [Hin0 Hr0].
  unfold live_named in Hr, Hr0. apply andb_true_iff in Hr as [Hr _], Hr0 as [Hr0 _].
  apply String.eqb_eq in Hr, Hr0. apply list_elem_of_In in Hin0.
  apply list_elem_of_lookup_1 in Hin as [i Hi], Hin0 as [j Hj].
  assert (i = j) as ->; [|congruence].
  eapply (NoDup_lookup _ _ _ name (wf_names _ _ Hwf)); by rewrite list_lookup_fmap, ?Hi, ?Hj; cbn; f_equal.
Qed.

End wf.

(** Sequences may run ahead. *)
Lemma db_wf_mono q q' d : db_wf q d -> seqs_le q q' -> db_wf q' d.
Proof.
  intros [] Hle. assert (Hi : forall n i, issued q n i -> issued q' n i).
  { intros n i [? ?]. destruct (Hle n). split; lia. }
  split; try done.
  - intros n. destruct (Hle n), (wf_seqs0 n). split; [lia | auto].
  - intros r Hr. destruct (wf_tables0 r Hr) as (? & ? & ?). split; auto.
  - intros r Hr. destruct (wf_snapshots0 r Hr) as (? & ? & ?). split; auto.
  - intros r Hr. destruct (wf_partitions0 r Hr) as (? & ? & ?). split; auto.
  - auto.
Qed.

Lemma db_wf_empty : db_wf (fun _ => 0) empty_db.
Proof. split; cbn; try done; try apply NoDup_nil_2; by intros r ?%elem_of_nil. Qed.
