(* ===== verification/Race.v ===== *)
(** * Concurrent snapshot commits

    Any number of [CommitSnapshot] calls, on any tables, interleaved action by
    action over a network that fails as it likes.  Every call has a ghost
    state (its lock, its transaction, how far it is), and the invariant [races]
    ties the ghosts to the locks, the open transactions and the committed
    rows; the calls conform to it, which orders the successful ones. *)
From S2P Require Import Prelude Prog Protocol LRU MVCC Lock Models PartitionSpec GoJson Postgres World LockPool.
From S2P Require Import PgClient PgFacts Reads Registry Commit Wf.

(** The arguments of a call. *)
Record call := mkCall {
  c_table : string;
  c_parent : Z;
  c_operation : string;
  c_parts : list PartitionRow;
  c_keys : list string;
}.

(** What a transaction's statements have done so far: nothing to [tables] and
    [snapshots], the snapshot row inserted, the table's pointer moved too. *)
Inductive work := Nothing | Inserted (n : Z) | Pointed (n : Z).

Definition work_snapshot (w : work) : option Z :=
  match w with Nothing => None | Inserted n | Pointed n => Some n end.

(** How far a call is: nothing known, the table's pointer known, inside its
    transaction, committed as a snapshot. *)
Inductive phase := Outside | Knows (n : Z) | InTx (w : work) | Done (n : Z).

Record ghost := mkGhost {
  g_call : call;
  g_lock : lock_status;
  g_tx : option Z;
  g_phase : phase;
}.

Definition with_lock (l : lock_status) (g : ghost) : ghost := mkGhost (g_call g) l (g_tx g) (g_phase g).
Definition with_txn (tx : Z) (g : ghost) : ghost := mkGhost (g_call g) (g_lock g) (Some tx) (g_phase g).
Definition with_phase (p : phase) (g : ghost) : ghost := mkGhost (g_call g) (g_lock g) (g_tx g) p.

Definition g_table (g : ghost) : string := c_table (g_call g).
Definition g_parent (g : ghost) : Z := c_parent (g_call g).

(** A snapshot row of the call, under an id. *)
Definition is_row (table_id parent n : Z) (r : snapshots_row) : Prop :=
  s_table_id r = table_id /\ s_snapshot_id r = n /\ s_parent_snapshot_id r = int64 parent.

(** The effect of a transaction's log on [tables] and [snapshots], wherever
    it is applied. *)
Definition log_does (name : string) (table_id : option Z) (parent : Z) (w : work) (log : list (DB -> DB)) : Prop :=
  match w with
  | Nothing => forall d, tables (tx_view log d) = tables d /\ snapshots (tx_view log d) = snapshots d
  | Inserted n => exists id r, table_id = Some id /\ is_row id parent n r /\ forall d,
      tables (tx_view log d) = tables d /\ snapshots (tx_view log d) = snapshots d ++ [r]
  | Pointed n => exists id r start, table_id = Some id /\ is_row id parent n r /\ forall d,
      tables (tx_view log d) = update_where (live_named name) (set_current_snapshot n start) (tables d) /\
      snapshots (tx_view log d) = snapshots d ++ [r]
  end.

Section race.
Context `{Postgres} `{GoText}.

Definition commit_call (c : call) : Prog Sys CommitResult :=
  Registry.CommitSnapshot (c_table c) (c_parent c) (c_operation c) (c_parts c) (c_keys c).

(** The tables a name stands for do not change. *)
Context (ids : string -> option Z).

Definition holds (g : ghost) : Prop := exists l, g_lock g = ExclusiveBy l.

(** What a call knows of the shared state. *)
Definition knows (g : ghost) (s : Sys) : Prop :=
  let pointer := current_snapshot (g_table g) (db s) in
  match g_phase g with
  | Outside => True
  | Knows n => holds g /\ pointer = n
  | InTx w =>
      holds g /\ pointer = g_parent g /\
      (exists tx, g_tx g = Some tx /\ forall start log,
         pg_txs (sys_pg s) !! tx = Some (mkTxState start (Some log)) ->
         log_does (g_table g) (ids (g_table g)) (g_parent g) w log) /\
      forall n, work_snapshot w = Some n -> g_parent g < n <= pg_seqs (sys_pg s) SeqSnapshots
  | Done n =>
      (exists id r, ids (g_table g) = Some id /\ r ∈ snapshots (db s) /\ is_row id (g_parent g) n r) /\
      g_parent g < n <= pointer
  end.

Record races (gs : list ghost) (s : Sys) : Prop := {
  rc_locks : locks_agree (map g_lock gs) (sys_locks s);
  rc_mutex : forall i g l, gs !! i = Some g -> refers_to (g_lock g) = Some l ->
    locks (sys_locks s) !! g_table g = Some l;
  rc_ids : forall t, table_id t (db s) = ids t;
  rc_seq : 0 <= pg_seqs (sys_pg s) SeqSnapshots < 2 ^ 63;
  rc_pointer : forall t, 0 <= current_snapshot t (db s) <= pg_seqs (sys_pg s) SeqSnapshots;
  rc_txs : forall i j g g' tx, gs !! i = Some g -> gs !! j = Some g' ->
    g_tx g = Some tx -> g_tx g' = Some tx -> i = j;
  rc_next : forall i g tx, gs !! i = Some g -> g_tx g = Some tx -> tx < pg_next_tx (sys_pg s);
  rc_knows : forall i g, gs !! i = Some g -> knows g s;
  rc_order : forall i j g g' n n', gs !! i = Some g -> gs !! j = Some g' -> i <> j ->
    g_table g = g_table g' -> g_phase g = Done n -> g_phase g' = Done n' ->
    n <= g_parent g' \/ n' <= g_parent g;
}.

(** ** Keeping the invariant *)

(** The rows a call's knowledge is about are as they were, up to new
    snapshots. *)
Definition same_rows (s s' : Sys) : Prop :=
  tables (db s') = tables (db s) /\ (forall r, r ∈ snapshots (db s) -> r ∈ snapshots (db s')).

Lemma same_pointer s s' t : tables (db s') = tables (db s) -> current_snapshot t (db s') = current_snapshot t (db s).
Proof. unfold current_snapshot, live_table. by intros ->. Qed.

Lemma same_ids s s' t : tables (db s') = tables (db s) -> table_id t (db s') = table_id t (db s).
Proof. unfold table_id, live_table. by intros ->. Qed.

(** Knowledge survives what other calls do. *)
Lemma knows_other g s s' :
  same_rows s s' -> pg_seqs (sys_pg s) SeqSnapshots <= pg_seqs (sys_pg s') SeqSnapshots ->
  (forall tx, g_tx g = Some tx -> pg_txs (sys_pg s') !! tx = pg_txs (sys_pg s) !! tx) ->
  knows g s -> knows g s'.
Proof.
  intros [Ht Hsn] Hq Htx Hk. unfold knows in *. cbv zeta in *. rewrite (same_pointer s s') by done.
  destruct (g_phase g) as [|n|w|n]; [done | done | |].
  - destruct Hk as (Hh & Hp & (tx & Etx & Hlog) & Hn). split_and!; [done | done | |].
    + exists tx. split; [done|]. intros start log. rewrite (Htx _ Etx). apply Hlog.
    + intros n En. specialize (Hn n En). lia.
  - destruct Hk as [(id & r & Hid & Hr & Hrow) Hn]. split; [exists id, r; auto | done].
Qed.

Lemma lookup_insert_cases {A} (l : list A) i j x y :
  <[i := x]> l !! j = Some y -> (j = i /\ y = x) \/ (j <> i /\ l !! j = Some y).
Proof. rewrite list_lookup_insert_Some. intros [(-> & -> & _)|[? ?]]; auto. Qed.

(** Call [i] moves and the committed tables stay as they are. *)
Lemma races_move gs s s' i g g' :
  races gs s -> gs !! i = Some g -> g_call g' = g_call g ->
  locks_agree (<[i := g_lock g']> (map g_lock gs)) (sys_locks s') ->
  (forall t l, locks (sys_locks s) !! t = Some l -> locks (sys_locks s') !! t = Some l) ->
  (forall l, refers_to (g_lock g') = Some l -> locks (sys_locks s') !! g_table g' = Some l) ->
  same_rows s s' -> pg_seqs (sys_pg s) SeqSnapshots <= pg_seqs (sys_pg s') SeqSnapshots < 2 ^ 63 ->
  (g_tx g' = g_tx g \/ exists tx, g_tx g' = Some tx /\ pg_next_tx (sys_pg s) <= tx < pg_next_tx (sys_pg s')) ->
  pg_next_tx (sys_pg s) <= pg_next_tx (sys_pg s') ->
  (forall tx, g_tx g <> Some tx -> tx < pg_next_tx (sys_pg s) -> pg_txs (sys_pg s') !! tx = pg_txs (sys_pg s) !! tx) ->
  knows g' s' -> (forall n, g_phase g' = Done n -> g_phase g = Done n) ->
  races (<[i := g']> gs) s'.
Proof.
  intros [Hl Hm Hids Hq Hp Htxs Hnx Hk Ho] Hi Hcall Hl' Hkeep Href Hrows Hq' Htx Hnext Hown Hk' Hdone.
  pose proof Hrows as [Htab _].
  assert (Htab_g : g_table g' = g_table g) by (unfold g_table; by rewrite Hcall).
  assert (Hpar_g : g_parent g' = g_parent g) by (unfold g_parent; by rewrite Hcall).
  assert (Hfresh : forall j h tx, gs !! j = Some h -> j <> i -> g_tx h = Some tx -> g_tx g' <> Some tx).
  { intros j h tx Hj Hne Ej Eg. destruct Htx as [E|(tx' & E & Hlt)].
    - rewrite E in Eg. by destruct Hne; eapply Htxs.
    - specialize (Hnx _ _ _ Hj Ej). rewrite E in Eg. injection Eg as ->. lia. }
  split.
  - by rewrite <- list_fmap_insert in Hl'.
  - intros j h l [[-> ->]|[Hne Hj]]%lookup_insert_cases Hr; [by apply Href | apply Hkeep; by eapply Hm].
  - intros t. by rewrite (same_ids s s').
  - lia.
  - intros t. rewrite (same_pointer s s') by done. specialize (Hp t). lia.
  - intros j1 j2 h1 h2 tx [[-> ->]|[Hne1 Hj1]]%lookup_insert_cases [[-> ->]|[Hne2 Hj2]]%lookup_insert_cases E1 E2; try done.
    + by destruct (Hfresh j2 h2 tx).
    + by destruct (Hfresh j1 h1 tx).
    + by eapply Htxs.
  - intros j h tx [[-> ->]|[Hne Hj]]%lookup_insert_cases E.
    + destruct Htx as [E'|(tx' & E' & Hlt)]; [|congruence || (rewrite E' in E; injection E as ->; lia)].
      rewrite E' in E. specialize (Hnx _ _ _ Hi E). lia.
    + specialize (Hnx _ _ _ Hj E). lia.
  - intros j h [[-> ->]|[Hne Hj]]%lookup_insert_cases; [done|].
    apply (knows_other h s s'); [done | lia | | by eapply Hk].
    intros tx E. apply Hown; [|by eapply Hnx]. intros E'. by destruct Hne; eapply Htxs.
  - intros j1 j2 h1 h2 n1 n2 [[-> ->]|[Hne1 Hj1]]%lookup_insert_cases [[-> ->]|[Hne2 Hj2]]%lookup_insert_cases Hne Ht E1 E2;
      try done.
    + rewrite Hpar_g. rewrite Htab_g in Ht. eapply (Ho i j2 g h2); eauto.
    + rewrite Hpar_g. rewrite Htab_g in Ht. eapply (Ho j1 i h1 g); eauto.
    + by eapply Ho.
Qed.

(** ** Actions on the locks *)

Lemma knows_locks m g s : knows g (set_locks m s) <-> knows g s.
Proof. done. Qed.

(** Where the locks go, nothing else moves. *)
Lemma races_lock gs s i g st m p :
  races gs s -> gs !! i = Some g ->
  locks_agree (<[i := st]> (map g_lock gs)) m ->
  (forall t l, locks (sys_locks s) !! t = Some l -> locks m !! t = Some l) ->
  (forall l, refers_to st = Some l -> locks m !! g_table g = Some l) ->
  knows (with_phase p (with_lock st g)) s -> (forall n, p = Done n -> g_phase g = Done n) ->
  races (<[i := with_phase p (with_lock st g)]> gs) (set_locks m s).
Proof.
  intros Hr Hi Hl Hkeep Href Hk Hdone. eapply (races_move gs s _ i g); try done.
  - split; [apply Z.le_refl | apply (rc_seq _ _ Hr)].
  - by left.
Qed.

Lemma conforms_lock_move {g op} st p (Q : unit -> ghost -> Prop) :
  lock_move (g_lock g) op st -> refers_to st = refers_to (g_lock g) \/ refers_to st = None ->
  (forall s, knows g s -> knows (with_phase p (with_lock st g)) s) -> (forall n, p = Done n -> g_phase g = Done n) ->
  (forall m m', op m = Some m' -> locks m' = locks m) ->
  Q tt (with_phase p (with_lock st g)) -> conforms races g (lock_op op) Q.
Proof.
  intros Hmv Href Hk Hdone Hlk HQ i gs s x s' Hr Hi Hf.
  destruct (op (sys_locks s)) as [m|] eqn:E; [|done]. cbn in Hf. injection Hf as <- <-.
  exists (with_phase p (with_lock st g)). split; [|done]. apply Hlk in E as Em.
  apply races_lock; try done.
  - eapply locks_agree_move; [apply Hr | | exact Hmv | exact E]. by rewrite list_lookup_fmap, Hi.
  - by rewrite Em.
  - rewrite Em. intros l Hl. eapply (rc_mutex _ _ Hr); [done|]. destruct Href; congruence.
  - apply Hk. by eapply (rc_knows _ _ Hr).
Qed.

Lemma conforms_get_mutex g (Q : nat -> ghost -> Prop) :
  g_lock g = Idle -> g_phase g = Outside -> (forall l, Q l (with_lock (Ready l) g)) ->
  conforms races g (get_mutex (g_table g)) Q.
Proof.
  intros Hl Hp HQ. apply conforms_act. intros i gs s Hr Hi.
  destruct (getOrCreate (g_table g) (sys_locks s)) as [l m] eqn:E. cbn. exists (with_lock (Ready l) g).
  split; [|done]. replace (with_lock (Ready l) g) with (with_phase (g_phase g) (with_lock (Ready l) g)) by done.
  pose proof (rc_locks _ _ Hr) as Hag. assert (Hi' : map g_lock gs !! i = Some Idle).
  { rewrite list_lookup_fmap, Hi. cbn. by rewrite Hl. }
  pose proof (locks_agree_lookup _ _ i (g_table g) Hag Hi') as Hag'.
  destruct (getOrCreate_wf _ (g_table g) (la_wf _ _ Hag)) as (_ & Hg & _). rewrite E in Hag', Hg. cbn in Hag', Hg.
  apply races_lock; try done.
  - intros t l' Hl'. pose proof (getOrCreate_keeps _ (g_table g) _ _ Hl') as Hk. by rewrite E in Hk.
  - intros l' [= <-]. done.
  - unfold knows. cbn. by rewrite Hp.
Qed.

(** Taking the lock of the call's table. *)
Lemma conforms_LockExclusive g (Q : nat -> ghost -> Prop) :
  g_lock g = Idle -> g_phase g = Outside -> (forall l, Q l (with_lock (ExclusiveBy l) g)) ->
  conforms races g (LockExclusive (g_table g)) Q.
Proof.
  intros Hl Hp HQ. unfold LockExclusive. apply conforms_bind, conforms_get_mutex; [done | done|]. intros l.
  assert (Hout : forall st s, knows (with_phase (g_phase g) (with_lock st g)) s) by (intros; unfold knows; cbn; by rewrite Hp).
  apply conforms_bind, (conforms_lock_move (Announced l) (g_phase g)); [constructor | by left | by intros; apply Hout | done | |].
  { intros m m'. unfold Lock_announce. by destruct (mutexes m !! l) as [[[] r]|]; intros [= <-]. }
  apply conforms_bind, (conforms_lock_move (ExclusiveBy l) (g_phase g)); [constructor | by left | by intros; apply Hout | done | |].
  { intros m m'. unfold Lock_acquire. destruct (mutexes m !! l) as [[[] r]|]; [done| |done..].
    destruct (r =? 0); [|done]. by intros [= <-]. }
  apply HQ.
Qed.

(** ** Actions on the database *)

(** What the connection pool may do on behalf of a call: commit no table,
    lose no snapshot, touch no other call's transaction. *)
Record own_move (g : ghost) (s : Sys) (w : PG) : Prop := {
  om_rows : same_rows s (set_pg w s);
  om_seq : pg_seqs (sys_pg s) SeqSnapshots <= pg_seqs w SeqSnapshots < 2 ^ 63;
  om_next : pg_next_tx (sys_pg s) <= pg_next_tx w;
  om_others : forall tx, g_tx g <> Some tx -> tx < pg_next_tx (sys_pg s) -> pg_txs w !! tx = pg_txs (sys_pg s) !! tx;
}.

Lemma own_move_net gs g s w :
  races gs s -> pg_db w = db s -> pg_seqs w = pg_seqs (sys_pg s) -> pg_next_tx w = pg_next_tx (sys_pg s) ->
  pg_txs w = pg_txs (sys_pg s) -> own_move g s w.
Proof.
  intros Hr Hd Hs Hn Ht. pose proof (rc_seq _ _ Hr). split.
  - unfold same_rows, db. cbn. unfold db in Hd. by rewrite Hd.
  - rewrite Hs. lia.
  - lia.
  - by rewrite Ht.
Qed.

Lemma races_own gs s i g g' w :
  races gs s -> gs !! i = Some g -> own_move g s w -> g_call g' = g_call g -> g_lock g' = g_lock g ->
  (g_tx g' = g_tx g \/ exists tx, g_tx g' = Some tx /\ pg_next_tx (sys_pg s) <= tx < pg_next_tx w) ->
  knows g' (set_pg w s) -> (forall n, g_phase g' = Done n -> g_phase g = Done n) ->
  races (<[i := g']> gs) (set_pg w s).
Proof.
  intros Hr Hi [Hrows Hq Hn Hown] Hcall Hl Htx Hk Hd. eapply (races_move gs s _ i g); try done.
  - rewrite Hl, list_insert_id; [apply Hr|]. by rewrite list_lookup_fmap, Hi.
  - intros l. rewrite Hl. unfold g_table. rewrite Hcall. by eapply (rc_mutex _ _ Hr).
Qed.

Lemma conforms_on_pg {A} g (f : PG -> A * PG) (Q : A -> ghost -> Prop) :
  (forall i gs s, races gs s -> gs !! i = Some g -> own_move g s (f (sys_pg s)).2 /\
     exists g', g_call g' = g_call g /\ g_lock g' = g_lock g /\
       (g_tx g' = g_tx g \/ exists tx, g_tx g' = Some tx /\ pg_next_tx (sys_pg s) <= tx < pg_next_tx (f (sys_pg s)).2) /\
       knows g' (set_pg (f (sys_pg s)).2 s) /\ (forall n, g_phase g' = Done n -> g_phase g = Done n) /\
       Q (f (sys_pg s)).1 g') ->
  conforms races g (on_pg f) Q.
Proof.
  intros Hf. apply conforms_act. intros i gs s Hr Hi. specialize (Hf i gs s Hr Hi).
  destruct (f (sys_pg s)) as [a w]. cbn in *.
  destruct Hf as (Hown & g' & Hcall & Hl & Htx & Hk & Hd & HQ). exists g'. split; [|done]. by eapply races_own.
Qed.

(** The invariant does not see the network or the cache. *)
Lemma knows_same g s s' :
  db s' = db s -> pg_txs (sys_pg s') = pg_txs (sys_pg s) -> pg_seqs (sys_pg s') = pg_seqs (sys_pg s) ->
  knows g s -> knows g s'.
Proof. unfold knows. cbv zeta. by intros -> -> ->. Qed.

(** A query outside any transaction. *)
Lemma conforms_pool_select {A} g (f : DB -> A) (Q : result A -> ghost -> Prop) :
  (forall e, e <> ErrNoRows -> Q (Err e) g) ->
  (forall s, table_id (g_table g) (db s) = ids (g_table g) -> knows g s ->
     exists p, (forall n, p = Done n -> g_phase g = Done n) /\ knows (with_phase p g) s /\ Q (Ok (f (db s))) (with_phase p g)) ->
  conforms races g (on_pg (pool (select f))) Q.
Proof.
  intros Herr Hok. apply conforms_on_pg. intros i gs s Hr Hi.
  pose proof (rc_knows _ _ Hr i g Hi) as Hk. unfold pool, exec_pool, select.
  destruct (Hok s (rc_ids _ _ Hr _) Hk) as (p & Hd & Hk' & HQ).
  destruct (next_fault (sys_pg s)); cbn [fst snd]; (split; [by eapply own_move_net|]).
  - exists (with_phase p g). split_and!; try done; by left.
  - exists g. split_and!; try done; [by left | by apply Herr].
  - exists g. split_and!; try done; [by left | by apply Herr].
Qed.

(** ** Transactions *)

Lemma conforms_BeginTx g (Q : result Z -> ghost -> Prop) :
  g_phase g = Knows (g_parent g) ->
  (forall e, Q (Err e) g) -> (forall tx, Q (Ok tx) (with_phase (InTx Nothing) (with_txn tx g))) ->
  conforms races g BeginTx Q.
Proof.
  intros Hp Herr Hok. apply conforms_on_pg. intros i gs s Hr Hi. pose proof (rc_seq _ _ Hr) as Hq.
  pose proof (rc_knows _ _ Hr i g Hi) as Hk. unfold pg_begin.
  destruct (next_fault (sys_pg s)); cbn [fst snd].
  2,3: (split; [by eapply own_move_net|]); exists g; split_and!; try done; by left.
  split.
  - split; cbn; [done | lia | lia |]. intros tx Hne Hlt. rewrite lookup_insert_ne; [done | lia].
  - exists (with_phase (InTx Nothing) (with_txn (pg_next_tx (sys_pg s)) g)). split_and!; try done.
    + right. exists (pg_next_tx (sys_pg s)). cbn. split; [done | lia].
    + unfold knows in *. cbv zeta in *. rewrite Hp in Hk. destruct Hk as [Hh Hptr]. cbn. split_and!; try done.
      exists (pg_next_tx (sys_pg s)). split; [done|]. intros start log. rewrite lookup_insert_eq. by intros [= <- <-].
Qed.

(** What a statement inside a transaction does to the connection: an error
    leaves no log to commit. *)
Lemma in_tx_outcome {A} tx (st : Stmt A) w :
  monotone st -> let r := in_tx tx st w in
  pg_db r.2 = pg_db w /\ pg_next_tx r.2 = pg_next_tx w /\ seqs_le (pg_seqs w) (pg_seqs r.2) /\
  (forall tx', tx' <> tx -> pg_txs r.2 !! tx' = pg_txs w !! tx') /\
  ((exists e, r.1 = Err e /\ forall start log, pg_txs r.2 !! tx <> Some (mkTxState start (Some log))) \/
   exists start log a eff, pg_txs w !! tx = Some (mkTxState start (Some log)) /\
     st start (tx_view log (pg_db w)) (pg_seqs w) = (Ok (a, eff), pg_seqs r.2) /\ r.1 = Ok a /\
     pg_txs r.2 !! tx = Some (mkTxState start (Some (log ++ [eff])))).
Proof.
  intros Hm. unfold in_tx. destruct (pg_txs w !! tx) as [[start lg]|] eqn:Et; cbn zeta.
  2: { cbn. split_and!; try done. left. eexists. split; [done|]. intros start log. by rewrite Et. }
  unfold exec_tx. cbn [tx_log tx_start].
  destruct lg as [log|].
  2: { destruct (next_fault w); cbn [fst snd]; (split_and!; [done | done | done | |]);
         try (intros tx' Hne; cbn; by rewrite ?lookup_insert_ne by done); left; eexists; (split; [done|]);
         intros st' log; cbn; rewrite ?lookup_insert_eq; by rewrite ?Et. }
  specialize (Hm start (tx_view log (pg_db w)) (pg_seqs w)).
  change (pg_db (use_fault w)) with (pg_db w). change (pg_seqs (use_fault w)) with (pg_seqs w).
  destruct (st start (tx_view log (pg_db w)) (pg_seqs w)) as [[[a eff]|e] q] eqn:Est; cbn [snd] in Hm;
    destruct (next_fault w); cbn [fst snd];
    (split_and!; [done | done | done | intros tx' Hne; cbn; by rewrite ?lookup_insert_ne by done |]).
  - right. exists start, log, a, eff. cbn. by rewrite lookup_insert_eq.
  - left. eexists. split; [done|]. intros st' log'. cbn. by rewrite lookup_insert_eq.
  - left. eexists. split; [done|]. intros st' log'. cbn. by rewrite lookup_insert_eq.
  - left. eexists. split; [done|]. intros st' log'. cbn. by rewrite lookup_insert_eq.
  - left. eexists. split; [done|]. intros st' log'. cbn. by rewrite lookup_insert_eq.
  - left. eexists. split; [done|]. intros st' log'. cbn. by rewrite lookup_insert_eq.
Qed.

(** A statement of the call's transaction. *)
Lemma conforms_in_tx {A} g tx w (st : Stmt A) (Q : result A -> ghost -> Prop) :
  g_phase g = InTx w -> g_tx g = Some tx -> monotone st -> (forall e, Q (Err e) g) ->
  (forall s start log a eff q, pg_seqs (sys_pg s) SeqSnapshots < 2 ^ 63 -> table_id (g_table g) (db s) = ids (g_table g) ->
     0 <= g_parent g <= pg_seqs (sys_pg s) SeqSnapshots ->
     log_does (g_table g) (ids (g_table g)) (g_parent g) w log ->
     (forall n, work_snapshot w = Some n -> g_parent g < n <= q SeqSnapshots) ->
     st start (tx_view log (db s)) (pg_seqs (sys_pg s)) = (Ok (a, eff), q) ->
     exists w', log_does (g_table g) (ids (g_table g)) (g_parent g) w' (log ++ [eff]) /\
       (forall n, work_snapshot w' = Some n -> g_parent g < n <= q SeqSnapshots) /\
       Q (Ok a) (with_phase (InTx w') g)) ->
  conforms races g (on_pg (in_tx tx st)) Q.
Proof.
  intros Hp Htx Hmono Herr Hok. apply conforms_on_pg. intros i gs s Hr Hi. pose proof (rc_seq _ _ Hr) as Hq.
  pose proof (rc_knows _ _ Hr i g Hi) as Hk. pose proof (rc_pointer _ _ Hr (g_table g)) as Hpt.
  unfold knows in Hk. cbv zeta in Hk. rewrite Hp in Hk.
  destruct Hk as (Hh & Hptr & (tx' & Etx & Hlog) & Hw). rewrite Htx in Etx. injection Etx as <-.
  destruct (in_tx_outcome tx st (sys_pg s) Hmono) as (Hdb & Hnx & Hs & Hoth & Hout).
  destruct (Hs SeqSnapshots) as [Hle Hlt].
  assert (Hrows : same_rows s (set_pg (in_tx tx st (sys_pg s)).2 s)).
  { unfold same_rows, db. cbn. by rewrite Hdb. }
  split.
  { split; [done | split; [done | apply Hlt, Hq] | lia |]. intros t Hne _. apply Hoth. congruence. }
  destruct Hout as [(e & -> & Hno)|(start & log & a & eff & Hl & Hst & -> & Hl')].
  - exists g. split_and!; try done; [by left|]. unfold knows. cbv zeta. rewrite Hp, (same_pointer s) by apply Hrows.
    split_and!; try done.
    + exists tx. split; [done|]. intros start log Hl. by destruct (Hno start log).
    + intros n En. specialize (Hw n En). cbn. lia.
  - destruct (Hok s start log a eff (pg_seqs (in_tx tx st (sys_pg s)).2) (proj2 Hq) (rc_ids _ _ Hr _) ltac:(lia) (Hlog _ _ Hl)) as (w' & Hdoes & Hw' & HQ).
    { intros n En. specialize (Hw n En). lia. }
    { exact Hst. }
    exists (with_phase (InTx w') g). split_and!; try done; [by left|]. unfold knows. cbv zeta. cbn [g_phase with_phase].
    rewrite (same_pointer s) by apply Hrows. split_and!; try done.
    exists tx. split; [done|]. intros start' log'. cbn. rewrite Hl'. by intros [= <- <-].
Qed.

(** A statement that writes neither [tables] nor [snapshots]. *)
Definition aside {A} (st : Stmt A) : Prop :=
  forall now d q a eff q', st now d q = (Ok (a, eff), q') -> forall d', tables (eff d') = tables d' /\ snapshots (eff d') = snapshots d'.

Lemma tx_view_snoc log eff d : tx_view (log ++ [eff]) d = eff (tx_view log d).
Proof. unfold tx_view. by rewrite foldl_app. Qed.

Lemma conforms_aside {A} g tx w (st : Stmt A) (Q : result A -> ghost -> Prop) :
  g_phase g = InTx w -> g_tx g = Some tx -> monotone st -> aside st -> (forall r, Q r g) ->
  conforms races g (on_pg (in_tx tx st)) Q.
Proof.
  intros Hp Htx Hm Ha HQ. eapply conforms_in_tx; [done | done | done | done |].
  intros s start log a eff q _ _ _ Hdoes Hw Hst. exists w. split_and!; [|done|].
  - specialize (Ha _ _ _ _ _ _ Hst). destruct w as [|n|n]; cbn in *.
    + intros d. rewrite tx_view_snoc. destruct (Ha (tx_view log d)) as [-> ->]. apply Hdoes.
    + destruct Hdoes as (id & r & Hid & Hrow & Hd). exists id, r. split_and!; [done | done|]. intros d.
      rewrite tx_view_snoc. destruct (Ha (tx_view log d)) as [-> ->]. apply Hd.
    + destruct Hdoes as (id & r & st0 & Hid & Hrow & Hd). exists id, r, st0. split_and!; [done | done|]. intros d.
      rewrite tx_view_snoc. destruct (Ha (tx_view log d)) as [-> ->]. apply Hd.
  - replace (with_phase (InTx w) g) with g; [done|]. destruct g. cbn in *. by subst.
Qed.

Lemma conforms_tx_rollback g tx (Q : unit -> ghost -> Prop) :
  g_tx g = Some tx -> Q tt g -> conforms races g (tx_rollback tx) Q.
Proof.
  intros Htx HQ. apply conforms_on_pg. intros i gs s Hr Hi. pose proof (rc_seq _ _ Hr) as Hq. unfold pg_rollback. cbn [fst snd].
  assert (Hoth : forall t, t <> tx -> delete tx (pg_txs (sys_pg s)) !! t = pg_txs (sys_pg s) !! t).
  { intros t Hne. by apply lookup_delete_ne. }
  split.
  - split; cbn; [done | lia | lia |]. intros t Hne _. apply Hoth. congruence.
  - exists g. split_and!; try done; [by left|]. pose proof (rc_knows _ _ Hr i g Hi) as Hk. unfold knows in *.
    cbv zeta in *. cbn. destruct (g_phase g); try done. destruct Hk as (Hh & Hptr & (tx' & Etx & Hlog) & Hw).
    split_and!; try done. exists tx'. split; [done|]. intros start log. rewrite Htx in Etx. injection Etx as <-.
    by rewrite lookup_delete_eq.
Qed.

(** The cache is nobody's knowledge. *)
Lemma conforms_on_cache {A} g f (Q : A -> ghost -> Prop) :
  (forall a, Q a g) -> conforms races g (on_cache f) Q.
Proof.
  intros HQ. apply conforms_act. intros i gs s Hr Hi. destruct (f (sys_cache s)) as [a c]. cbn. exists g.
  rewrite list_insert_id by done. split; [|done]. by destruct Hr.
Qed.

(** ** The commit *)

(** What a committed pointer update makes of the tables. *)
Lemma pointed_tables n start name d d' :
  0 <= n < 2 ^ 63 -> tables d' = update_where (live_named name) (set_current_snapshot n start) (tables d) ->
  (forall t, table_id t d' = table_id t d) /\
  (forall id, table_id name d = Some id -> current_snapshot name d' = n) /\
  (forall t, t <> name -> current_snapshot t d' = current_snapshot t d).
Proof.
  intros Hn Ht. assert (Hl : forall t, live_table t d' =
    (fun r => if live_named name r then set_current_snapshot n start r else r) <$> live_table t d).
  { intros t. by apply live_table_update. }
  split_and!.
  - intros t. unfold table_id. rewrite Hl. destruct (live_table t d) as [r|]; cbn; [|done]. by destruct (live_named name r).
  - unfold table_id, current_snapshot. rewrite Hl. intros id. destruct (live_table name d) as [r|] eqn:E; [|done]. intros _.
    apply live_table_in in E as [_ E]. cbn. rewrite E. cbn. destruct (Z.ltb_spec n 0); [lia|]. apply uint64_id.
    unfold is_uint64. lia.
  - intros t Hne. unfold current_snapshot. rewrite Hl. destruct (live_table t d) as [r|] eqn:E; cbn; [|done].
    apply live_table_in in E as [_ E]. unfold live_named in *. apply andb_true_iff in E as [E _].
    apply String.eqb_eq in E. destruct (String.eqb_spec (t_table_name r) name); [congruence | done].
Qed.

(** Nobody else holds the lock of a table. *)
Lemma holder_unique gs s i j g h :
  races gs s -> gs !! i = Some g -> gs !! j = Some h -> holds g -> holds h -> g_table h = g_table g -> j = i.
Proof.
  intros Hr Hi Hj [l Hl] [l' Hl'] Ht.
  assert (E : locks (sys_locks s) !! g_table g = Some l) by (eapply (rc_mutex _ _ Hr); [done | by rewrite Hl]).
  assert (E' : locks (sys_locks s) !! g_table h = Some l') by (eapply (rc_mutex _ _ Hr); [done | by rewrite Hl']).
  rewrite Ht, E in E'. injection E' as <-.
  eapply (exclusive_unique (map g_lock gs) _ _ _ l); [apply Hr | |]; rewrite list_lookup_fmap, ?Hi, ?Hj; cbn; congruence.
Qed.

Lemma races_commit gs s s' i g n tx start log p :
  races gs s -> gs !! i = Some g -> g_phase g = InTx (Pointed n) -> g_tx g = Some tx ->
  pg_txs (sys_pg s) !! tx = Some (mkTxState start (Some log)) ->
  db s' = tx_view log (db s) -> pg_seqs (sys_pg s') = pg_seqs (sys_pg s) ->
  pg_next_tx (sys_pg s') = pg_next_tx (sys_pg s) -> sys_locks s' = sys_locks s ->
  pg_txs (sys_pg s') = delete tx (pg_txs (sys_pg s)) -> p = Outside \/ p = Done n ->
  races (<[i := with_phase p g]> gs) s'.
Proof.
  intros Hr Hi Hph Htx Hlog Hdb Hseq Hnx Hlk Htxs Hp.
  pose proof (rc_knows _ _ Hr i g Hi) as Hk. unfold knows in Hk. cbv zeta in Hk. rewrite Hph in Hk.
  destruct Hk as (Hh & Hptr & (tx' & Etx & Hdoes) & Hn). rewrite Htx in Etx. injection Etx as <-.
  specialize (Hdoes _ _ Hlog). cbn in Hdoes. destruct Hdoes as (id & r & st & Hid & Hrow & Hd).
  specialize (Hn n eq_refl). destruct (Hd (db s)) as [Htab Hsn]. rewrite <- Hdb in Htab, Hsn.
  pose proof (rc_seq _ _ Hr) as Hq. pose proof (rc_pointer _ _ Hr (g_table g)) as Hpt.
  destruct (pointed_tables n st (g_table g) (db s) (db s')) as (Hids & Hown & Hoth); [lia | done|].
  specialize (Hown id ltac:(by rewrite (rc_ids _ _ Hr))).
  assert (Hothers : forall j h, gs !! j = Some h -> j <> i -> knows h s').
  { intros j h Hj Hne. pose proof (rc_knows _ _ Hr j h Hj) as Hk. unfold knows in *. cbv zeta in *.
    assert (Hfar : holds h -> g_table h <> g_table g) by (intros ? ?; destruct Hne; by eapply (holder_unique gs s)).
    destruct (g_phase h) as [|m|w|m]; [done | | |].
    - destruct Hk as [Hhh <-]. split; [done|]. by apply Hoth, Hfar.
    - destruct Hk as (Hhh & Hp' & (tx' & Etx' & Hd') & Hw). rewrite Hoth, Hseq by (by apply Hfar).
      split_and!; try done. exists tx'. split; [done|]. intros st' log'. rewrite Htxs, lookup_delete_ne; [apply Hd'|].
      intros ->. destruct Hne. by eapply (rc_txs _ _ Hr).
    - destruct Hk as [(id' & r' & Hid' & Hin & Hrow') Hm]. split.
      + exists id', r'. split_and!; try done. rewrite Hsn. apply elem_of_app. by left.
      + destruct (decide (g_table h = g_table g)) as [E|E]; [rewrite E in *; lia | by rewrite Hoth]. }
  assert (Hme : knows (with_phase p g) s').
  { unfold knows. cbv zeta. destruct Hp as [-> | ->]; cbn; [done|]. split; [|unfold g_parent, g_table in *; cbn in *; lia].
    exists id, r. split_and!; try done. rewrite Hsn. apply elem_of_app. right. apply list_elem_of_here. }
  assert (Hdone : forall j h m, gs !! j = Some h -> g_table h = g_table g -> g_phase h = Done m -> m <= g_parent g).
  { intros j h m Hj Et Ep. pose proof (rc_knows _ _ Hr j h Hj) as Hk. unfold knows in Hk. cbv zeta in Hk.
    rewrite Ep, Et in Hk. lia. }
  split.
  - rewrite Hlk, list_fmap_insert, list_insert_id; [apply Hr|]. by rewrite list_lookup_fmap, Hi.
  - rewrite Hlk. intros j h l [[-> ->]|[_ Hj]]%lookup_insert_cases E; [|by eapply (rc_mutex _ _ Hr)].
    by eapply (rc_mutex _ _ Hr i g).
  - intros t. rewrite Hids. apply Hr.
  - by rewrite Hseq.
  - intros t. rewrite Hseq. pose proof (rc_pointer _ _ Hr t). destruct (decide (t = g_table g)) as [->|E]; [lia | by rewrite Hoth].
  - intros j1 j2 h1 h2 t [[-> ->]|[_ H1]]%lookup_insert_cases [[-> ->]|[_ H2]]%lookup_insert_cases E1 E2; try done;
      by eapply (rc_txs _ _ Hr).
  - rewrite Hnx. intros j h t [[-> ->]|[_ Hj]]%lookup_insert_cases E; by eapply (rc_next _ _ Hr).
  - intros j h [[-> ->]|[Hne Hj]]%lookup_insert_cases; [done | by eapply Hothers].
  - intros j1 j2 h1 h2 m1 m2 [[-> ->]|[_ H1]]%lookup_insert_cases [[-> ->]|[_ H2]]%lookup_insert_cases Hne Et E1 E2; try done.
    + right. by eapply (Hdone j2 h2).
    + left. by eapply (Hdone j1 h1).
    + by eapply (rc_order _ _ Hr j1 j2).
Qed.

(** The commit of the call's transaction: the snapshot is in, or the call
    fails. *)
Lemma conforms_tx_commit g tx n (Q : result unit -> ghost -> Prop) :
  g_phase g = InTx (Pointed n) -> g_tx g = Some tx ->
  (forall e, Q (Err e) (with_phase Outside g)) -> Q (Ok tt) (with_phase (Done n) g) ->
  conforms races g (tx_commit tx) Q.
Proof.
  intros Hp Htx Herr Hok. apply conforms_act. intros i gs s Hr Hi. pose proof (rc_seq _ _ Hr) as Hq.
  assert (Hquiet : forall w, pg_db w = db s -> pg_seqs w = pg_seqs (sys_pg s) -> pg_next_tx w = pg_next_tx (sys_pg s) ->
            (pg_txs w = pg_txs (sys_pg s) \/ pg_txs w = delete tx (pg_txs (sys_pg s))) ->
            races (<[i := with_phase Outside g]> gs) (set_pg w s)).
  { intros w Hd Hs Hn Ht. eapply races_own; try done; [|by left]. split.
    - unfold same_rows, db. cbn. unfold db in Hd. by rewrite Hd.
    - rewrite Hs. lia.
    - lia.
    - intros t Hne _. destruct Ht as [-> | ->]; [done|]. rewrite lookup_delete_ne; congruence. }
  unfold pg_commit. destruct (pg_txs (sys_pg s) !! tx) as [[start [log|]]|] eqn:Et;
    [| |exists (with_phase Outside g); split; [by apply Hquiet; auto | cbn; done]];
    destruct (next_fault (sys_pg s)); unfold exec_commit; cbn.
  1: exists (with_phase (Done n) g).
  3: exists (with_phase Outside g).
  1,3: (split; [|done]; eapply races_commit; [exact Hr | exact Hi | exact Hp | exact Htx | exact Et | by auto..]).
  all: (exists (with_phase Outside g); split; [apply Hquiet; auto | done]).
Qed.

End race.
