(* ===== verification/Serial.v ===== *)
(** * Serial commits

    [CommitSnapshot] conforms to the invariant of [Race], statement by
    statement, and so the successful commits of a table are in one order, each
    with an earlier snapshot for its parent. *)
From S2P Require Import Prelude Prog Protocol LRU MVCC Lock Models PartitionSpec GoJson Postgres World LockPool.
From S2P Require Import PgClient PgFacts Reads Registry Commit Wf Race.

Section serial.
Context `{Postgres} `{GoText}.
Context (ids : string -> option Z).

(** ** The statements of the commit *)

(** A program that moves no ghost state. *)
Definition stays {A} (g : ghost) (p : Prog Sys A) : Prop :=
  forall Q : A -> ghost -> Prop, (forall a, Q a g) -> conforms (races ids) g p Q.

Lemma stays_ret {A} g (a : A) : stays g (Ret a).
Proof. intros Q HQ. apply HQ. Qed.

Lemma stays_bind {A B} g (p : Prog Sys A) (k : A -> Prog Sys B) :
  stays g p -> (forall a, stays g (k a)) -> stays g (bind p k).
Proof. intros Hp Hk Q HQ. apply conforms_bind, Hp. intros a. by apply Hk. Qed.

Lemma stays_for_each {A} g (l : list A) (f : A -> Prog Sys (result unit)) :
  (forall x, stays g (f x)) -> stays g (for_each l f).
Proof.
  intros Hf. induction l as [|x l IH]; cbn; [apply stays_ret|]. apply stays_bind; [done|].
  intros []; [done | apply stays_ret].
Qed.

(** The ghost of a call inside its transaction. *)
Definition inside (c : call) (l : nat) (tx : Z) (w : work) : ghost := mkGhost c (ExclusiveBy l) (Some tx) (InTx w).

Lemma stays_in_tx {A} c l tx w (st : Stmt A) :
  monotone st -> aside st -> stays (inside c l tx w) (on_pg (in_tx tx st)).
Proof. intros Hm Ha Q HQ. by eapply conforms_aside. Qed.

Lemma stays_tx_query_row {A} c l tx w (st : Stmt (list A)) :
  monotone st -> aside st -> stays (inside c l tx w) (tx_query_row tx st).
Proof. intros Hm Ha. apply stays_bind; [by apply stays_in_tx | intros; apply stays_ret]. Qed.

Lemma aside_select {A} (f : DB -> A) : aside (select f).
Proof. by intros now d q a eff q' [= <- <- <-] d'. Qed.

Lemma stays_InsertPartitionTx c l tx w name n part : stays (inside c l tx w) (InsertPartitionTx tx name n part).
Proof.
  apply stays_bind; [apply stays_tx_query_row; [apply monotone_select | apply aside_select]|].
  intros [id|e]; [|apply stays_ret]. apply stays_bind; [|intros []; apply stays_ret].
  apply stays_in_tx; [unfold sql_insert_partition; solve_monotone|].
  intros now d q a eff q' Hst. unfold sql_insert_partition in Hst. by stmt_cases Hst.
Qed.

Lemma stays_MarkPartitionDeletedTx c l tx w name key n :
  stays (inside c l tx w) (MarkPartitionDeletedTx tx name key n).
Proof.
  apply stays_bind; [apply stays_tx_query_row; [apply monotone_select | apply aside_select]|].
  intros [id|e]; [|apply stays_ret]. apply stays_bind; [|intros []; apply stays_ret].
  apply stays_in_tx; [apply monotone_modify|].
  intros now d q a eff q' Hst. unfold sql_mark_deleted in Hst. by stmt_cases Hst.
Qed.

Lemma stays_insert_manifest c l tx w needed mf : stays (inside c l tx w) (insert_manifest tx needed mf).
Proof.
  unfold insert_manifest. destruct needed; [|apply stays_ret].
  apply stays_bind; [|intros []; apply stays_ret].
  apply stays_tx_query_row; [unfold sql_insert_manifest_file; solve_monotone|].
  intros now d q a eff q' Hst. unfold sql_insert_manifest_file in Hst. by stmt_cases Hst.
Qed.

Lemma stays_InsertManifestListTx c l tx w n id count : stays (inside c l tx w) (InsertManifestListTx tx n id count).
Proof.
  apply stays_tx_query_row; [unfold sql_insert_manifest_list; solve_monotone|].
  intros now d q a eff q' Hst. unfold sql_insert_manifest_list in Hst. by stmt_cases Hst.
Qed.

(** The id of the call's table, before the transaction has written. *)
Lemma conforms_table_id c l tx (Q : result Z -> ghost -> Prop) :
  (forall e, Q (Err e) (inside c l tx Nothing)) ->
  (forall id, ids (c_table c) = Some id -> Q (Ok id) (inside c l tx Nothing)) ->
  conforms (races ids) (inside c l tx Nothing) (tx_query_row tx (sql_select_table_id (c_table c))) Q.
Proof.
  intros Herr Hok. apply conforms_bind. eapply conforms_in_tx; [done | done | apply monotone_select | apply Herr|].
  intros s start log a eff q _ Hids _ Hdoes _ [= <- <- <-]. exists Nothing. split_and!; [|done|].
  { intros d. rewrite tx_view_snoc. apply Hdoes. }
  apply conforms_ret. rewrite first_row_table_id.
  replace (table_id (c_table c) (tx_view log (db s))) with (ids (c_table c)).
  2: { change (ids (c_table c)) with (ids (g_table (inside c l tx Nothing))). rewrite <- Hids.
       unfold table_id, live_table. by rewrite (proj1 (Hdoes _)). }
  destruct (ids (c_table c)) as [id|]; [by apply Hok | apply Herr].
Qed.

(** The snapshot record: its id is the next one, above the parent. *)
Lemma conforms_InsertSnapshotTx c l tx added deleted (Q : result (Z * Z) -> ghost -> Prop) :
  (forall e, Q (Err e) (inside c l tx Nothing)) -> Q (Ok (0, 0)) (inside c l tx Nothing) ->
  (forall n id, 0 < n < 2 ^ 63 -> Q (Ok (n, id)) (inside c l tx (Inserted n))) ->
  conforms (races ids) (inside c l tx Nothing)
    (InsertSnapshotTx tx (c_table c) (c_parent c) (c_operation c) added deleted) Q.
Proof.
  intros Herr Hnone Hok. apply conforms_bind, conforms_table_id.
  { intros []; [apply Hnone | apply Herr..]. }
  intros id Hid. apply conforms_bind, conforms_bind.
  eapply conforms_in_tx; [done | done | unfold sql_insert_snapshot; solve_monotone | intros e; apply Herr|].
  intros s start log a eff q Hq _ Hpar Hdoes _ Hst. unfold sql_insert_snapshot in Hst. stmt_cases Hst.
  match goal with E : (_ <? _) = true |- _ => apply Z.ltb_lt in E end.
  exists (Inserted (pg_seqs (sys_pg s) SeqSnapshots + 1)). split_and!.
  - eexists id, _. split; [done|]. split; [|intros d; rewrite tx_view_snoc; destruct (Hdoes d) as [<- <-]; done]. done.
  - intros n [= <-]. rewrite seq_bump_same. lia.
  - apply conforms_ret. cbn [first_row]. destruct (Z.ltb_spec (pg_seqs (sys_pg s) SeqSnapshots + 1) 0); [lia|].
    rewrite uint64_id by (unfold is_uint64; lia). apply Hok. lia.
Qed.

(** The pointer update. *)
Lemma conforms_UpdateTableSnapshotTx c l tx n (Q : result unit -> ghost -> Prop) :
  0 < n < 2 ^ 63 -> (forall e, Q (Err e) (inside c l tx (Inserted n))) -> Q (Ok tt) (inside c l tx (Pointed n)) ->
  conforms (races ids) (inside c l tx (Inserted n)) (UpdateTableSnapshotTx tx (c_table c) n) Q.
Proof.
  intros Hn Herr Hok. unfold UpdateTableSnapshotTx. rewrite int64_id by (unfold is_int64; lia). apply conforms_bind.
  eapply conforms_in_tx; [done | done | unfold sql_update_snapshot; solve_monotone | apply Herr|].
  intros s start log a eff q _ _ _ (id & r & Hid & Hrow & Hdoes) Hw [= <- <- <-]. exists (Pointed n). split_and!.
  - exists id, r, start. split; [done|]. split; [done|]. intros d. rewrite tx_view_snoc.
    destruct (Hdoes d) as [<- <-]. done.
  - intros m [= <-]. by apply Hw.
  - by apply conforms_ret.
Qed.

(** ** The commit program *)

(** How the body of the transaction ends. *)
Definition tx_ends (c : call) (l : nat) (tx : Z) (r : result Z) (g : ghost) : Prop :=
  g_call g = c /\ g_lock g = ExclusiveBy l /\ g_tx g = Some tx /\ (forall n, r = Ok n -> g_phase g = Done n).

Lemma tx_ends_err c l tx e w : tx_ends c l tx (Err e) (inside c l tx w).
Proof. by split_and!. Qed.

Lemma conforms_commit_manifests_tx c l tx n id v :
  0 < n < 2 ^ 63 ->
  conforms (races ids) (inside c l tx (Inserted n)) (commit_manifests_tx tx (c_table c) id n v (c_parts c) (c_keys c))
    (tx_ends c l tx).
Proof.
  intros Hn. unfold commit_manifests_tx. cbv zeta.
  apply conforms_bind, stays_insert_manifest. intros [_|e]; [|apply tx_ends_err].
  apply conforms_bind, stays_insert_manifest. intros [_|e]; [|apply tx_ends_err].
  apply conforms_bind, stays_InsertManifestListTx. intros [_|e]; [|apply tx_ends_err].
  apply conforms_bind, conforms_UpdateTableSnapshotTx; [done | intros e; apply tx_ends_err|].
  apply conforms_bind, (conforms_tx_commit ids _ _ n); [done | done | intros e; by split_and!|].
  split_and!; [done..|]. by intros m [= <-].
Qed.

Lemma conforms_commit_tx c l tx v :
  conforms (races ids) (inside c l tx Nothing)
    (commit_tx tx (c_table c) (c_parent c) (c_operation c) v (c_parts c) (c_keys c)) (tx_ends c l tx).
Proof.
  unfold commit_tx. apply conforms_bind, conforms_InsertSnapshotTx; [intros e; apply tx_ends_err | apply tx_ends_err|].
  intros n id Hn. destruct (Z.eqb_spec n 0); [lia|].
  apply conforms_bind, stays_for_each.
  { intros p. apply stays_bind; [apply stays_InsertPartitionTx | intros []; apply stays_ret]. }
  intros [_|e]; [|apply tx_ends_err]. apply conforms_bind, stays_for_each.
  { intros k. apply stays_bind; [apply stays_MarkPartitionDeletedTx | intros []; apply stays_ret]. }
  intros [_|e]; [|apply tx_ends_err]. by apply conforms_commit_manifests_tx.
Qed.

(** How a call ends: a success has committed the snapshot it reports. *)
Definition call_ends (c : call) (l : option nat) (res : CommitResult) (g : ghost) : Prop :=
  g_call g = c /\ g_lock g = match l with Some l => ExclusiveBy l | None => Idle end /\
  (cr_Success res = true -> g_phase g = Done (cr_SnapshotID res)).

(** The ghost of a call that holds its lock. *)
Definition locked (c : call) (l : nat) (p : phase) : ghost := mkGhost c (ExclusiveBy l) None p.

Lemma failed_ends c l msg p : call_ends c (Some l) (commit_failed msg) (locked c l p).
Proof. by split_and!. Qed.

(** The spec version is nobody's concern. *)
Lemma stays_GetTableSpecVersion c l name : stays (locked c l Outside) (GetTableSpecVersion name).
Proof.
  apply stays_bind; [|intros []; apply stays_ret]. apply stays_bind; [|intros []; apply stays_ret].
  intros Q HQ. apply conforms_pool_select; [by intros e|]. intros s _ Hk. exists Outside. split_and!; [done | done | apply HQ].
Qed.

(** The pointer is read under the lock. *)
Lemma conforms_GetCurrentSnapshot c l (Q : result Z -> ghost -> Prop) :
  (forall e, Q (Err e) (locked c l Outside)) -> (forall n, Q (Ok n) (locked c l (Knows n))) ->
  conforms (races ids) (locked c l Outside) (GetCurrentSnapshot (c_table c)) Q.
Proof.
  intros Herr Hok. apply conforms_bind, conforms_bind, conforms_pool_select.
  - intros e He. destruct e; [done | apply Herr..].
  - intros s _ _. exists (Knows (current_snapshot (c_table c) (db s))). split_and!; [done | by split; [exists l|]|].
    apply conforms_ret. rewrite first_row_head, head_map. unfold current_snapshot, live_table.
    specialize (Hok (current_snapshot (c_table c) (db s))). unfold current_snapshot, live_table in Hok.
    destruct (head _) as [r|]; cbn in *; [|apply Hok]. destruct (t_current_snapshot_id r <? 0); apply Hok.
Qed.

(** The transaction of a call whose parent is the current snapshot. *)
Lemma conforms_transaction c l v :
  conforms (races ids) (locked c l (Knows (c_parent c)))
    (with_tx (fun e => commit_failed (error_text e)) (fun tx =>
      try* newSnap := commit_tx tx (c_table c) (c_parent c) (c_operation c) v (c_parts c) (c_keys c)
        catch e in Ret (commit_failed (error_text e)) then
      let* _ := InvalidateTableCache (c_table c) in
      Ret (mkCommitResult true newSnap "")))
    (call_ends c (Some l)).
Proof.
  apply conforms_bind, conforms_BeginTx; [done | intros e; apply failed_ends|]. intros tx.
  change (with_phase (InTx Nothing) (with_txn tx (locked c l (Knows (c_parent c))))) with (inside c l tx Nothing).
  apply conforms_deferred, conforms_bind. eapply conforms_mono; [apply conforms_commit_tx|].
  intros [n|e] g (Hc & Hl & Htx & Hn).
  - apply conforms_bind, conforms_on_cache. intros _. apply conforms_ret, conforms_tx_rollback; [done|].
    split_and!; [done..|]. intros _. by apply Hn.
  - apply conforms_ret, conforms_tx_rollback; [done|]. by split_and!.
Qed.

(** What is left of a call's progress when it gives its lock back. *)
Definition settled (p : phase) : phase := match p with Done n => Done n | _ => Outside end.

Lemma conforms_commit_call c :
  conforms (races ids) (mkGhost c Idle None Outside) (commit_call c) (call_ends c None).
Proof.
  unfold commit_call, Registry.CommitSnapshot, with_exclusive. apply conforms_bind.
  change (c_table c) with (g_table (mkGhost c Idle None Outside)) at 1. apply conforms_LockExclusive; [done..|]. intros l.
  change (with_lock (ExclusiveBy l) (mkGhost c Idle None Outside)) with (locked c l Outside).
  apply conforms_deferred. apply (conforms_mono _ _ _ (call_ends c (Some l))).
  - apply conforms_bind, stays_GetTableSpecVersion. intros [v|e]; [|apply failed_ends].
    apply conforms_bind, conforms_GetCurrentSnapshot; [intros e; apply failed_ends|]. intros n. unfold ValidateParentSnapshot.
    destruct (Z.eqb_spec (c_parent c) n) as [<-|]; [apply conforms_transaction | apply failed_ends].
  - intros res g (Hc & Hl & Hs). apply (conforms_lock_move ids Idle (settled (g_phase g))).
    + rewrite Hl. constructor.
    + by right.
    + intros s Hk. unfold knows in *. cbv zeta in *. by destruct (g_phase g).
    + by destruct (g_phase g).
    + intros m m'. unfold Unlock. by destruct (mutexes m !! l) as [[[] r]|]; intros [= <-].
    + split_and!; [done..|]. intros E. cbn. by rewrite (Hs E).
Qed.

(** ** The property *)

Lemma races_start calls s :
  db_wf (pg_seqs (sys_pg s)) (db s) -> all_free (sys_locks s) -> (forall t, table_id t (db s) = ids t) ->
  races ids (map (fun c => mkGhost c Idle None Outside) calls) s.
Proof.
  intros Hwf Hfree Hids.
  assert (Hg : forall i g, map (fun c => mkGhost c Idle None Outside) calls !! i = Some g -> exists c, g = mkGhost c Idle None Outside).
  { intros i g. rewrite list_lookup_fmap. destruct (calls !! i) as [c|]; [|done]. intros [= <-]. by exists c. }
  split.
  - apply free_agrees; [done|]. intros st. rewrite !list_elem_of_fmap. intros (g & -> & [i Hi]%list_elem_of_lookup_1).
    by destruct (Hg _ _ Hi) as [c ->].
  - intros i g l Hi. by destruct (Hg _ _ Hi) as [c ->].
  - done.
  - apply (wf_seqs _ _ Hwf).
  - intros t. destruct (table_id t (db s)) as [id|] eqn:E.
    + rewrite (current_snapshot_head Hwf t id E). pose proof (head_snapshot_bound Hwf id).
      pose proof (head_snapshot_nonneg id (db s)). lia.
    + unfold table_id, current_snapshot in *. pose proof (wf_seqs _ _ Hwf SeqSnapshots).
      destruct (live_table t (db s)); [done | lia].
  - intros i j g g' tx Hi. by destruct (Hg _ _ Hi) as [c ->].
  - intros i g tx Hi. by destruct (Hg _ _ Hi) as [c ->].
  - intros i g Hi. by destruct (Hg _ _ Hi) as [c ->].
  - intros i j g g' n n' Hi. by destruct (Hg _ _ Hi) as [c ->].
Qed.

End serial.

(** Call [i] of a pool has reported success with snapshot [n]. *)
Definition committed_as (calls : list call) (c : list (Prog Sys CommitResult) * Sys) (i : nat) (ca : call) (n : Z) : Prop :=
  calls !! i = Some ca /\ exists res, c.1 !! i = Some (Ret res) /\ cr_Success res = true /\ cr_SnapshotID res = n.

(** C2. Concurrent commits are serialized per table: however any number of
    commits of any tables interleave, and whatever the network does, each one
    that reports success has recorded its snapshot under the parent its client
    named, with a later id; and of two successful commits of one table one's
    snapshot is no later than the other's parent.  So a commit never slips
    between another one and its parent, and two commits with the same parent
    never both succeed. *)
Theorem commits_serialized `{Postgres} `{GoText} (calls : list call) (s : Sys) (c : list (Prog Sys CommitResult) * Sys) :
  db_wf (pg_seqs (sys_pg s)) (db s) -> all_free (sys_locks s) -> steps (map commit_call calls, s) c ->
  (forall i ca n, committed_as calls c i ca n ->
     c_parent ca < n /\
     exists r, r ∈ snapshots (db c.2) /\ table_id (c_table ca) (db s) = Some (s_table_id r) /\
       s_snapshot_id r = n /\ s_parent_snapshot_id r = int64 (c_parent ca)) /\
  (forall i j ca ca' n n', committed_as calls c i ca n -> committed_as calls c j ca' n' -> i <> j ->
     c_table ca = c_table ca' -> c_parent ca <> c_parent ca' /\ (n <= c_parent ca' \/ n' <= c_parent ca)).
Proof.
  intros Hwf Hfree Hsteps.
  destruct (conforms_steps (races (fun t => table_id t (db s)))
    (fun i res g => exists ca, calls !! i = Some ca /\ call_ends ca None res g) _ _
    (map (fun c => mkGhost c Idle None Outside) calls) Hsteps) as (gs & Hr & Hps).
  { by apply races_start. }
  { intros i p. cbn. rewrite !list_lookup_fmap. destruct (calls !! i) as [ca|]; [|done]. intros [= <-].
    eexists. split; [done|]. eapply conforms_mono; [apply conforms_commit_call|]. eauto. }
  assert (Hdone : forall i ca n, committed_as calls c i ca n -> exists g, gs !! i = Some g /\ g_call g = ca /\ g_phase g = Done n).
  { intros i ca n (Hi & res & Hres & Hs & <-). destruct (Hps _ _ Hres) as (g & Hg & ca' & Hca & Hc & _ & Hd).
    exists g. split; [done|]. rewrite Hi in Hca. injection Hca as <-. auto. }
  assert (Hfacts : forall i ca n, committed_as calls c i ca n -> c_parent ca < n /\
     exists r, r ∈ snapshots (db c.2) /\ table_id (c_table ca) (db s) = Some (s_table_id r) /\
       s_snapshot_id r = n /\ s_parent_snapshot_id r = int64 (c_parent ca)).
  { intros i ca n (g & Hg & <- & Hp)%Hdone. pose proof (rc_knows _ _ _ Hr _ _ Hg) as Hk. unfold knows in Hk.
    cbv zeta in Hk. rewrite Hp in Hk. destruct Hk as [(id & r & Hid & Hin & <- & Hn & Hpar) [Hlt _]].
    split; [done|]. by exists r. }
  split; [done|]. intros i j ca ca' n n' Hi Hj Hne Ht.
  destruct (Hfacts _ _ _ Hi) as [Hlt _], (Hfacts _ _ _ Hj) as [Hlt' _].
  destruct (Hdone _ _ _ Hi) as (g & Hg & <- & Hp), (Hdone _ _ _ Hj) as (g' & Hg' & <- & Hp').
  pose proof (rc_order _ _ _ Hr i j g g' n n' Hg Hg' Hne Ht Hp Hp') as Ho. unfold g_parent in Ho.
  split; [lia | done].
Qed.
