(* ===== verification/Visibility.v ===== *)
(** * The effect of a commit on snapshots and visible files

    Facts about [commit_db]: it extends the table's chain by one snapshot,
    keeps the catalog well-formed, leaves every earlier snapshot and every
    other table as they were, and at the new snapshot shows the old live files
    and the new ones, less those under a deleted key. *)
From S2P Require Import Prelude Prog Models PartitionSpec GoJson Postgres World PgClient PgFacts Reads.
From S2P Require Import Sorting Registry Commit Wf.

(** ** Lists *)

Lemma elem_of_update_where {A} (c : A -> bool) (u : A -> A) l x :
  x ∈ update_where c u l <-> exists y, y ∈ l /\ x = if c y then u y else y.
Proof.
  unfold update_where. rewrite list_elem_of_In, in_map_iff. split.
  - intros (y & <- & ?). exists y. by rewrite list_elem_of_In.
  - intros (y & ? & ->). exists y. by rewrite <- list_elem_of_In.
Qed.

(** An update that keeps a column keeps the column's list. *)
Lemma update_where_column {A B} (g : A -> B) (c : A -> bool) (u : A -> A) l :
  (forall y, g (u y) = g y) -> map g (update_where c u l) = map g l.
Proof.
  intros Hg. unfold update_where. rewrite List.map_map. apply List.map_ext. intros y.
  by destruct (c y).
Qed.

Section effect.
Context `{Postgres} `{GoText}.
Context (now : Z) (q : Seqs) (name : string) (id parent : Z) (operation : string) (specVersion : Z)
  (parts : list PartitionRow) (keys : list string) (d : DB).

Notation d' := (commit_db now q name id parent operation specVersion parts keys d).
Notation snap := (q SeqSnapshots + 1).

(** The rows of the commit, before the keys are deleted. *)
Let added := new_rows (q SeqPartitions) id snap parts.

(** What happens to a row of the partitions relation. *)
Let mark r := if keyed id keys r then set_part_deleted snap r else r.

Lemma elem_of_new_rows next s ps r :
  r ∈ new_rows next id s ps ->
  p_table_id r = id /\ p_snapshot_id r = s /\ p_is_deleted r = false /\ p_deleted_snapshot_id r = None /\
  next < p_partition_id r <= next + Z.of_nat (length ps).
Proof.
  revert next. induction ps as [|p ps IH]; intros next; cbn [new_rows length]; [by intros ?%elem_of_nil|].
  rewrite elem_of_cons. intros [->|Hin]; cbn; [split_and!; try done; lia|].
  apply IH in Hin as (? & ? & ? & ? & ?). split_and!; try done; lia.
Qed.

Lemma NoDup_new_rows next s ps : NoDup (map p_partition_id (new_rows next id s ps)).
Proof.
  revert next. induction ps as [|p ps IH]; intros next; cbn; [apply NoDup_nil_2|].
  apply NoDup_cons. split; [|apply IH]. rewrite list_elem_of_In, in_map_iff.
  intros (r & Hr & Hin). apply list_elem_of_In, elem_of_new_rows in Hin as (_ & _ & _ & _ & ?). cbn in *. lia.
Qed.

Lemma sorted_new_rows next s ps : sorted p_partition_id (new_rows next id s ps).
Proof.
  revert next. induction ps as [|p ps IH]; intros next; cbn; [constructor|]. constructor; [apply IH|].
  apply Forall_forall. intros r (_ & _ & _ & _ & ?)%elem_of_new_rows. cbn. lia.
Qed.

Lemma commit_partitions : partitions d' = map mark (partitions d ++ added).
Proof. done. Qed.

Lemma keyed_live r : keyed id keys r = true -> p_table_id r = id /\ p_is_deleted r = false.
Proof.
  unfold keyed. rewrite existsb_exists. intros (k & _ & Hk). unfold live_keyed in Hk.
  apply andb_true_iff in Hk as [[Ht _]%andb_true_iff Hd]. apply Z.eqb_eq in Ht.
  by apply negb_true_iff in Hd.
Qed.

(** For a live row of the table, being deleted is having a deleted key. *)
Lemma keyed_key r :
  p_table_id r = id -> p_is_deleted r = false ->
  keyed id keys r = existsb (String.eqb (p_partition_key r)) keys.
Proof.
  intros Ht Hd. unfold keyed, live_keyed. rewrite Ht, Hd, Z.eqb_refl. cbn.
  induction keys as [|k ks IH]; [done|]. cbn. by rewrite andb_true_r, IH.
Qed.

Lemma mark_id r : p_partition_id (mark r) = p_partition_id r.
Proof. unfold mark. by destruct (keyed id keys r). Qed.

Lemma scan_mark r : scan_partition (mark r) = scan_partition r.
Proof. unfold mark. by destruct (keyed id keys r). Qed.

(** ** Snapshots *)

Lemma commit_snapshot_ids i :
  snapshot_ids i d' = if i =? id then snapshot_ids i d ++ [snap] else snapshot_ids i d.
Proof.
  unfold snapshot_ids. cbn. rewrite List.filter_app, map_app. cbn. rewrite (Z.eqb_sym id i).
  destruct (i =? id); [done | by rewrite app_nil_r].
Qed.

Lemma commit_has_table i : has_table i d' = has_table i d.
Proof.
  unfold has_table. cbn. unfold update_where. induction (tables d) as [|r l IH]; [done|]. cbn. rewrite IH.
  by destruct (live_named name r).
Qed.

Lemma commit_table_id n : table_id n d' = table_id n d.
Proof.
  unfold table_id, live_table. cbn. unfold update_where. rewrite filter_map_comm.
  replace (List.filter _ (tables d)) with (List.filter (live_named n) (tables d)).
  - rewrite head_map. destruct (head _) as [r|]; [|done]. cbn. by destruct (live_named name r).
  - apply filter_ext_elem. intros r _. by destruct (live_named name r).
Qed.

Lemma commit_table_id_or n : table_id_or n d' = table_id_or n d.
Proof. unfold table_id_or. by rewrite commit_table_id. Qed.

(** ** Visible files *)

(** Before the new snapshot, and for other tables at any snapshot, a row is
    as visible as it was. *)
Lemma visible_mark i n r : n < snap \/ i <> id -> visible i n (mark r) = visible i n r.
Proof.
  intros Hn. unfold mark. destruct (keyed id keys r) eqn:E; [|done]. apply keyed_live in E as [Ht Hd].
  unfold visible. cbn. rewrite Ht, Hd. cbn. destruct (Z.eqb_spec id i) as [<-|]; [|done]. cbn.
  destruct Hn as [Hn|Hn]; [|done]. by destruct (Z.ltb_spec n snap); [|lia].
Qed.

Lemma visible_added i n r : n < snap \/ i <> id -> r ∈ added -> visible i n r = false.
Proof.
  intros Hn Hin. apply elem_of_new_rows in Hin as (Ht & Hs & _). unfold visible. rewrite Ht, Hs.
  destruct (Z.eqb_spec id i) as [<-|]; [|done]. destruct Hn as [Hn|Hn]; [|done].
  destruct (Z.leb_spec snap n); [lia | done].
Qed.

Lemma commit_visible_rows i n :
  n < snap \/ i <> id -> visible_rows i n d' = map mark (visible_rows i n d).
Proof.
  intros Hn. unfold visible_rows. rewrite commit_partitions, filter_map_comm, List.filter_app.
  rewrite (filter_false _ added), app_nil_r.
  - rewrite (filter_ext_elem _ (visible i n)); [|intros r _; by apply visible_mark].
    apply order_by_map, mark_id.
  - intros r Hin. rewrite visible_mark by done. by apply visible_added.
Qed.

Lemma map_scan_mark l : map scan_partition (map mark l) = map scan_partition l.
Proof. rewrite List.map_map. apply List.map_ext, scan_mark. Qed.

(** Time travel: what [QueryPartitions] answers below the new snapshot, and
    for another table at any snapshot, is what it answered before. *)
Lemma commit_partitions_at n s :
  int64 s < snap \/ table_id n d <> Some id -> partitions_at n s d' = partitions_at n s d.
Proof.
  intros Hn. unfold partitions_at. rewrite commit_table_id_or.
  destruct (Z.ltb_spec (table_id_or n d) 0) as [|Hge]; [done|]. f_equal.
  rewrite commit_visible_rows; [apply map_scan_mark|].
  destruct Hn as [Hn|Hn]; [by left | right]. unfold table_id_or in *. destruct (table_id n d); cbn in *; [congruence|lia].
Qed.

Lemma live_mark i r :
  (p_table_id (mark r) =? i) && negb (p_is_deleted (mark r)) =
  (p_table_id r =? i) && negb (p_is_deleted r) && negb (keyed id keys r).
Proof.
  unfold mark. destruct (keyed id keys r); cbn; [by rewrite !andb_false_r | by rewrite andb_true_r].
Qed.

(** The live files of the table: the old ones and the new ones, less those
    whose key was deleted, the new ones included. *)
Lemma commit_live_files :
  live_files id d' =
  List.filter (fun r => negb (existsb (String.eqb (p_partition_key r)) keys)) (live_files id d ++ added).
Proof.
  assert (Hadd : List.filter (fun r => (p_table_id r =? id) && negb (p_is_deleted r)) added = added).
  { apply filter_true. intros r Hin. apply elem_of_new_rows in Hin as (-> & _ & -> & _). by rewrite Z.eqb_refl. }
  unfold live_files. rewrite <- Hadd at 1. rewrite <- List.filter_app, filter_filter.
  rewrite commit_partitions, filter_map_comm.
  rewrite (filter_ext_elem _ (fun r => (p_table_id r =? id) && negb (p_is_deleted r) &&
                                       negb (existsb (String.eqb (p_partition_key r)) keys))).
  - rewrite <- (List.map_id (List.filter _ _)) at 2. apply List.map_ext_in. intros r [_ Hr]%filter_In.
    apply andb_true_iff in Hr as [[Ht Hl]%andb_true_iff Hk]. apply Z.eqb_eq in Ht.
    apply negb_true_iff in Hl, Hk. unfold mark. by rewrite keyed_key, Hk.
  - intros r _. rewrite live_mark. destruct (Z.eqb_spec (p_table_id r) id) as [Ht|]; [|done]. cbn.
    destruct (p_is_deleted r) eqn:Hl; [done|]. cbn. by rewrite keyed_key.
Qed.

(** ** Well-formedness *)

Section wf.
Context (Hwf : db_wf q d) (Hid : table_id name d = Some id) (Hparent : parent = head_snapshot id d).

Lemma commit_snapshot_new i n : n ∈ snapshot_ids i d -> n <= q SeqSnapshots.
Proof. intros Hn. by apply (snapshot_id_issued Hwf) in Hn as [_ ?]. Qed.

(** The manifests of the commit carry its table and its snapshot. *)
Lemma elem_of_commit_manifest_rows next r :
  snap < 2 ^ 63 -> r ∈ manifest_rows next (commit_manifests name id snap specVersion parts keys) ->
  mf_table_id r = id /\ mf_snapshot_id r = snap.
Proof.
  intros Hsnap Hin. pose proof (wf_seqs _ _ Hwf SeqSnapshots).
  assert (E : int64 snap = snap) by (apply int64_id; unfold is_int64; lia).
  apply elem_of_manifest_rows in Hin as (mf & Hin & -> & ->). unfold commit_manifests in Hin.
  apply elem_of_app in Hin as [Hin|Hin]; [destruct (is_empty parts) | destruct (is_empty keys)];
    try (by apply elem_of_nil in Hin); apply list_elem_of_singleton in Hin as ->; by cbn; rewrite E.
Qed.

Lemma manifest_file_issued r : r ∈ manifest_files d -> mf_snapshot_id r <= q SeqSnapshots.
Proof. intros Hin. apply (wf_manifest_files _ _ Hwf) in Hin. by eapply commit_snapshot_new. Qed.

Lemma manifest_list_issued l : l ∈ manifest_lists d -> ml_snapshot_id l <= q SeqSnapshots.
Proof.
  intros Hin. assert (Hl : (ml_snapshot_id l, ml_table_id l) ∈ map (fun r => (s_snapshot_id r, s_table_id r)) (snapshots d)).
  { rewrite <- (wf_manifest_lists _ _ Hwf). apply list_elem_of_In, in_map_iff. exists l. split; [done|]. by apply list_elem_of_In. }
  apply list_elem_of_In, in_map_iff in Hl as (r & [= Hr _] & Hin'). apply list_elem_of_In in Hin'.
  destruct (wf_snapshots _ _ Hwf r Hin') as [[_ ?] _]. lia.
Qed.

Lemma commit_manifests_of_old n : snap < 2 ^ 63 -> n < snap -> manifests_of n d' = manifests_of n d.
Proof.
  intros Hsnap Hn. unfold manifests_of. cbn [manifest_files commit_db]. rewrite List.filter_app.
  rewrite (filter_false _ (manifest_rows _ _)), app_nil_r; [done|].
  intros r Hin. apply elem_of_commit_manifest_rows in Hin as [_ ->]; [|done]. apply Z.eqb_neq. lia.
Qed.

Lemma commit_manifests_of_new :
  snap < 2 ^ 63 ->
  manifests_of snap d' = manifest_rows (q SeqManifestFiles) (commit_manifests name id snap specVersion parts keys).
Proof.
  intros Hsnap. unfold manifests_of. cbn [manifest_files commit_db]. rewrite List.filter_app.
  rewrite (filter_false _ (manifest_files d)), filter_true; [done| |].
  - intros r Hin. apply elem_of_commit_manifest_rows in Hin as [_ ->]; [apply Z.eqb_refl | done].
  - intros r Hin%manifest_file_issued. apply Z.eqb_neq. lia.
Qed.

Lemma commit_snapshot_ids_in i n : n ∈ snapshot_ids i d -> n ∈ snapshot_ids i d'.
Proof.
  intros Hn. rewrite commit_snapshot_ids. destruct (i =? id); [|done]. apply elem_of_app. by left.
Qed.

Lemma commit_head_snapshot i :
  head_snapshot i d' = if i =? id then snap else head_snapshot i d.
Proof.
  unfold head_snapshot. rewrite commit_snapshot_ids. destruct (i =? id); [|done].
  rewrite max_list_app. cbn. pose proof (wf_seqs _ _ Hwf SeqSnapshots).
  pose proof (max_list_bound (snapshot_ids i d) (q SeqSnapshots) (commit_snapshot_new i)). lia.
Qed.

Lemma commit_latest_below i n :
  n <= snap -> latest_below i n d' = latest_below i n d.
Proof.
  intros Hn. unfold latest_below. rewrite commit_snapshot_ids. destruct (i =? id); [|done].
  rewrite List.filter_app. cbn. destruct (Z.ltb_spec snap n); [lia|]. by rewrite app_nil_r.
Qed.

Lemma latest_below_snap i : latest_below i snap d = head_snapshot i d.
Proof.
  unfold latest_below, head_snapshot. f_equal. apply filter_true. intros n Hn.
  apply commit_snapshot_new in Hn. by destruct (Z.ltb_spec n snap); [|lia].
Qed.

(** A live table of another id keeps another name, so only the committed
    table's pointer moves. *)
Lemma live_named_id r : r ∈ tables d -> live_named name r = true -> t_table_id r = id.
Proof.
  intros Hin Hr. pose proof (live_table_unique Hwf name r Hin Hr) as E.
  unfold table_id in Hid. rewrite E in Hid. by injection Hid.
Qed.

Lemma id_live_named r : r ∈ tables d -> t_table_id r = id -> live_named name r = true.
Proof.
  intros Hin Hr. unfold table_id in Hid. destruct (live_table name d) as [r0|] eqn:E; [|done].
  injection Hid as Hid0. apply live_table_in in E as [Hin0 Hr0].
  apply list_elem_of_lookup_1 in Hin as [i Hi], Hin0 as [j Hj].
  assert (i = j) as ->; [|congruence].
  eapply (NoDup_lookup _ _ _ id (wf_table_ids _ _ Hwf)); rewrite list_lookup_fmap, ?Hi, ?Hj; cbn; congruence.
Qed.

Lemma commit_wf q' :
  seqs_le q q' -> commit_seqs q parts keys q' -> db_wf q' d'.
Proof.
  intros Hle [Hsnap Hpart Hman]. pose proof (db_wf_mono _ _ _ Hwf Hle) as Hwf'.
  pose proof (wf_seqs _ _ Hwf SeqSnapshots) as Hq. pose proof (wf_seqs _ _ Hwf SeqPartitions) as Hqp.
  pose proof (wf_seqs _ _ Hwf' SeqSnapshots) as Hq'. split.
  - apply Hwf'.
  - cbn. rewrite update_where_column by done. apply Hwf.
  - cbn. rewrite update_where_column by done. apply Hwf.
  - intros r (r0 & Hin & ->)%elem_of_update_where. destruct (wf_tables _ _ Hwf' r0 Hin) as (Hi & Hs & Hc).
    unfold table_wf. rewrite commit_head_snapshot. destruct (live_named name r0) eqn:E; cbn.
    + rewrite (live_named_id r0) by done. rewrite Z.eqb_refl. by rewrite <- (live_named_id r0).
    + destruct (Z.eqb_spec (t_table_id r0) id) as [Hr|]; [|done].
      by rewrite id_live_named in E.
  - cbn. rewrite map_app. apply NoDup_app. split_and!; [apply Hwf | | apply NoDup_singleton].
    intros x Hx ->%list_elem_of_singleton. apply list_elem_of_In, in_map_iff in Hx as (r & Hr & Hin).
    apply list_elem_of_In, (wf_snapshots _ _ Hwf) in Hin as [[? ?] _]. cbn in Hr. lia.
  - intros r [Hin|Hin]%elem_of_app; unfold snapshot_wf; rewrite commit_has_table.
    + destruct (wf_snapshots _ _ Hwf r Hin) as (Hi & Ht & Hp). destruct (wf_snapshots _ _ Hwf' r Hin) as (Hi' & _).
      destruct Hi. rewrite commit_latest_below by lia. done.
    + apply list_elem_of_singleton in Hin as ->.
      cbn [s_snapshot_id s_table_id s_parent_snapshot_id]. split_and!; [split; lia | |].
      * by eapply has_table_id.
      * by rewrite commit_latest_below, latest_below_snap by lia.
  - rewrite commit_partitions, List.map_map. rewrite (List.map_ext _ p_partition_id) by apply mark_id.
    rewrite map_app. apply NoDup_app. split_and!; [apply Hwf | | apply NoDup_new_rows].
    intros x Hx Hx'. apply list_elem_of_In, in_map_iff in Hx as (r & Hr & Hin).
    apply list_elem_of_In, in_map_iff in Hx' as (r' & Hr' & Hin').
    apply list_elem_of_In, (wf_partitions _ _ Hwf) in Hin as [[? ?] _].
    apply list_elem_of_In, elem_of_new_rows in Hin' as (_ & _ & _ & _ & ?). lia.
  - rewrite commit_partitions. intros r Hin. apply list_elem_of_In, in_map_iff in Hin as (r0 & <- & Hin).
    apply list_elem_of_In, elem_of_app in Hin.
    assert (Hr0 : issued q' SeqPartitions (p_partition_id r0) /\
                 p_snapshot_id r0 ∈ snapshot_ids (p_table_id r0) d' /\ p_snapshot_id r0 <= snap /\
                 match p_deleted_snapshot_id r0 with
                 | None => p_is_deleted r0 = false
                 | Some n => p_is_deleted r0 = true /\ n ∈ snapshot_ids (p_table_id r0) d' /\ p_snapshot_id r0 <= n
                 end).
    { destruct Hin as [Hin|Hin].
      - destruct (wf_partitions _ _ Hwf' r0 Hin) as (Hi & Hs & Hd). split_and!; [done | | |].
        + by apply commit_snapshot_ids_in.
        + apply commit_snapshot_new in Hs. lia.
        + destruct (p_deleted_snapshot_id r0); [|done]. destruct Hd as (? & ? & ?).
          split_and!; [done | by apply commit_snapshot_ids_in | done].
      - apply elem_of_new_rows in Hin as (Ht & -> & Hd & -> & ?). rewrite Ht, commit_snapshot_ids, Z.eqb_refl.
        split_and!; [split; lia | | lia | done]. apply elem_of_app. right. by apply list_elem_of_singleton. }
    unfold mark. destruct (keyed id keys r0) eqn:E; [|by split_and!; apply Hr0].
    apply keyed_live in E as [Ht _]. unfold partition_wf.
    cbn [p_partition_id p_snapshot_id p_table_id p_deleted_snapshot_id p_is_deleted set_part_deleted]. destruct Hr0 as (? & ? & ? & _).
    split_and!; try done. rewrite Ht, commit_snapshot_ids, Z.eqb_refl. apply elem_of_app. right.
    by apply list_elem_of_singleton.
  - cbn. rewrite !map_app. apply Permutation_app; [apply Hwf | done].
  - cbn [manifest_files commit_db]. intros r [Hin|Hin]%elem_of_app.
    + by apply commit_snapshot_ids_in, (wf_manifest_files _ _ Hwf).
    + apply elem_of_commit_manifest_rows in Hin as [-> ->]; [|lia]. rewrite commit_snapshot_ids, Z.eqb_refl.
      apply elem_of_app. right. by apply list_elem_of_singleton.
  - cbn [manifest_files commit_db]. rewrite map_app. apply NoDup_app. split_and!; [apply Hwf | | ].
    + intros x Hx Hx'. apply list_elem_of_In, in_map_iff in Hx as (r & Hr & Hin).
      apply list_elem_of_In, in_map_iff in Hx' as (r' & Hr' & Hin').
      apply list_elem_of_In, (wf_manifest_issued _ _ Hwf) in Hin as [_ ?].
      apply list_elem_of_In, manifest_rows_ids in Hin' as [? _]. lia.
    + apply NoDup_manifest_rows.
  - cbn [manifest_files commit_db]. intros r [Hin|Hin]%elem_of_app; [by apply Hwf'|].
    apply manifest_rows_ids in Hin. rewrite length_commit_manifests in Hin.
    pose proof (wf_seqs _ _ Hwf SeqManifestFiles). split; lia.
  - cbn [manifest_lists commit_db]. intros l [Hin|Hin]%elem_of_app.
    + pose proof (manifest_list_issued l Hin).
      rewrite commit_manifests_of_old by lia. by apply (wf_manifest_counts _ _ Hwf).
    + apply list_elem_of_singleton in Hin as ->. cbn [ml_snapshot_id ml_manifest_count].
      by rewrite commit_manifests_of_new, length_manifest_rows by lia.
  - cbn [partition_specs commit_db]. intros r Hr. rewrite commit_has_table. by apply (wf_specs _ _ Hwf).
Qed.

(** The files of a snapshot less those under a deleted key. *)
Definition without (rows : list PartitionRow) : list PartitionRow :=
  List.filter (fun p => negb (existsb (String.eqb (pr_PartitionKey p)) keys)) rows.

(** The new snapshot: the files of the parent, then the new ones, less those
    under a deleted key. *)
Lemma commit_partitions_new q' n :
  db_wf q' d' -> snap <= int64 n ->
  partitions_at name n d' =
    Some (without (default [] (partitions_at name parent d) ++ map scan_partition added)).
Proof.
  intros Hwf' Hn. unfold partitions_at. rewrite commit_table_id_or.
  pose proof (table_id_or_spec Hwf name) as Hor. rewrite Hid in Hor. destruct Hor as [-> Hpos].
  destruct (Z.ltb_spec id 0); [lia|]. cbn [from_option Datatypes.id]. f_equal. unfold without.
  rewrite <- map_app, filter_map_comm. f_equal. cbn [scan_partition pr_PartitionKey].
  unfold visible_rows. rewrite (visible_at_head Hwf'), commit_live_files, order_by_filter.
  2: { rewrite commit_head_snapshot, Z.eqb_refl. done. }
  f_equal. rewrite order_by_app; [|apply sorted_new_rows|].
  - f_equal. rewrite (visible_at_head Hwf); [done|]. pose proof (head_snapshot_bound Hwf id).
    pose proof (head_snapshot_nonneg id d). rewrite Hparent, int64_id; [done|]. unfold is_int64. lia.
  - intros x y Hx (_ & _ & _ & _ & ?)%elem_of_new_rows.
    apply list_elem_of_In, filter_In in Hx as [Hx _]. apply list_elem_of_In in Hx.
    destruct (wf_partitions _ _ Hwf x Hx) as [[? ?] _]. lia.
Qed.

(** A new file under a deleted key is visible at no snapshot at all. *)
Lemma commit_replaced_invisible i n r :
  r ∈ partitions d' -> q SeqPartitions < p_partition_id r -> p_partition_key r ∈ keys ->
  visible i n r = false.
Proof.
  rewrite commit_partitions. intros Hin Hnew Hkey. apply list_elem_of_In, in_map_iff in Hin as (r0 & <- & Hin).
  apply list_elem_of_In, elem_of_app in Hin as [Hin|Hin].
  { destruct (wf_partitions _ _ Hwf r0 Hin) as [[? ?] _]. rewrite mark_id in Hnew. lia. }
  apply elem_of_new_rows in Hin as (Ht & Hs & Hdel & _).
  assert (Hk : keyed id keys r0 = true).
  { rewrite keyed_key by done. apply existsb_exists. exists (p_partition_key r0).
    split; [|apply String.eqb_refl]. apply list_elem_of_In. unfold mark in Hkey. by destruct (keyed id keys r0). }
  unfold mark. rewrite Hk. unfold visible. cbn. rewrite Hs.
  destruct (_ =? i); [|done]. cbn. destruct (Z.leb_spec snap n), (Z.ltb_spec n snap); done || lia.
Qed.

End wf.

End effect.
