(* ===== verification/Coherence.v ===== *)
(** * The partition cache agrees with the database

    [coherent]: every cached answer is what the database would answer now for
    the table and snapshot of its key.  The proofs use the cache through
    [CacheLaws] only. *)
From S2P Require Import Prelude Prog CacheInterface LRU Lock Models PartitionSpec GoJson Postgres World PgClient.
From S2P Require Import PgFacts PgPlain Reads Registry Commit Wf Visibility.

Section coherence.
Context `{Postgres} `{GoText}.

(** The answers a cache of database [d] may hold. *)
Definition cached_ok (d : DB) (key : string) (rows : list PartitionRow) : Prop :=
  exists t n, is_uint64 n /\ key = makeCacheKey t n /\ partitions_at t n d = Some rows.

Definition coherent (d : DB) (c : LRU string (list PartitionRow)) : Prop := all_cached (cached_ok d) c.

(** The system between two handlers. *)
Record sys_wf (s : Sys) : Prop := {
  sw_db : db_wf (pg_seqs (sys_pg s)) (db s);
  sw_locks : all_free (sys_locks s);
  sw_cache : coherent (db s) (sys_cache s);
}.

(** The cache after [InvalidateTableCache name]. *)
Definition invalidated (name : string) (c : LRU string (list PartitionRow)) : LRU string (list PartitionRow) :=
  (InvalidateIf (table_key name) c).2.

(** The snapshot a request reads: zero stands for the current one. *)
Definition resolved (t : string) (n : Z) (d : DB) : Z := if n =? 0 then current_snapshot t d else n.

(** ** Keys *)

Lemma FormatUint_no_colon n : 0 <= n -> string_in ":"%char (FormatUint n) = false.
Proof. intros Hn. by apply FormatUint_no_char. Qed.

Lemma makeCacheKey_eq t t' n n' :
  is_uint64 n -> is_uint64 n' -> makeCacheKey t n = makeCacheKey t' n' -> t = t' /\ n = n'.
Proof.
  intros Hn Hn' E.
  destruct (string_split_last ":"%char t t' (FormatUint n) (FormatUint n')) as [-> E']; [| |exact E|].
  - apply FormatUint_no_colon, Hn.
  - apply FormatUint_no_colon, Hn'.
  - split; [done|]. by apply FormatUint_inj.
Qed.

Lemma string_app_assoc a b c :
  String.append a (String.append b c) = String.append (String.append a b) c.
Proof. induction a as [|x a IH]; [done|].
  change (String x (String.append a (String.append b c)) = String x (String.append (String.append a b) c)).
  by rewrite IH.
Qed.

Lemma table_key_own t n : table_key t (makeCacheKey t n) = true.
Proof. unfold table_key, makeCacheKey. rewrite string_app_assoc. apply has_prefix_app. Qed.

(** ** Preservation *)

Lemma coherent_ext d d' c :
  (forall t n, is_uint64 n -> partitions_at t n d' = partitions_at t n d) -> coherent d c -> coherent d' c.
Proof.
  intros Hd Hc. eapply all_cached_mono; [done|]. intros k rows (t & n & Hn & -> & Hp). exists t, n.
  by rewrite Hd.
Qed.

(** Invalidating a table lets its answers change. *)
Lemma coherent_invalidated d d' name c :
  (forall t n, t <> name -> is_uint64 n -> partitions_at t n d' = partitions_at t n d) ->
  coherent d c -> coherent d' (invalidated name c).
Proof.
  intros Hd Hc. apply (all_cached_invalidate_if (cached_ok d) (cached_ok d') c (table_key name) Hc).
  intros k rows Hk (t & n & Hn & -> & Hp). exists t, n. split; [done|]. split; [done|].
  rewrite Hd; [done | | done]. intros ->. by rewrite table_key_own in Hk.
Qed.

Lemma current_snapshot_uint64 q t d : db_wf q d -> is_uint64 (current_snapshot t d).
Proof.
  intros Hwf. unfold current_snapshot. destruct (live_table t d) as [r|]; [|split; lia].
  destruct (_ <? 0); [split; lia | apply uint64_range].
Qed.

Lemma resolved_uint64 q t n d : db_wf q d -> is_uint64 n -> is_uint64 (resolved t n d).
Proof. intros Hwf Hn. unfold resolved. destruct (n =? 0); [by eapply current_snapshot_uint64 | done]. Qed.

(** A resolved snapshot resolves to itself. *)
Lemma resolved_again t n d : resolved t (resolved t n d) d = resolved t n d.
Proof. unfold resolved. destruct (n =? 0) eqn:E; [by case_match | by rewrite E]. Qed.

Lemma wp_resolveSnapshot t n s (Q : result Z -> Sys -> Prop) :
  (forall e s', unchanged s s' -> ~ quiet s -> Q (Err e) s') ->
  (forall s', unchanged s s' -> Q (Ok (resolved t n (db s))) s') ->
  wp (resolveSnapshot t n) s Q.
Proof.
  intros Herr Hok. unfold resolveSnapshot. unfold resolved in Hok. destruct (n =? 0); cbn [negb].
  - by apply wp_GetCurrentSnapshot.
  - rewrite wp_ret. apply Hok. apply unchanged_refl.
Qed.

(** A read: locks free again, rows, sequences and transactions untouched. *)
Definition idle (s s' : Sys) : Prop :=
  all_free (sys_locks s') /\ db s' = db s /\ pg_seqs (sys_pg s') = pg_seqs (sys_pg s) /\
  sys_mvcc s' = sys_mvcc s /\ (quiet s -> quiet s').

(** A result that is the answer, or an error of the network. *)
Definition answers {A} (s : Sys) (answer : A) (r : result A) : Prop :=
  match r with Ok a => a = answer | Err _ => ~ quiet s end.

Lemma unchanged_idle s s' m : unchanged s s' -> all_free m -> idle s (set_locks m s').
Proof. intros (Hf & Hd & Hs) Hm. split_and!; try done; apply Hf. Qed.

Lemma unchanged_cache s s' : unchanged s s' -> sys_cache s' = sys_cache s.
Proof. intros [Hf _]. apply Hf. Qed.

Lemma unchanged_not_quiet s s' : unchanged s s' -> ~ quiet s' -> ~ quiet s.
Proof. intros Hu Hn Hq. by apply Hn, (unchanged_quiet _ _ Hu). Qed.

(** Changing only the cache. *)
Lemma idle_cache s s1 s2 m :
  unchanged s s1 -> sys_pg s2 = sys_pg s1 -> sys_mvcc s2 = sys_mvcc s1 -> all_free m -> idle s (set_locks m s2).
Proof.
  intros (Hf & Hd & Hs) Hpg Hmv Hm. unfold idle, db, quiet in *. cbn. rewrite Hpg, Hmv. split_and!; try done; apply Hf.
Qed.

Lemma plain_resolveSnapshot t n : plain (resolveSnapshot t n).
Proof. unfold resolveSnapshot. solve_plain. Qed.

Hint Resolve plain_resolveSnapshot : plain.

(** The shared body of a read: resolve the snapshot, then query. *)
Lemma wp_resolved {A} t n (k : Z -> Prog Sys (result A)) s (Q : result A -> Sys -> Prop) :
  (forall e s', unchanged s s' -> ~ quiet s -> Q (Err e) s') ->
  (forall s', unchanged s s' -> wp (k (resolved t n (db s))) s' Q) ->
  wp (try* x := resolveSnapshot t n in k x) s Q.
Proof. intros Herr Hok. rewrite wp_bind. apply wp_resolveSnapshot; [intros; rewrite wp_ret; by apply Herr | done]. Qed.

Lemma wp_GetPartitions t n s :
  db_wf (pg_seqs (sys_pg s)) (db s) -> all_free (sys_locks s) -> is_uint64 n ->
  wp (GetPartitions t n) s (fun r s' => idle s s' /\
    (coherent (db s) (sys_cache s) ->
     coherent (db s') (sys_cache s') /\ answers s (partitions_at t (resolved t n (db s)) (db s)) r)).
Proof.
  intros Hwf Hfree Hn. pose proof (resolved_uint64 _ t n _ Hwf Hn) as Hrn.
  unfold GetPartitions. apply wp_with_shared; [done | solve_plain |].
  set (answer := partitions_at t (resolved t n (db s)) (db s)).
  set (key := makeCacheKey t (resolved t n (db s))).
  assert (Hend : forall r s1 s2, unchanged s s1 -> sys_pg s2 = sys_pg s1 -> sys_mvcc s2 = sys_mvcc s1 ->
    (coherent (db s) (sys_cache s) -> coherent (db s) (sys_cache s2) /\ answers s answer r) ->
    forall m, all_free m -> idle s (set_locks m s2) /\
      (coherent (db s) (sys_cache s) ->
       coherent (db (set_locks m s2)) (sys_cache (set_locks m s2)) /\ answers s answer r)).
  { intros r s1 s2 Hu Hpg Hmv Hc m Hm. split; [by eapply idle_cache|].
    assert (Hdb : db (set_locks m s2) = db s) by (unfold db; cbn; rewrite Hpg; apply (unchanged_db _ _ Hu)).
    by rewrite Hdb. }
  apply wp_resolved.
  { intros e s1 Hu Hq. eapply Hend; [done..|]. by rewrite (unchanged_cache _ _ Hu). }
  intros s1 Hu1. fold key. cbv zeta. rewrite wp_bind. unfold cache_disabled at 1. rewrite wp_act. cbn [fst snd].
  destruct (sys_disable_cache s1).
  - rewrite wp_bind, wp_ret, wp_bind. apply wp_QueryPartitions; intros; rewrite ?wp_ret.
    + assert (Hu : unchanged s s') by (by etrans). eapply Hend; [done..|]. rewrite (unchanged_cache _ _ Hu).
      intros ?. split; [done | by apply (unchanged_not_quiet _ _ Hu1)].
    + assert (Hu : unchanged s s') by (by etrans). rewrite (unchanged_db _ _ Hu1). fold answer.
      destruct answer as [rows|] eqn:E; rewrite ?wp_bind, !wp_ret; (eapply Hend; [done..|]);
        by rewrite (unchanged_cache _ _ Hu).
  - rewrite wp_bind, wp_on_cache. rewrite (unchanged_cache _ _ Hu1).
    set (s2 := set_cache (Get key (sys_cache s)).2 s1).
    assert (Hget : coherent (db s) (sys_cache s) -> coherent (db s) (Get key (sys_cache s)).2)
      by (intros Hc; exact (all_cached_get (K := string) _ _ key Hc)).
    destruct (Get key (sys_cache s)).1 as [rows|] eqn:Ehit.
    + rewrite wp_ret. eapply (Hend _ s1 s2); [done..|]. intros Hc. split; [by apply Hget|].
      destruct (all_cached_hit (K := string) _ _ key rows Hc Ehit) as (t' & n' & Hn' & Hk & Hp).
      by apply makeCacheKey_eq in Hk as [<- <-].
    + assert (Hs2 : forall s3, unchanged s2 s3 -> unchanged s (set_cache (sys_cache s) s3)).
      { intros s3 (Hf3 & Hd3 & Hs3). destruct Hu1 as (Hf1 & Hd1 & Hs1). split_and!.
        - split; [| done | | | | |]; cbn; try (by etrans; [apply Hf3 | apply Hf1]).
          + intros Hq. by apply (fr_quiet _ _ Hf3), (fr_quiet _ _ Hf1).
          + etrans; [apply Hf1 | apply (fr_seqs _ _ Hf3)].
        - by etrans; [exact Hd3 | exact Hd1].
        - by etrans; [exact Hs3 | exact Hs1]. }
      rewrite wp_bind. apply wp_QueryPartitions.
      * intros e s3 Hu3 Hq. rewrite wp_ret. eapply (Hend _ (set_cache (sys_cache s) s3)); [by apply Hs2 | done..|].
        rewrite (unchanged_cache _ _ Hu3). intros Hc. split; [by apply Hget|]. by apply (unchanged_not_quiet _ _ Hu1).
      * intros s3 Hu3. assert (Hd2 : db s2 = db s) by apply (unchanged_db _ _ Hu1). rewrite Hd2. fold answer.
        destruct answer as [rows|] eqn:E.
        -- rewrite wp_bind, wp_on_cache, wp_ret.
           eapply (Hend _ (set_cache (sys_cache s) s3)); [by apply Hs2 | done..|].
           cbn. rewrite (unchanged_cache _ _ Hu3). intros Hc. split; [|done].
           refine (all_cached_put (cached_ok (db s)) (Get key (sys_cache s)).2 key rows (Hget Hc) _).
           exists t, (resolved t n (db s)). split; [done|]. by split.
        -- rewrite wp_ret. eapply (Hend _ (set_cache (sys_cache s) s3)); [by apply Hs2 | done..|].
           rewrite (unchanged_cache _ _ Hu3). intros Hc. split; [by apply Hget | done].
Qed.

(** The uncached reads. *)
Lemma wp_GetPartitionsPaged t n size last s :
  all_free (sys_locks s) -> 0 < size ->
  wp (GetPartitionsPaged t n size last) s (fun r s' => idle s s' /\ sys_cache s' = sys_cache s /\
    answers s (partitions_page t (resolved t n (db s)) size last (db s)) r).
Proof.
  intros Hfree Hsize. unfold GetPartitionsPaged. apply wp_with_shared; [done | solve_plain |].
  apply wp_resolved.
  { intros e s1 Hu Hq m Hm. split; [by apply unchanged_idle|]. by split; [apply (unchanged_cache _ _ Hu)|]. }
  intros s1 Hu1. apply wp_QueryPartitionsPaged; [done | |].
  - intros e s2 Hu2 Hq m Hm. assert (Hu : unchanged s s2) by (by etrans). split; [by apply unchanged_idle|].
    split; [apply (unchanged_cache _ _ Hu) | by apply (unchanged_not_quiet _ _ Hu1)].
  - intros s2 Hu2 m Hm. assert (Hu : unchanged s s2) by (by etrans). split; [by apply unchanged_idle|].
    split; [apply (unchanged_cache _ _ Hu)|]. by rewrite (unchanged_db _ _ Hu1).
Qed.

(** What [GetStats] answers. *)
Definition stats_at (t : string) (d : DB) : PartitionStats :=
  match partitions_at t (current_snapshot t d) d with
  | None => mkPartitionStats 0 0 0 0
  | Some rows => partition_stats rows
  end.

Lemma wp_GetStats t s :
  all_free (sys_locks s) ->
  wp (GetStats t) s (fun r s' => idle s s' /\ sys_cache s' = sys_cache s /\ answers s (stats_at t (db s)) r).
Proof.
  intros Hfree. unfold GetStats. apply wp_with_shared; [done | solve_plain |].
  apply wp_resolved.
  { intros e s1 Hu Hq m Hm. split; [by apply unchanged_idle|]. by split; [apply (unchanged_cache _ _ Hu)|]. }
  intros s1 Hu1. rewrite wp_bind. apply wp_QueryPartitions.
  - intros e s2 Hu2 Hq. rewrite wp_ret. intros m Hm. assert (Hu : unchanged s s2) by (by etrans).
    split; [by apply unchanged_idle|].
    split; [apply (unchanged_cache _ _ Hu) | by apply (unchanged_not_quiet _ _ Hu1)].
  - intros s2 Hu2. rewrite wp_ret. intros m Hm. assert (Hu : unchanged s s2) by (by etrans).
    split; [by apply unchanged_idle|]. split; [apply (unchanged_cache _ _ Hu)|].
    by rewrite (unchanged_db _ _ Hu1).
Qed.

(** ** Which keys an invalidation drops *)

Lemma has_prefix_colon_in t s : has_prefix (t ++ ":") s = true -> string_in ":"%char s = true.
Proof.
  revert s. induction t as [|c t IH]; intros [|d s]; try done.
  - change (Ascii.eqb ":"%char d && true = true -> Ascii.eqb ":"%char d || string_in ":"%char s = true).
    rewrite andb_true_r. by intros ->.
  - change (Ascii.eqb c d && has_prefix (t ++ ":") s = true -> Ascii.eqb ":"%char d || string_in ":"%char s = true).
    intros [_ Hp]%andb_true_iff. rewrite IH by done. apply orb_true_r.
Qed.

Lemma has_prefix_digits t t' ds :
  string_in ":"%char ds = false -> has_prefix (t ++ ":") (t' ++ String ":"%char ds) = has_prefix (t ++ ":") (t' ++ ":").
Proof.
  intros Hds. revert t. induction t' as [|d t' IH]; intros [|c t]; try done.
  - change (Ascii.eqb c ":"%char && has_prefix (t ++ ":") ds = Ascii.eqb c ":"%char && has_prefix (t ++ ":") "").
    f_equal. destruct (has_prefix (t ++ ":") ds) eqn:E; [apply has_prefix_colon_in in E; congruence|]. by destruct t.
  - change (Ascii.eqb c d && has_prefix (t ++ ":") (t' ++ String ":"%char ds) =
            Ascii.eqb c d && has_prefix (t ++ ":") (t' ++ ":")). by rewrite IH.
Qed.

Lemma table_key_other t t' n : 0 <= n -> table_key t (makeCacheKey t' n) = has_prefix (t ++ ":") (t' ++ ":").
Proof. intros Hn. unfold table_key, makeCacheKey. apply has_prefix_digits. by apply FormatUint_no_colon. Qed.

Lemma spec_find_kept {V} (pred : string -> bool) k (l : list (entry string V)) :
  spec_find k (List.filter (fun e => negb (pred (e_key e))) l) = if pred k then None else spec_find k l.
Proof.
  unfold spec_find. induction l as [|e l IH]; cbn; [by destruct (pred k)|].
  destruct (pred (e_key e)) eqn:Ep; cbn; case_bool_decide as Ek; rewrite ?IH; subst; rewrite ?Ep; done.
Qed.

(** ** Properties *)

(** Invalidation is exact enough: keys of different tables or snapshots
    differ, whatever characters the table names contain, and
    [InvalidateTableCache] drops every cached answer of its table while it
    keeps the answers of any table whose name does not extend it with a
    colon. *)
Theorem cache_keys_separate (t t' : string) (n n' : Z) (c : LRU string (list PartitionRow)) :
  is_uint64 n -> is_uint64 n' -> lru_wf c ->
  (makeCacheKey t n = makeCacheKey t' n' -> t = t' /\ n = n') /\
  spec_find (makeCacheKey t n) (entries (invalidated t c)) = None /\
  (has_prefix (t ++ ":") (t' ++ ":") = false ->
   spec_find (makeCacheKey t' n') (entries (invalidated t c)) = spec_find (makeCacheKey t' n') (entries c)).
Proof.
  intros Hn Hn' Hc. destruct (InvalidateIf_refines c (table_key t) Hc) as (_ & _ & Hs).
  injection Hs as _ Hs. unfold invalidated. rewrite <- Hs, !spec_find_kept, table_key_own.
  rewrite table_key_other by apply Hn'. split; [by apply makeCacheKey_eq|]. split; [done|]. by intros ->.
Qed.

End coherence.
