(* ===== verification/CommitFacts.v ===== *)
(** * The snapshot commit: what clients can rely on

    All or nothing under any network, success when the server accepts, the
    linear chain of snapshots, and the files visible before and after. *)
From S2P Require Import Prelude Prog CacheInterface LRU MVCC Lock Models PartitionSpec GoJson Postgres World.
From S2P Require Import PgClient PgFacts Reads Sorting Registry Commit Wf Visibility Coherence.

Section commit.
Context `{Postgres} `{GoText}.

(** The commit of [parts] and [keys] took effect between [s] and [s']. *)
Definition committed (name : string) (parent : Z) (operation : string) (parts : list PartitionRow)
    (keys : list string) (s s' : Sys) : Prop :=
  let q := pg_seqs (sys_pg s) in
  parent = current_snapshot name (db s) /\
  exists id, table_id name (db s) = Some id /\
    db s' = commit_db (pg_now (sys_pg s)) q name id (int64 parent) operation
              (current_spec_version name (db s)) parts keys (db s) /\
    commit_seqs q parts keys (pg_seqs (sys_pg s')).

(** Everything a call of [CommitSnapshot] may do. *)
Definition commit_result (name : string) (parent : Z) (operation : string) (parts : list PartitionRow)
    (keys : list string) (s : Sys) (res : CommitResult) (s' : Sys) : Prop :=
  all_free (sys_locks s') /\ sys_mvcc s' = sys_mvcc s /\
  seqs_le (pg_seqs (sys_pg s)) (pg_seqs (sys_pg s')) /\ (quiet s -> quiet s') /\
  if cr_Success res then
    cr_SnapshotID res = pg_seqs (sys_pg s) SeqSnapshots + 1 /\ cr_ErrorMsg res = "" /\
    committed name parent operation parts keys s s' /\
    sys_cache s' = invalidated name (sys_cache s)
  else
    cr_SnapshotID res = 0 /\ sys_cache s' = sys_cache s /\
    (db s' = db s \/ (~ quiet s /\ committed name parent operation parts keys s s')) /\
    ~ (quiet s /\ parent = current_snapshot name (db s) /\
       commit_ready (pg_seqs (sys_pg s)) name parts keys (db s)) /\
    (quiet s -> parent <> current_snapshot name (db s) ->
     cr_ErrorMsg res = conflict_text parent (current_snapshot name (db s))).

Lemma plain_CommitSnapshot_body name parent operation specVersion parts keys :
  plain (with_tx (fun e => commit_failed (error_text e)) (fun tx =>
    try* newSnap := commit_tx tx name parent operation specVersion parts keys
      catch e in Ret (commit_failed (error_text e)) then
    let* _ := InvalidateTableCache name in
    Ret (mkCommitResult true newSnap ""))).
Proof.
  apply plain_with_tx. intros tx. unfold commit_tx, commit_manifests_tx, InsertSnapshotTx, InsertPartitionTx,
    MarkPartitionDeletedTx, insert_manifest, InsertManifestFileTx, InsertManifestListTx,
    UpdateTableSnapshotTx, InvalidateTableCache. cbv zeta.
  solve_plain.
Qed.

#[local] Hint Resolve plain_CommitSnapshot_body : plain.

Lemma wp_CommitSnapshot name parent operation parts keys s :
  all_free (sys_locks s) -> 0 <= pg_seqs (sys_pg s) SeqSnapshots ->
  wp (CommitSnapshot name parent operation parts keys) s
    (commit_result name parent operation parts keys s).
Proof.
  intros Hfree Hq0. unfold CommitSnapshot. apply wp_with_exclusive; [done | |].
  { unfold GetTableSpecVersion, GetCurrentSnapshot. solve_plain. }
  (* a failure that leaves the rows alone *)
  assert (Hfail : forall msg s', frame s s' -> db s' = db s ->
    (quiet s -> parent = current_snapshot name (db s) ->
     commit_ready (pg_seqs (sys_pg s)) name parts keys (db s) -> False) ->
    (quiet s -> parent <> current_snapshot name (db s) ->
     msg = conflict_text parent (current_snapshot name (db s))) ->
    forall m, all_free m -> commit_result name parent operation parts keys s (commit_failed msg) (set_locks m s')).
  { intros msg s' Hf Hd Hno Hmsg m Hm. unfold commit_result. split_and!; try apply Hf; [done|].
    cbn. split_and!; [done | apply Hf | by left | | done]. intros (? & ? & ?). by apply Hno. }
  rewrite wp_bind. apply wp_GetTableSpecVersion.
  { intros e s1 [Hf1 [Hd1 _]] Hn. rewrite wp_ret. by apply Hfail. }
  intros s1 Hu1. rewrite wp_bind. apply wp_GetCurrentSnapshot.
  { intros e s2 Hu2 Hn. rewrite wp_ret. assert (Hu : unchanged s s2) by (by etrans). destruct Hu as (? & ? & _).
    apply Hfail; [done..| |]; intros Hq; by destruct Hn; apply (unchanged_quiet _ _ Hu1). }
  intros s2 Hu2. assert (Hu : unchanged s s2) by (by etrans). destruct Hu as (Hf & Hd & Hs).
  rewrite (unchanged_db _ _ Hu1). unfold ValidateParentSnapshot.
  destruct (Z.eqb_spec parent (current_snapshot name (db s))) as [Hp|Hp]; cbn [negb].
  2: { rewrite wp_ret. by apply Hfail. }
  apply wp_with_tx.
  { intros e s3 Hf3 Hn Hd3. apply Hfail; [frames | congruence | | done].
    intros Hq _ _. by apply Hn, (fr_quiet _ _ Hf). }
  intros tx s3 Hf3 Hd3 Hs3 Htx. rewrite wp_bind.
  pose proof (fr_now _ _ Hf) as Hnow.
  eapply wp_mono; [apply (wp_commit_tx tx name parent operation _ parts keys s); [frames | congruence | congruence | | done]|].
  { by rewrite <- Hnow, <- Hd. }
  intros r s4 [Hf4 Hr]. destruct r as [snap|e].
  - destruct Hr as [-> Hc]. rewrite wp_bind. unfold InvalidateTableCache. rewrite wp_on_cache, wp_ret.
    intros s5 Hf5 Hd5 Hs5 m Hm.
    assert (Hf' : seqs_le (pg_seqs (sys_pg s)) (pg_seqs (sys_pg s5))).
    { etrans; [apply Hf4 | apply (fr_seqs _ _ Hf5)]. }
    unfold commit_result. split_and!; [done | | done | |].
    + rewrite <- (fr_mvcc _ _ Hf4). exact (fr_mvcc _ _ Hf5).
    + intros Hq. apply (fr_quiet _ _ Hf5), (fr_quiet _ _ Hf4), Hq.
    + cbn. split_and!; [done | done | | ].
      * split; [done|]. destruct Hc as (id & Hid & Hdb & Hseq). exists id. split; [done|].
        split; [by rewrite <- Hdb|]. cbn [set_locks sys_pg]. by rewrite Hs5.
      * rewrite (fr_cache _ _ Hf5). cbn. by rewrite (fr_cache _ _ Hf4).
  - rewrite wp_ret. intros s5 Hf5 Hd5 Hs5 m Hm. destruct Hr as [Hd4 Hno].
    assert (Hf' : frame s s5) by frames.
    unfold commit_result. split_and!; try apply Hf'; [done|].
    cbn. split_and!; [done | apply Hf' | | by intros (? & _ & ?); apply Hno | done].
    destruct Hd4 as [Hd4|[Hnq Hc]]; [left; cbn; unfold db in *; cbn; congruence | right].
    split; [done|]. split; [done|]. destruct Hc as (id & Hid & Hdb & Hseq). exists id.
    split; [done|]. split; [by rewrite <- Hdb|]. cbn [set_locks sys_pg]. by rewrite Hs5.
Qed.

(** ** Consequences for well-formed systems *)

Lemma committed_parent name parent operation parts keys s s' :
  db_wf (pg_seqs (sys_pg s)) (db s) -> committed name parent operation parts keys s s' ->
  exists id, table_id name (db s) = Some id /\ parent = head_snapshot id (db s) /\ int64 parent = parent /\
    db s' = commit_db (pg_now (sys_pg s)) (pg_seqs (sys_pg s)) name id parent operation
              (current_spec_version name (db s)) parts keys (db s) /\
    commit_seqs (pg_seqs (sys_pg s)) parts keys (pg_seqs (sys_pg s')).
Proof.
  intros Hwf [Hp (id & Hid & Hdb & Hseq)]. exists id. rewrite (current_snapshot_head Hwf name id Hid) in Hp.
  pose proof (head_snapshot_bound Hwf id). pose proof (head_snapshot_nonneg id (db s)).
  assert (Hi : int64 parent = parent) by (apply int64_id; unfold is_int64; lia).
  rewrite Hi in Hdb. done.
Qed.

Lemma committed_wf name parent operation parts keys s s' :
  db_wf (pg_seqs (sys_pg s)) (db s) -> committed name parent operation parts keys s s' ->
  seqs_le (pg_seqs (sys_pg s)) (pg_seqs (sys_pg s')) -> db_wf (pg_seqs (sys_pg s')) (db s').
Proof.
  intros Hwf Hc Hle. destruct (committed_parent _ _ _ _ _ _ _ Hwf Hc) as (id & Hid & Hp & _ & -> & Hseq).
  by apply commit_wf.
Qed.

(** Below the new snapshot, and for other tables, answers stay. *)
Lemma committed_partitions_at name parent operation parts keys s s' t n :
  db_wf (pg_seqs (sys_pg s)) (db s) -> committed name parent operation parts keys s s' ->
  int64 n <= pg_seqs (sys_pg s) SeqSnapshots \/ t <> name ->
  partitions_at t n (db s') = partitions_at t n (db s).
Proof.
  intros Hwf Hc Hn. destruct (committed_parent _ _ _ _ _ _ _ Hwf Hc) as (id & Hid & _ & _ & -> & _).
  apply commit_partitions_at. destruct Hn as [Hn|Hn]; [left; lia | right]. intros Ht. apply Hn.
  unfold table_id in Hid, Ht. destruct (live_table name (db s)) as [r|] eqn:E1; [|done].
  destruct (live_table t (db s)) as [r'|] eqn:E2; [|done]. injection Hid as <-. injection Ht as Ht.
  apply live_table_in in E1 as [Hin1 Hn1], E2 as [Hin2 Hn2].
  apply list_elem_of_lookup_1 in Hin1 as [i Hi], Hin2 as [j Hj].
  assert (i = j) as ->.
  { eapply (NoDup_lookup _ _ _ (t_table_id r) (wf_table_ids _ _ Hwf)); rewrite list_lookup_fmap, ?Hi, ?Hj; cbn; congruence. }
  assert (r = r') as -> by congruence. unfold live_named in Hn1, Hn2.
  apply andb_true_iff in Hn1 as [Hn1%String.eqb_eq _], Hn2 as [Hn2%String.eqb_eq _]. congruence.
Qed.

Lemma commit_result_wf name parent operation parts keys s res s' :
  sys_wf s -> commit_result name parent operation parts keys s res s' ->
  db_wf (pg_seqs (sys_pg s')) (db s') /\ (cr_Success res = true \/ quiet s -> sys_wf s').
Proof.
  intros [Hwf Hfree Hc] (Hfree' & Hmv & Hle & Hq & Hr). destruct (cr_Success res) eqn:E.
  - destruct Hr as (Hsnap & _ & Hcom & Hcache).
    pose proof (committed_wf _ _ _ _ _ _ _ Hwf Hcom Hle) as Hwf'. split; [done|]. intros _. split; [done|done|].
    rewrite Hcache. apply coherent_invalidated with (db s); [|done]. intros t n Ht _.
    eapply committed_partitions_at; [done | done | by right].
  - destruct Hr as (Hsnap & Hcache & Hd & _). assert (Hwf' : db_wf (pg_seqs (sys_pg s')) (db s')).
    { destruct Hd as [-> | [_ Hcom]]; [by eapply db_wf_mono | by eapply committed_wf]. }
    split; [done|]. intros [|Hqs]; [done|]. split; [done | done |].
    destruct Hd as [-> | [Hn _]]; [by rewrite Hcache | done].
Qed.

(** ** Properties *)

(** C1. A snapshot commit is all or nothing: whatever round trips fail, and
    wherever, the database afterwards is the one before or the one with the
    whole commit applied ([commit_db]: snapshot, files, deletions, manifests,
    table pointer).  A reported success means it was applied, on the current
    snapshot, under the id reported; a reported failure with every round trip
    delivered means it was not. *)
Theorem commit_atomic name parent operation parts keys s :
  sys_wf s ->
  wp (CommitSnapshot name parent operation parts keys) s (fun res s' =>
    all_free (sys_locks s') /\
    if cr_Success res
    then cr_SnapshotID res = pg_seqs (sys_pg s) SeqSnapshots + 1 /\
         committed name parent operation parts keys s s'
    else db s' = db s \/ (~ quiet s /\ committed name parent operation parts keys s s')).
Proof.
  intros [Hwf Hfree _]. eapply wp_mono; [apply wp_CommitSnapshot; [done | apply Hwf]|].
  intros res s' (Hf & _ & _ & _ & Hr). split; [done|]. destruct (cr_Success res); by destruct_and?.
Qed.

(** A commit on the current snapshot succeeds when every round trip is
    delivered and the server accepts the statements: the table exists, the
    sequences have values left and the statistics and summaries are JSON. *)
Theorem commit_succeeds name parent operation parts keys s :
  sys_wf s -> quiet s -> parent = current_snapshot name (db s) ->
  commit_ready (pg_seqs (sys_pg s)) name parts keys (db s) ->
  wp (CommitSnapshot name parent operation parts keys) s (fun res s' =>
    cr_Success res = true /\ cr_ErrorMsg res = "" /\ committed name parent operation parts keys s s' /\
    current_snapshot name (db s') = cr_SnapshotID res).
Proof.
  intros [Hwf Hfree _] Hq Hp Hr. eapply wp_mono; [apply wp_CommitSnapshot; [done | apply Hwf]|].
  intros res s' (_ & _ & Hle & _ & H'). destruct (cr_Success res) eqn:E; [|by destruct H' as (_ & _ & _ & [] & _)].
  destruct H' as (Hsnap & Hmsg & Hc & _). split_and!; try done.
  pose proof (committed_wf _ _ _ _ _ _ _ Hwf Hc Hle) as Hwf'.
  destruct (committed_parent _ _ _ _ _ _ _ Hwf Hc) as (id & Hid & Hp' & _ & Hdb & _).
  rewrite (current_snapshot_head Hwf' name id) by (by rewrite Hdb, commit_table_id).
  by rewrite Hdb, commit_head_snapshot, Z.eqb_refl, Hsnap.
Qed.

(** C13. Optimistic concurrency: a commit whose parent is not the table's
    current snapshot changes nothing, under any network, and with every round
    trip delivered it reports the conflict with both snapshots. *)
Theorem commit_conflict name parent operation parts keys s :
  sys_wf s -> parent <> current_snapshot name (db s) ->
  wp (CommitSnapshot name parent operation parts keys) s (fun res s' =>
    cr_Success res = false /\ db s' = db s /\ sys_cache s' = sys_cache s /\
    (quiet s -> cr_ErrorMsg res = conflict_text parent (current_snapshot name (db s)))).
Proof.
  intros [Hwf Hfree _] Hp. eapply wp_mono; [apply wp_CommitSnapshot; [done | apply Hwf]|].
  intros res s' (_ & _ & _ & _ & Hr). destruct (cr_Success res).
  - by destruct Hr as (_ & _ & [? _] & _).
  - destruct Hr as (_ & Hc & Hd & _ & Hm). split_and!; [done | | done | by intros; apply Hm].
    destruct Hd as [|[_ [? _]]]; done.
Qed.

(** C8. Time travel: after any call of [CommitSnapshot], whatever it reports,
    the files visible at every snapshot issued before it, and the files of
    every other table at every snapshot, are the ones visible before. *)
Theorem commit_time_travel name parent operation parts keys s t n :
  sys_wf s -> int64 n <= pg_seqs (sys_pg s) SeqSnapshots \/ t <> name ->
  wp (CommitSnapshot name parent operation parts keys) s (fun _ s' =>
    partitions_at t n (db s') = partitions_at t n (db s)).
Proof.
  intros [Hwf Hfree _] Hn. eapply wp_mono; [apply wp_CommitSnapshot; [done | apply Hwf]|].
  intros res s' (_ & _ & _ & _ & Hr).
  assert (Hd : db s' = db s \/ committed name parent operation parts keys s s').
  { destruct (cr_Success res); [by right; apply Hr|]. destruct Hr as (_ & _ & [|[]] & _); auto. }
  destruct Hd as [-> | Hc]; [done | by eapply committed_partitions_at].
Qed.

(** C12. What the new snapshot shows: after a successful commit the files
    visible at it (and later, until the next commit) are those of the parent
    snapshot followed by the new ones, less every file under a deleted key. *)
Theorem commit_visible name parent operation parts keys s n :
  sys_wf s -> pg_seqs (sys_pg s) SeqSnapshots < int64 n ->
  wp (CommitSnapshot name parent operation parts keys) s (fun res s' =>
    cr_Success res = true ->
    exists id, table_id name (db s) = Some id /\
    partitions_at name n (db s') =
      Some (without keys (default [] (partitions_at name parent (db s)) ++
        map scan_partition (new_rows (pg_seqs (sys_pg s) SeqPartitions) id (cr_SnapshotID res) parts)))).
Proof.
  intros [Hwf Hfree _] Hn. eapply wp_mono; [apply wp_CommitSnapshot; [done | apply Hwf]|].
  intros res s' (_ & _ & Hle & _ & Hr) Hs. rewrite Hs in Hr. destruct Hr as (-> & _ & Hc & _).
  pose proof (committed_wf _ _ _ _ _ _ _ Hwf Hc Hle) as Hwf'.
  destruct (committed_parent _ _ _ _ _ _ _ Hwf Hc) as (id & Hid & Hp' & _ & Hdb & _).
  exists id. split; [done|]. rewrite Hdb in Hwf' |- *. eapply commit_partitions_new; try done. lia.
Qed.

(** C35. Replacing a file in one commit loses it: when the key of a new file
    is also among the deleted keys, the file's row is written already deleted
    at its own snapshot, and no snapshot, past or future, ever shows it. *)
Theorem commit_replace_lost name parent operation parts keys s i n r :
  sys_wf s ->
  wp (CommitSnapshot name parent operation parts keys) s (fun res s' =>
    r ∈ partitions (db s') -> pg_seqs (sys_pg s) SeqPartitions < p_partition_id r ->
    p_partition_key r ∈ keys -> visible i n r = false).
Proof.
  intros [Hwf Hfree _]. eapply wp_mono; [apply wp_CommitSnapshot; [done | apply Hwf]|].
  intros res s' (_ & _ & _ & _ & Hr) Hin Hnew Hkey.
  assert (Hd : db s' = db s \/ committed name parent operation parts keys s s').
  { destruct (cr_Success res); [by right; apply Hr|]. destruct Hr as (_ & _ & [|[]] & _); auto. }
  destruct Hd as [E | Hc].
  - rewrite E in Hin. destruct (wf_partitions _ _ Hwf r Hin) as [[? ?] _]. lia.
  - destruct (committed_parent _ _ _ _ _ _ _ Hwf Hc) as (id & Hid & Hp' & _ & Hdb & _).
    rewrite Hdb in Hin. by eapply commit_replaced_invisible.
Qed.

End commit.
