(* ===== verification/CatalogFacts.v ===== *)
(** * The catalog manager: atomic table operations

    For each operation, what it makes of the database when it takes effect,
    and that it takes effect entirely or not at all; that it keeps the
    catalog well-formed; and which cached answers it may change. *)
From S2P Require Import Prelude Prog LRU MVCC Lock Models PartitionSpec GoJson Postgres World PgClient.
From S2P Require Import PgFacts PgPlain Reads Commit Catalog Wf Visibility.

Section specs.
Context `{Postgres} `{GoText}.

(** ** What the operations do to the rows *)

(** The history row of a new table's spec, when the code records one. *)
Definition initial_spec_rows (q : Seqs) (id now : Z) (text spec : string) : list partition_specs_row :=
  if negb (String.eqb text "") && negb (String.eqb text "null")
  then [mk_partition_specs_row (q SeqPartitionSpecs + 1) id 1 spec now (Some "initial spec")]
  else [].

Definition create_db (now : Z) (q : Seqs) (name schema text spec props : string) (d : DB) : DB :=
  let id := q SeqTables + 1 in
  mkDB (tables d ++ [mk_tables_row id name schema 1 (Some spec) 1 0 props now false])
    (schema_history d) (snapshots d) (partitions d) (transactions d) (manifest_files d)
    (manifest_lists d) (partition_specs d ++ initial_spec_rows q id now text spec).

Definition alter_spec_db (now : Z) (q : Seqs) (name spec summary : string) (r : tables_row) (d : DB) : DB :=
  let version := int32 (t_partition_spec_version r + 1) in
  mkDB (update_where (live_named name) (set_spec spec version now) (tables d))
    (schema_history d) (snapshots d) (partitions d) (transactions d) (manifest_files d) (manifest_lists d)
    (partition_specs d ++ [mk_partition_specs_row (q SeqPartitionSpecs + 1) (t_table_id r) version spec
                             now (Some summary)]).

Definition alter_schema_db (now : Z) (q : Seqs) (name schema summary : string) (r : tables_row) (d : DB) : DB :=
  let version := int32 (t_schema_version r + 1) in
  mkDB (update_where (live_named name) (set_schema schema version now) (tables d))
    (schema_history d ++ [mk_schema_history_row (q SeqSchemaHistory + 1) (t_table_id r) version schema
                            now (Some summary)])
    (snapshots d) (partitions d) (transactions d) (manifest_files d) (manifest_lists d) (partition_specs d).

Definition rename_db (now : Z) (oldName newName : string) (d : DB) : DB :=
  set_tables (update_where (live_named oldName) (set_name newName now) (tables d)) d.

Definition drop_db (now : Z) (name : string) (d : DB) : DB :=
  set_tables (update_where (live_named name) (set_deleted now) (tables d)) d.

(** Every row of the table, in every relation a purge deletes from. *)
Definition purge_db (name : string) (id : Z) (d : DB) : DB :=
  mkDB (delete_where (fun r => String.eqb (t_table_name r) name) (tables d))
    (delete_where (fun r => sh_table_id r =? id) (schema_history d))
    (delete_where (fun r => s_table_id r =? id) (snapshots d))
    (delete_where (fun r => p_table_id r =? id) (partitions d))
    (transactions d)
    (delete_where (fun r => mf_table_id r =? id) (manifest_files d))
    (delete_where (fun r => ml_table_id r =? id) (manifest_lists d))
    (delete_where (fun r => ps_table_id r =? id) (partition_specs d)).

(** ** Outcomes *)

(** An operation that applies [applied] or nothing; it is refused with every
    round trip delivered only when [accepted] does not hold. *)
Definition op_outcome (applied : Sys -> Prop) (accepted : Prop) (s : Sys) (res : OpResult) (s' : Sys) : Prop :=
  all_free (sys_locks s') /\ sys_mvcc s' = sys_mvcc s /\ sys_cache s' = sys_cache s /\
  seqs_le (pg_seqs (sys_pg s)) (pg_seqs (sys_pg s')) /\ (quiet s -> quiet s') /\
  if Success res then applied s' /\ ErrorMsg res = ""
  else (db s' = db s \/ (~ quiet s /\ applied s')) /\ ~ (quiet s /\ accepted).

Lemma outcome_failed applied accepted s msg s' m :
  frame s s' -> db s' = db s -> (quiet s -> accepted -> False) -> all_free m ->
  op_outcome applied accepted s (failed msg) (set_locks m s').
Proof.
  intros Hf Hd Hno Hm. unfold op_outcome. split_and!; try apply Hf; [done|]. cbn.
  split; [by left | intros []; by apply Hno].
Qed.

Lemma wp_finish_tx tx start d s (Q : OpResult -> Sys -> Prop) :
  txn tx start d s ->
  (forall e s', frame s s' -> ~ quiet s -> pg_seqs (sys_pg s') = pg_seqs (sys_pg s) ->
     db s' = db s \/ db s' = d -> Q (failed_err e) s') ->
  (forall s', frame s s' -> pg_seqs (sys_pg s') = pg_seqs (sys_pg s) -> db s' = d -> Q succeeded s') ->
  wp (finish_tx tx) s Q.
Proof.
  intros Htx Herr Hok. unfold finish_tx. rewrite wp_bind. eapply wp_tx_commit; [done| |].
  - intros. rewrite wp_ret. by apply Herr.
  - intros. rewrite wp_ret. by apply Hok.
Qed.

(** ** CreateTable *)

Definition name_taken (name : string) (d : DB) : bool :=
  existsb (fun r => String.eqb (t_table_name r) name) (tables d).

Definition created (name schema text props : string) (s s' : Sys) : Prop :=
  let q := pg_seqs (sys_pg s) in
  name_taken name (db s) = false /\
  (pg_seqs (sys_pg s') SeqTables = q SeqTables + 1 /\
   forall n, n <> SeqTables -> n <> SeqPartitionSpecs -> pg_seqs (sys_pg s') n = q n) /\
  exists schema' spec' props',
    pg_jsonb schema = Some schema' /\ pg_jsonb text = Some spec' /\ pg_jsonb props = Some props' /\
    db s' = create_db (pg_now (sys_pg s)) q name schema' text spec' props' (db s).

Record create_accepted (name schema text props : string) (s : Sys) : Prop := {
  ca_name : name_taken name (db s) = false;
  ca_room : seq_room (pg_seqs (sys_pg s)) SeqTables 1;
  ca_spec_room : seq_room (pg_seqs (sys_pg s)) SeqPartitionSpecs 1;
  ca_schema : pg_jsonb schema <> None;
  ca_spec : pg_jsonb text <> None;
  ca_props : pg_jsonb props <> None;
  ca_history : forall r, r ∈ partition_specs (db s) -> ps_table_id r <= pg_seqs (sys_pg s) SeqTables;
}.

Lemma has_table_new i name schema spec props now d :
  has_table i (set_tables (tables d ++ [mk_tables_row i name schema 1 (Some spec) 1 0 props now false]) d) = true.
Proof. unfold has_table. cbn. rewrite existsb_app. cbn. by rewrite Z.eqb_refl, orb_true_r. Qed.

(** The insert of a table: the new id, or none when the name is taken. *)
Lemma wp_CreateTableTx tx start d name schema text props s (Q : result (Z * bool) -> Sys -> Prop) :
  txn tx start d s ->
  (forall e s', frame s s' -> db s' = db s ->
     (quiet s -> seq_room (pg_seqs (sys_pg s)) SeqTables 1 -> pg_jsonb schema <> None ->
      pg_jsonb text <> None -> pg_jsonb props <> None -> False) -> Q (Err e) s') ->
  (forall s', frame s s' -> db s' = db s -> name_taken name d = true -> Q (Ok (0, false)) s') ->
  (forall schema' spec' props' s', let id := pg_seqs (sys_pg s) SeqTables + 1 in
     frame s s' -> db s' = db s -> name_taken name d = false ->
     pg_jsonb schema = Some schema' -> pg_jsonb text = Some spec' -> pg_jsonb props = Some props' ->
     txn tx start (set_tables (tables d ++ [mk_tables_row id name schema' 1 (Some spec') 1 0 props' start false]) d) s' ->
     pg_seqs (sys_pg s') = seq_bump SeqTables (pg_seqs (sys_pg s)) -> Q (Ok (id, true)) s') ->
  wp (CreateTableTx tx name schema text props) s Q.
Proof.
  intros Htx Herr Htaken Hok. unfold CreateTableTx. rewrite wp_bind.
  assert (Hmono : monotone (sql_insert_table name schema text props)).
  { unfold sql_insert_table. do 3 (apply monotone_with_jsonb; intros ?). apply monotone_with_now. intros ?.
    apply monotone_with_nextval. intros ?. by apply monotone_if; auto with stmt. }
  eapply wp_tx_query_row; [done | done | |].
  - intros e s1 Hf1 Hd1 Hr He. assert (Hne : e <> ErrNoRows).
    { destruct He as [|[q He]]; [done|]. unfold sql_insert_table in He. stmt_cases He; done. }
    rewrite wp_ret. destruct e; [done| |]; (apply Herr; [done | done|]; intros Hq [Hlo Hhi] Hj1 Hj2 Hj3;
      destruct (Hr Hq) as [q Hr']; unfold sql_insert_table in Hr'; stmt_cases Hr'; try done; lia).
  - intros a eff q s1 Hr Hf1 Hd1 Htx1 Hs1. unfold sql_insert_table in Hr. rewrite wp_ret. stmt_cases Hr.
    + by apply Htaken.
    + cbn [first_row]. by eapply Hok.
Qed.

Lemma wp_InsertPartitionSpecTx tx start d id version text summary s (Q : result unit -> Sys -> Prop) :
  txn tx start d s ->
  (forall e s', frame s s' -> db s' = db s ->
     (quiet s -> seq_room (pg_seqs (sys_pg s)) SeqPartitionSpecs 1 -> pg_jsonb text <> None ->
      has_table id d = true ->
      (forall r, r ∈ partition_specs d -> ~ (ps_table_id r = id /\ ps_spec_version r = version)) -> False) ->
     Q (Err e) s') ->
  (forall spec s', frame s s' -> db s' = db s -> pg_jsonb text = Some spec ->
     txn tx start (set_partition_specs (partition_specs d ++
       [mk_partition_specs_row (pg_seqs (sys_pg s) SeqPartitionSpecs + 1) id version spec start (Some summary)]) d) s' ->
     pg_seqs (sys_pg s') = seq_bump SeqPartitionSpecs (pg_seqs (sys_pg s)) -> Q (Ok tt) s') ->
  wp (InsertPartitionSpecTx tx id version text summary) s Q.
Proof.
  intros Htx Herr Hok. unfold InsertPartitionSpecTx. rewrite wp_bind.
  eapply wp_tx_exec; [unfold sql_insert_partition_spec; solve_monotone | done | |].
  - intros e s1 Hf1 Hd1 Hr _. rewrite wp_ret. apply Herr; [done..|]. intros Hq [Hlo Hhi] Hj Ht Hnew.
    destruct (Hr Hq) as [q Hr']. unfold sql_insert_partition_spec in Hr'. stmt_cases Hr'; try done; try lia.
    match goal with E : negb _ = false |- _ => apply negb_false_iff, existsb_exists in E as (r & Hin & Heq) end.
    apply andb_true_iff in Heq as [H1%Z.eqb_eq H2%Z.eqb_eq]. apply (Hnew r); [by apply list_elem_of_In | done].
  - intros a eff q s1 Hr Hf1 Hd1 Htx1 Hs1. unfold sql_insert_partition_spec in Hr. stmt_cases Hr.
    rewrite wp_ret. by eapply Hok.
Qed.

Lemma plain_finish_tx tx : plain (finish_tx tx).
Proof. unfold finish_tx. solve_plain. Qed.

#[local] Hint Resolve plain_finish_tx : plain.

(** The end of every operation: COMMIT of the transaction's view. *)
Lemma wp_finish_outcome applied accepted tx start d s0 s :
  frame s0 s -> db s = db s0 -> txn tx start d s ->
  (forall s', db s' = d -> pg_seqs (sys_pg s') = pg_seqs (sys_pg s) -> applied s') ->
  wp (finish_tx tx) s (fun res s2 => forall s3, frame s2 s3 -> db s3 = db s2 ->
    pg_seqs (sys_pg s3) = pg_seqs (sys_pg s2) ->
    forall m, all_free m -> op_outcome applied accepted s0 res (set_locks m s3)).
Proof.
  intros Hf Hd Htx Happ. eapply wp_finish_tx; [done| |].
  - intros e s2 Hf2 Hn Hs2 Hd2 s3 Hf3 Hd3 Hs3 m Hm. assert (Hf' : frame s0 s3) by frames.
    assert (Hn0 : ~ quiet s0) by (intros Hq; by apply Hn, (fr_quiet _ _ Hf)).
    unfold op_outcome. split_and!; try apply Hf'; [done|]. cbn. split; [|by intros []].
    destruct Hd2 as [Hd2|Hd2]; [left; unfold db in *; cbn; congruence | right].
    split; [done|]. apply Happ; [unfold db in *; cbn; congruence | cbn; congruence].
  - intros s2 Hf2 Hs2 Hd2 s3 Hf3 Hd3 Hs3 m Hm. assert (Hf' : frame s0 s3) by frames.
    unfold op_outcome. split_and!; try apply Hf'; [done|]. cbn. split; [|done].
    apply Happ; [unfold db in *; cbn; congruence | cbn; congruence].
Qed.

Lemma wp_CreateTable name schema text props s :
  all_free (sys_locks s) ->
  wp (Catalog.CreateTable name schema text props) s
    (op_outcome (created name schema text props s) (create_accepted name schema text props s) s).
Proof.
  intros Hfree. unfold Catalog.CreateTable. apply wp_with_exclusive; [done | solve_plain |].
  apply wp_with_tx.
  { intros e s1 Hf1 Hn Hd1 m Hm. by apply outcome_failed. }
  intros tx s1 Hf1 Hd1 Hs1 Htx. rewrite wp_bind. eapply wp_CreateTableTx; [done| | |]; rewrite ?Hs1.
  { intros e s2 Hf2 Hd2 Hno. rewrite wp_ret. intros s3 Hf3 Hd3 _ m Hm.
    apply outcome_failed; [frames | congruence | | done]. intros Hq []. apply Hno; try done.
    by apply (fr_quiet _ _ Hf1). }
  { intros s2 Hf2 Hd2 Htaken. cbn [negb]. rewrite wp_ret. intros s3 Hf3 Hd3 _ m Hm.
    apply outcome_failed; [frames | congruence | | done]. intros Hq []. congruence. }
  intros schema' spec' props' s2 id Hf2 Hd2 Hnew Hj1 Hj2 Hj3 Htx2 Hs2. cbn [negb].
  set (d1 := set_tables _ _) in Htx2.
  assert (Hdone : forall s', db s' = create_db (pg_now (sys_pg s)) (pg_seqs (sys_pg s)) name schema' text spec' props' (db s) ->
    pg_seqs (sys_pg s') SeqTables = id ->
    (forall n, n <> SeqTables -> n <> SeqPartitionSpecs -> pg_seqs (sys_pg s') n = pg_seqs (sys_pg s) n) ->
    created name schema text props s s').
  { intros s' Hd' Hi Ho. split; [done|]. split; [done|]. by exists schema', spec', props'. }
  rewrite wp_bind. unfold create_db in Hdone. unfold initial_spec_rows in Hdone.
  destruct (negb (String.eqb text "") && negb (String.eqb text "null")) eqn:Erec.
  - eapply wp_InsertPartitionSpecTx; [done| |].
    + intros e s3 Hf3 Hd3 Hno. rewrite wp_ret. intros s4 Hf4 Hd4 _ m Hm.
      apply outcome_failed; [frames | congruence | | done]. intros Hq []. apply Hno.
      * by apply (fr_quiet _ _ Hf2), (fr_quiet _ _ Hf1).
      * unfold seq_room. by rewrite Hs2, seq_bump_other.
      * done.
      * apply has_table_new.
      * intros r Hr [Hi _]. apply ca_history0 in Hr. unfold id in Hi. lia.
    + intros spec s3 Hf3 Hd3 Hj Htx3 Hs3. assert (spec = spec') as -> by congruence.
      rewrite Hs2, seq_bump_other in Htx3 by done.
      eapply wp_finish_outcome; [frames | congruence | done |].
      intros s' Hd' Hs'. apply Hdone; [by rewrite Hd' | |].
      * by rewrite Hs', Hs3, seq_bump_other, Hs2, seq_bump_same.
      * intros n Hn1 Hn2. by rewrite Hs', Hs3, seq_bump_other, Hs2, seq_bump_other.
  - rewrite wp_ret. eapply wp_finish_outcome; [frames | congruence | done |].
    intros s' Hd' Hs'. apply Hdone; [|by rewrite Hs', Hs2, seq_bump_same|intros n Hn _; by rewrite Hs', Hs2, seq_bump_other].
    rewrite Hd', app_nil_r. unfold d1. by destruct (db s).
Qed.

(** ** AlterTablePartitionSpec and AlterTableSchema *)

Definition spec_altered (name text summary : string) (s s' : Sys) : Prop :=
  exists r spec, live_table name (db s) = Some r /\ pg_jsonb text = Some spec /\
    db s' = alter_spec_db (pg_now (sys_pg s)) (pg_seqs (sys_pg s)) name spec summary r (db s).

Record spec_accepted (name text : string) (r : tables_row) (s : Sys) : Prop := {
  sa_table : live_table name (db s) = Some r;
  sa_scan : t_partition_spec r <> None;
  sa_spec : pg_jsonb text <> None;
  sa_room : seq_room (pg_seqs (sys_pg s)) SeqPartitionSpecs 1;
  sa_history : forall p, p ∈ partition_specs (db s) ->
    ~ (ps_table_id p = t_table_id r /\ ps_spec_version p = int32 (t_partition_spec_version r + 1));
}.

Definition schema_altered (name schema summary : string) (s s' : Sys) : Prop :=
  exists r schema', live_table name (db s) = Some r /\ pg_jsonb schema = Some schema' /\
    db s' = alter_schema_db (pg_now (sys_pg s)) (pg_seqs (sys_pg s)) name schema' summary r (db s).

Record schema_accepted (name schema : string) (r : tables_row) (s : Sys) : Prop := {
  sc_table : live_table name (db s) = Some r;
  sc_scan : t_partition_spec r <> None;
  sc_schema : pg_jsonb schema <> None;
  sc_room : seq_room (pg_seqs (sys_pg s)) SeqSchemaHistory 1;
}.

(** What the operations read before they begin. *)
Lemma table_row_some name d row :
  table_row name d = Ok (Some row) ->
  exists r, live_table name d = Some r /\ tr_TableID row = t_table_id r /\
    tr_PartitionSpecVersion row = t_partition_spec_version r /\ tr_SchemaVersion row = t_schema_version r /\
    tr_CurrentSnapshotID row = t_current_snapshot_id r.
Proof.
  unfold table_row, scan_table. destruct (live_table name d) as [r|]; [|done].
  destruct (t_partition_spec r); [|done]. intros [= <-]. by exists r.
Qed.

Lemma table_row_ok name d r :
  live_table name d = Some r -> t_partition_spec r <> None -> exists row, table_row name d = Ok (Some row).
Proof. unfold table_row, scan_table. intros -> Hs. destruct (t_partition_spec r); [by eexists | done]. Qed.

(** A statement that updates the live row of a name. *)
Lemma wp_UpdateTablePartitionSpecTx tx start d name text version s (Q : result unit -> Sys -> Prop) :
  txn tx start d s ->
  (forall e s', frame s s' -> db s' = db s -> (quiet s -> pg_jsonb text <> None -> False) -> Q (Err e) s') ->
  (forall spec s', frame s s' -> db s' = db s -> pg_jsonb text = Some spec ->
     txn tx start (set_tables (update_where (live_named name) (set_spec spec version start) (tables d)) d) s' ->
     pg_seqs (sys_pg s') = pg_seqs (sys_pg s) -> Q (Ok tt) s') ->
  wp (UpdateTablePartitionSpecTx tx name text version) s Q.
Proof.
  intros Htx Herr Hok. unfold UpdateTablePartitionSpecTx. rewrite wp_bind.
  eapply wp_tx_exec; [unfold sql_update_spec; solve_monotone | done | |].
  - intros e s1 Hf1 Hd1 Hr _. rewrite wp_ret. apply Herr; [done..|]. intros Hq Hj.
    destruct (Hr Hq) as [q Hr']. unfold sql_update_spec in Hr'. stmt_cases Hr'. done.
  - intros a eff q s1 Hr Hf1 Hd1 Htx1 Hs1. unfold sql_update_spec in Hr. stmt_cases Hr. rewrite wp_ret.
    eapply Hok; [done..|congruence].
Qed.

Lemma wp_AlterTablePartitionSpec name text summary s :
  all_free (sys_locks s) ->
  wp (Catalog.AlterTablePartitionSpec name text summary) s
    (op_outcome (spec_altered name text summary s) (exists r, spec_accepted name text r s) s).
Proof.
  intros Hfree. unfold Catalog.AlterTablePartitionSpec. apply wp_with_exclusive; [done | solve_plain |].
  rewrite wp_bind. apply wp_GetTable.
  { intros e s1 [Hf1 [Hd1 _]] Hn. rewrite wp_ret. intros m Hm. by apply outcome_failed. }
  intros s1 Hu. pose proof Hu as (Hf & Hd & Hs).
  destruct (table_row name (db s)) as [[row|]|e] eqn:Erow.
  2: { rewrite wp_ret. intros m Hm. apply outcome_failed; [done..| |done]. intros _ [r []].
       unfold table_row in Erow. rewrite sa_table0 in Erow. by destruct (scan_table r). }
  2: { rewrite wp_ret. intros m Hm. apply outcome_failed; [done..| |done]. intros _ [r []].
       destruct (table_row_ok name (db s) r) as [row ?]; [done | done|]. congruence. }
  destruct (table_row_some _ _ _ Erow) as (r & Hr & Hid & Hver & _).
  assert (Hsame : forall r', live_table name (db s) = Some r' -> r' = r) by (intros; congruence).
  apply wp_with_tx.
  { intros e s2 Hf2 Hn Hd2 m Hm. apply outcome_failed; [frames | congruence | | done].
    intros Hq _. by apply Hn, (fr_quiet _ _ Hf). }
  intros tx s2 Hf2 Hd2 Hs2 Htx. rewrite (fr_now _ _ Hf), Hd in Htx. cbv zeta.
  rewrite Hver, Hid. rewrite wp_bind. eapply wp_UpdateTablePartitionSpecTx; [done| |].
  { intros e s3 Hf3 Hd3 Hno. rewrite wp_ret. intros s4 Hf4 Hd4 _ m Hm.
    apply outcome_failed; [frames | congruence | | done]. intros Hq [r' []].
    apply Hno; [by apply (fr_quiet _ _ Hf2), (fr_quiet _ _ Hf) | done]. }
  intros spec s3 Hf3 Hd3 Hj Htx3 Hs3. rewrite wp_bind. eapply wp_InsertPartitionSpecTx; [done| |].
  { intros e s4 Hf4 Hd4 Hno. rewrite wp_ret. intros s5 Hf5 Hd5 _ m Hm.
    apply outcome_failed; [frames | congruence | | done]. intros Hq [r' []].
    rewrite (Hsame r') in * by done. apply Hno; try done.
    - by apply (fr_quiet _ _ Hf3), (fr_quiet _ _ Hf2), (fr_quiet _ _ Hf).
    - by rewrite Hs3, Hs2, Hs.
    - assert (Hin := proj1 (live_table_in _ _ _ Hr)). unfold has_table. cbn. unfold update_where.
      apply existsb_exists. exists (if live_named name r then set_spec spec (int32 (t_partition_spec_version r + 1))
        (pg_now (sys_pg s)) r else r). split; [|destruct (live_named name r); apply Z.eqb_refl].
      apply in_map_iff. exists r. by rewrite <- list_elem_of_In. }
  intros spec' s4 Hf4 Hd4 Hj' Htx4 Hs4. assert (spec' = spec) as -> by congruence.
  eapply wp_finish_outcome; [frames | congruence | done |]. intros s' Hd' Hs'.
  exists r, spec. split; [done|]. split; [done|]. rewrite Hd', Hs3, Hs2, Hs. done.
Qed.

Lemma wp_UpdateTableSchema tx start d name schema version summary r s (Q : result unit -> Sys -> Prop) :
  txn tx start d s -> live_table name d = Some r ->
  (forall e s', frame s s' -> db s' = db s ->
     (quiet s -> pg_jsonb schema <> None -> seq_room (pg_seqs (sys_pg s)) SeqSchemaHistory 1 -> False) ->
     Q (Err e) s') ->
  (forall schema' s', frame s s' -> db s' = db s -> pg_jsonb schema = Some schema' ->
     txn tx start (set_schema_history (schema_history d ++
       [mk_schema_history_row (pg_seqs (sys_pg s) SeqSchemaHistory + 1) (t_table_id r) version schema' start
          (Some summary)])
       (set_tables (update_where (live_named name) (set_schema schema' version start) (tables d)) d)) s' ->
     Q (Ok tt) s') ->
  wp (UpdateTableSchema tx name schema version summary) s Q.
Proof.
  intros Htx Hr Herr Hok. unfold UpdateTableSchema. rewrite wp_bind.
  eapply wp_tx_exec; [unfold sql_update_schema; solve_monotone | done | |].
  { intros e s1 Hf1 Hd1 Hre _. rewrite wp_ret. apply Herr; [done..|]. intros Hq Hj _.
    destruct (Hre Hq) as [q Hr']. unfold sql_update_schema in Hr'. stmt_cases Hr'. done. }
  intros a eff q s1 Hre Hf1 Hd1 Htx1 Hs1. unfold sql_update_schema in Hre.
  destruct (pg_jsonb schema) as [schema'|] eqn:Hj; cbv [with_jsonb] in Hre; rewrite Hj in Hre; [|done].
  injection Hre as <- <- <-. set (d1 := set_tables _ _) in Htx1.
  assert (Hid1 : table_id name d1 = Some (t_table_id r)).
  { unfold table_id. erewrite (live_table_update (live_named name) _ name d d1); [|done|done|done].
    rewrite Hr. cbn. by destruct (live_named name r). }
  rewrite wp_bind. eapply wp_select_table_id; [done| |].
  { intros e s2 Hf2 Hd2 Hn. rewrite wp_ret. apply Herr; [frames | congruence |]. intros Hq _ _.
    rewrite Hn in Hid1; [done|]. by apply (fr_quiet _ _ Hf1). }
  intros id s2 Hid Hf2 Hd2 Htx2 Hs2. assert (id = t_table_id r) as -> by congruence.
  rewrite wp_bind. eapply wp_tx_exec; [unfold sql_insert_schema_history; solve_monotone | done | |].
  { intros e s3 Hf3 Hd3 Hre _. rewrite wp_ret. apply Herr; [frames | congruence |]. intros Hq _ [Hlo Hhi].
    destruct (Hre (fr_quiet _ _ Hf2 (fr_quiet _ _ Hf1 Hq))) as [q' Hr']. unfold sql_insert_schema_history in Hr'.
    rewrite Hs2, Hs1 in Hr'. pose proof (has_table_id name d1 _ Hid1).
    cbv [with_jsonb] in Hr'. rewrite Hj in Hr'. stmt_cases Hr'; [congruence | lia]. }
  intros a eff q' s3 Hre Hf3 Hd3 Htx3 Hs3. unfold sql_insert_schema_history in Hre.
  rewrite Hs2, Hs1 in Hre. cbv [with_jsonb] in Hre. rewrite Hj in Hre. stmt_cases Hre. rewrite wp_ret.
  eapply (Hok schema'); [frames | congruence | done | done].
Qed.

Lemma wp_AlterTableSchema name schema summary s :
  all_free (sys_locks s) ->
  wp (Catalog.AlterTableSchema name schema summary) s
    (op_outcome (schema_altered name schema summary s) (exists r, schema_accepted name schema r s) s).
Proof.
  intros Hfree. unfold Catalog.AlterTableSchema. apply wp_with_exclusive; [done | solve_plain |].
  rewrite wp_bind. apply wp_GetTable.
  { intros e s1 [Hf1 [Hd1 _]] Hn. rewrite wp_ret. intros m Hm. by apply outcome_failed. }
  intros s1 Hu. pose proof Hu as (Hf & Hd & Hs).
  destruct (table_row name (db s)) as [[row|]|e] eqn:Erow.
  2: { rewrite wp_ret. intros m Hm. apply outcome_failed; [done..| |done]. intros _ [r []].
       unfold table_row in Erow. rewrite sc_table0 in Erow. by destruct (scan_table r). }
  2: { rewrite wp_ret. intros m Hm. apply outcome_failed; [done..| |done]. intros _ [r []].
       destruct (table_row_ok name (db s) r) as [row ?]; [done | done|]. congruence. }
  destruct (table_row_some _ _ _ Erow) as (r & Hr & Hid & _ & Hver & _).
  apply wp_with_tx.
  { intros e s2 Hf2 Hn Hd2 m Hm. apply outcome_failed; [frames | congruence | | done].
    intros Hq _. by apply Hn, (fr_quiet _ _ Hf). }
  intros tx s2 Hf2 Hd2 Hs2 Htx. rewrite (fr_now _ _ Hf), Hd in Htx. cbv zeta.
  rewrite Hver. rewrite wp_bind. eapply wp_UpdateTableSchema; [done | done | |].
  { intros e s3 Hf3 Hd3 Hno. rewrite wp_ret. intros s4 Hf4 Hd4 _ m Hm.
    apply outcome_failed; [frames | congruence | | done]. intros Hq [r' []].
    apply Hno; [by apply (fr_quiet _ _ Hf2), (fr_quiet _ _ Hf) | done | by rewrite Hs2, Hs]. }
  intros schema' s3 Hf3 Hd3 Hj Htx3. rewrite Hs2, Hs in Htx3.
  eapply wp_finish_outcome; [frames | congruence | done |]. intros s' Hd' Hs'.
  exists r, schema'. done.
Qed.

(** ** RenameTable *)

Definition renamed (oldName newName : string) (s s' : Sys) : Prop :=
  live_table oldName (db s) <> None /\ name_free_for newName oldName (db s) = true /\
  db s' = rename_db (pg_now (sys_pg s)) oldName newName (db s).

Lemma no_live_rows name d :
  live_table name d = None -> List.filter (live_named name) (tables d) = [].
Proof. unfold live_table. by destruct (List.filter _ _). Qed.

Lemma update_where_none {A} (c : A -> bool) (u : A -> A) l : List.filter c l = [] -> update_where c u l = l.
Proof.
  intros Hl. unfold update_where. rewrite <- (List.map_id l) at 2. apply List.map_ext_in. intros x Hx.
  destruct (c x) eqn:E; [|done]. assert (Hin : In x (List.filter c l)) by (by apply filter_In).
  by rewrite Hl in Hin.
Qed.

Lemma wp_RenameTable oldName newName s :
  all_free (sys_locks s) -> oldName <> newName ->
  wp (Catalog.RenameTable oldName newName) s
    (op_outcome (renamed oldName newName s)
       (live_table oldName (db s) <> None /\ name_free_for newName oldName (db s) = true) s).
Proof.
  intros Hfree Hne. unfold Catalog.RenameTable. apply wp_with_exclusive2; [done | done | solve_plain |].
  rewrite wp_bind. unfold PgClient.RenameTable. rewrite wp_bind.
  set (r := sql_rename_table newName oldName (pg_now (sys_pg s)) (db s) (pg_seqs (sys_pg s))).
  assert (Hr : r = if name_free_for newName oldName (db s)
    then (Ok (Z.of_nat (length (List.filter (live_named oldName) (tables (db s)))),
              rename_db (pg_now (sys_pg s)) oldName newName), pg_seqs (sys_pg s))
    else (Err (pg_err "23505" "tables"), pg_seqs (sys_pg s))).
  { unfold r, sql_rename_table, with_now, check. by destruct (name_free_for _ _ _). }
  assert (Hlive : live_table oldName (db s) = None -> rename_db (pg_now (sys_pg s)) oldName newName (db s) = db s).
  { intros Hn. unfold rename_db. rewrite update_where_none by (by apply no_live_rows). by destruct (db s). }
  apply wp_pool; [unfold sql_rename_table; solve_monotone | |]; fold r; rewrite Hr; clear Hr r.
  - intros e s1 Hf1 Hno _ Hd1 _. rewrite !wp_ret. intros m Hm. destruct (name_free_for _ _ _) eqn:Efree.
    + assert (Hn : ~ quiet s) by (intros Hq; by destruct (Hno Hq)).
      unfold op_outcome. split_and!; try apply Hf1; [done|]. cbn. split; [|by intros []].
      destruct Hd1 as [|(a & eff & q & [= <- <- <-] & Hd1 & _)]; [by left|].
      destruct (live_table oldName (db s)) eqn:E; [right | left; by rewrite <- Hlive].
      split; [done|]. split_and!; [by rewrite E | done | done].
    + apply outcome_failed; [done | | | done].
      * by destruct Hd1 as [|(a & eff & q & [=] & _)].
      * intros _ []. congruence.
  - intros a eff q s1 Hre Hf1 Hd1 Hs1. rewrite !wp_ret. intros m Hm.
    destruct (name_free_for _ _ _) eqn:Efree; [|done]. injection Hre as <- <- <-.
    destruct (live_table oldName (db s)) as [r|] eqn:E.
    + unfold live_table in E. destruct (List.filter _ _) as [|r0 rs] eqn:El; [done|].
      assert (Hlen : (0 <? Z.of_nat (length (r0 :: rs))) = true) by (apply Z.ltb_lt; cbn; lia).
      rewrite Hlen. unfold op_outcome. split_and!; try apply Hf1; [done|]. cbn. split; [|done].
      unfold renamed, live_table. rewrite El. split_and!; done.
    + rewrite (no_live_rows _ _ E). cbn. apply outcome_failed; [done | by rewrite Hd1, Hlive | | done].
      by intros _ [].
Qed.

(** ** DropTable *)

Definition dropped (name : string) (s s' : Sys) : Prop :=
  live_table name (db s) <> None /\ db s' = drop_db (pg_now (sys_pg s)) name (db s).

Lemma wp_DropTable_soft name s :
  all_free (sys_locks s) ->
  wp (Catalog.DropTable name false) s
    (op_outcome (dropped name s) (live_table name (db s) <> None) s).
Proof.
  intros Hfree. unfold Catalog.DropTable. apply wp_with_exclusive; [done | solve_plain |].
  apply wp_with_tx.
  { intros e s1 Hf1 Hn Hd1 m Hm. by apply outcome_failed. }
  intros tx s1 Hf1 Hd1 Hs1 Htx. unfold PgClient.DropTable. rewrite wp_bind, wp_bind.
  eapply wp_tx_exec; [unfold sql_soft_delete_table; solve_monotone | done | |].
  { intros e s2 Hf2 Hd2 Hr _. rewrite !wp_ret. intros s3 Hf3 Hd3 _ m Hm.
    apply outcome_failed; [frames | congruence | | done]. intros Hq _.
    by destruct (Hr (fr_quiet _ _ Hf1 Hq)) as [q [=]]. }
  intros a eff q s2 [= <- <- <-] Hf2 Hd2 Htx2 Hs2. rewrite wp_ret.
  destruct (live_table name (db s)) as [r|] eqn:E.
  - unfold live_table in E. destruct (List.filter _ _) as [|r0 rs] eqn:El; [done|].
    assert (Hlen : (0 <? Z.of_nat (length (r0 :: rs))) = true) by (apply Z.ltb_lt; cbn; lia).
    rewrite Hlen. eapply wp_finish_outcome; [frames | congruence | done |].
    intros s' Hd' _. split; [unfold live_table; by rewrite El | done].
  - rewrite (no_live_rows _ _ E). change (0 <? Z.of_nat (@length tables_row [])) with false. rewrite wp_ret. intros s3 Hf3 Hd3 _ m Hm.
    apply outcome_failed; [frames | congruence | done | done].
Qed.

(** The rows just before the snapshots go, and just before the table goes. *)
Definition purge_files (id : Z) (d : DB) : DB :=
  mkDB (tables d) (schema_history d) (snapshots d)
    (delete_where (fun r => p_table_id r =? id) (partitions d)) (transactions d)
    (delete_where (fun r => mf_table_id r =? id) (manifest_files d))
    (delete_where (fun r => ml_table_id r =? id) (manifest_lists d)) (partition_specs d).

Definition purge_children (id : Z) (d : DB) : DB :=
  mkDB (tables d) (delete_where (fun r => sh_table_id r =? id) (schema_history d))
    (delete_where (fun r => s_table_id r =? id) (snapshots d))
    (delete_where (fun r => p_table_id r =? id) (partitions d)) (transactions d)
    (delete_where (fun r => mf_table_id r =? id) (manifest_files d))
    (delete_where (fun r => ml_table_id r =? id) (manifest_lists d))
    (delete_where (fun r => ps_table_id r =? id) (partition_specs d)).

(** The foreign keys let the snapshots and the table go. *)
Definition purgeable (name : string) (id : Z) (d : DB) : Prop :=
  snapshots_unreferenced id (purge_files id d) = true /\
  forallb (fun r => negb (String.eqb (t_table_name r) name) || table_unreferenced (t_table_id r) (purge_children id d))
    (tables d) = true.

Definition purged (name : string) (s s' : Sys) : Prop :=
  exists id, table_id name (db s) = Some id /\ purgeable name id (db s) /\ db s' = purge_db name id (db s).

(** A DELETE of the purge. *)
Lemma wp_tx_delete {A B} tx start d (f : DB -> list A) g (s : Sys) (k : Z -> Prog Sys (result B)) Q :
  txn tx start d s ->
  (forall e s', frame s s' -> db s' = db s -> ~ quiet s -> Q (Err e) s') ->
  (forall a s', frame s s' -> db s' = db s -> txn tx start (g d) s' -> wp (k a) s' Q) ->
  wp (try* a := tx_exec tx (modify f g) in k a) s Q.
Proof.
  intros Htx Herr Hok. rewrite wp_bind. eapply wp_tx_exec; [apply monotone_modify | done | |].
  - intros e s1 Hf1 Hd1 Hr _. rewrite wp_ret. apply Herr; [done..|]. intros Hq. by destruct (Hr Hq) as [q [=]].
  - intros a eff q s1 [= <- <- <-] Hf1 Hd1 Htx1 _. by apply Hok.
Qed.

(** The deletes of a purge end in [purge_db], or the foreign keys refuse. *)
Lemma wp_purge_rows tx start d name id s0 s (Q : result bool -> Sys -> Prop) :
  frame s0 s -> db s = db s0 -> txn tx start d s -> table_id name d = Some id ->
  (forall e s', frame s0 s' -> db s' = db s0 -> (quiet s0 -> purgeable name id d -> False) -> Q (Err e) s') ->
  (forall s', frame s0 s' -> db s' = db s0 -> purgeable name id d -> txn tx start (purge_db name id d) s' ->
     Q (Ok true) s') ->
  wp (purge_rows tx id name) s Q.
Proof.
  intros Hf Hd Htx Hid Herr Hok. unfold purge_rows.
  (* a delete without foreign keys fails only with the network *)
  assert (Hnet : forall s1, frame s0 s1 -> db s1 = db s0 ->
    forall (e : error) s', frame s1 s' -> db s' = db s1 -> ~ quiet s1 -> Q (Err e) s').
  { intros s1 Hf1 Hd1 e s' Hf' Hd' Hn. apply Herr; [frames | congruence |]. intros Hq _.
    by apply Hn, (fr_quiet _ _ Hf1). }
  eapply wp_tx_delete; [done | by apply Hnet |]. intros _ s1 Hf1 Hd1 Htx1.
  assert (F1 : frame s0 s1) by frames. assert (D1 : db s1 = db s0) by congruence.
  eapply wp_tx_delete; [done | by apply Hnet |]. intros _ s2 Hf2 Hd2 Htx2.
  assert (F2 : frame s0 s2) by frames. assert (D2 : db s2 = db s0) by congruence.
  eapply wp_tx_delete; [done | by apply Hnet |]. intros _ s3 Hf3 Hd3 Htx3.
  assert (F3 : frame s0 s3) by frames. assert (D3 : db s3 = db s0) by congruence.
  change (txn tx start (purge_files id d) s3) in Htx3.
  rewrite wp_bind. eapply wp_tx_exec; [unfold sql_delete_snapshots; solve_monotone | done | |].
  { intros e s4 Hf4 Hd4 Hr _. rewrite wp_ret. apply Herr; [frames | congruence |]. intros Hq [Hp _].
    destruct (Hr (fr_quiet _ _ F3 Hq)) as [q Hr']. unfold sql_delete_snapshots, check in Hr'.
    by rewrite Hp in Hr'. }
  intros a eff q s4 Hr Hf4 Hd4 Htx4 _. unfold sql_delete_snapshots, check in Hr.
  destruct (snapshots_unreferenced id (purge_files id d)) eqn:Hsn; [|done]. injection Hr as _ <- _.
  assert (F4 : frame s0 s4) by frames. assert (D4 : db s4 = db s0) by congruence.
  eapply wp_tx_delete; [done | by apply Hnet |]. intros _ s5 Hf5 Hd5 Htx5.
  assert (F5 : frame s0 s5) by frames. assert (D5 : db s5 = db s0) by congruence.
  eapply wp_tx_delete; [done | by apply Hnet |]. intros _ s6 Hf6 Hd6 Htx6.
  assert (F6 : frame s0 s6) by frames. assert (D6 : db s6 = db s0) by congruence.
  change (txn tx start (purge_children id d) s6) in Htx6.
  rewrite wp_bind. eapply wp_tx_exec; [unfold sql_delete_table; solve_monotone | done | |].
  { intros e s7 Hf7 Hd7 Hr _. rewrite wp_ret. apply Herr; [frames | congruence |]. intros Hq [_ Hp].
    destruct (Hr (fr_quiet _ _ F6 Hq)) as [q' Hr']. unfold sql_delete_table, check in Hr'.
    change (tables (purge_children id d)) with (tables d) in Hr'. by rewrite Hp in Hr'. }
  intros a' eff q' s7 Hr Hf7 Hd7 Htx7 _. unfold sql_delete_table, check in Hr.
  change (tables (purge_children id d)) with (tables d) in Hr. destruct (forallb _ _) eqn:Hfk; [|done].
  injection Hr as <- <- _. rewrite wp_ret.
  unfold table_id in Hid. destruct (live_table name d) as [r|] eqn:E; [|done].
  apply live_table_in in E as [Hin Hlive].
  replace (0 <? _) with true; [apply Hok; [frames | congruence | by split | done]|].
  symmetry. apply Z.ltb_lt. destruct (List.filter _ _) eqn:El; [|cbn; lia].
  assert (Hin' : In r (List.filter (fun r => String.eqb (t_table_name r) name) (tables d))).
  { apply filter_In. rewrite <- list_elem_of_In. split; [done|].
    unfold live_named in Hlive. by apply andb_true_iff in Hlive as [? _]. }
  cbn in El. by rewrite El in Hin'.
Qed.

Lemma wp_DropTable_purge name s :
  all_free (sys_locks s) ->
  wp (Catalog.DropTable name true) s
    (op_outcome (purged name s) (exists id, table_id name (db s) = Some id /\ purgeable name id (db s)) s).
Proof.
  intros Hfree. unfold Catalog.DropTable. apply wp_with_exclusive; [done | solve_plain |].
  apply wp_with_tx.
  { intros e s1 Hf1 Hn Hd1 m Hm. by apply outcome_failed. }
  intros tx s1 Hf1 Hd1 Hs1 Htx. unfold PgClient.DropTable. rewrite wp_bind, wp_bind.
  eapply wp_tx_select_row; [done| |].
  { intros e s2 Hf2 Hd2 Hn He. destruct e; [done| |]; rewrite !wp_ret; intros s3 Hf3 Hd3 _ m Hm;
      (apply outcome_failed; [frames | congruence | | done]); intros Hq _; by apply Hn, (fr_quiet _ _ Hf1). }
  intros s2 Hf2 Hd2 Htx2 Hs2. rewrite first_row_table_id. destruct (table_id name (db s)) as [id|] eqn:Hid.
  2: { rewrite !wp_ret. intros s3 Hf3 Hd3 _ m Hm. apply outcome_failed; [frames | congruence | | done].
       intros _ (? & ? & _). congruence. }
  eapply (wp_purge_rows _ _ _ _ _ s); [frames | congruence | done | done | |].
  - intros e s3 Hf3 Hd3 Hno. rewrite wp_ret. intros s4 Hf4 Hd4 _ m Hm.
    apply outcome_failed; [frames | congruence | | done]. intros Hq (id' & Hid' & Hp).
    assert (id' = id) as -> by congruence. by apply Hno.
  - intros s3 Hf3 Hd3 Hp Htx3. eapply wp_finish_outcome; [frames | congruence | done |].
    intros s' Hd' _. by exists id.
Qed.

End specs.
