(* ===== verification/CatalogWf.v ===== *)
(** * Table operations keep the catalog well-formed

    And which of the answers readers get they may change. *)
From S2P Require Import Prelude Prog Models PartitionSpec GoJson Postgres World PgClient PgFacts Reads.
From S2P Require Import Catalog Wf Visibility CatalogFacts.

Section wf.
Context `{Postgres} `{GoText}.
Implicit Types (q : Seqs) (d : DB).

(** A new version of the tables relation, the rest that matters unchanged. *)
Lemma db_wf_tables q d d' :
  db_wf q d -> snapshots d' = snapshots d -> partitions d' = partitions d ->
  manifest_lists d' = manifest_lists d -> manifest_files d' = manifest_files d ->
  (forall i, has_table i d = true -> has_table i d' = true) ->
  NoDup (map t_table_id (tables d')) -> NoDup (map t_table_name (tables d')) ->
  (forall r, r ∈ tables d' -> table_wf q d r) ->
  (forall r, r ∈ partition_specs d' -> has_table (ps_table_id r) d' = true) -> db_wf q d'.
Proof.
  intros Hwf Hs Hp Hm Hf Hht Hids Hnames Ht Hsp.
  assert (Hsi : forall i, snapshot_ids i d' = snapshot_ids i d) by (intros i; unfold snapshot_ids; by rewrite Hs).
  split; try done.
  - apply Hwf.
  - intros r Hr. destruct (Ht r Hr) as (? & ? & ?). split_and!; [done..|]. unfold head_snapshot. by rewrite Hsi.
  - rewrite Hs. apply Hwf.
  - rewrite Hs. intros r Hr. destruct (wf_snapshots _ _ Hwf r Hr) as (? & ? & ?). split_and!; [done | auto |].
    unfold latest_below. by rewrite Hsi.
  - rewrite Hp. apply Hwf.
  - rewrite Hp. intros r Hr. unfold partition_wf. rewrite Hsi. by apply (wf_partitions _ _ Hwf).
  - rewrite Hm, Hs. apply Hwf.
  - rewrite Hf. intros r Hr. rewrite Hsi. by apply (wf_manifest_files _ _ Hwf).
  - rewrite Hf. apply Hwf.
  - rewrite Hf. apply Hwf.
  - rewrite Hm. unfold manifests_of. rewrite Hf. apply (wf_manifest_counts _ _ Hwf).
Qed.

Lemma has_table_update c u i d d' :
  tables d' = update_where c u (tables d) -> (forall r, t_table_id (u r) = t_table_id r) ->
  has_table i d' = has_table i d.
Proof.
  intros Ht Hu. unfold has_table. rewrite Ht. clear Ht. unfold update_where.
  induction (tables d) as [|r l IH]; [done|]. cbn. rewrite IH. destruct (c r); by rewrite ?Hu.
Qed.

(** An update of table rows that keeps ids, pointers and specs. *)
Lemma db_wf_update q c u d d' :
  db_wf q d -> tables d' = update_where c u (tables d) -> snapshots d' = snapshots d ->
  partitions d' = partitions d -> manifest_lists d' = manifest_lists d -> manifest_files d' = manifest_files d ->
  (forall r, t_table_id (u r) = t_table_id r) ->
  (forall r, t_current_snapshot_id (u r) = t_current_snapshot_id r) ->
  (forall r, t_partition_spec r <> None -> t_partition_spec (u r) <> None) ->
  NoDup (map t_table_name (tables d')) ->
  (forall r, r ∈ partition_specs d' -> has_table (ps_table_id r) d = true) -> db_wf q d'.
Proof.
  intros Hwf Ht Hs Hp Hm Hf Hid Hcur Hspec Hnames Hsp. apply (db_wf_tables q d); try done.
  - intros i. by rewrite (has_table_update c u i d d').
  - rewrite Ht, update_where_column by done. apply Hwf.
  - rewrite Ht. intros r (r0 & Hin & ->)%elem_of_update_where.
    destruct (wf_tables _ _ Hwf r0 Hin) as (? & ? & ?). destruct (c r0); [|done].
    unfold table_wf. rewrite Hid, Hcur. split_and!; auto.
  - intros r Hr. rewrite (has_table_update c u _ d d') by done. auto.
Qed.

Lemma alter_spec_wf q now q0 name spec summary r d :
  db_wf q d -> live_table name d = Some r -> db_wf q (alter_spec_db now q0 name spec summary r d).
Proof.
  intros Hwf Hr. eapply (db_wf_update q (live_named name)); try done.
  - cbn. rewrite update_where_column by done. apply Hwf.
  - intros p [Hp|Hp]%elem_of_app; [by apply Hwf|]. apply list_elem_of_singleton in Hp as ->. cbn.
    apply (has_table_id name). unfold table_id. by rewrite Hr.
Qed.

Lemma alter_schema_wf q now q0 name schema summary r d :
  db_wf q d -> db_wf q (alter_schema_db now q0 name schema summary r d).
Proof.
  intros Hwf. eapply (db_wf_update q (live_named name)); try done; [|apply Hwf].
  cbn. rewrite update_where_column by done. apply Hwf.
Qed.

Lemma drop_wf q now name d : db_wf q d -> db_wf q (drop_db now name d).
Proof.
  intros Hwf. eapply (db_wf_update q (live_named name)); try done; [|apply Hwf].
  cbn. rewrite update_where_column by done. apply Hwf.
Qed.

(** At most one row is renamed, to a name no other row has. *)
Lemma rename_names oldName newName now d :
  NoDup (map t_table_name (tables d)) -> name_free_for newName oldName d = true ->
  NoDup (map t_table_name (update_where (live_named oldName) (set_name newName now) (tables d))).
Proof.
  unfold name_free_for. intros Hnd Hfree. unfold update_where.
  apply orb_true_iff in Hfree as [Hfree|Hfree]; apply negb_true_iff in Hfree.
  - rewrite List.map_map. erewrite List.map_ext_in; [exact Hnd|]. intros r Hin.
    destruct (live_named oldName r) eqn:E; [|done].
    assert (existsb (live_named oldName) (tables d) = true); [|congruence]. apply existsb_exists. by exists r.
  - revert Hnd Hfree. induction (tables d) as [|r l IH]; intros Hnd Hfree; [apply NoDup_nil_2|]. cbn in *.
    apply orb_false_iff in Hfree as [Hr Hfree]. apply NoDup_cons in Hnd as [Hnotin Hnd].
    apply NoDup_cons. split; [|by apply IH].
    rewrite list_elem_of_In, List.map_map, in_map_iff. intros (r' & Hr' & Hin').
    assert (Hneq : t_table_name r' <> t_table_name r).
    { intros E. apply Hnotin. rewrite <- E. apply list_elem_of_In, in_map, Hin'. }
    assert (Hf' : String.eqb (t_table_name r') newName && negb (live_named oldName r') = false).
    { apply not_true_is_false. intros E. assert (existsb (fun r => String.eqb (t_table_name r) newName &&
        negb (live_named oldName r)) l = true); [|congruence]. apply existsb_exists. by exists r'. }
    destruct (live_named oldName r) eqn:E1, (live_named oldName r') eqn:E2; cbn in Hr'.
    + unfold live_named in E1, E2. apply andb_true_iff in E1 as [E1%String.eqb_eq _], E2 as [E2%String.eqb_eq _].
      congruence.
    + rewrite Hr', String.eqb_refl in Hf'. done.
    + rewrite <- Hr', String.eqb_refl in Hr. done.
    + done.
Qed.

Lemma rename_wf q now oldName newName d :
  db_wf q d -> name_free_for newName oldName d = true -> db_wf q (rename_db now oldName newName d).
Proof.
  intros Hwf Hfree. eapply (db_wf_update q (live_named oldName)); try done; [|apply Hwf].
  apply rename_names; [apply Hwf | done].
Qed.

Lemma snapshot_ids_fresh q d i : db_wf q d -> q SeqTables < i -> snapshot_ids i d = [].
Proof.
  intros Hwf Hi. destruct (snapshot_ids i d) as [|n l] eqn:E; [done|].
  assert (Hin : n ∈ snapshot_ids i d) by (rewrite E; left).
  apply elem_of_snapshot_ids in Hin as (r & Hin & Ht & _).
  destruct (wf_snapshots _ _ Hwf r Hin) as (_ & Hht & _). unfold has_table in Hht.
  apply existsb_exists in Hht as (t & Hin' & Heq%Z.eqb_eq). apply list_elem_of_In in Hin'.
  destruct (wf_tables _ _ Hwf t Hin') as [[? ?] _]. lia.
Qed.

Lemma create_wf q q' now name schema text spec props d :
  db_wf q d -> name_taken name d = false -> seqs_le q q' -> q SeqTables + 1 <= q' SeqTables ->
  db_wf q' (create_db now q name schema text spec props d).
Proof.
  intros Hwf Hnew Hle Hq. pose proof (db_wf_mono _ _ _ Hwf Hle) as Hwf'.
  pose proof (wf_seqs _ _ Hwf SeqTables) as Hq0.
  apply (db_wf_tables q' d); try done.
  - intros i Hi. unfold has_table in *. cbn. by rewrite existsb_app, Hi.
  - cbn. rewrite map_app. apply NoDup_app. split_and!; [apply Hwf | | apply NoDup_singleton].
    intros x Hx ->%list_elem_of_singleton. apply list_elem_of_In, in_map_iff in Hx as (r & Hr & Hin).
    apply list_elem_of_In, (wf_tables _ _ Hwf) in Hin as [[? ?] _]. cbn in Hr. lia.
  - cbn. rewrite map_app. apply NoDup_app. split_and!; [apply Hwf | | apply NoDup_singleton].
    intros x Hx ->%list_elem_of_singleton. apply list_elem_of_In, in_map_iff in Hx as (r & Hr & Hin).
    assert (name_taken name d = true); [|congruence]. unfold name_taken. apply existsb_exists. exists r.
    split; [done|]. cbn in Hr. by rewrite Hr, String.eqb_refl.
  - intros r [Hin|Hin]%elem_of_app; [by apply Hwf'|]. apply list_elem_of_singleton in Hin as ->.
    unfold table_wf. cbn [t_table_id t_partition_spec t_current_snapshot_id]. split_and!; [split; lia | done |].
    unfold head_snapshot. by rewrite (snapshot_ids_fresh q) by (done || lia).
  - intros p [Hp|Hp]%elem_of_app; unfold has_table; cbn; rewrite existsb_app; apply orb_true_iff;
      [left; by apply (wf_specs _ _ Hwf) | right].
    unfold initial_spec_rows in Hp. destruct (_ && _); [|by apply elem_of_nil in Hp].
    apply list_elem_of_singleton in Hp as ->. cbn. by rewrite Z.eqb_refl.
Qed.

(** ** Purge *)

Lemma elem_of_delete_where {A} (c : A -> bool) l x : x ∈ delete_where c l <-> x ∈ l /\ c x = false.
Proof. unfold delete_where. by rewrite !list_elem_of_In, filter_In, negb_true_iff. Qed.

Lemma purge_snapshot_ids name id d i :
  i <> id -> snapshot_ids i (purge_db name id d) = snapshot_ids i d.
Proof.
  intros Hi. unfold snapshot_ids. cbn. unfold delete_where. rewrite filter_filter. f_equal.
  apply filter_ext_elem. intros r _. destruct (Z.eqb_spec (s_table_id r) i), (Z.eqb_spec (s_table_id r) id); cbn; congruence.
Qed.

(** The purged name and the purged id are those of one row. *)
Lemma purge_other_row q name id d r :
  db_wf q d -> table_id name d = Some id -> r ∈ tables d ->
  String.eqb (t_table_name r) name = false <-> t_table_id r <> id.
Proof.
  intros Hwf Hid Hin. unfold table_id in Hid. destruct (live_table name d) as [r0|] eqn:E; [|done].
  injection Hid as <-. apply live_table_in in E as [Hin0 Hlive].
  unfold live_named in Hlive. apply andb_true_iff in Hlive as [Hname%String.eqb_eq _].
  rewrite String.eqb_neq. apply list_elem_of_lookup_1 in Hin as [i Hi], Hin0 as [j Hj]. split; intros Hne E; apply Hne.
  - assert (i = j) as ->; [|congruence].
    eapply (NoDup_lookup _ _ _ (t_table_id r) (wf_table_ids _ _ Hwf)); rewrite list_lookup_fmap, ?Hi, ?Hj; cbn; congruence.
  - assert (i = j) as ->; [|congruence].
    eapply (NoDup_lookup _ _ _ (t_table_name r) (wf_names _ _ Hwf)); rewrite list_lookup_fmap, ?Hi, ?Hj; cbn; congruence.
Qed.

Lemma purge_has_table q name id d i :
  db_wf q d -> table_id name d = Some id -> i <> id -> has_table i d = true -> has_table i (purge_db name id d) = true.
Proof.
  intros Hwf Hid Hi. unfold has_table. rewrite !existsb_exists. intros (r & Hin & Hr). exists r. split; [|done].
  cbn. apply list_elem_of_In, elem_of_delete_where. apply list_elem_of_In in Hin. split; [done|].
  apply Z.eqb_eq in Hr. apply (purge_other_row q name id d); try done. congruence.
Qed.

(** The list and the files of a snapshot are of the same table. *)
Lemma manifest_list_table q d :
  db_wf q d -> forall l r, l ∈ manifest_lists d -> r ∈ manifest_files d ->
  mf_snapshot_id r = ml_snapshot_id l -> ml_table_id l = mf_table_id r.
Proof.
  intros Hwf l r Hl Hr E. pose proof (wf_manifest_files _ _ Hwf r Hr) as Hs.
  apply elem_of_snapshot_ids in Hs as (s1 & Hs1 & Ht1 & Hi1).
  assert (Hin : (ml_snapshot_id l, ml_table_id l) ∈ map (fun r => (s_snapshot_id r, s_table_id r)) (snapshots d)).
  { rewrite <- (wf_manifest_lists _ _ Hwf). apply list_elem_of_In, in_map_iff. exists l. split; [done|]. by apply list_elem_of_In. }
  apply list_elem_of_In, in_map_iff in Hin as (s2 & [= Hi2 Ht2] & Hs2). apply list_elem_of_In in Hs2.
  assert (s1 = s2) as ->; [|congruence].
  apply (NoDup_map_inj s_snapshot_id (snapshots d)); [apply Hwf | done | done | congruence].
Qed.

Lemma purge_wf q name id d :
  db_wf q d -> table_id name d = Some id -> db_wf q (purge_db name id d).
Proof.
  intros Hwf Hid. split.
  - apply Hwf.
  - by apply NoDup_map_filter, Hwf.
  - by apply NoDup_map_filter, Hwf.
  - intros r [Hin Hr]%elem_of_delete_where. apply (purge_other_row q name id d) in Hr; [|done..].
    destruct (wf_tables _ _ Hwf r Hin) as (? & ? & ?). split_and!; [done..|].
    unfold head_snapshot. by rewrite purge_snapshot_ids.
  - by apply NoDup_map_filter, Hwf.
  - intros r [Hin Hr%Z.eqb_neq]%elem_of_delete_where. destruct (wf_snapshots _ _ Hwf r Hin) as (? & ? & ?).
    split_and!; [done | by eapply purge_has_table |]. unfold latest_below. by rewrite purge_snapshot_ids.
  - by apply NoDup_map_filter, Hwf.
  - intros r [Hin Hr%Z.eqb_neq]%elem_of_delete_where. unfold partition_wf.
    rewrite purge_snapshot_ids by done. by apply (wf_partitions _ _ Hwf).
  - cbn. unfold delete_where. pose proof (filter_Permutation (fun p : Z * Z => negb (p.2 =? id)) _ _
      (wf_manifest_lists _ _ Hwf)) as Hp. by rewrite !filter_map_comm in Hp.
  - intros r [Hin Hr%Z.eqb_neq]%elem_of_delete_where. rewrite purge_snapshot_ids by done.
    by apply (wf_manifest_files _ _ Hwf).
  - by apply NoDup_map_filter, Hwf.
  - intros r [Hin _]%elem_of_delete_where. by apply Hwf.
  - intros l [Hin Hl%Z.eqb_neq]%elem_of_delete_where. rewrite (wf_manifest_counts _ _ Hwf l Hin).
    unfold manifests_of. cbn. unfold delete_where. rewrite filter_filter. do 2 f_equal.
    apply filter_ext_elem. intros r Hr. destruct (Z.eqb_spec (mf_snapshot_id r) (ml_snapshot_id l)) as [E|]; [|by rewrite andb_false_r].
    destruct (Z.eqb_spec (mf_table_id r) id) as [Hid'|]; [|done]. destruct Hl.
    rewrite <- Hid'. by apply (manifest_list_table q d Hwf l r).
  - intros r [Hin Hr%Z.eqb_neq]%elem_of_delete_where. eapply purge_has_table; [done..|]. by apply (wf_specs _ _ Hwf).
Qed.

(** ** Which tables change *)

(** Rows whose new version is live under no other name than the old one. *)
Lemma live_table_other (c : tables_row -> bool) u t d d' :
  tables d' = update_where c u (tables d) ->
  (forall r, c r = true -> live_named t r = false /\ live_named t (u r) = false) ->
  live_table t d' = live_table t d.
Proof.
  intros Ht Hc. unfold live_table. rewrite Ht. unfold update_where. rewrite filter_map_comm, head_map.
  rewrite (filter_ext_elem _ (live_named t)).
  - destruct (List.filter (live_named t) (tables d)) as [|r l] eqn:E; [done|]. cbn. f_equal.
    assert (Hin : In r (List.filter (live_named t) (tables d))) by (rewrite E; by left).
    apply filter_In in Hin as [_ Hr]. destruct (c r) eqn:Ec; [|done]. apply Hc in Ec as [? _]. congruence.
  - intros r _. destruct (c r) eqn:Ec; [|done]. by destruct (Hc r Ec) as [-> ->].
Qed.

Lemma live_named_other t name r : live_named name r = true -> t <> name -> live_named t r = false.
Proof.
  unfold live_named. intros [Hr%String.eqb_eq ->]%andb_true_iff Hn. apply andb_false_iff. left.
  apply String.eqb_neq. congruence.
Qed.

(** An update that keeps name and mark leaves the tables of other names. *)
Lemma live_table_kept name u t d d' :
  tables d' = update_where (live_named name) u (tables d) -> (forall r, t_table_name (u r) = t_table_name r) ->
  (forall r, t_is_deleted (u r) = t_is_deleted r) -> t <> name -> live_table t d' = live_table t d.
Proof.
  intros Ht Hn Hd Hne. apply (live_table_other _ _ _ _ _ Ht). intros r Hr.
  assert (live_named t r = false) as Hl by (by eapply live_named_other). split; [done|].
  unfold live_named in *. by rewrite Hn, Hd.
Qed.

Lemma create_live now q name schema text spec props d t :
  t <> name -> live_table t (create_db now q name schema text spec props d) = live_table t d.
Proof.
  intros Ht. unfold live_table. cbn. rewrite List.filter_app. cbn. unfold live_named at 2. cbn.
  destruct (String.eqb_spec name t); [congruence|]. cbn. by rewrite app_nil_r.
Qed.

Lemma rename_live now oldName newName d t :
  t <> oldName -> t <> newName -> live_table t (rename_db now oldName newName d) = live_table t d.
Proof.
  intros Ho Hn. apply (live_table_other (live_named oldName) (set_name newName now)); [done|].
  intros r Hr. split; [by eapply live_named_other|]. unfold live_named in *. cbn.
  apply andb_false_iff. left. apply String.eqb_neq. congruence.
Qed.

Lemma drop_live now name d t : t <> name -> live_table t (drop_db now name d) = live_table t d.
Proof.
  intros Hn. apply (live_table_other (live_named name) (set_deleted now)); [done|].
  intros r Hr. split; [by eapply live_named_other|]. unfold live_named. cbn. by rewrite andb_false_r.
Qed.

Lemma purge_live name id d t : t <> name -> live_table t (purge_db name id d) = live_table t d.
Proof.
  intros Hn. unfold live_table. cbn. unfold delete_where. rewrite filter_filter. f_equal. apply filter_ext_elem.
  intros r _. unfold live_named. destruct (String.eqb_spec (t_table_name r) t) as [->|]; cbn.
  - by destruct (String.eqb_spec t name).
  - by rewrite andb_false_r.
Qed.

(** ** Which answers change *)

(** What readers are told of a table rests on its id and on the partitions. *)
Lemma partitions_at_ext t n d d' :
  table_id t d' = table_id t d -> partitions d' = partitions d -> partitions_at t n d' = partitions_at t n d.
Proof.
  intros Ht Hp. unfold partitions_at, table_id_or, visible_rows. by rewrite Ht, Hp.
Qed.

Lemma partitions_at_live t n d d' :
  live_table t d' = live_table t d -> partitions d' = partitions d -> partitions_at t n d' = partitions_at t n d.
Proof. intros Hl. apply partitions_at_ext. unfold table_id. by rewrite Hl. Qed.

Lemma alter_spec_answers now q name spec summary r d t n :
  partitions_at t n (alter_spec_db now q name spec summary r d) = partitions_at t n d.
Proof.
  apply partitions_at_ext; [|done]. unfold table_id. erewrite live_table_update; [|done..].
  destruct (live_table t d) as [r'|]; [|done]. cbn. by destruct (live_named name r').
Qed.

Lemma alter_schema_answers now q name schema summary r d t n :
  partitions_at t n (alter_schema_db now q name schema summary r d) = partitions_at t n d.
Proof.
  apply partitions_at_ext; [|done]. unfold table_id. erewrite live_table_update; [|done..].
  destruct (live_table t d) as [r'|]; [|done]. cbn. by destruct (live_named name r').
Qed.

Lemma create_answers now q name schema text spec props d t n :
  t <> name -> partitions_at t n (create_db now q name schema text spec props d) = partitions_at t n d.
Proof. intros Ht. apply partitions_at_live; [by apply create_live | done]. Qed.

Lemma rename_answers now oldName newName d t n :
  t <> oldName -> t <> newName -> partitions_at t n (rename_db now oldName newName d) = partitions_at t n d.
Proof. intros Ho Hn. apply partitions_at_live; [by apply rename_live | done]. Qed.

Lemma drop_answers now name d t n :
  t <> name -> partitions_at t n (drop_db now name d) = partitions_at t n d.
Proof. intros Hn. apply partitions_at_live; [by apply drop_live | done]. Qed.

Lemma purge_answers q name id d t n :
  db_wf q d -> table_id name d = Some id -> t <> name ->
  partitions_at t n (purge_db name id d) = partitions_at t n d.
Proof.
  intros Hwf Hid Hn. unfold partitions_at, table_id_or, table_id. rewrite purge_live by done.
  destruct (live_table t d) as [r|] eqn:E; [|done]. cbn. f_equal. destruct (t_table_id r <? 0); [done|]. f_equal.
  assert (Hne : t_table_id r <> id).
  { apply live_table_in in E as [Hin Hr]. unfold live_named in Hr. apply andb_true_iff in Hr as [Hr%String.eqb_eq _].
    apply (purge_other_row q name id d); [done..|]. rewrite Hr. by apply String.eqb_neq. }
  unfold visible_rows. cbn. unfold delete_where. rewrite filter_filter. do 2 f_equal.
  apply filter_ext_elem. intros p _. unfold visible.
  destruct (Z.eqb_spec (p_table_id p) (t_table_id r)) as [->|]; cbn; [|by rewrite andb_false_r].
  by destruct (Z.eqb_spec (t_table_id r) id).
Qed.

End wf.
