(* ===== verification/ServerFacts.v ===== *)
(** * Every handler keeps the system well-formed

    [ok p]: from any well-formed system the program [p] finishes, blocked
    nowhere, in a well-formed system; and with every round trip delivered it
    keeps the cache in agreement with the database.  [ok] composes along
    binds, so a handler is [ok] because its parts are. *)
From S2P Require Import Prelude Prog CacheInterface LRU MVCC Lock Models PartitionSpec GoJson Postgres World.
From S2P Require Import PgClient PgFacts PgPlain Reads Registry Commit Wf Visibility Coherence CommitFacts.
From S2P Require Import ManifestStore Config SchemaStore SpecStore Catalog CatalogFacts CatalogWf Proto Server.

Section ok.
Context `{Postgres} `{GoText}.

(** ** The invariant *)

(** One pin per active transaction, under an id the database issued. *)
Definition mvcc_wf (q : Seqs) (m : MVCCManager) : Prop :=
  pins_ok m /\ forall i tx, activeTransactions m !! i = Some tx -> issued q SeqTransactions i.

Record system_wf (s : Sys) : Prop := {
  sys_db_wf : db_wf (pg_seqs (sys_pg s)) (db s);
  sys_locks_free : all_free (sys_locks s);
  sys_mvcc_wf : mvcc_wf (pg_seqs (sys_pg s)) (sys_mvcc s);
}.

(** The cache agrees with the database. *)
Definition cache_fresh (s : Sys) : Prop := coherent (db s) (sys_cache s).

(** What a handler may turn [s] into. *)
Definition safe_step (s s' : Sys) : Prop :=
  system_wf s' /\ (quiet s -> quiet s') /\ (quiet s -> cache_fresh s -> cache_fresh s') /\
  seqs_le (pg_seqs (sys_pg s)) (pg_seqs (sys_pg s')).

Definition ok {A} (p : Prog Sys A) : Prop := forall s, system_wf s -> wp p s (fun _ s' => safe_step s s').

(** ** Composition *)

Lemma ok_ret {A} (a : A) : ok (Ret a).
Proof. intros s Hs. rewrite wp_ret. split_and!; [done.. | apply seqs_le_refl]. Qed.

Lemma ok_bind {A B} (p : Prog Sys A) (k : A -> Prog Sys B) : ok p -> (forall a, ok (k a)) -> ok (bind p k).
Proof.
  intros Hp Hk s Hs. rewrite wp_bind. eapply wp_mono; [by apply Hp|]. intros a s1 (Hs1 & Hq1 & Hc1 & Hle1).
  eapply wp_mono; [by apply Hk|]. intros b s2 (Hs2 & Hq2 & Hc2 & Hle2). split_and!; [done | auto | auto | by etrans].
Qed.

Lemma ok_match_result {A B} (r : result A) (f : A -> Prog Sys B) (g : error -> Prog Sys B) :
  (forall a, ok (f a)) -> (forall e, ok (g e)) -> ok (match r with Ok a => f a | Err e => g e end).
Proof. by destruct r. Qed.

Lemma mvcc_wf_mono q q' m : mvcc_wf q m -> seqs_le q q' -> mvcc_wf q' m.
Proof.
  intros [Hp Hi] Hle. split; [done|]. intros i tx Htx. destruct (Hi i tx Htx), (Hle SeqTransactions). split; lia.
Qed.

(** Nothing but the network and the sequences moved, and locks are free. *)
Lemma idle_safe s s' :
  system_wf s -> idle s s' -> (cache_fresh s -> cache_fresh s') -> safe_step s s'.
Proof.
  intros [Hd Hl Hm] (Hl' & Hd' & Hs' & Hm' & Hq) Hc.
  split; [|split; [exact Hq | split; [intros _; exact Hc | rewrite Hs'; apply seqs_le_refl]]].
  split; [by rewrite Hs', Hd' | done | by rewrite Hs', Hm'].
Qed.

(** ** Reads *)

(** A program of queries. *)
Definition reading {A} (p : Prog Sys A) : Prop := plain p /\ forall s, wp p s (fun _ s' => unchanged s s').

Lemma reading_ret {A} (a : A) : reading (Ret a).
Proof. split; [done|]. intros s. rewrite wp_ret. apply unchanged_refl. Qed.

Lemma reading_bind {A B} (p : Prog Sys A) (k : A -> Prog Sys B) :
  reading p -> (forall a, reading (k a)) -> reading (bind p k).
Proof.
  intros [Hp Hr] Hk. split; [apply plain_bind; [done | apply Hk]|]. intros s. rewrite wp_bind.
  eapply wp_mono; [apply Hr|]. intros a s1 Hu1. eapply wp_mono; [apply Hk|]. intros b s2 Hu2. exact (unchanged_trans _ _ _ Hu1 Hu2).
Qed.

Lemma reading_query {A} (f : DB -> list A) : reading (pool_query (select f)).
Proof. split; [apply plain_pool_query|]. intros s. by apply wp_pool_query. Qed.

Lemma reading_query_row {A} (f : DB -> list A) : reading (pool_query_row (select f)).
Proof. split; [apply plain_pool_query_row|]. intros s. by apply wp_pool_query_row. Qed.

Lemma unchanged_locks m s s' : unchanged s s' -> unchanged s (set_locks m s').
Proof. intros (Hf & Hd & Hs). split; [by apply frame_locks | done]. Qed.

Lemma ok_reading {A} (p : Prog Sys A) : reading p -> ok p.
Proof.
  intros [Hp Hr] s Hs. destruct (plain_run p s Hp) as (a & s' & Hrun & Hm). specialize (Hr s).
  unfold wp in *. rewrite Hrun in *. specialize (Hm (sys_locks s)).
  assert (Hself : set_locks (sys_locks s) s = s) by (by destruct s). rewrite Hself, Hrun in Hm.
  injection Hm as Hs'. rewrite Hs'. apply idle_safe; [done | apply unchanged_idle; [done | apply Hs] |].
  unfold cache_fresh, db. cbn. rewrite (unchanged_cache _ _ Hr). pose proof (unchanged_db _ _ Hr) as Hd.
  unfold db in Hd. by rewrite Hd.
Qed.

Lemma ok_shared {A} t (p : Prog Sys A) : reading p -> ok (with_shared t p).
Proof.
  intros [Hp Hr] s Hs. apply wp_with_shared; [apply Hs | done |]. eapply wp_mono; [apply Hr|].
  intros a s' Hu m Hm. apply idle_safe; [done | by apply unchanged_idle |].
  unfold cache_fresh, db. cbn. rewrite (unchanged_cache _ _ Hu). pose proof (unchanged_db _ _ Hu) as Hd.
  unfold db in Hd. by rewrite Hd.
Qed.

End ok.

(** Proves [reading p] for a program of queries. *)
Create HintDb reading.
#[export] Hint Resolve reading_ret reading_query reading_query_row : reading.

Ltac solve_reading :=
  repeat first
    [ progress intros
    | apply reading_ret
    | solve [eauto 2 with reading]
    | apply reading_bind
    | match goal with |- reading (match ?x with _ => _ end) => destruct x end ].

Section handlers.
Context `{Postgres} `{GoText}.

(** ** The queries of the persistence layer and of the stores *)

Lemma reading_GetTable a : reading (PgClient.GetTable a).
Proof. unfold PgClient.GetTable. solve_reading. Qed.
Lemma reading_GetTableID a : reading (GetTableID a).
Proof. unfold GetTableID. solve_reading. Qed.
Lemma reading_GetCurrentSnapshot a : reading (GetCurrentSnapshot a).
Proof. unfold GetCurrentSnapshot. solve_reading. Qed.

#[local] Hint Resolve reading_GetTable reading_GetTableID reading_GetCurrentSnapshot : reading.

Lemma reading_QueryPartitions a b : reading (QueryPartitions a b).
Proof. unfold QueryPartitions. solve_reading. Qed.
Lemma reading_QueryPartitionsPaged a b c e : reading (QueryPartitionsPaged a b c e).
Proof. unfold QueryPartitionsPaged. solve_reading. Qed.

#[local] Hint Resolve reading_QueryPartitions reading_QueryPartitionsPaged : reading.

Lemma reading_GetColumnStatsForSnapshot a b : reading (GetColumnStatsForSnapshot a b).
Proof. unfold GetColumnStatsForSnapshot. solve_reading. Qed.
Lemma reading_GetManifestList a b : reading (PgClient.GetManifestList a b).
Proof. unfold PgClient.GetManifestList. solve_reading. Qed.
Lemma reading_GetManifestFile a b : reading (PgClient.GetManifestFile a b).
Proof. unfold PgClient.GetManifestFile. solve_reading. Qed.
Lemma reading_GetSnapshot a b : reading (PgClient.GetSnapshot a b).
Proof. unfold PgClient.GetSnapshot. solve_reading. Qed.
Lemma reading_ListSnapshots a b : reading (PgClient.ListSnapshots a b).
Proof. unfold PgClient.ListSnapshots. solve_reading. Qed.
Lemma reading_GetPartitionSpecByVersion a b : reading (GetPartitionSpecByVersion a b).
Proof. unfold GetPartitionSpecByVersion. solve_reading. Qed.
Lemma reading_ListPartitionSpecHistory a : reading (ListPartitionSpecHistory a).
Proof. unfold ListPartitionSpecHistory. solve_reading. Qed.
Lemma reading_GetVisiblePartitionCount a b : reading (GetVisiblePartitionCount a b).
Proof. unfold GetVisiblePartitionCount. solve_reading. Qed.

#[local] Hint Resolve reading_GetColumnStatsForSnapshot reading_GetManifestList reading_GetManifestFile
  reading_GetSnapshot reading_ListSnapshots reading_GetPartitionSpecByVersion
  reading_ListPartitionSpecHistory reading_GetVisiblePartitionCount : reading.

(** An offset may be refused, which no other query is. *)
Lemma reading_ListTables a b c : reading (PgClient.ListTables a b c).
Proof.
  unfold PgClient.ListTables. apply reading_bind; [|intros [|]; apply reading_ret].
  split; [apply plain_pool_query|]. intros s. apply wp_pool; [unfold sql_list_tables; solve_monotone | |].
  - intros e s' Hf _ _ Hd Hs. unfold sql_list_tables, check, select in *. split; [done|].
    destruct (0 <=? page_offset c); cbn in *; split;
      by repeat match goal with H : _ \/ _ |- _ => destruct H as [|H] | H : exists _, _ |- _ => destruct H end; destruct_and?; simplify_eq.
  - intros x eff q s' Hr Hf Hd Hs. unfold sql_list_tables, check, select in Hr. destruct (0 <=? page_offset c); [|done].
    injection Hr as <- <- <-. done.
Qed.

Lemma reading_list_summaries rows : reading (list_summaries rows).
Proof.
  induction rows as [|t rows IH]; cbn [list_summaries]; [apply reading_ret|].
  apply reading_bind; [destruct (0 <? _); auto with reading|]. intros [n|e]; [|apply reading_ret].
  apply reading_bind; [done|]. intros [|]; apply reading_ret.
Qed.

#[local] Hint Resolve reading_ListTables reading_list_summaries : reading.

Lemma reading_resolveSnapshot t n : reading (resolveSnapshot t n).
Proof. unfold resolveSnapshot. solve_reading. Qed.

#[local] Hint Resolve reading_resolveSnapshot : reading.

(** ** The operations that lock *)

Lemma ok_InvalidateTableCache t : ok (InvalidateTableCache t).
Proof.
  intros s Hs. unfold InvalidateTableCache. rewrite wp_on_cache. split; [by destruct Hs|].
  split; [done|]. split; [|apply seqs_le_refl]. intros _ Hc. by apply (coherent_invalidated (db s)).
Qed.

Lemma ok_GetPartitions t n : is_uint64 n -> ok (Registry.GetPartitions t n).
Proof.
  intros Hn s Hs. eapply wp_mono; [apply wp_GetPartitions; [apply Hs | apply Hs | done]|].
  intros r s' [Hi Hc]. apply idle_safe; [done | done |]. intros Hf. by apply Hc.
Qed.

Lemma ok_CommitSnapshot name parent operation parts keys :
  ok (Registry.CommitSnapshot name parent operation parts keys).
Proof.
  intros s [Hd Hl Hm]. eapply wp_mono; [apply wp_CommitSnapshot; [done | apply Hd]|].
  intros res s' Hr. pose proof Hr as (Hl' & Hmv & Hle & Hq & _).
  assert (Hdb : db_wf (pg_seqs (sys_pg s')) (db s')).
  { destruct Hr as (_ & _ & _ & _ & Hr). destruct (cr_Success res).
    - destruct Hr as (_ & _ & Hc & _). by eapply committed_wf.
    - destruct Hr as (_ & _ & [-> | [_ Hc]] & _); [by eapply db_wf_mono | by eapply committed_wf]. }
  split; [split; [done | done | rewrite Hmv; by eapply mvcc_wf_mono]|].
  split; [done|]. split; [|done]. intros Hqs Hc.
  assert (Hw : sys_wf s) by (by split). destruct (commit_result_wf _ _ _ _ _ _ _ _ Hw Hr) as [_ Hw'].
  apply Hw'. by right.
Qed.

(** An operation of the catalog whose effect keeps the catalog well-formed
    and the cached answers right. *)
Lemma outcome_safe applied accepted s res s' :
  system_wf s -> op_outcome applied accepted s res s' ->
  (forall s', applied s' -> seqs_le (pg_seqs (sys_pg s)) (pg_seqs (sys_pg s')) -> db_wf (pg_seqs (sys_pg s')) (db s')) ->
  (forall s', applied s' -> coherent (db s) (sys_cache s) -> coherent (db s') (sys_cache s)) ->
  safe_step s s'.
Proof.
  intros [Hd Hl Hm] (Hl' & Hmv & Hc & Hle & Hq & Hr) Hwf Hco.
  assert (Hcase : db s' = db s \/ applied s').
  { destruct (Success res); [right; apply Hr|]. destruct Hr as [[|[]] _]; auto. }
  split; [split; [|done|rewrite Hmv; by eapply mvcc_wf_mono]|].
  - destruct Hcase as [-> |]; [by eapply db_wf_mono | by apply Hwf].
  - split; [done|]. split; [|done]. intros _ Hf. unfold cache_fresh in *. rewrite Hc.
    destruct Hcase as [-> |]; [done | by apply Hco].
Qed.

Lemma created_wf name schema text props s s' :
  db_wf (pg_seqs (sys_pg s)) (db s) -> created name schema text props s s' ->
  seqs_le (pg_seqs (sys_pg s)) (pg_seqs (sys_pg s')) -> db_wf (pg_seqs (sys_pg s')) (db s').
Proof.
  intros Hd (Hnew & [Hseq _] & schema' & spec' & props' & _ & _ & _ & ->) Hle.
  apply create_wf; [done | done | done | lia].
Qed.

Lemma created_coherent name schema text props s s' c :
  created name schema text props s s' -> coherent (db s) c -> coherent (db s') c.
Proof.
  intros (Hnew & _ & schema' & spec' & props' & _ & _ & _ & ->) Hc.
  eapply (all_cached_mono (K := string)); [exact Hc|]. intros k rows (t & n & Hn & -> & Hp).
  exists t, n. split; [done|]. split; [done|]. rewrite <- Hp. apply create_answers. intros ->.
  unfold partitions_at, table_id_or, table_id in Hp. destruct (live_table name (db s)) as [r|] eqn:E; [|done].
  apply live_table_in in E as [Hin Hlive]. assert (name_taken name (db s) = true); [|congruence].
  unfold name_taken. apply existsb_exists. exists r. split; [by apply list_elem_of_In|].
  unfold live_named in Hlive. by apply andb_true_iff in Hlive as [? _].
Qed.

Lemma ok_CreateTable name schema text props : ok (Catalog.CreateTable name schema text props).
Proof.
  intros s Hs. pose proof Hs as [Hd Hl _]. eapply wp_mono; [by apply wp_CreateTable|]. intros res s' Hr.
  eapply outcome_safe; [done | exact Hr | |]; intros s2 Hc; [by eapply created_wf | by eapply created_coherent].
Qed.

Lemma ok_AlterTableSchema name schema summary : ok (Catalog.AlterTableSchema name schema summary).
Proof.
  intros s Hs. pose proof Hs as [Hd Hl _]. eapply wp_mono; [by apply wp_AlterTableSchema|]. intros res s' Hr.
  eapply outcome_safe; [done | exact Hr | |].
  - intros s2 (r & schema' & _ & _ & ->) Hle. apply alter_schema_wf. by eapply db_wf_mono.
  - intros s2 (r & schema' & _ & _ & ->) Hc. apply (coherent_ext (db s)); [|done]. intros. apply alter_schema_answers.
Qed.

Lemma ok_AlterTablePartitionSpec name text summary : ok (Catalog.AlterTablePartitionSpec name text summary).
Proof.
  intros s Hs. pose proof Hs as [Hd Hl _]. eapply wp_mono; [by apply wp_AlterTablePartitionSpec|]. intros res s' Hr.
  eapply outcome_safe; [done | exact Hr | |].
  - intros s2 (r & spec & Hlive & _ & ->) Hle. apply alter_spec_wf; [by eapply db_wf_mono | done].
  - intros s2 (r & spec & _ & _ & ->) Hc. apply (coherent_ext (db s)); [|done]. intros. apply alter_spec_answers.
Qed.

(** ** Rename and drop, with the invalidations of their handlers *)

Lemma coherent_invalidated2 d d' a b c :
  (forall t n, t <> a -> t <> b -> partitions_at t n d' = partitions_at t n d) ->
  coherent d c -> coherent d' (invalidated b (invalidated a c)).
Proof.
  intros Hd Hc.
  refine (all_cached_invalidate_if (fun k rows => table_key a k = false /\ cached_ok d k rows) (cached_ok d')
    (invalidated a c) (table_key b) _ _).
  - refine (all_cached_invalidate_if (cached_ok d) _ c (table_key a) Hc _). by intros k rows Hk Hok.
  - intros k rows Hk (Ha & t & n & Hn & -> & Hp). exists t, n. split; [done|]. split; [done|].
    rewrite Hd; [done| |]; intros ->; by rewrite table_key_own in *.
Qed.

Lemma ok_alter_rename name rename :
  match rename with Some r => rt_NewName r <> name | None => True end -> ok (alter_rename name rename).
Proof.
  intros Hne. unfold alter_rename. destruct (String.eqb _ "") eqn:E; [apply ok_ret|].
  set (newName := match rename with Some r => rt_NewName r | None => "" end) in *.
  assert (Hnn : newName <> name) by (destruct rename; [done | by apply String.eqb_neq in E]).
  intros s Hs. pose proof Hs as [Hd Hl Hm]. rewrite wp_bind. eapply wp_mono; [by apply wp_RenameTable|].
  intros res s1 (Hl1 & Hmv & Hc1 & Hle & Hq & Hr). unfold InvalidateTableCache.
  rewrite wp_bind, wp_on_cache, wp_bind, wp_on_cache, wp_ret.
  assert (Hcase : db s1 = db s \/ renamed name newName s s1).
  { destruct (Success res); [right; apply Hr|]. destruct Hr as [[|[]] _]; auto. }
  assert (Hans : forall t n, t <> name -> t <> newName -> partitions_at t n (db s1) = partitions_at t n (db s)).
  { intros t n H1 H2. destruct Hcase as [-> | (_ & _ & ->)]; [done | by apply rename_answers]. }
  split; [split|].
  - change (db_wf (pg_seqs (sys_pg s1)) (db s1)).
    destruct Hcase as [-> | (_ & Hfree & ->)]; [by eapply db_wf_mono|]. apply rename_wf; [by eapply db_wf_mono | done].
  - done.
  - cbn. rewrite Hmv. by eapply mvcc_wf_mono.
  - split; [done|]. split; [|done]. intros _ Hf. unfold cache_fresh, db. cbn. rewrite Hc1. by apply (coherent_invalidated2 (db s)).
Qed.

Lemma ok_DropTable req : ok (DropTable req).
Proof.
  unfold DropTable. destruct (String.eqb _ ""); [apply ok_ret|]. intros s Hs. pose proof Hs as [Hd Hl Hm].
  set (name := dtr_TableName req).
  assert (Hout : wp (Catalog.DropTable name (dtr_Purge req)) s (fun res s' => exists applied accepted,
    op_outcome applied accepted s res s' /\
    (forall s', applied s' -> seqs_le (pg_seqs (sys_pg s)) (pg_seqs (sys_pg s')) ->
       db_wf (pg_seqs (sys_pg s')) (db s') /\
       forall t n, t <> name -> partitions_at t n (db s') = partitions_at t n (db s)))).
  { destruct (dtr_Purge req).
    - eapply wp_mono; [apply wp_DropTable_purge; exact Hl|]. intros res s1 Hr. do 2 eexists. split; [exact Hr|].
      intros s2 (id & Hid & _ & ->) Hle. split; [apply purge_wf; [by eapply db_wf_mono | done]|].
      intros t n Ht. by eapply purge_answers.
    - eapply wp_mono; [apply wp_DropTable_soft; exact Hl|]. intros res s1 Hr. do 2 eexists. split; [exact Hr|].
      intros s2 (_ & ->) Hle. split; [apply drop_wf; by eapply db_wf_mono|].
      intros t n Ht. by apply drop_answers. }
  rewrite wp_bind. eapply wp_mono; [exact Hout|].
  intros res s1 (applied & accepted & (Hl1 & Hmv & Hc1 & Hle & Hq & Hr) & Happ).
  assert (Hcase : db s1 = db s \/ applied s1).
  { destruct (Success res); [right; apply Hr|]. destruct Hr as [[|[]] _]; auto. }
  assert (Hwf : system_wf s1).
  { split; [|done|rewrite Hmv; by eapply mvcc_wf_mono].
    destruct Hcase as [-> | Ha]; [by eapply db_wf_mono | by apply Happ]. }
  destruct (Success res).
  - unfold InvalidateTableCache. rewrite wp_bind, wp_on_cache, wp_ret. split; [by destruct Hwf|].
    split; [done|]. split; [|done]. intros _ Hf. unfold cache_fresh, db. cbn. rewrite Hc1.
    apply (coherent_invalidated (db s)); [|done]. intros t n Ht _. by apply Happ; [apply Hr | |].
  - rewrite wp_ret. split; [done|]. split; [done|]. split; [|done]. intros Hqs Hf. unfold cache_fresh. rewrite Hc1.
    destruct Hr as [[-> | [Hn _]] _]; [done | by destruct Hn].
Qed.

(** ** Transactions *)

Lemma db_wf_transactions q x d : db_wf q d -> db_wf q (set_transactions x d).
Proof. intros []. by split. Qed.

Lemma coherent_transactions x d c : coherent d c -> coherent (set_transactions x d) c.
Proof. apply coherent_ext. intros. by apply partitions_at_ext. Qed.

Lemma with_transactions s s' :
  system_wf s -> frame s s' -> sys_locks s' = sys_locks s ->
  (exists x, db s' = set_transactions x (db s)) -> safe_step s s'.
Proof.
  intros [Hd Hl Hm] Hf Hlk (x & Hx). split; [split|].
  - rewrite Hx. apply db_wf_transactions. eapply db_wf_mono; [done | apply Hf].
  - by rewrite Hlk.
  - rewrite (fr_mvcc _ _ Hf). eapply mvcc_wf_mono; [done | apply Hf].
  - split; [apply Hf|]. split; [|apply Hf]. intros _ Hc. unfold cache_fresh. rewrite Hx, (fr_cache _ _ Hf). by apply coherent_transactions.
Qed.

(** The locks are not part of what a plain program can reach. *)
Lemma wp_plain_locks {A} (p : Prog Sys A) s (Q : A -> Sys -> Prop) :
  plain p -> wp p s Q -> wp p s (fun a s' => Q a s' /\ sys_locks s' = sys_locks s).
Proof.
  intros Hp Hw. destruct (plain_run p s Hp) as (a & s' & Hrun & Hm). unfold wp in *. rewrite Hrun in *.
  split; [done|]. specialize (Hm (sys_locks s)). assert (Hself : set_locks (sys_locks s) s = s) by (by destruct s).
  rewrite Hself, Hrun in Hm. injection Hm as Hs'. rewrite Hs'. done.
Qed.

Lemma set_transactions_id d : d = set_transactions (transactions d) d.
Proof. by destruct d. Qed.

Lemma ok_UpdateTransactionStatus txn status : ok (UpdateTransactionStatus txn status).
Proof.
  intros s Hs. eapply wp_mono; [apply (wp_plain_locks _ s (fun _ s' => frame s s' /\ exists x, db s' = set_transactions x (db s)));
    [auto with plain|]|].
  - unfold UpdateTransactionStatus. rewrite wp_bind.
    apply wp_pool; [unfold sql_update_transaction; solve_monotone | |].
    + intros e s' Hf _ _ Hd _. rewrite wp_ret. split; [done|].
      destruct Hd as [-> | (a & eff & q & [= <- <- <-] & -> & _)]; [eexists; apply set_transactions_id | by eexists].
    + intros a eff q s' [= <- <- <-] Hf Hd _. rewrite wp_ret. split; [done | by eexists].
  - intros r s' [[Hf Hx] Hlk]. by apply (with_transactions s s').
Qed.

(** A new transaction row, under an id no manager has seen. *)
Lemma wp_InsertTransaction client id snap isolation s :
  system_wf s ->
  wp (InsertTransaction client id snap isolation) s (fun r s' =>
    frame s s' /\ (exists x, db s' = set_transactions x (db s)) /\
    match r with
    | Ok txn => txn = pg_seqs (sys_pg s) SeqTransactions + 1 /\ 1 <= txn < 2 ^ 63 /\
                pg_seqs (sys_pg s') SeqTransactions = txn /\
                db s' = set_transactions (transactions (db s) ++
                  [mk_transactions_row txn client id (int64 snap) "active" isolation None]) (db s)
    | Err _ => ~ (quiet s /\ has_table id (db s) = true /\ seq_room (pg_seqs (sys_pg s)) SeqTransactions 1)
    end).
Proof.
  intros [Hd Hl Hm]. unfold InsertTransaction. rewrite wp_bind. unfold pool_query_row. rewrite wp_bind.
  pose proof (wf_seqs _ _ Hd SeqTransactions) as Hq.
  apply wp_pool; [unfold sql_insert_transaction; solve_monotone | |].
  - intros e s' Hf Hr _ Hx _. rewrite !wp_ret. cbn [first_row]. split; [done|]. split.
    + destruct Hx as [-> | (a & eff & q & Hr' & -> & _)]; [eexists; apply set_transactions_id|].
      unfold sql_insert_transaction in Hr'. stmt_cases Hr'. by eexists.
    + intros (Hqs & Ht & Hroom). destruct (Hr Hqs) as [q Hr']. unfold sql_insert_transaction in Hr'.
      destruct Hroom. stmt_cases Hr'; [congruence | lia].
  - intros a eff q s' Hr Hf Hx Hs. unfold sql_insert_transaction in Hr. stmt_cases Hr. rewrite !wp_ret.
    cbn [first_row]. assert (1 <= pg_seqs (sys_pg s) SeqTransactions + 1 < 2 ^ 63) by lia.
    destruct (Z.ltb_spec (pg_seqs (sys_pg s) SeqTransactions + 1) 0); [lia|].
    rewrite uint64_id by (unfold is_uint64; lia). split; [done|]. split; [by eexists|].
    match goal with E : seq_bump _ _ = _ |- _ => rewrite <- E end. by rewrite seq_bump_same.
Qed.

(** ** The transaction manager *)

(** Ids the database issued are at most its sequence, so the manager never
    holds more transactions than an [int] counts. *)
Lemma mvcc_size q m : mvcc_wf q m -> 0 <= q SeqTransactions -> Z.of_nat (size (activeTransactions m)) <= q SeqTransactions.
Proof.
  intros [_ Hi] Hq. set (X := list_to_set (seqZ 1 (q SeqTransactions)) : gset Z).
  assert (Hsub : dom (activeTransactions m) ⊆ X).
  { intros i [tx Htx]%elem_of_dom. destruct (Hi i tx Htx). apply elem_of_list_to_set, elem_of_seqZ. lia. }
  apply subseteq_size in Hsub. rewrite size_dom in Hsub. unfold X in Hsub.
  rewrite size_list_to_set, length_seqZ in Hsub by apply NoDup_seqZ. lia.
Qed.

Lemma safe_set_mvcc m s : system_wf s -> mvcc_wf (pg_seqs (sys_pg s)) m -> safe_step s (set_mvcc m s).
Proof. intros [Hd Hl _] Hm. split; [by split|]. split_and!; [done | done | apply seqs_le_refl]. Qed.

Lemma mvcc_wf_forget q m txnID tx :
  mvcc_wf q m -> 0 <= q SeqTransactions < 2 ^ 63 -> activeTransactions m !! txnID = Some tx ->
  mvcc_wf q (forget txnID (unpinSnapshotLocked (ReadSnapshotID tx) m)).
Proof.
  intros Hm Hq Htx. pose proof (mvcc_size q m Hm ltac:(lia)). destruct Hm as [Hp Hi].
  split; [apply pins_ok_forget; [lia | done | done]|]. intros i tx'. cbn.
  intros [_ Hlk]%lookup_delete_Some. eauto.
Qed.

Lemma mvcc_wf_commit q m now txnID :
  mvcc_wf q m -> 0 <= q SeqTransactions < 2 ^ 63 -> mvcc_wf q (MVCC.CommitTransaction now txnID m).2.
Proof.
  intros Hm Hq. unfold MVCC.CommitTransaction. destruct (activeTransactions m !! txnID) eqn:Htx; [|done].
  destruct (expired _ _ _); by apply mvcc_wf_forget.
Qed.

Lemma mvcc_wf_abort q m txnID :
  mvcc_wf q m -> 0 <= q SeqTransactions < 2 ^ 63 -> mvcc_wf q (MVCC.AbortTransaction txnID m).
Proof.
  intros Hm Hq. unfold MVCC.AbortTransaction.
  destruct (activeTransactions m !! txnID) eqn:Htx; [by apply mvcc_wf_forget | done].
Qed.

Lemma mvcc_wf_cleanup q m now :
  mvcc_wf q m -> 0 <= q SeqTransactions < 2 ^ 63 -> mvcc_wf q (MVCC.CleanupExpiredTransactions now m).2.
Proof.
  intros Hm Hq. pose proof (mvcc_size q m Hm ltac:(lia)). destruct Hm as [Hp Hi].
  unfold MVCC.CleanupExpiredTransactions.
  destruct (cleanup_any_order now _ m (reflexivity (map_to_list (activeTransactions m)))) as (Hp' & _ & _ & Hact & _).
  split; [apply Hp'; [lia | done]|]. intros i tx. rewrite Hact. intros [Hlk _]%map_lookup_filter_Some. eauto.
Qed.

(** A new id is above every active one. *)
Lemma mvcc_wf_register q q' m now txnID r :
  mvcc_wf q m -> 0 <= q SeqTransactions -> txnID = q SeqTransactions + 1 -> txnID < 2 ^ 63 ->
  txnID <= q' SeqTransactions -> mvcc_wf q' (RegisterTransaction now txnID r m).
Proof.
  intros Hm Hq Hid Hmax Hq'. pose proof (mvcc_size q m Hm Hq) as Hsize. destruct Hm as [Hp Hi].
  assert (Hnone : activeTransactions m !! txnID = None).
  { destruct (activeTransactions m !! txnID) as [tx|] eqn:E; [|done]. destruct (Hi txnID tx E). lia. }
  split; [apply pins_ok_register; [lia | done | done]|]. intros i tx. cbn.
  rewrite lookup_insert_Some. intros [[<- _]|[_ Hlk]]; [split; lia|].
  destruct (Hi i tx Hlk). split; lia.
Qed.

(** ** The handlers *)

Lemma seq_bounds s : system_wf s -> 0 <= pg_seqs (sys_pg s) SeqTransactions < 2 ^ 63.
Proof. intros [Hd _ _]. apply Hd. Qed.

Lemma ok_on_mvcc {A} (f : Z -> MVCCManager -> A * MVCCManager) :
  (forall q now m, mvcc_wf q m -> 0 <= q SeqTransactions < 2 ^ 63 -> mvcc_wf q (f now m).2) -> ok (on_mvcc f).
Proof.
  intros Hf s Hs. rewrite wp_on_mvcc. apply safe_set_mvcc; [done|]. apply Hf; [apply Hs | by apply seq_bounds].
Qed.

Lemma ok_CommitTransaction req : ok (CommitTransaction req).
Proof.
  apply ok_bind; [apply ok_on_mvcc; intros; by apply mvcc_wf_commit|]. intros b.
  destruct (negb b); [apply ok_ret|]. apply ok_bind; [apply ok_UpdateTransactionStatus|]. intros [|]; apply ok_ret.
Qed.

Lemma ok_AbortTransaction req : ok (AbortTransaction req).
Proof.
  apply ok_bind; [apply ok_on_mvcc; intros; by apply mvcc_wf_abort|]. intros [].
  apply ok_bind; [apply ok_UpdateTransactionStatus|]. intros [|]; apply ok_ret.
Qed.

Lemma ok_CleanupExpiredTransactions : ok CleanupExpiredTransactions.
Proof. apply ok_on_mvcc. intros. by apply mvcc_wf_cleanup. Qed.

(** The new row and its registration. *)
Lemma ok_begin client id snap isolation (k : Z -> Prog Sys (rpc TransactionResponse)) :
  (forall txn, ok (k txn)) ->
  ok (rpc* txnID := InsertTransaction client id snap isolation in
      let* _ := on_mvcc (fun now m => (tt, RegisterTransaction now txnID snap m)) in k txnID).
Proof.
  intros Hk s Hs. rewrite wp_bind. pose proof (seq_bounds s Hs) as Hq.
  eapply wp_mono; [apply wp_plain_locks; [auto with plain | by apply wp_InsertTransaction]|].
  intros r s1 [(Hf & Hx & Hr) Hlk]. pose proof (with_transactions s s1 Hs Hf Hlk Hx) as Hstep.
  destruct r as [txn|e]; [|by rewrite wp_ret]. destruct Hr as (Hid & Hmax & Hq1 & _), Hstep as (Hs1 & Hqs & Hc & Hle).
  rewrite wp_bind, wp_on_mvcc. cbn [fst snd]. eapply wp_mono; [apply Hk|].
  - apply safe_set_mvcc; [done|]. rewrite (fr_mvcc _ _ Hf).
    eapply mvcc_wf_register; [apply Hs | apply Hq | exact Hid | lia | lia].
  - intros a s2 (Hs2 & Hqs2 & Hc2 & Hle2). split_and!; [done | auto | auto | by etrans].
Qed.

End handlers.
