(* ===== verification/Service.v ===== *)
(** * The service (gen/metadata/metadata_service_grpc.pb.go)

    The RPCs of [MetadataServiceServer] as one request type, the dispatch to
    the handlers, and the life of a server: requests served one after the
    other, the cleanup goroutine's ticks between them, while the network
    fails and the clocks move as they like. *)
From S2P Require Import Prelude Prog CacheInterface LRU MVCC Lock Models PartitionSpec GoJson Postgres World.
From S2P Require Import PgClient PgFacts PgPlain Reads Registry Commit Wf Visibility Coherence CommitFacts.
From S2P Require Import ManifestStore Config SchemaStore SpecStore Catalog CatalogFacts CatalogWf Proto Server ServerFacts.

(** [type MetadataServiceServer interface] *)
Inductive Request : Type -> Type :=
| ReqCreateTable (r : CreateTableRequest) : Request OperationResponse
| ReqGetTableMetadata (r : TableRequest) : Request TableMetadataResponse
| ReqAlterTable (r : AlterTableRequest) : Request OperationResponse
| ReqDropTable (r : DropTableRequest) : Request OperationResponse
| ReqListTables (r : ListTablesRequest) : Request ListTablesResponse
| ReqGetPartitions (r : PartitionRequest) : Request PartitionListResponse
| ReqGetPartitionStats (r : PartitionStatsRequest) : Request PartitionStatsResponse
| ReqCommitSnapshot (r : SnapshotRequest) : Request SnapshotResponse
| ReqGetSnapshot (r : GetSnapshotRequest) : Request SnapshotDetail
| ReqListSnapshots (r : ListSnapshotsRequest) : Request ListSnapshotsResponse
| ReqGetColumnStats (r : GetColumnStatsRequest) : Request GetColumnStatsResponse
| ReqBeginTransaction (r : TransactionRequest) : Request TransactionResponse
| ReqCommitTransaction (r : CommitRequest) : Request OperationResponse
| ReqAbortTransaction (r : AbortRequest) : Request OperationResponse
| ReqGetManifestList (r : GetManifestListRequest) : Request ManifestListResponse
| ReqGetManifest (r : GetManifestRequest) : Request ManifestFileDetail
| ReqGetPartitionSpec (r : GetPartitionSpecRequest) : Request PartitionSpecResponse
| ReqListPartitionSpecs (r : ListPartitionSpecsRequest) : Request ListPartitionSpecsResponse.

(** What the types of the message fields already say ([uint64] snapshot
    ids), and the one request a server does not survive: renaming a table to
    itself, which takes the same lock twice. *)
Definition request_ok {A} (req : Request A) : Prop :=
  match req with
  | ReqGetTableMetadata r => is_uint64 (tq_SnapshotId r)
  | ReqGetPartitions r => is_uint64 (pq_SnapshotId r)
  | ReqAlterTable r =>
      match atr_Alteration r with
      | Some (AlterTableRequest_Rename (Some n)) => rt_NewName n <> atr_TableName r
      | _ => True
      end
  | _ => True
  end.

Section service.
Context `{Postgres} `{GoText}.

(** The generated dispatch: each RPC calls the method of its name. *)
Definition serve {A} (req : Request A) : Prog Sys (rpc A) :=
  match req in Request A return Prog Sys (rpc A) with
  | ReqCreateTable r => CreateTable r
  | ReqGetTableMetadata r => GetTableMetadata r
  | ReqAlterTable r => AlterTable r
  | ReqDropTable r => DropTable r
  | ReqListTables r => ListTables r
  | ReqGetPartitions r => GetPartitions r
  | ReqGetPartitionStats r => GetPartitionStats r
  | ReqCommitSnapshot r => CommitSnapshot r
  | ReqGetSnapshot r => GetSnapshot r
  | ReqListSnapshots r => ListSnapshots r
  | ReqGetColumnStats r => GetColumnStats r
  | ReqBeginTransaction r => BeginTransaction r
  | ReqCommitTransaction r => CommitTransaction r
  | ReqAbortTransaction r => AbortTransaction r
  | ReqGetManifestList r => GetManifestList r
  | ReqGetManifest r => GetManifest r
  | ReqGetPartitionSpec r => GetPartitionSpec r
  | ReqListPartitionSpecs r => ListPartitionSpecs r
  end.

(** ** The life of a server *)

(** One request answered, one tick of the cleanup loop, or the environment:
    the clocks move and the network schedules its failures, none when it is
    [healthy]. *)
Inductive life (healthy : bool) : Sys -> Sys -> Prop :=
| life_serve A (req : Request A) s a s' :
    request_ok req -> run (serve req) s = Some (a, s') -> life healthy s s'
| life_cleanup s n s' : run CleanupExpiredTransactions s = Some (n, s') -> life healthy s s'
| life_environment s now net clock :
    (healthy = true -> net = []) ->
    life healthy s
      (mkSys (mkPG (pg_db (sys_pg s)) (pg_txs (sys_pg s)) (pg_next_tx (sys_pg s)) (pg_seqs (sys_pg s)) now net)
         (sys_locks s) (sys_mvcc s) (sys_cache s) (sys_disable_cache s) clock).

(** ** Every handler keeps the system well-formed *)

#[local] Hint Resolve reading_GetTable reading_GetTableID reading_GetCurrentSnapshot reading_QueryPartitions
  reading_QueryPartitionsPaged reading_GetColumnStatsForSnapshot reading_GetManifestList reading_GetManifestFile
  reading_GetSnapshot reading_ListSnapshots reading_GetPartitionSpecByVersion reading_ListPartitionSpecHistory
  reading_GetVisiblePartitionCount reading_ListTables reading_list_summaries reading_resolveSnapshot : reading.

Create HintDb ok.

(** A handler that stops at an error. *)
Lemma ok_rpc {A B} (p : Prog Sys (result A)) (k : A -> Prog Sys (rpc B)) :
  ok p -> (forall a, ok (k a)) -> ok (rpc* x := p in k x).
Proof. intros Hp Hk. apply ok_bind; [done|]. intros [a|e]; [apply Hk | apply ok_ret]. Qed.

Lemma ok_GetTable t : ok (Catalog.GetTable t).
Proof. apply ok_shared. auto with reading. Qed.

Lemma ok_GetCurrentSchema t : ok (GetCurrentSchema t).
Proof. apply ok_shared. solve_reading. Qed.

Lemma ok_GetCurrentSpec t : ok (GetCurrentSpec t).
Proof. apply ok_shared. solve_reading. Qed.

Lemma ok_GetSpecAtVersion t v : ok (GetSpecAtVersion t v).
Proof. apply ok_shared. solve_reading. Qed.

Lemma ok_ListSpecHistory t : ok (ListSpecHistory t).
Proof. apply ok_shared. solve_reading. Qed.

Lemma ok_GetPartitionsPaged t n size last : ok (Registry.GetPartitionsPaged t n size last).
Proof. apply ok_shared. solve_reading. Qed.

Lemma ok_GetStats t : ok (GetStats t).
Proof. apply ok_shared. solve_reading. Qed.

Lemma ok_column_stats_at t n : ok (column_stats_at t n).
Proof. apply ok_reading. unfold column_stats_at. solve_reading. Qed.

#[local] Hint Resolve ok_ret ok_rpc ok_GetTable ok_GetCurrentSchema ok_GetCurrentSpec ok_GetSpecAtVersion
  ok_ListSpecHistory ok_GetPartitionsPaged ok_GetStats ok_column_stats_at ok_CreateTable ok_AlterTableSchema
  ok_AlterTablePartitionSpec ok_CommitSnapshot ok_InvalidateTableCache ok_reading : ok.

(** Proves [ok] along the binds and branches of a handler. *)
Ltac solve_ok :=
  repeat first
    [ match goal with |- forall _, _ => intro end
    | apply ok_ret
    | solve [eauto 2 with ok]
    | apply ok_reading; solve [auto with reading]
    | apply ok_rpc
    | apply ok_bind
    | match goal with |- ok (match ?x with _ => _ end) => destruct x eqn:? end
    | match goal with |- ok (if ?x then _ else _) => destruct x eqn:? end ].

Lemma ok_handler_CreateTable r : ok (CreateTable r).
Proof. unfold CreateTable. solve_ok. Qed.

Lemma ok_GetTableMetadata r : is_uint64 (tq_SnapshotId r) -> ok (GetTableMetadata r).
Proof.
  intros Hn. unfold GetTableMetadata. cbv zeta. destruct (String.eqb _ _); [apply ok_ret|].
  apply ok_rpc; [apply ok_GetTable|]. intros [table|]; [|apply ok_ret].
  apply ok_rpc; [apply ok_GetPartitions|].
  - destruct (tq_SnapshotId r =? 0); [|done]. unfold table_snapshot. destruct (_ <? 0); [split; lia | apply uint64_range].
  - intros rows. destruct (if negb _ then _ else _) as [props|e]; apply ok_ret.
Qed.

Lemma ok_AlterTable r : request_ok (ReqAlterTable r) -> ok (AlterTable r).
Proof.
  intros Hr. unfold AlterTable. cbn in Hr. destruct (String.eqb _ _); [apply ok_ret|].
  destruct (atr_Alteration r) as [[t|p|n]|].
  - unfold alter_schema. solve_ok.
  - unfold alter_spec. solve_ok.
  - apply ok_alter_rename. destruct n; done.
  - apply ok_ret.
Qed.

Lemma ok_handler_ListTables r : ok (ListTables r).
Proof. unfold ListTables, Catalog.ListTables. solve_ok. Qed.

Lemma ok_handler_GetPartitions r : is_uint64 (pq_SnapshotId r) -> ok (GetPartitions r).
Proof.
  intros Hn. unfold GetPartitions. cbv zeta. apply ok_rpc.
  - destruct (0 <? _); [apply ok_GetPartitionsPaged | by apply ok_GetPartitions].
  - intros [rows|]; apply ok_ret.
Qed.

Lemma ok_BeginTransaction r : ok (BeginTransaction r).
Proof.
  unfold BeginTransaction. cbv zeta. destruct (String.eqb _ _); [apply ok_ret|].
  destruct (String.eqb _ _); [apply ok_ret|]. apply ok_rpc; [apply ok_GetTable|]. intros [table|]; [|apply ok_ret].
  apply (ok_begin _ _ _ _ (fun txn => Ret (Reply (mkTransactionResponse txn _)))). intros. apply ok_ret.
Qed.

Lemma ok_serve {A} (req : Request A) : request_ok req -> ok (serve req).
Proof.
  destruct req; cbn [serve]; intros Hr.
  - apply ok_handler_CreateTable.
  - by apply ok_GetTableMetadata.
  - by apply ok_AlterTable.
  - apply ok_DropTable.
  - apply ok_handler_ListTables.
  - by apply ok_handler_GetPartitions.
  - unfold GetPartitionStats. solve_ok.
  - unfold CommitSnapshot. solve_ok.
  - unfold GetSnapshot. solve_ok.
  - unfold ListSnapshots. solve_ok.
  - unfold GetColumnStats. solve_ok.
  - apply ok_BeginTransaction.
  - apply ok_CommitTransaction.
  - apply ok_AbortTransaction.
  - unfold GetManifestList, ManifestStore.GetManifestList. solve_ok.
  - unfold GetManifest, ManifestStore.GetManifestFile. solve_ok.
  - unfold GetPartitionSpec. solve_ok.
  - unfold ListPartitionSpecs. solve_ok.
Qed.

(** ** Servers *)

(** A server just started on a database in order. *)
Definition started (healthy : bool) (s : Sys) : Prop :=
  exists cfg pg clock, s = New cfg pg clock /\ db_wf (pg_seqs pg) (pg_db pg) /\ (healthy = true -> pg_net pg = []).

(** What holds of a server between two requests. *)
Definition in_order (healthy : bool) (s : Sys) : Prop :=
  system_wf s /\ (healthy = true -> quiet s /\ cache_fresh s).

Lemma started_in_order healthy s : started healthy s -> in_order healthy s.
Proof.
  intros (cfg & pg & clock & -> & Hwf & Hnet). split; [split|].
  - done.
  - by split; [split|].
  - split; [|done]. intros n. unfold readers. cbn. by rewrite map_filter_empty, decide_True, lookup_empty.
  - intros Hh. split; [by apply Hnet|]. split; [apply NewLRU_wf | intros k v []%elem_of_nil].
Qed.

Lemma ok_in_order {A} (p : Prog Sys A) healthy s :
  ok p -> in_order healthy s -> exists a s', run p s = Some (a, s') /\ in_order healthy s'.
Proof.
  intros Hp [Hwf Hh]. specialize (Hp s Hwf). apply wp_run in Hp as (a & s' & Hr & Hwf' & Hq & Hc & _).
  exists a, s'. split; [done|]. split; [done|]. intros E. destruct (Hh E). auto.
Qed.

Lemma life_in_order healthy s s' : life healthy s s' -> in_order healthy s -> in_order healthy s'.
Proof.
  intros [A req s0 a s1 Hreq Hr|s0 n s1 Hr|s0 now net clock Hnet] Hs.
  - destruct (ok_in_order (serve req) healthy s0) as (a' & s2 & Hr' & Hs2); [by apply ok_serve | done|].
    congruence.
  - destruct (ok_in_order _ healthy s0 ok_CleanupExpiredTransactions Hs) as (a' & s2 & Hr' & Hs2). congruence.
  - destruct Hs as [[Hd Hl Hm] Hh]. split; [by split|]. intros E. destruct (Hh E). split; [by apply Hnet | done].
Qed.

Lemma lives_in_order healthy s s' : rtc (life healthy) s s' -> in_order healthy s -> in_order healthy s'.
Proof. induction 1; [done|]. intros Hs. by eapply IHrtc, life_in_order. Qed.

(** ** Properties *)

(** C5. A server never hangs and never corrupts its state: started on a
    well-formed database, after any sequence of requests, cleanup ticks and
    network failures, every request (except a rename of a table to itself)
    is answered, and leaves the database well-formed, every lock free and one
    pin per active transaction. *)
Theorem service_total {A} (healthy : bool) (s0 s : Sys) (req : Request A) :
  started healthy s0 -> rtc (life healthy) s0 s -> request_ok req ->
  exists a s', run (serve req) s = Some (a, s') /\ system_wf s' /\
    all_free (sys_locks s') /\ pins_ok (sys_mvcc s') /\ db_wf (pg_seqs (sys_pg s')) (db s').
Proof.
  intros Hst Hs Hreq. pose proof (lives_in_order _ _ _ Hs (started_in_order _ _ Hst)) as Hin.
  destruct (ok_in_order _ _ _ (ok_serve req Hreq) Hin) as (a & s' & Hr & Hs' & _). exists a, s'.
  split_and!; [done | done | apply Hs' | apply Hs' | apply Hs'].
Qed.

(** C4. While the network delivers, the cache never lies: at any moment of
    a server's life, [GetPartitions] answers, cached or not, exactly the data
    files of the live table that were added at or before the resolved
    snapshot and not deleted at or before it. *)
Theorem cache_transparent (s0 s : Sys) (tableName : string) (snapshotID : Z) :
  started true s0 -> rtc (life true) s0 s -> is_uint64 snapshotID ->
  exists s', run (Registry.GetPartitions tableName snapshotID) s =
    Some (Ok (partitions_at tableName (resolved tableName snapshotID (db s)) (db s)), s') /\
    db s' = db s /\ cache_fresh s'.
Proof.
  intros Hst Hs Hn. pose proof (lives_in_order _ _ _ Hs (started_in_order _ _ Hst)) as [Hwf Hh].
  destruct (Hh eq_refl) as [Hq Hc].
  pose proof (wp_GetPartitions tableName snapshotID s (sys_db_wf _ Hwf) (sys_locks_free _ Hwf) Hn) as Hw.
  apply wp_run in Hw as (r & s' & Hr & (_ & Hd & _) & Hco). destruct (Hco Hc) as [Hc' Ha]. exists s'.
  destruct r as [rows|e]; [|by destruct Ha]. split; [|done]. rewrite Hr. by destruct Ha.
Qed.

End service.
