(* ===== verification/Progress.v ===== *)
(** * Concurrent requests: no deadlock, and every one of them ends

    Any number of goroutines, each serving one request or running one cleanup
    tick, interleaved in any way.  A handler other than a rename holds at most
    one table's lock at a time, which is enough for a pool never to get
    stuck. *)
From S2P Require Import Prelude Prog Lock Models PartitionSpec GoJson Postgres World PgClient PgFacts PgPlain.
From S2P Require Import ManifestStore SchemaStore SpecStore Catalog Registry CommitFacts Proto Server Service LockPool.

(** ** Goroutines *)

(** A request, with the type of its reply inside, or a tick of the cleanup
    loop. *)
Inductive goroutine :=
| Serves {A : Type} (req : Request A)
| Cleans.

(** The requests that lock two tables. *)
Definition is_rename {A} (req : Request A) : bool :=
  match req with
  | ReqAlterTable r => match atr_Alteration r with Some (AlterTableRequest_Rename _) => true | _ => false end
  | _ => false
  end.

Definition renames (g : goroutine) : bool := match g with Serves req => is_rename req | Cleans => false end.

Section goroutines.
Context `{Postgres} `{GoText}.

Definition thread (g : goroutine) : Prog Sys unit :=
  match g with
  | Serves req => let* _ := serve req in Ret tt
  | Cleans => let* _ := CleanupExpiredTransactions in Ret tt
  end.

End goroutines.

(** ** The handlers hold one lock at a time *)

Section handlers.
Context `{Postgres} `{GoText}.

(** A handler that stops at an error. *)
Lemma one_lock_rpc {A B} (p : Prog Sys (result A)) (k : A -> Prog Sys (rpc B)) :
  one_lock Idle p -> (forall a, one_lock Idle (k a)) -> one_lock Idle (rpc* x := p in k x).
Proof. intros Hp Hk. apply one_lock_bind; [done|]. by intros [a|e]. Qed.

#[local] Hint Unfold resolveSnapshot GetTableSpecVersion GetCurrentSnapshot InvalidateTableCache : plain.

Lemma one_lock_CatalogCreateTable a b c d : one_lock Idle (Catalog.CreateTable a b c d).
Proof. apply one_lock_exclusive. unfold finish_tx. solve_plain. Qed.

Lemma one_lock_AlterTablePartitionSpec a b c : one_lock Idle (AlterTablePartitionSpec a b c).
Proof. apply one_lock_exclusive. unfold finish_tx. solve_plain. Qed.

Lemma one_lock_AlterTableSchema a b c : one_lock Idle (AlterTableSchema a b c).
Proof. apply one_lock_exclusive. unfold finish_tx. solve_plain. Qed.

Lemma one_lock_CatalogDropTable a b : one_lock Idle (Catalog.DropTable a b).
Proof. apply one_lock_exclusive. unfold finish_tx. solve_plain. Qed.

Lemma one_lock_CatalogGetTable a : one_lock Idle (Catalog.GetTable a).
Proof. apply one_lock_shared. auto with plain. Qed.

Lemma one_lock_GetCurrentSchema a : one_lock Idle (GetCurrentSchema a).
Proof. apply one_lock_shared. solve_plain. Qed.

Lemma one_lock_GetCurrentSpec a : one_lock Idle (GetCurrentSpec a).
Proof. apply one_lock_shared. solve_plain. Qed.

Lemma one_lock_GetSpecAtVersion a b : one_lock Idle (GetSpecAtVersion a b).
Proof. apply one_lock_shared. solve_plain. Qed.

Lemma one_lock_ListSpecHistory a : one_lock Idle (ListSpecHistory a).
Proof. apply one_lock_shared. solve_plain. Qed.

Lemma one_lock_RegistryGetPartitions a b : one_lock Idle (Registry.GetPartitions a b).
Proof. apply one_lock_shared. unfold resolveSnapshot. solve_plain. Qed.

Lemma one_lock_GetPartitionsPaged a b c d : one_lock Idle (GetPartitionsPaged a b c d).
Proof. apply one_lock_shared. unfold resolveSnapshot. solve_plain. Qed.

Lemma one_lock_GetStats a : one_lock Idle (GetStats a).
Proof. apply one_lock_shared. unfold resolveSnapshot. solve_plain. Qed.

Lemma one_lock_RegistryCommitSnapshot a b c d e : one_lock Idle (Registry.CommitSnapshot a b c d e).
Proof.
  apply one_lock_exclusive. apply plain_bind; [auto with plain|]. intros [v|]; [|apply plain_ret].
  apply plain_bind; [auto with plain|]. intros [n|]; [|apply plain_ret].
  destruct (negb _); [apply plain_ret | apply plain_CommitSnapshot_body].
Qed.

Lemma one_lock_InvalidateTableCache a : one_lock Idle (InvalidateTableCache a).
Proof. apply one_lock_calm. apply plain_on_cache. Qed.

Create HintDb one_lock.
#[local] Hint Resolve one_lock_CatalogCreateTable one_lock_AlterTablePartitionSpec one_lock_AlterTableSchema
  one_lock_CatalogDropTable one_lock_CatalogGetTable one_lock_GetCurrentSchema one_lock_GetCurrentSpec
  one_lock_GetSpecAtVersion one_lock_ListSpecHistory one_lock_RegistryGetPartitions one_lock_GetPartitionsPaged
  one_lock_GetStats one_lock_RegistryCommitSnapshot one_lock_InvalidateTableCache : one_lock.

Lemma plain_list_summaries rows : plain (list_summaries rows).
Proof. induction rows; cbn [list_summaries]; solve_plain. Qed.

#[local] Hint Resolve plain_list_summaries : plain.

(** Proves [one_lock Idle] along the binds and branches of a handler. *)
Ltac solve_one_lock :=
  repeat first
    [ match goal with |- forall _, _ => intro end
    | reflexivity
    | solve [eauto 2 with one_lock]
    | apply one_lock_calm; solve [eauto 2 with plain]
    | apply one_lock_rpc
    | apply one_lock_bind
    | match goal with |- one_lock _ (match ?x with _ => _ end) => destruct x end
    | match goal with |- one_lock _ (if ?x then _ else _) => destruct x end ].

Lemma one_lock_serve {A} (req : Request A) : is_rename req = false -> one_lock Idle (serve req).
Proof.
  intros Hr. destruct req; cbn [serve].
  3: { unfold AlterTable, alter_schema, alter_spec. cbn in Hr.
       destruct (String.eqb _ _); [done|]. destruct (atr_Alteration r) as [[]|]; [| | done |]; solve_one_lock. }
  all: unfold CreateTable, GetTableMetadata, DropTable, ListTables, GetPartitions, GetPartitionStats, CommitSnapshot,
    GetSnapshot, ListSnapshots, GetColumnStats, column_stats_at, BeginTransaction, CommitTransaction,
    AbortTransaction, GetManifestList, GetManifest, GetPartitionSpec, ListPartitionSpecs, Catalog.ListTables,
    ManifestStore.GetManifestList, ManifestStore.GetManifestFile; cbv zeta; solve_one_lock.
Qed.

Lemma one_lock_thread g : renames g = false -> one_lock Idle (thread g).
Proof.
  destruct g as [A req|]; intros Hr; apply one_lock_bind; [by apply one_lock_serve | done | | done].
  apply one_lock_calm. apply plain_on_mvcc.
Qed.

Lemma threads_ok gs s :
  all_free (sys_locks s) -> (forall g, g ∈ gs -> renames g = false) -> pool_ok (map thread gs, s).
Proof.
  intros Hfree Hgs. exists (replicate (length gs) Idle). cbn. split.
  - clear Hfree. induction gs as [|g gs IH]; cbn; constructor.
    + apply one_lock_thread, Hgs. left.
    + apply IH. intros g' Hg'. apply Hgs. by right.
  - apply free_agrees; [done|]. by intros st [-> _]%elem_of_replicate.
Qed.

(** ** Properties *)

(** C6. Concurrent requests never deadlock and all end: any number of
    requests other than renames, and cleanup ticks, interleaved in any way
    under any network failures, have no infinite run, and a run that cannot
    go on has answered every one of them and left every lock free. *)
Theorem requests_never_deadlock (gs : list goroutine) (s : Sys) :
  all_free (sys_locks s) -> (forall g, g ∈ gs -> renames g = false) ->
  sn step (map thread gs, s) /\
  forall c, steps (map thread gs, s) c ->
    (exists c', step c c') \/ ((forall p, p ∈ c.1 -> p = Ret tt) /\ all_free (sys_locks c.2)).
Proof.
  intros Hfree Hgs. split; [apply steps_end|]. intros c Hc.
  destruct (pool_ok_steps _ _ Hc (threads_ok _ _ Hfree Hgs)) as (sts & Hps & Hag). destruct c as [ps s'].
  destruct (step_or_stuck ps s') as [Hstep|Hstuck]; [by left|]. right.
  destruct (stuck_finished ps s' sts Hps Hag Hstuck) as [Hret Hl]. split; [|done].
  intros p Hp. destruct (Hret p Hp) as [[] ->]. done.
Qed.

End handlers.
