(* ===== verification/Pages.v ===== *)
(** * Reading a table page by page

    A client's loop over [GetPartitions] with page tokens yields every
    visible file once, in id order, and terminates. *)
From S2P Require Import Prelude Prog Models PartitionSpec GoJson Postgres World PgClient PgFacts Reads Sorting Registry.
From S2P Require Import Wf Coherence Proto Server.

Section pages.
Context `{Postgres} `{GoText}.

(** The client: pages of [size] files until the server returns no token;
    [None] when the fuel runs out or an RPC fails. *)
Fixpoint fetch_all (fuel : nat) (tableName : string) (snapshotID size : Z) (token : string)
    : Prog Sys (option (list PartitionInfo)) :=
  match fuel with
  | O => Ret None
  | S fuel' =>
      let* r := Server.GetPartitions (mkPartitionRequest tableName "" snapshotID size token) in
      match r with
      | Status _ _ => Ret None
      | Reply page =>
          if String.eqb (plr_NextPageToken page) "" then Ret (Some (plr_Partitions page))
          else
            let* rest := fetch_all fuel' tableName snapshotID size (plr_NextPageToken page) in
            Ret (app (plr_Partitions page) <$> rest)
      end
  end.

(** ** Pages of an increasing list *)

(** The rows after the row [last]. *)
Definition after (last : Z) (rows : list partitions_row) : list partitions_row :=
  List.filter (fun r => last <? p_partition_id r) rows.

Lemma after_none last rows : (forall r, r ∈ rows -> last < p_partition_id r) -> after last rows = rows.
Proof. intros Hr. apply filter_true. intros r Hin. apply Z.ltb_lt. auto. Qed.

(** Behind the last row of a page are the rows not on it. *)
Lemma after_page rows k r :
  increasing p_partition_id rows -> last (take k rows) = Some r -> after (p_partition_id r) rows = drop k rows.
Proof.
  revert k. induction rows as [|x rows IH]; intros k Hinc Hl; [by rewrite take_nil in Hl|].
  apply StronglySorted_inv in Hinc as [Hinc Hx]. destruct k as [|k]; [done|]. cbn [take] in Hl.
  rewrite last_cons in Hl. unfold after. cbn [List.filter drop].
  destruct (last (take k rows)) as [r'|] eqn:E; injection Hl as <-.
  - assert (Hin : r' ∈ rows).
    { apply last_Some in E as [l' E]. rewrite <- (take_drop k rows), E. rewrite !elem_of_app. set_solver. }
    eapply Forall_forall in Hx; [|done]. destruct (Z.ltb_spec (p_partition_id r') (p_partition_id x)); [lia|].
    by apply IH.
  - rewrite Z.ltb_irrefl. apply last_None in E. fold (after (p_partition_id x) rows).
    rewrite after_none; [|intros; by eapply Forall_forall in Hx].
    destruct rows, k; try done.
Qed.

Lemma after_after i j rows : i <= j -> after j (after i rows) = after j rows.
Proof.
  intros Hij. unfold after. rewrite filter_filter. apply filter_ext_elem. intros r _.
  destruct (Z.ltb_spec j (p_partition_id r)); [|apply andb_false_r]. rewrite andb_true_r. apply Z.ltb_lt. lia.
Qed.

Lemma partitions_page_after t n size last d :
  partitions_page t n size last d =
  if table_id_or t d <? 0 then None
  else Some (map scan_partition (take (Z.to_nat size) (after last (visible_rows (table_id_or t d) (int64 n) d)))).
Proof.
  unfold partitions_page, visible_rows, after. destruct (_ <? 0); [done|]. by rewrite <- order_by_filter, filter_filter.
Qed.

(** ** The loop *)

Lemma token_value_FormatInt n : is_int64 n -> token_value (FormatInt n) = n.
Proof.
  intros Hn. unfold token_value. destruct (String.eqb_spec (FormatInt n) "") as [E|]; [by destruct (FormatInt_not_empty n)|].
  cbn. by rewrite ParseInt_FormatInt.
Qed.

Lemma last_map {A B} (f : A -> B) (l : list A) : last (map f l) = f <$> last l.
Proof. apply fmap_last. Qed.

(** One page, with every round trip delivered. *)
Lemma wp_page t n size token s :
  all_free (sys_locks s) -> quiet s -> 0 < size -> (table_id_or t (db s) <? 0) = false ->
  let rows := take (Z.to_nat size) (after (token_value token)
                (visible_rows (table_id_or t (db s)) (int64 (resolved t n (db s))) (db s))) in
  wp (Server.GetPartitions (mkPartitionRequest t "" n size token)) s (fun r s' =>
    all_free (sys_locks s') /\ quiet s' /\ db s' = db s /\
    r = Reply (mkPartitionListResponse (map (partition_info false) (map scan_partition rows))
          (match last rows with Some p => FormatInt (p_partition_id p) | None => "" end)
          (Z.of_nat (length rows)))).
Proof.
  intros Hfree Hq Hsize Ht rows. unfold Server.GetPartitions. cbn [pq_PageSize pq_TableName pq_SnapshotId pq_PageToken].
  destruct (Z.ltb_spec 0 size) as [_|]; [|lia]. rewrite wp_bind.
  eapply wp_mono; [by apply wp_GetPartitionsPaged|]. intros r s' ((Hf & Hd & _ & _ & Hq') & _ & Ha).
  destruct r as [rs|e]; [|by destruct Ha]. cbn in Ha. subst rs. rewrite partitions_page_after, Ht. fold rows.
  rewrite wp_ret. split_and!; [done | auto | done |]. unfold partitions_next_token.
  cbn [pq_PageSize]. rewrite length_map, last_map. destruct (last rows) as [p|]; [|done]. cbn.
  destruct (Z.ltb_spec 0 size); [done | lia].
Qed.

Lemma wp_fetch_all t n size fuel token s q :
  db_wf q (db s) -> all_free (sys_locks s) -> quiet s -> 0 < size -> (table_id_or t (db s) <? 0) = false ->
  let rows := after (token_value token)
                (visible_rows (table_id_or t (db s)) (int64 (resolved t n (db s))) (db s)) in
  (length rows < fuel)%nat ->
  wp (fetch_all fuel t n size token) s (fun r s' =>
    r = Some (map (partition_info false) (map scan_partition rows)) /\ db s' = db s).
Proof.
  intros Hwf Hfree Hq Hsize Ht. revert token s Hwf Hfree Hq Ht.
  induction fuel as [|fuel IH]; intros token s Hwf Hfree Hq Ht rows Hfuel; [lia|].
  cbn [fetch_all]. rewrite wp_bind. eapply wp_mono; [by apply wp_page|].
  intros r s1 (Hf1 & Hq1 & Hd1 & ->). cbn [plr_NextPageToken plr_Partitions]. fold rows.
  set (V := visible_rows (table_id_or t (db s)) (int64 (resolved t n (db s))) (db s)) in *.
  assert (Hinc : increasing p_partition_id V).
  { apply order_by_increasing. apply NoDup_map_filter, Hwf. }
  assert (Hissued : forall p, p ∈ V -> issued q SeqPartitions (p_partition_id p)).
  { intros p Hp. apply elem_of_order_by, list_elem_of_In, filter_In in Hp as [Hp _].
    apply list_elem_of_In in Hp. by apply (wf_partitions _ _ Hwf). }
  destruct (last (take (Z.to_nat size) rows)) as [p|] eqn:El.
  - assert (Hp : p ∈ V).
    { apply last_Some in El as [l' El]. assert (Hin : p ∈ rows).
      { rewrite <- (take_drop (Z.to_nat size) rows), El, !elem_of_app. set_solver. }
      by apply list_elem_of_In, filter_In in Hin as [Hin%list_elem_of_In _]. }
    assert (Hlast : token_value token < p_partition_id p).
    { apply last_Some in El as [l' El]. assert (Hin : p ∈ rows).
      { rewrite <- (take_drop (Z.to_nat size) rows), El, !elem_of_app. set_solver. }
      apply list_elem_of_In, filter_In in Hin as [_ Hin]. by apply Z.ltb_lt. }
    pose proof (wf_seqs _ _ Hwf SeqPartitions). destruct (Hissued p Hp).
    pose proof (token_value_FormatInt (p_partition_id p) ltac:(unfold is_int64; lia)) as Htok.
    destruct (String.eqb_spec (FormatInt (p_partition_id p)) "") as [E|_]; [by destruct (FormatInt_not_empty (p_partition_id p))|].
    assert (Hrest : after (p_partition_id p) V = drop (Z.to_nat size) rows).
    { rewrite <- (after_page rows _ _ (increasing_filter _ _ _ Hinc) El). symmetry. apply after_after. lia. }
    rewrite wp_bind. eapply wp_mono; [apply IH|].
    + by rewrite Hd1.
    + done.
    + done.
    + by rewrite Hd1.
    + rewrite Hd1, Htok. fold V. rewrite Hrest, length_drop. destruct rows; [by rewrite take_nil in El|]. cbn in *. lia.
    + intros r s2 [-> Hd2]. rewrite wp_ret, Hd2, Hd1, Htok. fold V. rewrite Hrest. split; [|done]. cbn.
      by rewrite <- !map_app, take_drop.
  - rewrite String.eqb_refl, wp_ret. split; [|done]. apply last_None in El. destruct rows as [|x rows']; [by rewrite take_nil|].
    destruct (Z.to_nat size) eqn:E; [lia | done].
Qed.

(** ** Properties *)

(** C20. Paging is complete and terminates: with every round trip delivered,
    following the page tokens of [GetPartitions] yields, whatever the page
    size, exactly the files that one unpaged read would, each once, in id
    order, after at most one page more than there are files. *)
Theorem pages_complete (tableName : string) (snapshotID size : Z) (fuel : nat) (s : Sys)
    (rows : list PartitionRow) :
  sys_wf s -> quiet s -> 0 < size ->
  partitions_at tableName (resolved tableName snapshotID (db s)) (db s) = Some rows ->
  (length rows < fuel)%nat ->
  exists s', run (fetch_all fuel tableName snapshotID size "") s = Some (Some (map (partition_info false) rows), s').
Proof.
  intros [Hwf Hfree _] Hq Hsize Hrows Hfuel. unfold partitions_at in Hrows.
  destruct (table_id_or tableName (db s) <? 0) eqn:Ht; [done|]. injection Hrows as <-. rewrite length_map in Hfuel.
  set (V := visible_rows _ _ _) in *.
  assert (Hall : after (token_value "") V = V).
  { apply after_none. intros p Hp. change (token_value "") with 0.
    apply elem_of_order_by, list_elem_of_In, filter_In in Hp as [Hp%list_elem_of_In _].
    destruct (wf_partitions _ _ Hwf p Hp) as [[? _] _]. lia. }
  pose proof (wp_fetch_all tableName snapshotID size fuel "" s _ Hwf Hfree Hq Hsize Ht) as Hw. cbv zeta in Hw.
  fold V in Hw. rewrite Hall in Hw. apply wp_run in Hw as (r & s' & Hr & -> & _); [|done]. by exists s'.
Qed.

End pages.
