(* ===== verification/SpecFacts.v ===== *)
(** * Partition spec evolution: the rules

    What [ValidateSpecChange] accepts, stated as properties of the two specs,
    and what the conversions between the wire and the stored form keep. *)
From S2P Require Import Prelude Prog Models PartitionSpec GoJson Postgres World PgClient SpecStore Proto Server.

(** A field that can stand in a spec. *)
Record field_ok (f : PartitionField) : Prop := {
  fo_source : SourceColumn f <> EmptyString;
  fo_transform : validTransforms (Transform f) = true;
  fo_param : if paramRequired (Transform f)
             then exists n, TransformParam f = Some n /\ 0 < n
             else TransformParam f = None;
}.

(** A spec that can be stored. *)
Record spec_ok (fs : list PartitionField) : Prop := {
  so_some : fs <> [];
  so_fields : Forall field_ok fs;
  so_ids : NoDup (map FieldID fs);
}.

(** The fields agree in all but the parameter of the transform, which
    [ValidateSpecChange] does not compare. *)
Record same_but_param (f g : PartitionField) : Prop := {
  sb_id : FieldID g = FieldID f;
  sb_column : SourceColumn g = SourceColumn f;
  sb_transform : Transform g = Transform f;
}.

(** Every field of the current spec is kept, by id, with its column and its
    transform, not always with its parameter; a field of a new id comes after
    all of them. *)
Record evolves (current proposed : list PartitionField) : Prop := {
  ev_kept : forall f, f ∈ current -> exists g, g ∈ proposed /\ FieldID g = FieldID f /\
              SourceColumn g = SourceColumn f /\ Transform g = Transform f;
  ev_new : forall g, g ∈ proposed -> (forall f, f ∈ current -> FieldID f <> FieldID g) ->
              0 < FieldID g /\ forall f, f ∈ current -> FieldID f < FieldID g;
}.

Section spec_facts.
Context `{GoText}.

Lemma param_missing_false f :
  param_missing f = false <-> exists n, TransformParam f = Some n /\ 0 < n.
Proof.
  unfold param_missing. destruct (TransformParam f) as [n|].
  - rewrite Z.leb_gt. split; [by eauto | by intros (? & [= ->] & ?)].
  - split; [done | by intros (? & ? & _)].
Qed.

(** The message of a rejected field is not empty. *)
Lemma field_error_not_empty i seen f : field_error i seen f <> Some EmptyString.
Proof. unfold field_error. by repeat case_match. Qed.

Lemma fields_error_not_empty i seen fs : fields_error i seen fs <> Some EmptyString.
Proof.
  revert i seen. induction fs as [|f fs IH]; intros i seen; [done|]. cbn.
  destruct (field_error i seen f) eqn:E; [|apply IH]. intros [= ->]. by eapply field_error_not_empty.
Qed.

Lemma first_error_not_empty {A} (f : A -> option string) l :
  (forall x, f x <> Some EmptyString) -> first_error f l <> Some EmptyString.
Proof. intros Hf. induction l as [|x l IH]; [done|]. cbn. destruct (f x) eqn:E; [|done]. congruence. Qed.

Lemma evolution_error_not_empty c p : evolution_error c p <> Some EmptyString.
Proof.
  unfold evolution_error. destruct (first_error (kept_error p) c) eqn:E.
  - rewrite <- E. apply first_error_not_empty. intros f. unfold kept_error. by repeat case_match.
  - apply first_error_not_empty. intros f. unfold new_id_error. by case_match.
Qed.

Lemma field_error_None i seen f :
  field_error i seen f = None <-> field_ok f /\ FieldID f ∉ seen.
Proof.
  assert (Hseen : existsb (Z.eqb (FieldID f)) seen = false <-> FieldID f ∉ seen).
  { rewrite <- not_true_iff_false, existsb_exists, list_elem_of_In. split.
    - intros Hno Hin. apply Hno. exists (FieldID f). by rewrite Z.eqb_refl.
    - by intros Hno (x & Hin & <-%Z.eqb_eq). }
  unfold field_error. cbv zeta. split.
  - repeat case_match; try done. intros _. split; [|by apply Hseen].
    rewrite ?negb_false_iff, ?andb_false_iff in *. split; [by apply String.eqb_neq | done |].
    destruct (paramRequired (Transform f)); cbn in *.
    + apply param_missing_false. by destruct_or?.
    + destruct (TransformParam f); [|done]. by destruct_or?.
  - intros [[Hs Ht Hp] Hid]. apply String.eqb_neq in Hs. rewrite Hs, Ht. cbn [negb].
    destruct (paramRequired (Transform f)); cbn [andb negb].
    + apply param_missing_false in Hp. rewrite Hp. by apply Hseen in Hid as ->.
    + rewrite Hp, bool_decide_eq_true_2 by done. by apply Hseen in Hid as ->.
Qed.

Lemma fields_error_None i seen fs :
  fields_error i seen fs = None <->
  Forall field_ok fs /\ NoDup (map FieldID fs) /\ forall f, f ∈ fs -> FieldID f ∉ seen.
Proof.
  revert i seen. induction fs as [|f fs IH]; intros i seen; cbn.
  { split; [|done]. intros _. split_and!; [done | apply NoDup_nil_2 | by intros ? ?%elem_of_nil]. }
  destruct (field_error i seen f) as [m|] eqn:E.
  - split; [done|]. intros (Hf & _ & Hs). inversion Hf; subst.
    assert (field_error i seen f = None); [|congruence]. apply field_error_None. split; [done|]. apply Hs. left.
  - apply field_error_None in E as [Hf Hid]. rewrite IH, Forall_cons, NoDup_cons. split.
    + intros (Hfs & Hnd & Hs). split_and!; [done | done | | done |].
      * intros Hin. apply list_elem_of_In, in_map_iff in Hin as (g & Hg & Hin).
        apply (Hs g); [by apply list_elem_of_In|]. rewrite Hg. left.
      * intros g [->|Hin]%elem_of_cons; [done|]. intros Hin'. apply (Hs g Hin). by right.
    + intros ((_ & Hfs) & (Hnin & Hnd) & Hs). split_and!; [done | done|]. intros g Hg [Heq|Hin]%elem_of_cons.
      * apply Hnin. rewrite <- Heq. apply list_elem_of_In, in_map. by apply list_elem_of_In.
      * apply (Hs g); [by right | done].
Qed.

Lemma first_error_None {A} (f : A -> option string) l :
  first_error f l = None <-> forall x, x ∈ l -> f x = None.
Proof.
  induction l as [|x l IH]; cbn; [split; [by intros _ ? ?%elem_of_nil | done]|].
  destruct (f x) eqn:E.
  - split; [done|]. intros Hf. rewrite <- E. apply Hf. left.
  - rewrite IH. split; [intros Hf y [->|]%elem_of_cons; auto | intros Hf y Hy; apply Hf; by right].
Qed.

(** The running maximum of the ids is at least zero. *)
Lemma max_field_id_lt fs n : max_field_id fs < n <-> 0 < n /\ forall f, f ∈ fs -> FieldID f < n.
Proof.
  unfold max_field_id. assert (Hgen : forall m, foldl (fun m f => if m <? FieldID f then FieldID f else m) m fs < n <->
    m < n /\ forall f, f ∈ fs -> FieldID f < n).
  { induction fs as [|f fs IH]; intros m; cbn; [split; [split; [done | by intros ? ?%elem_of_nil] | by intros []]|].
    rewrite IH. split.
    - intros [Hm Hf]. destruct (Z.ltb_spec m (FieldID f)); (split; [lia|]);
        intros g [->|]%elem_of_cons; auto; lia.
    - intros [Hm Hf]. split; [|intros; apply Hf; by right].
      destruct (m <? FieldID f); [apply Hf; left | done]. }
  apply Hgen.
Qed.

Lemma find_same_id f fs g :
  NoDup (map FieldID fs) -> g ∈ fs -> FieldID g = FieldID f -> List.find (same_id f) fs = Some g.
Proof.
  induction fs as [|h fs IH]; intros Hnd Hg Hid; [by apply elem_of_nil in Hg|]. cbn in *.
  apply NoDup_cons in Hnd as [Hnin Hnd]. unfold same_id at 1.
  apply elem_of_cons in Hg as [->|Hg].
  - by rewrite Hid, Z.eqb_refl.
  - destruct (Z.eqb_spec (FieldID h) (FieldID f)) as [E|]; [|by apply IH].
    destruct Hnin. rewrite E, <- Hid. apply list_elem_of_In, in_map. by apply list_elem_of_In.
Qed.

Lemma kept_error_None proposed f :
  NoDup (map FieldID proposed) ->
  kept_error proposed f = None <-> exists g, g ∈ proposed /\ FieldID g = FieldID f /\
    SourceColumn g = SourceColumn f /\ Transform g = Transform f.
Proof.
  intros Hnd. unfold kept_error. cbv zeta. split.
  - destruct (List.find (same_id f) proposed) as [g|] eqn:E; [|done].
    apply List.find_some in E as [Hin Hid]. apply Z.eqb_eq in Hid. exists g.
    repeat case_match; try done. rewrite negb_false_iff, String.eqb_eq in *.
    split_and!; try done. by apply list_elem_of_In.
  - intros (g & Hin & Hid & Hs & Ht). rewrite (find_same_id f proposed g) by done.
    by rewrite Hs, Ht, !String.eqb_refl.
Qed.

Lemma new_id_error_None current g :
  new_id_error current g = None <->
  ((forall f, f ∈ current -> FieldID f <> FieldID g) -> 0 < FieldID g /\ forall f, f ∈ current -> FieldID f < FieldID g).
Proof.
  unfold new_id_error. rewrite <- max_field_id_lt.
  assert (Hex : existsb (same_id g) current = false <-> forall f, f ∈ current -> FieldID f <> FieldID g).
  { rewrite <- not_true_iff_false, existsb_exists. split.
    - intros Hno f Hin E. apply Hno. exists f. split; [by apply list_elem_of_In | by apply Z.eqb_eq].
    - intros Hno (f & Hin & E%Z.eqb_eq). apply (Hno f); [by apply list_elem_of_In | done]. }
  destruct (existsb (same_id g) current) eqn:E; cbn.
  - split; [|done]. intros _ Hno. apply Hex in Hno. congruence.
  - destruct (Z.leb_spec (FieldID g) (max_field_id current)).
    + split; [done|]. intros Hm. assert (max_field_id current < FieldID g); [|lia]. apply Hm. by apply Hex.
    + done.
Qed.

Lemma evolution_error_None current proposed :
  NoDup (map FieldID proposed) -> evolution_error current proposed = None <-> evolves current proposed.
Proof.
  intros Hnd. unfold evolution_error. destruct (first_error (kept_error proposed) current) eqn:E.
  - split; [done|]. intros [Hk _]. assert (first_error (kept_error proposed) current = None); [|congruence].
    apply first_error_None. intros f Hf. apply kept_error_None; auto.
  - rewrite first_error_None in E |- *. split.
    + intros Hn. split; [intros f Hf; apply kept_error_None; auto | intros g Hg; apply new_id_error_None; auto].
    + intros [_ Hn] g Hg. apply new_id_error_None. auto.
Qed.

Lemma ValidateSpecChange_accepts (currentJSON proposedJSON : string) :
  ValidateSpecChange currentJSON proposedJSON = "" <->
  exists proposed, json_unmarshal_spec proposedJSON = Ok proposed /\ spec_ok (Fields proposed) /\
    forall current, currentJSON <> "" -> json_unmarshal_spec currentJSON = Ok current ->
      evolves (Fields current) (Fields proposed).
Proof.
  unfold ValidateSpecChange. destruct (json_unmarshal_spec proposedJSON) as [proposed|e].
  2: { split; [done|]. by intros (? & ? & _). }
  case_bool_decide as Hne; [split; [done|]; by intros (? & [= <-] & [] & _)|].
  destruct (fields_error 0 [] (Fields proposed)) as [m|] eqn:Ef.
  { split; [intros ->; by apply fields_error_not_empty in Ef|]. intros (? & [= <-] & [_ Hf Hi] & _).
    assert (fields_error 0 [] (Fields proposed) = None); [|congruence].
    apply fields_error_None. split_and!; [done | done|]. by intros f _ ?%elem_of_nil. }
  apply fields_error_None in Ef as (Hf & Hi & _). assert (Hok : spec_ok (Fields proposed)) by (by split).
  destruct (String.eqb_spec currentJSON "") as [->|Hc].
  { split; [|done]. intros _. exists proposed. by split_and!. }
  destruct (json_unmarshal_spec currentJSON) as [current|e].
  - destruct (evolution_error (Fields current) (Fields proposed)) as [m|] eqn:E; cbn.
    + split; [intros ->; by apply evolution_error_not_empty in E|]. intros (? & [= <-] & _ & Hev).
      specialize (Hev current Hc eq_refl). apply evolution_error_None in Hev; [congruence | done].
    + split; [|done]. intros _. exists proposed. split_and!; [done | done|]. intros ? _ [= <-].
      by apply evolution_error_None.
  - split; [|done]. intros _. exists proposed. by split_and!.
Qed.

(** A change of parameters alone is an evolution. *)
Lemma evolves_params current proposed : Forall2 same_but_param current proposed -> evolves current proposed.
Proof.
  intros Hs. split.
  - intros f Hf. apply list_elem_of_lookup in Hf as [i Hi]. destruct (Forall2_lookup_l _ _ _ _ _ Hs Hi) as (g & Hg & []).
    exists g. split; [by eapply list_elem_of_lookup_2 | done].
  - intros g Hg Hno. apply list_elem_of_lookup in Hg as [i Hi]. destruct (Forall2_lookup_r _ _ _ _ _ Hs Hi) as (f & Hf & [Hid _ _]).
    destruct (Hno f); [by eapply list_elem_of_lookup_2 | done].
Qed.

(** ** Histories *)

Lemma evolves_trans a b c : evolves a b -> evolves b c -> evolves a c.
Proof.
  intros [Hk1 Hn1] [Hk2 Hn2]. split.
  - intros f Hf. destruct (Hk1 f Hf) as (g & Hg & Hi & Hs & Ht). destruct (Hk2 g Hg) as (h & Hh & Hi' & Hs' & Ht').
    exists h. split_and!; congruence.
  - intros h Hh Hno. destruct (decide (Exists (fun g => FieldID g = FieldID h) b)) as [Hex|Hnex].
    + apply Exists_exists in Hex as (g & Hg & Hid). rewrite <- Hid. apply Hn1; [done|].
      intros f Hf. rewrite Hid. by apply Hno.
    + destruct (Hn2 h Hh) as [Hpos Hlt].
      { intros g Hg Hid. apply Hnex, Exists_exists. eauto. }
      split; [done|]. intros f Hf. destruct (Hk1 f Hf) as (g & Hg & <- & _). by apply Hlt.
Qed.

(** [b] replaces [a] as a table's spec: both are texts the server stored or
    checked. *)
Definition accepted_change (a b : string) : Prop := a <> EmptyString /\ ValidateSpecChange a b = EmptyString.

(** ** The wire form *)

Lemma transform_roundtrip t :
  validTransforms t = true -> protoTransformToString (stringTransformToProto t) = t.
Proof.
  unfold validTransforms. rewrite existsb_exists. intros (x & Hin & ->%String.eqb_eq). cbn in Hin.
  by destruct_or?; subst.
Qed.

Lemma field_roundtrip f :
  field_ok f -> is_int32 (FieldID f) -> (forall n, TransformParam f = Some n -> is_int32 n) ->
  proto_to_field (field_to_proto f) = f.
Proof.
  intros [Hs Ht Hp] Hid Hn. unfold proto_to_field, field_to_proto. cbn. rewrite int32_id, transform_roundtrip by done.
  destruct f as [id src tr param]. cbn in *. f_equal. destruct (paramRequired tr).
  - destruct Hp as (n & -> & Hpos). rewrite int32_id by auto. by destruct (Z.eqb_spec n 0); [lia|].
  - by subst.
Qed.

(** ** Properties *)

(** C15. [ValidateSpecChange] decides spec evolution: it accepts exactly when
    the proposed text decodes to a well-formed spec (at least one field, known
    transforms with the parameters they need, distinct ids) which, when the
    table has a current spec that decodes, keeps every field's id, column and
    transform and numbers new fields above all existing ones; when it has none,
    or one that does not decode, any well-formed spec will do.  The parameter
    of a transform is not protected, although the code says that every
    existing field must be preserved unchanged: a well-formed proposal that
    differs from the current spec in parameters alone is accepted. *)
Theorem spec_change_accepted (currentJSON proposedJSON : string) :
  (ValidateSpecChange currentJSON proposedJSON = "" <->
   exists proposed, json_unmarshal_spec proposedJSON = Ok proposed /\ spec_ok (Fields proposed) /\
     forall current, currentJSON <> "" -> json_unmarshal_spec currentJSON = Ok current ->
       evolves (Fields current) (Fields proposed)) /\
  (forall current proposed, json_unmarshal_spec currentJSON = Ok current ->
     json_unmarshal_spec proposedJSON = Ok proposed -> spec_ok (Fields proposed) ->
     Forall2 same_but_param (Fields current) (Fields proposed) ->
     ValidateSpecChange currentJSON proposedJSON = "").
Proof.
  split; [apply ValidateSpecChange_accepts|]. intros current proposed Hc Hp Hok Hs. apply ValidateSpecChange_accepts.
  exists proposed. split_and!; [done | done|]. intros c _ Hc'. rewrite Hc in Hc'. injection Hc' as <-.
  by apply evolves_params.
Qed.

(** C30. Across any history of accepted spec changes, every field of the
    first spec is still in the last one, under its id, with its column and
    transform; and every field added since has an id above all of its. *)
Theorem spec_history_evolves (first last : string) (s0 sn : PartitionSpec) :
  tc accepted_change first last ->
  json_unmarshal_spec first = Ok s0 -> json_unmarshal_spec last = Ok sn ->
  evolves (Fields s0) (Fields sn).
Proof.
  intros Htc. revert s0 sn. assert (Hstep : forall a b sa sb, accepted_change a b ->
    json_unmarshal_spec a = Ok sa -> json_unmarshal_spec b = Ok sb -> evolves (Fields sa) (Fields sb)).
  { intros a b sa sb [Hne Hv] Ha Hb. apply ValidateSpecChange_accepts in Hv as (p & Hp & _ & Hev). rewrite Hb in Hp. injection Hp as ->. by apply Hev. }
  induction Htc as [a b Hab|a b c Hab Hbc IH]; intros sa sc Ha Hc; [by eapply Hstep|].
  pose proof Hab as [_ Hv]. apply ValidateSpecChange_accepts in Hv as (sb & Hb & _ & _).
  eapply evolves_trans; [by eapply Hstep | by apply IH].
Qed.

(** Specs survive the wire: a stored spec that is well-formed and whose
    ids and parameters fit the protocol's [int32] fields is decoded by the
    receiver to the same spec. *)
Theorem spec_wire_roundtrip (spec : PartitionSpec) :
  Forall field_ok (Fields spec) ->
  (forall f, f ∈ Fields spec -> is_int32 (FieldID f) /\ forall n, TransformParam f = Some n -> is_int32 n) ->
  protoToPartitionSpec (Some (partitionSpecToProto spec)) = spec.
Proof.
  destruct spec as [fs]. cbn. intros Hok Hr. f_equal. induction Hok as [|f fs Hf Hfs IH]; [done|]. cbn.
  destruct (Hr f (list_elem_of_here _ _)). rewrite field_roundtrip by done. f_equal. apply IH. intros g Hg. apply Hr. by right.
Qed.

End spec_facts.
