(* ===== verification/StatsFacts.v ===== *)
(** * Statistics

    What [GetStats] and [GetColumnStats] report of the visible files: counts
    and sums (at the width of the code's integers), and column bounds in the
    byte order of their texts. *)
From S2P Require Import Prelude Prog LRU Models PartitionSpec GoJson Postgres World PgClient PgFacts Reads Registry.
From S2P Require Import Wf Coherence Proto Server.

(** ** Specification *)

(** The texts that are bounds: the empty text stands for none. *)
Definition bounds_of (f : ColumnStats -> string) (l : list ColumnStats) : list string :=
  List.filter (fun x => negb (String.eqb x "")) (map f l).

(** [m] is the least of [l], or empty when there is none. *)
Definition least (l : list string) (m : string) : Prop :=
  (l = [] /\ m = EmptyString) \/ (m ∈ l /\ forall x, x ∈ l -> string_ltb x m = false).

Definition greatest (l : list string) (m : string) : Prop :=
  (l = [] /\ m = EmptyString) \/ (m ∈ l /\ forall x, x ∈ l -> string_ltb m x = false).

(** The statistics of a column in a list of files. *)
Definition column_stats (c : Z) (rows : list PartitionRow) : list ColumnStats :=
  List.filter (fun cs => cs_ColumnID cs =? c) (List.flat_map pr_ColumnStats rows).

(** [n] is the sum of a count over [l] as the code adds it up: exact when the
    sum fits an [int64], wrapped to one when it does not. *)
Definition adds_up (f : ColumnStats -> Z) (l : list ColumnStats) (n : Z) : Prop :=
  (is_int64 (sum_by f l) -> n = sum_by f l) /\ n = int64 (sum_by f l).

(** The bounds the response gives for a column. *)
Record column_summary (l : list ColumnStats) (b : ColumnBounds) : Prop := {
  sum_nulls : adds_up cs_NullCount l (cb_NullCount b);
  sum_nans : adds_up cs_NaNCount l (cb_NanCount b);
  sum_values : adds_up cs_ValueCount l (cb_ValueCount b);
  sum_min : least (bounds_of cs_MinValue l) (cb_MinValue b);
  sum_max : greatest (bounds_of cs_MaxValue l) (cb_MaxValue b);
}.

(** ** The byte order of texts *)

Lemma string_ltb_irrefl a : string_ltb a a = false.
Proof. induction a as [|c a IH]; [done|]. cbn. by rewrite Ascii.eqb_refl. Qed.

Lemma ascii_code_inj x y : Ascii.nat_of_ascii x = Ascii.nat_of_ascii y -> x = y.
Proof. intros E. by rewrite <- (Ascii.ascii_nat_embedding x), <- (Ascii.ascii_nat_embedding y), E. Qed.

Lemma string_ltb_trans a b c : string_ltb a b = true -> string_ltb b c = true -> string_ltb a c = true.
Proof.
  revert b c. induction a as [|x a IH]; intros [|y b] [|z c]; cbn; try done.
  destruct (Ascii.eqb_spec x y) as [->|Hxy], (Ascii.eqb_spec y z) as [->|Hyz].
  - apply IH.
  - done.
  - by apply Ascii.eqb_neq in Hxy as ->.
  - intros H1%Nat.ltb_lt H2%Nat.ltb_lt. destruct (Ascii.eqb_spec x z) as [->|]; [lia|]. apply Nat.ltb_lt. lia.
Qed.

Lemma string_ltb_total a b : string_ltb a b = false -> string_ltb b a = false -> a = b.
Proof.
  revert b. induction a as [|x a IH]; intros [|y b]; cbn; try done. rewrite (Ascii.eqb_sym y x).
  destruct (Ascii.eqb_spec x y) as [->|Hxy]; [intros; f_equal; auto|].
  intros H1%Nat.ltb_ge H2%Nat.ltb_ge. destruct Hxy. apply ascii_code_inj. lia.
Qed.

(** [<=] is transitive. *)
Lemma string_ltb_le_trans a b c : string_ltb b a = false -> string_ltb c b = false -> string_ltb c a = false.
Proof.
  intros Hab Hbc. destruct (string_ltb c a) eqn:Hca; [|done].
  destruct (string_ltb a b) eqn:E.
  - by rewrite (string_ltb_trans c a b) in Hbc.
  - assert (a = b) as -> by (by apply string_ltb_total). congruence.
Qed.

Lemma string_ltb_asym a b : string_ltb a b = true -> string_ltb b a = false.
Proof.
  intros Hab. destruct (string_ltb b a) eqn:E; [|done]. by rewrite <- (string_ltb_irrefl a), (string_ltb_trans a b a).
Qed.

Lemma string_ltb_empty x : x <> EmptyString -> string_ltb "" x = true.
Proof. by destruct x. Qed.

(** ** One column *)

(** A new text among the bounds. *)
Lemma least_snoc l m x :
  x <> EmptyString -> least l m ->
  least (l ++ [x]) (if bool_decide (l = []) || string_ltb x m then x else m).
Proof.
  intros Hx [[-> ->]|[Hin Hle]]; right.
  - rewrite bool_decide_eq_true_2 by done. cbn. split; [by left|]. intros y ->%list_elem_of_singleton.
    apply string_ltb_irrefl.
  - rewrite bool_decide_eq_false_2 by (by intros ->; apply elem_of_nil in Hin). cbn [orb].
    destruct (string_ltb x m) eqn:E; (split; [set_solver|]); intros y [Hy| ->%list_elem_of_singleton]%elem_of_app.
    + apply (string_ltb_le_trans x m y); [by apply string_ltb_asym | by apply Hle].
    + apply string_ltb_irrefl.
    + by apply Hle.
    + done.
Qed.

Lemma greatest_snoc l m x :
  x <> EmptyString -> greatest l m -> greatest (l ++ [x]) (if string_ltb m x then x else m).
Proof.
  intros Hx [[-> ->]|[Hin Hle]]; right.
  - rewrite string_ltb_empty by done. cbn. split; [by left|]. intros y ->%list_elem_of_singleton.
    apply string_ltb_irrefl.
  - destruct (string_ltb m x) eqn:E; (split; [set_solver|]); intros y [Hy| ->%list_elem_of_singleton]%elem_of_app.
    + apply (string_ltb_le_trans y m x); [by apply Hle | by apply string_ltb_asym].
    + apply string_ltb_irrefl.
    + by apply Hle.
    + done.
Qed.

Lemma bounds_of_snoc f l cs :
  bounds_of f (l ++ [cs]) = bounds_of f l ++ (if String.eqb (f cs) "" then [] else [f cs]).
Proof. unfold bounds_of. rewrite map_app, List.filter_app. cbn. by destruct (String.eqb (f cs) ""). Qed.

(** The accumulator of a column after the statistics [l]. *)
Definition accumulated (l : list ColumnStats) : agg := foldl (fun a cs => agg_add cs a) zero_agg l.

Lemma adds_up_wrapped f l n : n = int64 (sum_by f l) -> adds_up f l n.
Proof. intros ->. split; [apply int64_id | done]. Qed.

Lemma accumulated_summary c l :
  hasMin (accumulated l) = negb (bool_decide (bounds_of cs_MinValue l = [])) /\
  column_summary l (column_bounds (agg_stats c (accumulated l))).
Proof.
  induction l as [|cs l [Hh [[_ Hn] [_ Ha] [_ Hv] Hmin Hmax]]] using rev_ind.
  { split; [done|]. split; try (by apply adds_up_wrapped); by left. }
  unfold accumulated in *. rewrite foldl_snoc. cbn [column_bounds agg_stats] in *.
  set (a := foldl _ _ l) in *. cbn in Hn, Ha, Hv, Hmin, Hmax.
  split.
  - cbn. rewrite Hh, bounds_of_snoc. destruct (String.eqb (cs_MinValue cs) "") eqn:E; cbn.
    + by rewrite app_nil_r, orb_false_r.
    + rewrite negb_involutive, (bool_decide_eq_false_2 (_ ++ _ = [])) by (by intros [_ [=]]%app_eq_nil).
      cbn. by destruct (bool_decide _).
  - split; cbn; [apply adds_up_wrapped; by rewrite sum_by_snoc, ?Hn, ?Ha, ?Hv, int64_add_l..| |].
    + rewrite bounds_of_snoc, Hh, negb_involutive. destruct (String.eqb_spec (cs_MinValue cs) "") as [->|Hne]; cbn.
      * by rewrite app_nil_r.
      * by apply least_snoc.
    + rewrite bounds_of_snoc. destruct (String.eqb_spec (cs_MaxValue cs) "") as [->|Hne]; cbn.
      * by rewrite app_nil_r.
      * by apply greatest_snoc.
Qed.

(** ** All columns *)

Lemma aggregate_lookup c l m :
  foldl agg_step m l !! c =
  match List.filter (fun cs => cs_ColumnID cs =? c) l with
  | [] => m !! c
  | l' => Some (foldl (fun a cs => agg_add cs a) (default zero_agg (m !! c)) l')
  end.
Proof.
  revert m. induction l as [|cs l IH]; intros m; [done|]. cbn. rewrite IH. unfold agg_step.
  destruct (Z.eqb_spec (cs_ColumnID cs) c) as [->|Hne].
  - rewrite lookup_insert_eq. cbn. by destruct (List.filter _ l).
  - by rewrite lookup_insert_ne.
Qed.

Lemma aggregate_column c rows :
  aggregate rows !! c =
  if bool_decide (column_stats c rows = []) then None else Some (accumulated (column_stats c rows)).
Proof.
  unfold aggregate, column_stats, accumulated. rewrite aggregate_lookup, lookup_empty. cbn.
  by destruct (List.filter _ _).
Qed.

Section stats_facts.
Context `{Postgres} `{GoText}.

(** The entries of the response, one per column of the map. *)
Lemma column_bounds_listed rows :
  let bs := map column_bounds (map (fun e => agg_stats e.1 e.2) (map_to_list (aggregate rows))) in
  map cb_ColumnId bs = (map_to_list (aggregate rows)).*1 /\
  forall b, b ∈ bs -> column_summary (column_stats (cb_ColumnId b) rows) b.
Proof.
  cbn zeta. split; [by rewrite !List.map_map|]. intros b Hb.
  apply list_elem_of_In, in_map_iff in Hb as (cs & <- & Hcs). apply in_map_iff in Hcs as ([c a] & <- & Hin).
  apply list_elem_of_In, elem_of_map_to_list in Hin. rewrite aggregate_column in Hin.
  case_bool_decide; [done|]. injection Hin as <-. cbn [column_bounds agg_stats cb_ColumnId fst snd cs_ColumnID].
  apply accumulated_summary.
Qed.

Lemma add_stats_fold l s :
  foldl add_stats s l =
  mkPartitionStats (TotalPartitions s)
    (match l with [] => TotalRows s | _ => int64 (TotalRows s + sum_by pr_RowCount l) end)
    (match l with [] => TotalBytes s | _ => int64 (TotalBytes s + sum_by pr_SizeBytes l) end)
    (AvgSizeBytes s).
Proof.
  revert s. induction l as [|p l IH]; intros s; [by destruct s|]. cbn [foldl]. rewrite IH. unfold add_stats, sum_by. cbn.
  destruct l as [|p' l]; cbn; rewrite ?int64_add_l; f_equal; f_equal; lia.
Qed.

(** ** Properties *)

(** C22. Column bounds: at the snapshot asked for (the current one for zero),
    [GetColumnStats] reports each column that occurs in a visible file exactly
    once, with the sums of its null, NaN and value counts over all visible
    files, exact when the sum fits an [int64] and reduced modulo 2^64 to one
    when it does not, and with the least and greatest of the non-empty bounds
    in the byte order of their texts. *)
Theorem column_stats_exact (req : GetColumnStatsRequest) (s : Sys) :
  let name := gcq_TableName req in
  let snap := resolved name (gcq_SnapshotId req) (db s) in
  let rows := default [] (partitions_at name snap (db s)) in
  quiet s -> name <> "" -> snap <> 0 ->
  wp (GetColumnStats req) s (fun r s' => db s' = db s /\ exists bs,
    r = Reply (mkGetColumnStatsResponse snap bs) /\ NoDup (map cb_ColumnId bs) /\
    (forall c, c ∈ map cb_ColumnId bs <-> column_stats c rows <> []) /\
    forall b, b ∈ bs -> column_summary (column_stats (cb_ColumnId b) rows) b).
Proof.
  intros name snap rows Hq Hname Hsnap. unfold GetColumnStats. fold name.
  destruct (String.eqb_spec name "") as [|_]; [done|].
  assert (Hat : forall s1, unchanged s s1 -> wp (column_stats_at name snap) s1 (fun r s' => db s' = db s /\ exists bs,
    r = Reply (mkGetColumnStatsResponse snap bs) /\ NoDup (map cb_ColumnId bs) /\
    (forall c, c ∈ map cb_ColumnId bs <-> column_stats c rows <> []) /\
    forall b, b ∈ bs -> column_summary (column_stats (cb_ColumnId b) rows) b)).
  { intros s1 Hu1. unfold column_stats_at, GetColumnStatsForSnapshot. rewrite wp_bind, wp_bind.
    apply wp_QueryPartitions; [intros e s2 _ Hn; by destruct Hn; apply (unchanged_quiet _ _ Hu1)|].
    intros s2 Hu2. rewrite !wp_ret. split; [by rewrite (unchanged_db _ _ Hu2), (unchanged_db _ _ Hu1)|].
    rewrite (unchanged_db _ _ Hu1). fold rows. destruct (column_bounds_listed rows) as [Hids Hsum].
    eexists. split; [done|]. rewrite Hids. split_and!; [apply NoDup_fst_map_to_list | | done]. intros c.
    rewrite list_elem_of_fmap. split.
    - intros ([c' a] & -> & Hin%elem_of_map_to_list). rewrite aggregate_column in Hin. by case_bool_decide.
    - intros Hc. exists (c, accumulated (column_stats c rows)). split; [done|]. apply elem_of_map_to_list.
      by rewrite aggregate_column, bool_decide_eq_false_2. }
  unfold snap, resolved in *. destruct (gcq_SnapshotId req =? 0).
  - rewrite wp_bind. apply wp_GetCurrentSnapshot; [by intros e s' _ []|]. intros s1 Hu1. fold name in Hsnap.
    destruct (Z.eqb_spec (current_snapshot name (db s)) 0); [done|]. by apply Hat.
  - apply Hat. apply unchanged_refl.
Qed.

(** Table statistics are exact: [GetPartitionStats] reports the number of
    files visible at the current snapshot and, when the sums fit an [int64],
    their total rows and bytes and the average size rounded down, zero for no
    files. *)
Theorem partition_stats_exact (name : string) (s : Sys) (rows : list PartitionRow) :
  all_free (sys_locks s) -> quiet s -> name <> "" ->
  partitions_at name (current_snapshot name (db s)) (db s) = Some rows ->
  let n := Z.of_nat (length rows) in
  let bytes := sum_by pr_SizeBytes rows in
  is_int64 (sum_by pr_RowCount rows) -> 0 <= bytes < 2 ^ 63 ->
  wp (GetPartitionStats (mkPartitionStatsRequest name)) s (fun r s' => db s' = db s /\ exists avg,
    r = Reply (mkPartitionStatsResponse n (sum_by pr_RowCount rows) bytes avg) /\
    (n = 0 -> avg = 0) /\ (0 < n -> avg * n <= bytes < (avg + 1) * n)).
Proof.
  intros Hfree Hq Hname Hrows n bytes Hr Hb. unfold GetPartitionStats. cbn [psq_TableName].
  destruct (String.eqb_spec name "") as [|_]; [done|]. rewrite wp_bind.
  eapply wp_mono; [by apply wp_GetStats|]. intros r s' ((_ & Hd & _) & _ & Ha).
  destruct r as [st|e]; [|by destruct Ha]. cbn in Ha. subst st. rewrite wp_ret. split; [done|].
  unfold stats_at. rewrite Hrows. unfold partition_stats. rewrite add_stats_fold. cbn.
  fold n. destruct rows as [|p rows']; [by exists 0|].
  cbn [length] in n. fold bytes. rewrite !(int64_id (0 + _)) by (done || (unfold is_int64; lia)).
  rewrite !Z.add_0_l. destruct (Z.ltb_spec 0 n); [|lia]. exists (bytes ÷ n). clearbody n bytes.
  rewrite !Z.quot_div_nonneg by lia. pose proof (Z.div_le_upper_bound bytes n bytes ltac:(lia) ltac:(nia)).
  pose proof (Z.div_pos bytes n ltac:(lia) ltac:(lia)).
  rewrite int64_id by (unfold is_int64; lia). split; [done|]. split; [lia|]. intros _.
  pose proof (Z.mul_div_le bytes n ltac:(lia)). pose proof (Z.mul_succ_div_gt bytes n ltac:(lia)). lia.
Qed.

End stats_facts.
