(* ===== verification/DDL.v ===== *)
(** * Table DDL: what clients can rely on

    Each operation of the catalog manager applies completely or not at all
    ([CatalogFacts]); here is what a client sees of it: what later reads
    answer, what is refused, and what cannot succeed. *)
From S2P Require Import Prelude Prog CacheInterface LRU MVCC Lock Models PartitionSpec GoJson Postgres World.
From S2P Require Import PgClient PgFacts PgPlain Reads Registry Commit Wf Visibility Coherence SchemaStore SpecStore.
From S2P Require Import Catalog CatalogFacts CatalogWf.

(** ** Live tables after an update *)

Lemma live_table_updated (c : tables_row -> bool) u t d d' :
  tables d' = update_where c u (tables d) ->
  (forall r, live_named t (if c r then u r else r) = live_named t r) ->
  live_table t d' = (fun r => if c r then u r else r) <$> live_table t d.
Proof.
  intros Ht Hl. unfold live_table. rewrite Ht. unfold update_where. rewrite filter_map_comm, head_map.
  rewrite (filter_ext_elem _ (live_named t)); [done|]. intros r _. apply Hl.
Qed.

Lemma live_table_named name d r : live_table name d = Some r -> live_named name r = true.
Proof. by intros [_ ?]%live_table_in. Qed.

(** An update of the live table of a name that keeps it live and named. *)
Lemma live_table_set name u d d' r :
  tables d' = update_where (live_named name) u (tables d) ->
  (forall t r, live_named t (u r) = live_named t r) ->
  live_table name d = Some r -> live_table name d' = Some (u r).
Proof.
  intros Ht Hu Hr. rewrite (live_table_updated (live_named name) u name d d' Ht), Hr; cbn.
  - by rewrite (live_table_named _ _ _ Hr).
  - intros r'. destruct (live_named name r') eqn:E; by rewrite ?Hu, ?E.
Qed.

(** A dropped or renamed table is no longer live under its name. *)
Lemma live_table_gone name u d d' :
  tables d' = update_where (live_named name) u (tables d) ->
  (forall r, live_named name r = true -> live_named name (u r) = false) ->
  live_table name d' = None.
Proof.
  intros Ht Hu. unfold live_table. rewrite Ht. unfold update_where. rewrite filter_map_comm, filter_false; [done|].
  intros r _. destruct (live_named name r) eqn:E; auto.
Qed.

(** ** Purges *)

(** The rows that are not of table [id]. *)
Definition not_of {A} (table : A -> Z) (id : Z) (rows : list A) : list A :=
  List.filter (fun r => negb (table r =? id)) rows.

(** [d'] is [d] without the rows of table [id]. *)
Record removed_whole (id : Z) (d d' : DB) : Prop := {
  rw_tables : tables d' = not_of t_table_id id (tables d);
  rw_schema_history : schema_history d' = not_of sh_table_id id (schema_history d);
  rw_snapshots : snapshots d' = not_of s_table_id id (snapshots d);
  rw_partitions : partitions d' = not_of p_table_id id (partitions d);
  rw_transactions : transactions d' = not_of x_table_id id (transactions d);
  rw_manifest_files : manifest_files d' = not_of mf_table_id id (manifest_files d);
  rw_manifest_lists : manifest_lists d' = not_of ml_table_id id (manifest_lists d);
  rw_partition_specs : partition_specs d' = not_of ps_table_id id (partition_specs d);
}.

Section ddl.
Context `{Postgres} `{GoText}.

(** [read] answers [g] of the database. *)
Definition reads {A} (read : Prog Sys A) (g : DB -> A) : Prop :=
  forall s, all_free (sys_locks s) -> quiet s -> wp read s (fun r _ => r = g (db s)).

Lemma reads_table {A} t (f : result (option TableRow) -> Prog Sys A) (g : DB -> A) :
  (forall r, plain (f r)) -> (forall d s, wp (f (table_row t d)) s (fun r _ => r = g d)) ->
  reads (with_shared t (bind (PgClient.GetTable t) f)) g.
Proof.
  intros Hp Hf s Hfree Hq. apply wp_with_shared; [done | solve_plain; auto |]. rewrite wp_bind.
  apply wp_GetTable; [by intros e s' _ []|]. intros s' Hu. eapply wp_mono; [apply Hf|]. by intros r s2 -> m Hm.
Qed.

Lemma reads_GetTable t : reads (Catalog.GetTable t) (table_row t).
Proof.
  intros s Hfree Hq. apply wp_with_shared; [done | solve_plain |].
  apply wp_GetTable; [by intros e s' _ []|]. by intros s' Hu m Hm.
Qed.

Lemma reads_GetCurrentSchema t :
  reads (GetCurrentSchema t) (fun d => result_map (fmap (fun table =>
    mkSchemaVersion (tr_SchemaVersion table) (tr_SchemaJSON table) "" "current")) (table_row t d)).
Proof. apply reads_table; [intros [|]; solve_plain|]. intros d s. by destruct (table_row t d). Qed.

Lemma reads_GetCurrentSpec t :
  reads (GetCurrentSpec t) (fun d => result_map (fmap (fun table =>
    mkPartitionSpecVersion (tr_PartitionSpecVersion table) (tr_PartitionSpec table) "" "current")) (table_row t d)).
Proof. apply reads_table; [intros [|]; solve_plain|]. intros d s. by destruct (table_row t d). Qed.

(** An operation and then a read, with every round trip delivered. *)
Lemma wp_then_read {A} (op : Prog Sys OpResult) (read : Prog Sys A) g applied accepted s (Q : OpResult -> A -> Prop) :
  wp op s (op_outcome applied accepted s) -> reads read g -> quiet s ->
  (forall res s', (Success res = true -> applied s') -> (accepted -> Success res = true) ->
     (Success res = false -> db s' = db s) -> Q res (g (db s'))) ->
  wp (let* res := op in let* cur := read in Ret (res, cur)) s (fun r _ => Q r.1 r.2).
Proof.
  intros Hop Hread Hq HQ. rewrite wp_bind. eapply wp_mono; [exact Hop|].
  intros res s1 (Hl1 & _ & _ & _ & Hq1 & Hr). rewrite wp_bind. eapply wp_mono; [by apply Hread; auto|].
  intros cur s2 ->. rewrite wp_ret. cbn [fst snd]. clear Hop.
  apply (HQ res s1); clear HQ; destruct (Success res); try done.
  - by destruct Hr.
  - intros Ha. by destruct Hr as [_ []].
  - by destruct Hr as [[|[]] _].
Qed.

Lemma table_row_live name d r spec :
  live_table name d = Some r -> t_partition_spec r = Some spec ->
  table_row name d = Ok (Some (mkTableRow (t_table_id r) (t_table_name r) (t_schema_json r) (t_schema_version r)
    spec (t_partition_spec_version r) (t_current_snapshot_id r) (t_properties r))).
Proof. intros Hr Hs. unfold table_row. rewrite Hr. unfold scan_table. by rewrite Hs. Qed.

Lemma live_table_named_eq name d r : live_table name d = Some r -> t_table_name r = name.
Proof. intros Hr%live_table_named. unfold live_named in Hr. by apply andb_true_iff in Hr as [?%String.eqb_eq _]. Qed.

Lemma live_name_taken name d r : live_table name d = Some r -> name_taken name d = true.
Proof.
  intros Hr. unfold name_taken. apply existsb_exists. exists r. rewrite (live_table_named_eq _ _ _ Hr), String.eqb_refl.
  apply live_table_in in Hr as [Hin _]. split; [by apply list_elem_of_In | done].
Qed.

Lemma live_table_created now q name schema text spec props d :
  name_taken name d = false ->
  live_table name (create_db now q name schema text spec props d) =
  Some (mk_tables_row (q SeqTables + 1) name schema 1 (Some spec) 1 0 props now false).
Proof.
  intros Hn. unfold live_table. cbn. rewrite List.filter_app. rewrite (filter_false _ (tables d)).
  - cbn. unfold live_named. cbn. by rewrite String.eqb_refl.
  - intros r Hin. destruct (live_named name r) eqn:E; [|done].
    assert (name_taken name d = true); [|congruence]. unfold name_taken. apply existsb_exists. exists r.
    split; [by apply list_elem_of_In|]. unfold live_named in E. by apply andb_true_iff in E as [? _].
Qed.

(** The foreign keys of [tables] let the row of the purged table go. *)
Lemma purged_unreferenced name id d :
  table_id name d = Some id -> purgeable name id d -> table_unreferenced id (purge_db name id d) = true.
Proof.
  intros Hid [_ Hun]. unfold table_id in Hid. destruct (live_table name d) as [r|] eqn:E; [|done]. injection Hid as <-.
  pose proof (live_table_named_eq _ _ _ E) as Hl. apply live_table_in in E as [Hin _]. rewrite forallb_forall in Hun.
  apply list_elem_of_In in Hin. specialize (Hun r Hin). by rewrite Hl, String.eqb_refl in Hun.
Qed.

Lemma purge_removed_whole q name id d :
  db_wf q d -> table_id name d = Some id -> table_unreferenced id (purge_db name id d) = true ->
  removed_whole id d (purge_db name id d).
Proof.
  intros Hwf Hid Hun. split; try done; cbn.
  - apply filter_ext_elem. intros r Hr. f_equal. apply eq_true_iff_eq. rewrite Z.eqb_eq.
    pose proof (purge_other_row q name id d r Hwf Hid Hr) as Ho. rewrite <- not_false_iff_true, Ho. lia.
  - symmetry. apply filter_true. intros x Hx. apply negb_true_iff, not_true_is_false. intros E.
    assert (Hex : existsb (fun r => x_table_id r =? id) (transactions (purge_db name id d)) = true)
      by (apply existsb_exists; exists x; by rewrite <- list_elem_of_In).
    unfold table_unreferenced in Hun. by rewrite Hex, andb_false_r in Hun.
Qed.

(** ** Properties *)

(** Create, then get: with every round trip delivered a creation the
    server accepts succeeds, and any creation that succeeds makes [GetTable]
    answer the new table: a fresh id, both versions 1, no snapshot, and the
    three documents as [jsonb] renders them. *)
Theorem create_then_get name schema text props s :
  all_free (sys_locks s) -> quiet s ->
  wp (let* res := Catalog.CreateTable name schema text props in
      let* cur := Catalog.GetTable name in Ret (res, cur)) s (fun r _ =>
    (create_accepted name schema text props s -> Success r.1 = true) /\
    (Success r.1 = true -> name_taken name (db s) = false /\
     exists schema' spec' props', pg_jsonb schema = Some schema' /\ pg_jsonb text = Some spec' /\
       pg_jsonb props = Some props' /\
       r.2 = Ok (Some (mkTableRow (pg_seqs (sys_pg s) SeqTables + 1) name schema' 1 spec' 1 0 props')))).
Proof.
  intros Hfree Hq.
  refine (wp_then_read _ _ _ _ _ s (fun res cur => (create_accepted name schema text props s -> Success res = true) /\
    (Success res = true -> name_taken name (db s) = false /\
     exists schema' spec' props', pg_jsonb schema = Some schema' /\ pg_jsonb text = Some spec' /\
       pg_jsonb props = Some props' /\
       cur = Ok (Some (mkTableRow (pg_seqs (sys_pg s) SeqTables + 1) name schema' 1 spec' 1 0 props'))))
    (wp_CreateTable name schema text props s Hfree) (reads_GetTable name) Hq _).
  intros res s' Happ Hacc _. split; [done|]. intros Hs.
  destruct (Happ Hs) as (Hn & _ & schema' & spec' & props' & H1 & H2 & H3 & Hd). split; [done|].
  exists schema', spec', props'. split_and!; [done..|]. rewrite Hd.
  by erewrite table_row_live; [|by apply live_table_created|done].
Qed.

(** Schema evolution reads back: with every round trip delivered, an
    accepted schema change of a live table succeeds, and after a success the
    current schema is the new document under the next version number (wrapping
    as an [int32]); after a failure it is the old one. *)
Theorem alter_schema_read_back name schema summary r spec s :
  all_free (sys_locks s) -> quiet s -> live_table name (db s) = Some r -> t_partition_spec r = Some spec ->
  wp (let* res := Catalog.AlterTableSchema name schema summary in
      let* cur := GetCurrentSchema name in Ret (res, cur)) s (fun x _ =>
    (schema_accepted name schema r s -> Success x.1 = true) /\
    if Success x.1
    then exists schema', pg_jsonb schema = Some schema' /\
           x.2 = Ok (Some (mkSchemaVersion (int32 (t_schema_version r + 1)) schema' "" "current"))
    else x.2 = Ok (Some (mkSchemaVersion (t_schema_version r) (t_schema_json r) "" "current"))).
Proof.
  intros Hfree Hq Hr Hspec.
  refine (wp_then_read _ _ _ _ _ s (fun res cur => (schema_accepted name schema r s -> Success res = true) /\
    if Success res
    then exists schema', pg_jsonb schema = Some schema' /\
           cur = Ok (Some (mkSchemaVersion (int32 (t_schema_version r + 1)) schema' "" "current"))
    else cur = Ok (Some (mkSchemaVersion (t_schema_version r) (t_schema_json r) "" "current")))
    (wp_AlterTableSchema name schema summary s Hfree) (reads_GetCurrentSchema name) Hq _).
  intros res s' Happ Hacc Hno. split; [by intros; apply Hacc; exists r|]. destruct (Success res).
  - destruct (Happ eq_refl) as (r' & schema' & Hr' & Hj & Hd). rewrite Hr in Hr'. injection Hr' as <-.
    exists schema'. split; [done|].
    assert (Hl : live_table name (db s') = Some (set_schema schema' (int32 (t_schema_version r + 1)) (pg_now (sys_pg s)) r)).
    { eapply (live_table_set name); [by rewrite Hd | done | exact Hr]. }
    by rewrite (table_row_live _ _ _ spec Hl).
  - rewrite Hno by done. by erewrite table_row_live.
Qed.

(** Partition spec evolution reads back, as schemas do: an accepted
    change succeeds, a success makes the new spec current under the next
    version, a failure leaves the old one. *)
Theorem alter_spec_read_back name text summary r spec s :
  all_free (sys_locks s) -> quiet s -> live_table name (db s) = Some r -> t_partition_spec r = Some spec ->
  wp (let* res := Catalog.AlterTablePartitionSpec name text summary in
      let* cur := GetCurrentSpec name in Ret (res, cur)) s (fun x _ =>
    (spec_accepted name text r s -> Success x.1 = true) /\
    if Success x.1
    then exists spec', pg_jsonb text = Some spec' /\
           x.2 = Ok (Some (mkPartitionSpecVersion (int32 (t_partition_spec_version r + 1)) spec' "" "current"))
    else x.2 = Ok (Some (mkPartitionSpecVersion (t_partition_spec_version r) spec "" "current"))).
Proof.
  intros Hfree Hq Hr Hspec.
  refine (wp_then_read _ _ _ _ _ s (fun res cur => (spec_accepted name text r s -> Success res = true) /\
    if Success res
    then exists spec', pg_jsonb text = Some spec' /\
           cur = Ok (Some (mkPartitionSpecVersion (int32 (t_partition_spec_version r + 1)) spec' "" "current"))
    else cur = Ok (Some (mkPartitionSpecVersion (t_partition_spec_version r) spec "" "current")))
    (wp_AlterTablePartitionSpec name text summary s Hfree) (reads_GetCurrentSpec name) Hq _).
  intros res s' Happ Hacc Hno. split; [by intros; apply Hacc; exists r|]. destruct (Success res).
  - destruct (Happ eq_refl) as (r' & spec' & Hr' & Hj & Hd). rewrite Hr in Hr'. injection Hr' as <-.
    exists spec'. split; [done|].
    assert (Hl : live_table name (db s') = Some (set_spec spec' (int32 (t_partition_spec_version r + 1)) (pg_now (sys_pg s)) r)).
    { eapply (live_table_set name); [by rewrite Hd | done | exact Hr]. }
    by rewrite (table_row_live _ _ _ spec' Hl).
  - rewrite Hno by done. by erewrite table_row_live.
Qed.

(** C39. What cannot be created: while any row, live or soft-dropped, carries
    a name, no creation under that name succeeds; nor does one without a
    partition spec, when the server takes the empty text for no JSON, as
    PostgreSQL does, although the manager means to skip the spec history for
    it.  The database does not change, whatever the network does. *)
Theorem create_refused name schema text props s :
  all_free (sys_locks s) -> name_taken name (db s) = true \/ (text = "" /\ pg_jsonb "" = None) ->
  wp (Catalog.CreateTable name schema text props) s (fun res s' => Success res = false /\ db s' = db s).
Proof.
  intros Hfree Hno. eapply wp_mono; [by apply wp_CreateTable|]. intros res s' (_ & _ & _ & _ & _ & Hr).
  assert (Hc : ~ created name schema text props s s').
  { intros (? & _ & ? & ? & ? & _ & Hj & _). destruct Hno as [|[-> ?]]; congruence. }
  destruct (Success res); [by destruct Hr|]. split; [done|]. by destruct Hr as [[|[_ ?]] _].
Qed.

(** A soft drop hides and keeps: after a successful drop without purge
    the table is not found and lists no files at any snapshot, but every file,
    snapshot, manifest and history row is still stored, and every other table
    reads as before. *)
Theorem soft_drop_hides name s :
  all_free (sys_locks s) ->
  wp (Catalog.DropTable name false) s (fun res s' => Success res = true ->
    table_row name (db s') = Ok None /\ (forall n, partitions_at name n (db s') = None) /\
    partitions (db s') = partitions (db s) /\ snapshots (db s') = snapshots (db s) /\
    manifest_files (db s') = manifest_files (db s) /\ partition_specs (db s') = partition_specs (db s) /\
    forall t n, t <> name -> partitions_at t n (db s') = partitions_at t n (db s)).
Proof.
  intros Hfree. eapply wp_mono; [by apply wp_DropTable_soft|]. intros res s' (_ & _ & _ & _ & _ & Hr) Hs.
  rewrite Hs in Hr. destruct Hr as [[_ Hd] _].
  assert (Hgone : live_table name (db s') = None).
  { rewrite Hd. eapply (live_table_gone name); [done|]. intros r _. unfold live_named. cbn. apply andb_false_r. }
  split_and!; try (by rewrite Hd).
  - unfold table_row. by rewrite Hgone.
  - intros n. unfold partitions_at, table_id_or, table_id. by rewrite Hgone.
  - intros t n Ht. rewrite Hd. by apply drop_answers.
Qed.

(** C29. A purge removes a table whole and nothing else: after a successful
    purge every relation holds exactly the rows of the other tables it held
    before, in their order ([removed_whole]); so no relation holds a row of
    the table, its name is free, and the files of every other table are as
    they were. *)
Theorem purge_removes_all name s q :
  all_free (sys_locks s) -> db_wf q (db s) ->
  wp (Catalog.DropTable name true) s (fun res s' => Success res = true ->
    exists id, table_id name (db s) = Some id /\ name_taken name (db s') = false /\
      table_unreferenced id (db s') = true /\ removed_whole id (db s) (db s') /\
      forall t n, t <> name -> partitions_at t n (db s') = partitions_at t n (db s)).
Proof.
  intros Hfree Hwf. eapply wp_mono; [by apply wp_DropTable_purge|]. intros res s' (_ & _ & _ & _ & _ & Hr) Hs.
  rewrite Hs in Hr. destruct Hr as [(id & Hid & Hpu & Hd) _]. exists id. split; [done|].
  pose proof (purged_unreferenced _ _ _ Hid Hpu) as Hun. rewrite Hd. split_and!; [|done| |].
  - apply not_true_is_false. unfold name_taken. rewrite existsb_exists. intros (r & Hin & Hr). cbn in Hin.
    unfold delete_where in Hin. apply filter_In in Hin as [_ Hn]. by rewrite Hr in Hn.
  - by apply (purge_removed_whole q).
  - intros t n Ht. by eapply purge_answers.
Qed.

(** C38. A purge cannot remove a table that ever began a transaction: nothing
    deletes the rows of [transactions], whose foreign key then refuses, and
    the whole purge is rolled back, whatever the network does. *)
Theorem purge_blocked_by_transactions name id x s :
  all_free (sys_locks s) -> table_id name (db s) = Some id -> x ∈ transactions (db s) -> x_table_id x = id ->
  wp (Catalog.DropTable name true) s (fun res s' => Success res = false /\ db s' = db s).
Proof.
  intros Hfree Hid Hx Hxid.
  assert (Hno : forall s', ~ purged name s s').
  { intros s' (id' & Hid' & [_ Hun] & _). rewrite Hid in Hid'. injection Hid' as <-.
    unfold table_id in Hid. destruct (live_table name (db s)) as [r|] eqn:E; [|done]. injection Hid as Hrid.
    apply live_table_in in E as [Hin Hl]. rewrite forallb_forall in Hun. apply list_elem_of_In in Hin.
    specialize (Hun r Hin). unfold live_named in Hl. apply andb_true_iff in Hl as [Hl _]. rewrite Hl, Hrid in Hun.
    assert (Hex : existsb (fun r => x_table_id r =? id) (transactions (purge_children id (db s))) = true).
    { apply existsb_exists. exists x. split; [by apply list_elem_of_In | by apply Z.eqb_eq]. }
    unfold table_unreferenced in Hun. by rewrite Hex, andb_false_r in Hun. }
  eapply wp_mono; [by apply wp_DropTable_purge|]. intros res s' (_ & _ & _ & _ & _ & Hr).
  destruct (Success res); [by destruct Hr as [?%Hno _]|]. split; [done|].
  by destruct Hr as [[|[_ ?%Hno]] _].
Qed.

(** Renaming moves a table whole: after a successful rename the new name
    answers what the old one did, row and files at every snapshot, the old
    name is free, and every other table reads as before. *)
Theorem rename_moves oldName newName s q :
  all_free (sys_locks s) -> db_wf q (db s) -> oldName <> newName ->
  wp (Catalog.RenameTable oldName newName) s (fun res s' => Success res = true ->
    table_row oldName (db s') = Ok None /\ table_id newName (db s') = table_id oldName (db s) /\
    (forall n, partitions_at newName n (db s') = partitions_at oldName n (db s)) /\
    forall t n, t <> oldName -> t <> newName -> partitions_at t n (db s') = partitions_at t n (db s)).
Proof.
  intros Hfree Hwf Hne. eapply wp_mono; [by apply wp_RenameTable|]. intros res s' (_ & _ & _ & _ & _ & Hr) Hs.
  rewrite Hs in Hr. destruct Hr as [(Hlive & Hname & Hd) _].
  destruct (live_table oldName (db s)) as [r|] eqn:E; [|done].
  assert (Hwf' : db_wf q (db s')) by (rewrite Hd; by apply rename_wf).
  assert (Hnew : live_table newName (db s') = Some (set_name newName (pg_now (sys_pg s)) r)).
  { apply live_table_in in E as [Hin Hl]. apply (live_table_unique Hwf').
    - rewrite Hd. apply elem_of_update_where. exists r. by rewrite Hl.
    - unfold live_named in *. cbn. apply andb_true_iff in Hl as [_ ->]. by rewrite String.eqb_refl. }
  assert (Hid : table_id newName (db s') = table_id oldName (db s)) by (unfold table_id; by rewrite Hnew, E).
  split_and!; [|done| |].
  - unfold table_row. rewrite Hd. erewrite (live_table_gone oldName); [done | done|]. intros r' Hr'.
    unfold live_named. cbn. destruct (String.eqb_spec newName oldName); [congruence | done].
  - intros n. unfold partitions_at, table_id_or. rewrite Hid. by rewrite Hd.
  - intros t n H1 H2. rewrite Hd. by apply rename_answers.
Qed.

End ddl.
