(* ===== verification/Bench.v ===== *)
(** * The benchmark client (cmd/bench/main.go)

    A client program over the RPCs of [Service]: it creates a table, seeds one
    snapshot, reads the partitions a thousand times and prints statistics of
    the latencies.  The latencies are what the clock measures, an argument
    here; [log.Fatalf] is an error with its text; the connection to the server
    does not fail. *)
From S2P Require Import Prelude Sorting Prog CacheInterface LRU MVCC Lock Models PartitionSpec GoJson Postgres World.
From S2P Require Import PgClient PgFacts Reads Registry Commit Wf Visibility Coherence CommitFacts Catalog.
From S2P Require Import CatalogFacts Proto Server ServerFacts Service DDL.
From Stdlib Require Import SpecFloat.

(** ** Statistics *)

(** [int(x)] of a finite [float64]: the integer part. *)
Definition float_to_int (x : spec_float) : Z :=
  match x with
  | S754_finite s m e =>
      let v := if 0 <=? e then Z.pos m * 2 ^ e else Z.pos m / 2 ^ (- e) in
      if s then - v else v
  | _ => 0
  end.

(** A decimal constant of the source, rounded as the compiler does. *)
Definition ratio (a b : Z) : spec_float := SFdiv 53 1024 (float64 a) (float64 b).

Definition p50_rank : spec_float := ratio 50 100.
Definition p95_rank : spec_float := ratio 95 100.
Definition p99_rank : spec_float := ratio 99 100.

Definition percentile_index (n : Z) (p : spec_float) : Z :=
  float_to_int (SFmul 53 1024 (float64 (n - 1)) p).

(** [None] is the panic of an index out of range. *)
Definition percentile (sorted : list Z) (p : spec_float) : option Z :=
  match sorted with
  | [] => Some 0
  | _ =>
      let idx := percentile_index (Z.of_nat (length sorted)) p in
      if idx <? 0 then None else sorted !! Z.to_nat idx
  end.

Record Stats := mkStats {
  st_requests : Z;
  st_avg : Z;
  st_p50 : Z;
  st_p95 : Z;
  st_p99 : Z;
  st_min : Z;
  st_max : Z;
}.

(** What [printStats] prints; [None] when it panics: no latency to divide by
    or to index. *)
Definition printStats (latencies : list Z) : option Stats :=
  let latencies := order_by (fun l => l) latencies in
  let total := foldl (fun acc l => int64 (acc + l)) 0 latencies in
  match latencies with
  | [] => None
  | _ =>
      let avg := int64 (total ÷ Z.of_nat (length latencies)) in
      p50 ← percentile latencies p50_rank;
      p95 ← percentile latencies p95_rank;
      p99 ← percentile latencies p99_rank;
      lo ← head latencies;
      hi ← last latencies;
      Some (mkStats (Z.of_nat (length latencies)) avg p50 p95 p99 lo hi)
  end.

(** ** The client *)

Definition bench_table : string := "bench_events".

(** [%0kd] of a number that is not negative *)
Definition pad (k : nat) (n : Z) : string :=
  let s := FormatInt n in
  String.concat "" (repeat "0" (k - String.length s)) ++ s.

Definition bench_file (i : Z) : PartitionInfo :=
  mkPartitionInfo ("month=2025-" ++ pad 2 (Z.rem i 12 + 1) ++ "-part=" ++ pad 3 i)
    ("s3://bucket/bench_events/part-" ++ pad 3 i ++ ".parquet") 100000 15000000 0 "parquet" [].

Definition bench_files : list PartitionInfo := map bench_file (seqZ 0 200).

(** The schema literal, its quotes written by their code. *)
Definition quoted (s : string) : string :=
  let q := String (Ascii.ascii_of_nat 34) "" in q ++ s ++ q.

Definition bench_schema : string :=
  "{" ++ quoted "fields" ++ ":[{" ++ quoted "name" ++ ":" ++ quoted "event_id" ++ "," ++ quoted "type" ++ ":"
    ++ quoted "long" ++ "},{" ++ quoted "name" ++ ":" ++ quoted "ts" ++ "," ++ quoted "type" ++ ":"
    ++ quoted "timestamp" ++ "}]}".

Definition bench_read_request : PartitionRequest := mkPartitionRequest bench_table "" 0 0 "".

Section client.
Context `{Postgres} `{GoText}.

Definition mustCreateTable : Prog Sys (result unit) :=
  let* r := serve (ReqCreateTable (mkCreateTableRequest bench_table bench_schema "month" {["owner" := "bench"]})) in
  Ret match r with
      | Reply _ => Ok tt
      | Status _ msg => Err (ErrText ("CreateTable: " ++ msg))
      end.

(** The error, like the response, is dropped. *)
Definition mustSeedSnapshot : Prog Sys unit :=
  let* _ := serve (ReqCommitSnapshot (mkSnapshotRequest bench_table bench_files [] 0 "append")) in Ret tt.

(** One measured read; [l] is how long it takes. *)
Definition measure (l : Z) : Prog Sys (result Z) :=
  let* r := serve (ReqGetPartitions bench_read_request) in
  Ret match r with
      | Status _ msg => Err (ErrText ("GetPartitions failed: " ++ msg))
      | Reply resp =>
          match plr_Partitions resp with
          | [] => Err (ErrText "expected partitions, got none")
          | _ => Ok l
          end
      end.

Definition benchmark (elapsed : list Z) : Prog Sys (result (option Stats)) :=
  try* _ := mustCreateTable in
  let* _ := mustSeedSnapshot in
  let* _ := serve (ReqGetPartitions bench_read_request) in
  try* _ := for_each elapsed (fun l => try* _ := measure l in Ret (Ok tt)) in
  Ret (Ok (printStats elapsed)).

End client.

(** ** The statistics are those of the sorted latencies *)

(** The rank of a percentile, computed in floating point, is the exact one
    for every number of latencies up to the benchmark's thousand. *)
Definition exact_rank (a : Z) (p : spec_float) : bool :=
  forallb (fun n => percentile_index n p =? (n - 1) * a / 100) (seqZ 1 1000).

Lemma rank_spec a p n : exact_rank a p = true -> 1 <= n <= 1000 -> percentile_index n p = (n - 1) * a / 100.
Proof.
  unfold exact_rank. rewrite forallb_forall. intros Hall Hn. apply Z.eqb_eq, Hall.
  apply list_elem_of_In, elem_of_seqZ. lia.
Qed.

Lemma rank_bounds a n : 0 <= a <= 99 -> 1 <= n -> 0 <= (n - 1) * a / 100 < n.
Proof. intros Ha Hn. split; [apply Z.div_pos; nia|]. apply Z.div_lt_upper_bound; nia. Qed.

Lemma percentile_at a p l :
  exact_rank a p = true -> 0 <= a <= 99 -> (1 <= length l <= 1000)%nat ->
  exists x, percentile l p = Some x /\ l !! Z.to_nat ((Z.of_nat (length l) - 1) * a / 100) = Some x.
Proof.
  intros Hp Ha Hl. pose proof (rank_bounds a (Z.of_nat (length l)) Ha ltac:(lia)) as Hb.
  destruct (lookup_lt_is_Some_2 l (Z.to_nat ((Z.of_nat (length l) - 1) * a / 100))) as [x Hx]; [lia|].
  exists x. split; [|done]. unfold percentile. destruct l as [|y l]; [cbn in Hl; lia|].
  rewrite (rank_spec a) by (done || lia). destruct (Z.ltb_spec ((Z.of_nat (length (y :: l)) - 1) * a / 100) 0); [lia | done].
Qed.

Lemma sorted_lookup l i j x y :
  sorted (fun z => z) l -> l !! i = Some x -> l !! j = Some y -> (i <= j)%nat -> x <= y.
Proof.
  intros Hs. revert i j. induction Hs as [|z l Hl IH Hz]; intros i j Hi Hj Hij; [done|].
  destruct i as [|i], j as [|j]; cbn in *; [by simplify_eq | | lia | by eapply IH; [done..|lia]].
  injection Hi as <-. eapply Forall_forall in Hz; [done | by eapply list_elem_of_lookup_2].
Qed.

(** A sum of non-negative terms that fits never wraps on the way. *)
Lemma wrapped_sum l acc :
  (forall x, x ∈ l -> 0 <= x) -> 0 <= acc -> acc + sum_by (fun x => x) l < 2 ^ 63 ->
  foldl (fun acc x => int64 (acc + x)) acc l = acc + sum_by (fun x => x) l.
Proof.
  revert acc. induction l as [|x l IH]; intros acc Hl Hacc Hsum; cbn; [lia|].
  unfold sum_by in Hsum. cbn in Hsum. fold (sum_by (fun x => x) l) in Hsum |- *.
  assert (Hx : 0 <= x) by (apply Hl; left).
  assert (Hrest : 0 <= sum_by (fun x => x) l).
  { assert (Hl' : forall y, y ∈ l -> 0 <= y) by (intros; apply Hl; by right). clear -Hl'. unfold sum_by.
    induction l as [|y l IH]; cbn; [lia|]. assert (0 <= y) by (apply Hl'; left).
    specialize (IH ltac:(intros; apply Hl'; by right)). lia. }
  rewrite int64_id by (unfold is_int64; lia). rewrite IH; [lia | intros; apply Hl; by right | lia | lia].
Qed.

Lemma sum_bounds l lo hi :
  (forall x, x ∈ l -> lo <= x <= hi) ->
  Z.of_nat (length l) * lo <= sum_by (fun x => x) l <= Z.of_nat (length l) * hi.
Proof.
  unfold sum_by. induction l as [|x l IH]; intros Hl; cbn -[Z.mul Z.of_nat]; [lia|].
  assert (lo <= x <= hi) by (apply Hl; left). specialize (IH ltac:(intros; apply Hl; by right)). lia.
Qed.

(** C32. The benchmark's report: for any one to a thousand latencies whose
    total fits the machine, [printStats] does not panic; the percentiles,
    whose ranks it computes in floating point, are the entries of the sorted
    latencies at the exact ranks, the average is the total divided by their
    number, and minimum, percentiles and maximum are in order. *)
Theorem bench_stats_exact (l : list Z) :
  (1 <= length l <= 1000)%nat -> (forall x, x ∈ l -> 0 <= x) -> sum_by (fun x => x) l < 2 ^ 63 ->
  let n := Z.of_nat (length l) in
  exists st s, printStats l = Some st /\ s ≡ₚ l /\ sorted (fun x => x) s /\
    s !! Z.to_nat ((n - 1) * 50 / 100) = Some (st_p50 st) /\
    s !! Z.to_nat ((n - 1) * 95 / 100) = Some (st_p95 st) /\
    s !! Z.to_nat ((n - 1) * 99 / 100) = Some (st_p99 st) /\
    st_avg st = sum_by (fun x => x) l / n /\ st_requests st = n /\
    st_min st <= st_p50 st <= st_p95 st /\ st_p95 st <= st_p99 st <= st_max st /\
    st_min st <= st_avg st <= st_max st.
Proof.
  intros Hlen Hpos Hsum n. set (s := order_by (fun x => x) l).
  pose proof (order_by_Permutation (fun x => x) l : s ≡ₚ l) as Hperm.
  pose proof (order_by_sorted (fun x => x) l : sorted _ s) as Hs.
  assert (Hn : length s = length l) by (by rewrite Hperm).
  destruct (percentile_at 50 p50_rank s) as (p50 & E50 & L50); [by vm_compute | lia | lia|].
  destruct (percentile_at 95 p95_rank s) as (p95 & E95 & L95); [by vm_compute | lia | lia|].
  destruct (percentile_at 99 p99_rank s) as (p99 & E99 & L99); [by vm_compute | lia | lia|].
  rewrite Hn in L50, L95, L99. fold n in L50, L95, L99.
  destruct (lookup_lt_is_Some_2 s 0) as [lo Hlo]; [lia|].
  destruct (lookup_lt_is_Some_2 s (Nat.pred (length s))) as [hi Hhi]; [lia|].
  assert (Htot : foldl (fun acc x => int64 (acc + x)) 0 s = sum_by (fun x => x) l).
  { pose proof (sum_by_Permutation (fun x => x) _ _ Hperm). rewrite wrapped_sum; [lia | | lia | lia]. intros x Hx. apply Hpos. by rewrite <- Hperm. }
  assert (Hrange : forall x, x ∈ l -> lo <= x <= hi).
  { intros x Hx. rewrite <- Hperm in Hx. apply list_elem_of_lookup_1 in Hx as [i Hi].
    pose proof (lookup_lt_Some _ _ _ Hi). split; by eapply sorted_lookup; [done..|lia]. }
  pose proof (sum_bounds l lo hi Hrange) as Hsb. fold n in Hsb.
  assert (Hn1 : 1 <= n <= 1000) by lia.
  assert (Havg : lo <= sum_by (fun x => x) l / n <= hi).
  { split; [apply Z.div_le_lower_bound; lia | apply Z.div_le_upper_bound; lia]. }
  assert (Hlo0 : 0 <= lo) by (apply Hpos; rewrite <- Hperm; by eapply list_elem_of_lookup_2).
  exists (mkStats n (sum_by (fun x => x) l / n) p50 p95 p99 lo hi), s.
  assert (Hranks : (n - 1) * 50 / 100 <= (n - 1) * 95 / 100 /\ (n - 1) * 95 / 100 <= (n - 1) * 99 / 100) by
    (split; apply Z.div_le_mono; lia).
  pose proof (rank_bounds 50 n ltac:(lia) ltac:(lia)). pose proof (rank_bounds 99 n ltac:(lia) ltac:(lia)).
  split_and!; cbn; try done; [|by eapply sorted_lookup; [done..|lia]..|apply Havg|apply Havg].
  unfold printStats. fold s. rewrite Htot, E50, E95, E99, head_lookup, last_lookup, Hlo, Hhi, Hn. fold n.
  destruct s as [|y s']; [done|]. cbn. rewrite Z.quot_div_nonneg by lia.
  rewrite int64_id; [done|]. unfold is_int64. assert (0 <= sum_by (fun x => x) l) by nia.
  assert (sum_by (fun x => x) l / n <= sum_by (fun x => x) l) by (apply Z.div_le_upper_bound; nia). lia.
Qed.

(** ** The benchmark runs to its end *)

Section completes.
Context `{Postgres} `{GoText}.

(** A server in order, no failure ahead. *)
Definition healthy (s : Sys) : Prop := system_wf s /\ quiet s /\ cache_fresh s.

Lemma healthy_step s s' : healthy s -> safe_step s s' -> healthy s'.
Proof. intros (Hw & Hq & Hc) (Hw' & Hq' & Hc' & _). split; auto. Qed.

(** The files as the commit receives them. *)
Definition bench_parts : list PartitionRow := match new_parts bench_files with inr parts => parts | inl _ => [] end.

Definition bench_spec_text : string := initialSpecJSON "month".
Definition bench_properties_text : string := propertiesToJSON {["owner" := "bench"]}.

(** What the benchmark needs of a database that does not have its table. *)
Record bench_ready (s : Sys) : Prop := {
  br_create : create_accepted bench_table bench_schema bench_spec_text bench_properties_text s;
  br_snapshots : seq_room (pg_seqs (sys_pg s)) SeqSnapshots 1;
  br_partitions : seq_room (pg_seqs (sys_pg s)) SeqPartitions 200;
  br_files : seq_room (pg_seqs (sys_pg s)) SeqManifestFiles 2;
  br_lists : seq_room (pg_seqs (sys_pg s)) SeqManifestLists 1;
  br_stats : pg_jsonb "[]" <> None;
  br_summaries : pg_jsonb (summaries_json (map pr_PartitionKey bench_parts)) <> None /\
                 pg_jsonb (summaries_json []) <> None;
}.

Lemma bench_parts_spec :
  new_parts bench_files = inr bench_parts /\ length bench_parts = 200%nat /\
  forall p, p ∈ bench_parts -> pr_ColumnStats p = [].
Proof.
  split_and!; [by vm_compute | by vm_compute|].
  assert (Hall : forallb (fun p => match pr_ColumnStats p with [] => true | _ => false end) bench_parts = true) by by vm_compute.
  rewrite forallb_forall in Hall. intros p Hp%list_elem_of_In. specialize (Hall p Hp). by destruct (pr_ColumnStats p).
Qed.

#[local] Opaque bench_parts bench_files.

(** The table as created: live, no snapshot, the other sequences untouched. *)
Definition fresh_table (s s1 : Sys) : Prop :=
  table_id bench_table (db s1) <> None /\ current_snapshot bench_table (db s1) = 0 /\
  forall n, n <> SeqTables -> n <> SeqPartitionSpecs -> pg_seqs (sys_pg s1) n = pg_seqs (sys_pg s) n.

Lemma wp_mustCreateTable s :
  healthy s -> bench_ready s -> wp mustCreateTable s (fun r s1 => r = Ok tt /\ healthy s1 /\ fresh_table s s1).
Proof.
  intros Hs Hb. unfold mustCreateTable. cbn [serve]. unfold CreateTable. rewrite !wp_bind. pose proof Hs as ([_ Hl _] & Hq & _).
  eapply wp_mono; [apply wp_and; [apply ok_CreateTable, Hs | by apply wp_CreateTable]|].
  intros res s1 [Hsafe (_ & _ & _ & _ & _ & Hr)]. rewrite !wp_ret. split; [done|]. split; [by eapply healthy_step|].
  cbn [ctr_TableName ctr_SchemaJson ctr_PartitionSpec ctr_Properties] in Hr.
  destruct (Success res); [|destruct Hr as [_ []]; split; [done | apply Hb]].
  destruct Hr as [(Hn & [_ Hseq] & schema' & spec' & props' & _ & _ & _ & Hd) _].
  unfold fresh_table, table_id, current_snapshot. rewrite Hd, live_table_created by done. by split_and!.
Qed.

(** What the commit needs, once the table is there. *)
Lemma fresh_commit_ready s s1 :
  bench_ready s -> healthy s1 -> fresh_table s s1 ->
  commit_ready (pg_seqs (sys_pg s1)) bench_table bench_parts [] (db s1).
Proof.
  intros Hb ([Hwf _ _] & _ & _) (Hid & _ & Hseq). destruct bench_parts_spec as (_ & Hlen & Hstats).
  destruct Hb as [_ Hsn Hpa Hmf Hml Hst Hsu]. unfold seq_room in *.
  split; unfold seq_room; rewrite ?Hlen, ?Hseq by done; [exact Hid | exact Hsn | exact Hpa | exact Hmf | exact Hml | | | exact Hsu].
  - intros r Hr. rewrite <- (Hseq SeqSnapshots) by done. by eapply manifest_list_issued.
  - intros p Hp. by rewrite (Hstats p Hp).
Qed.

Lemma without_nothing rows : without [] rows = rows.
Proof. unfold without. cbn. induction rows as [|r rows IH]; cbn; [done | by rewrite IH]. Qed.

(** The table as seeded: its current snapshot shows a file. *)
Definition seeded (s : Sys) : Prop :=
  exists row rows, partitions_at bench_table (resolved bench_table 0 (db s)) (db s) = Some (row :: rows).

Lemma wp_mustSeedSnapshot s s1 :
  bench_ready s -> healthy s1 -> fresh_table s s1 -> wp mustSeedSnapshot s1 (fun _ s2 => healthy s2 /\ seeded s2).
Proof.
  intros Hb Hs1 Hfresh. pose proof (fresh_commit_ready s s1 Hb Hs1 Hfresh) as Hready.
  destruct bench_parts_spec as (Hparts & Hlen & _). destruct Hfresh as (Hid & Hcur & _).
  unfold mustSeedSnapshot. cbn [serve]. unfold CommitSnapshot. cbn [snq_NewPartitions]. rewrite Hparts, !wp_bind.
  cbn [snq_TableName snq_ParentSnapshotId snq_Operation snq_DeletedPartitionKeys].
  pose proof Hs1 as ([Hwf Hl _] & Hq & _).
  eapply wp_mono; [apply wp_and; [apply ok_CommitSnapshot, Hs1 | apply wp_CommitSnapshot; [done | apply Hwf]]|].
  intros res s2 [Hsafe (_ & _ & Hle & _ & Hr)]. rewrite !wp_ret. split; [by eapply healthy_step|].
  destruct (cr_Success res).
  2: { destruct Hr as (_ & _ & _ & Hno & _). destruct Hno. split; [exact Hq|]. split; [symmetry; exact Hcur | exact Hready]. }
  destruct Hr as (_ & _ & Hc & _). pose proof (committed_wf _ _ _ _ _ _ _ Hwf Hc Hle) as Hwf'.
  destruct (committed_parent _ _ _ _ _ _ _ Hwf Hc) as (id & Hid' & Hp' & _ & Hdb & _).
  assert (Hsnap : current_snapshot bench_table (db s2) = pg_seqs (sys_pg s1) SeqSnapshots + 1).
  { rewrite (current_snapshot_head Hwf' bench_table id) by (by rewrite Hdb, commit_table_id).
    by rewrite Hdb, commit_head_snapshot, Z.eqb_refl. }
  unfold seeded, resolved. cbn [Z.eqb]. rewrite Hsnap. rewrite Hdb in Hwf' |- *.
  assert (Hq64 : int64 (pg_seqs (sys_pg s1) SeqSnapshots + 1) = pg_seqs (sys_pg s1) SeqSnapshots + 1).
  { apply int64_id. unfold is_int64. destruct (cr_snapshots _ _ _ _ _ Hready). lia. }
  erewrite commit_partitions_new; [|exact Hwf | exact Hid' | exact Hp' | exact Hwf' | by rewrite Hq64].
  destruct bench_parts as [|p ps]; [discriminate Hlen|]. cbn [new_rows map].
  rewrite without_nothing. destruct (default [] _) as [|r rows]; cbn [app]; by eexists _, _.
Qed.

(** A read of the seeded table. *)
Lemma wp_measure l s : healthy s -> seeded s -> wp (measure l) s (fun r s' => r = Ok l /\ healthy s' /\ db s' = db s).
Proof.
  intros Hs (row & rows & Hrows). pose proof Hs as ([Hwf Hl _] & Hq & Hc).
  unfold measure. cbn [serve]. unfold GetPartitions, bench_read_request.
  cbn [pq_PageToken pq_PageSize pq_TableName pq_SnapshotId Z.ltb Z.compare]. rewrite !wp_bind.
  eapply wp_mono; [apply wp_GetPartitions; [exact Hwf | exact Hl | by split]|].
  intros r s' [Hi Ha]. destruct (Ha Hc) as [Hc' Hr]. destruct r as [r|e]; [|by destruct (Hr Hq)]. unfold answers in Hr.
  rewrite Hr, Hrows, !wp_ret. split; [done|]. split; [|apply Hi].
  apply (healthy_step s); [done|]. apply idle_safe; [apply Hs | exact Hi | intros _; exact Hc'].
Qed.

Lemma wp_read s : healthy s -> seeded s ->
  wp (serve (ReqGetPartitions bench_read_request)) s (fun _ s' => healthy s' /\ db s' = db s).
Proof.
  intros Hs Hseed. pose proof (wp_measure 0 s Hs Hseed) as Hm. unfold measure in Hm. rewrite wp_bind in Hm.
  eapply wp_mono; [exact Hm|]. intros r s'. rewrite wp_ret. by intros (_ & ? & ?).
Qed.

Lemma wp_measures elapsed s :
  healthy s -> seeded s ->
  wp (for_each elapsed (fun l => try* _ := measure l in Ret (Ok tt))) s (fun r _ => r = Ok tt).
Proof.
  revert s. induction elapsed as [|l elapsed IH]; intros s Hs Hseed; cbn [for_each]; [done|].
  rewrite !wp_bind. eapply wp_mono; [by apply wp_measure|]. intros r s' (-> & Hs' & Hd). rewrite wp_ret.
  apply IH; [done|]. unfold seeded. by rewrite Hd.
Qed.

(** C31. The benchmark runs to its end: on a server in order, over a database
    that accepts its table and files, and with every round trip delivered, it
    creates the table, seeds it, is never answered without partitions and
    reports the statistics of its latencies. *)
Theorem bench_completes elapsed s :
  healthy s -> bench_ready s -> wp (benchmark elapsed) s (fun r _ => r = Ok (printStats elapsed)).
Proof.
  intros Hs Hb. unfold benchmark. rewrite wp_bind. eapply wp_mono; [by apply wp_mustCreateTable|].
  intros r s1 (-> & Hs1 & Hf). rewrite wp_bind. eapply wp_mono; [by eapply wp_mustSeedSnapshot|].
  intros [] s2 [Hs2 Hseed]. rewrite wp_bind. eapply wp_mono; [by apply wp_read|].
  intros _ s3 [Hs3 Hd]. rewrite wp_bind. eapply wp_mono; [apply wp_measures; [done | unfold seeded; by rewrite Hd]|].
  by intros r s4 ->.
Qed.

End completes.
