(* ===== verification/TestDB.v ===== *)
(** * The test database (internal/testutil/testdb.go)

    The configuration of the integration tests, and the helper that empties
    every relation and restarts every sequence before a test.  Each relation
    has one BIGSERIAL key, so the name of its sequence names the relation. *)
From S2P Require Import Prelude Prog LRU MVCC Lock Models PartitionSpec GoJson Postgres World PgClient PgFacts Wf Config.
From S2P Require Import Proto Server ServerFacts Service.

Definition test_conn (getenv : string -> string) : string :=
  let conn := getenv "PG_CONN_STRING" in
  if String.eqb conn ""
  then "host=127.0.0.1 port=5432 dbname=metadata user=metadata_user password=metadata_pass" else conn.

Definition TestConfig (getenv : string -> string) : Config :=
  let cfg := FromEnv getenv in
  mkConfig (test_conn getenv) "bufnet" 1000 5 (TxnTimeout cfg) (DisableCache cfg).

(** [TRUNCATE TABLE relation]: all its rows. *)
Definition clear_relation (n : seq_name) (d : DB) : DB :=
  match n with
  | SeqTables => set_tables [] d
  | SeqSchemaHistory => set_schema_history [] d
  | SeqSnapshots => set_snapshots [] d
  | SeqPartitions => set_partitions [] d
  | SeqTransactions => set_transactions [] d
  | SeqManifestFiles => set_manifest_files [] d
  | SeqManifestLists => set_manifest_lists [] d
  | SeqPartitionSpecs => set_partition_specs [] d
  end.

(** The relations [CASCADE] truncates with one: those that reference it, by
    the foreign keys of init_db.sql. *)
Definition cascade (n : seq_name) : list seq_name :=
  match n with
  | SeqTables => [SeqTables; SeqSchemaHistory; SeqSnapshots; SeqPartitions; SeqTransactions; SeqManifestFiles;
                  SeqManifestLists; SeqPartitionSpecs]
  | SeqSnapshots => [SeqSnapshots; SeqPartitions; SeqManifestFiles; SeqManifestLists]
  | n => [n]
  end.

(** [TRUNCATE TABLE relation RESTART IDENTITY CASCADE] *)
Definition sql_truncate (n : seq_name) : Stmt Z := fun _ d q =>
  (Ok (0, fun d => foldr clear_relation d (cascade n)),
   fun m => if decide (m ∈ cascade n) then 0 else q m).

Definition relation_name (n : seq_name) : string :=
  match n with
  | SeqTables => "tables" | SeqSchemaHistory => "schema_history" | SeqSnapshots => "snapshots"
  | SeqPartitions => "partitions" | SeqTransactions => "transactions" | SeqManifestFiles => "manifest_files"
  | SeqManifestLists => "manifest_lists" | SeqPartitionSpecs => "partition_specs"
  end.

(** The queries, in their order. *)
Definition reset_queries : list seq_name :=
  [SeqTransactions; SeqManifestFiles; SeqManifestLists; SeqPartitions; SeqSnapshots; SeqSchemaHistory;
   SeqPartitionSpecs; SeqTables].

Section testdb.
Context `{GoText}.

(** [opened] is the result of [pgxpool.New]. *)
Definition ResetDB (opened : result unit) : Prog Sys (result unit) :=
  match opened with
  | Err e => Ret (Err (ErrText ("create pool: " ++ error_text e)))
  | Ok _ =>
      for_each reset_queries (fun n =>
        try* _ := pool_exec (sql_truncate n)
          catch e in Ret (Err (ErrText ("reset db failed on " ++
            go_quote ("TRUNCATE TABLE " ++ relation_name n ++ " RESTART IDENTITY CASCADE") ++ ": " ++ error_text e))) then
        Ret (Ok tt))
  end.

(** ** A reset database is the empty one *)

(** What the truncations of [ns] make of rows and sequences. *)
Definition truncated (ns : list seq_name) (s s' : Sys) : Prop :=
  db s' = foldl (fun d n => foldr clear_relation d (cascade n)) (db s) ns /\
  forall m, pg_seqs (sys_pg s') m =
    foldl (fun v n => if decide (m ∈ cascade n) then 0 else v) (pg_seqs (sys_pg s) m) ns.

Lemma wp_truncate n s (Q : result Z -> Sys -> Prop) :
  (forall e s', ~ quiet s -> Q (Err e) s') ->
  (forall s', quiet s -> quiet s' -> truncated [n] s s' -> Q (Ok 0) s') ->
  (~ quiet s -> forall a s', truncated [n] s s' -> Q (Ok a) s') ->
  wp (pool_exec (sql_truncate n)) s Q.
Proof.
  intros Herr Hok Hok'. unfold pool_exec. rewrite wp_on_pg. unfold pool, exec_pool, sql_truncate.
  destruct (decide (pg_net (sys_pg s) = [])) as [Hq|Hq].
  - unfold next_fault. rewrite Hq. apply Hok; [done | by apply quiet_tail | done].
  - destruct (next_fault (sys_pg s)); cbn [fst snd]; [by apply Hok' | by apply Herr..].
Qed.

Lemma wp_truncate_all ns s :
  wp (for_each ns (fun n =>
        try* _ := pool_exec (sql_truncate n)
          catch e in Ret (Err (ErrText ("reset db failed on " ++
            go_quote ("TRUNCATE TABLE " ++ relation_name n ++ " RESTART IDENTITY CASCADE") ++ ": " ++ error_text e))) then
        Ret (Ok tt))) s (fun r s' => match r with Ok _ => truncated ns s s' | Err _ => ~ quiet s end /\ (quiet s -> quiet s')).
Proof.
  revert s. induction ns as [|n ns IH]; intros s; cbn [for_each]; [by split|].
  rewrite !wp_bind. apply wp_truncate.
  - intros e s' Hn. by rewrite !wp_ret.
  - intros s1 Hq Hq1 Ht. rewrite wp_ret. eapply wp_mono; [apply IH|]. intros r s2 [Hr Hq2]. split; [|auto].
    destruct r as [u|e]; [|by destruct (Hr Hq1)]. destruct Ht as [Hd Hs], Hr as [Hd2 Hs2]. cbn in Hd, Hs.
    split; [by rewrite Hd2, Hd | intros m; by rewrite Hs2, Hs].
  - intros Hn a s1 Ht. rewrite wp_ret. eapply wp_mono; [apply IH|]. intros r s2 [Hr Hq2]. split; [|done].
    destruct r as [u|e]; [|done]. destruct Ht as [Hd Hs], Hr as [Hd2 Hs2]. cbn in Hd, Hs.
    split; [by rewrite Hd2, Hd | intros m; by rewrite Hs2, Hs].
Qed.

(** C33. A reset gives a clean server: whatever the database held, a [ResetDB]
    that reports no error has emptied every relation and restarted every
    sequence, so a server started on it is in order; and it does report no
    error when the pool opens and every round trip is delivered. *)
Theorem reset_starts_clean (getenv : string -> string) (opened : result unit) (clock : Z) (s : Sys) :
  wp (ResetDB opened) s (fun r s' =>
    (quiet s -> opened = Ok tt -> r = Ok tt) /\
    (r = Ok tt -> db s' = empty_db /\ (forall n, pg_seqs (sys_pg s') n = 0) /\
                  started false (New (TestConfig getenv) (sys_pg s') clock))).
Proof.
  unfold ResetDB. destruct opened as [[]|e]; [|by rewrite wp_ret].
  eapply wp_mono; [apply wp_truncate_all|]. intros r s' [Hr _]. split.
  - intros Hq _. destruct r as [[]|e]; [done | by destruct (Hr Hq)].
  - intros ->. destruct Hr as [Hd Hs].
    assert (Hz : forall n, pg_seqs (sys_pg s') n = 0) by (intros []; by rewrite Hs).
    assert (He : db s' = empty_db) by (by rewrite Hd). split; [done|]. split; [done|].
    exists (TestConfig getenv), (sys_pg s'), clock. split; [done|]. split; [|done].
    unfold db in He. rewrite He. eapply db_wf_mono; [apply db_wf_empty|]. intros n. rewrite Hz. lia.
Qed.

End testdb.
