(* ===== verification/Deadlock.v ===== *)
(** * Renames that never return

    [RenameTable] locks the old name and then the new one, in that order.
    Renaming a table to itself waits for its own lock, and two renames that
    swap names wait for each other. *)
From S2P Require Import Prelude Prog Lock Models PartitionSpec GoJson Postgres World PgClient Catalog.

Section deadlock.
Context `{Postgres} `{GoText}.

(** The program waits to announce a writer on a mutex. *)
Definition announce {B} (l : nat) (k : unit -> Prog Sys B) : Prog Sys B :=
  Act (fun s => (fun m => (tt, set_locks m s)) <$> Lock_announce l (sys_locks s)) k.

(** Locking starts by looking the mutex up and announcing the writer. *)
Lemma with_exclusive_starts {A B} t (body : Prog Sys A) (k : A -> Prog Sys B) :
  exists k', bind (with_exclusive t body) k = bind (get_mutex t) (fun l => announce l (k' l)).
Proof. eexists. reflexivity. Qed.

Lemma announce_waits l m t mu :
  locks m !! t = Some l -> manager_wf m -> mutex_of m t = mu -> rw_writer mu <> WNone -> Lock_announce l m = None.
Proof.
  intros Hl Hwf Hmu Hw. destruct (wf_mutex _ Hwf t l Hl) as [[mu' E] _].
  rewrite (mutex_of_lookup _ _ _ _ Hl E) in Hmu. unfold Lock_announce. rewrite E. subst mu'.
  by destruct mu as [[] r].
Qed.

(** One thread of the pool takes the lock of a free table. *)
Lemma steps_lock {A} (ps : list (Prog Sys A)) i t (body : Prog Sys A) s :
  manager_wf (sys_locks s) -> mutex_of (sys_locks s) t = free_mutex -> ps !! i = Some (with_exclusive t body) ->
  exists l m, steps (ps, s) (<[i := deferred (lock_op (Unlock l)) body]> ps, set_locks m s) /\
    manager_wf m /\ locks m !! t = Some l /\ mutex_of m t = mkRWMutex WHeld 0 /\
    forall t', t' <> t -> mutex_of m t' = mutex_of (sys_locks s) t'.
Proof.
  intros Hwf Hfree Hi. destruct (getOrCreate_wf _ t Hwf) as (Hwf1 & Hl & Hsame).
  destruct (set_mutex_wf _ t _ (mkRWMutex WHeld 0) Hwf1 Hl) as (Hwf2 & Hown & Hother).
  do 2 eexists. split_and!; [|exact Hwf2|exact Hl|exact Hown|].
  - eapply (run_steps_bind ps i (LockExclusive t) (fun l => deferred (lock_op (Unlock l)) body));
      [exact Hi | by apply run_LockExclusive].
  - intros t' Hne. by rewrite Hother, Hsame.
Qed.

(** A thread that goes for the lock of a table somebody holds stops. *)
Lemma steps_stop {A} (ps : list (Prog Sys A)) i t (cleanup : Prog Sys unit) (body : Prog Sys A) s :
  manager_wf (sys_locks s) -> ps !! i = Some (deferred cleanup (with_exclusive t body)) ->
  exists l m k', steps (ps, s) (<[i := announce l k']> ps, set_locks m s) /\
    manager_wf m /\ locks m !! t = Some l /\ (forall t', mutex_of m t' = mutex_of (sys_locks s) t') /\
    forall t' l', locks (sys_locks s) !! t' = Some l' -> locks m !! t' = Some l'.
Proof.
  intros Hwf Hi. unfold deferred in Hi.
  destruct (with_exclusive_starts t body (fun r => let* _ := cleanup in Ret r)) as [k' E]. rewrite E in Hi.
  destruct (getOrCreate_wf _ t Hwf) as (Hwf1 & Hl & Hsame).
  do 3 eexists. split_and!; [|exact Hwf1|exact Hl|exact Hsame|intros; by apply getOrCreate_keeps].
  eapply (run_steps_bind _ _ _ (fun l => announce l (k' l))); [exact Hi | apply run_get_mutex].
Qed.

Lemma announce_blocked {B} l (k : unit -> Prog Sys B) t mu s :
  locks (sys_locks s) !! t = Some l -> manager_wf (sys_locks s) -> mutex_of (sys_locks s) t = mu ->
  rw_writer mu <> WNone -> blocked (announce l k) s.
Proof. intros Hl Hwf Hmu Hw. cbn. by rewrite (announce_waits l _ t mu). Qed.

(** Thread [i] of the pool that [Hs] reaches goes for the lock of [t]. *)
Tactic Notation "takes" hyp(Hs) constr(i) constr(t) constr(Hwf) constr(Hfree) "as" simple_intropattern(pat) :=
  lazymatch type of Hs with
  | steps _ (?ps, ?s) => destruct (steps_lock ps i t _ s Hwf Hfree eq_refl) as pat
  end.

Tactic Notation "stops" hyp(Hs) constr(i) constr(t) constr(Hwf) "as" simple_intropattern(pat) :=
  lazymatch type of Hs with
  | steps _ (?ps, ?s) => destruct (steps_stop ps i t _ _ s Hwf eq_refl) as pat
  end.

(** ** Two ways to hang *)

(** The second lock waits for the first. *)
Lemma rename_self_hangs name s :
  all_free (sys_locks s) ->
  exists c, steps ([Catalog.RenameTable name name], s) c /\ deadlocked c /\
    exists m, c.2 = set_locks m s /\ mutex_of m name = mkRWMutex WHeld 0.
Proof.
  intros [Hwf Hfree].
  destruct (steps_lock [Catalog.RenameTable name name] 0 name _ s Hwf (Hfree name) eq_refl)
    as (l & m & Hs & Hwfm & Hl & Hheld & _).
  stops Hs 0%nat name Hwfm as (l' & m' & k & Hs' & Hwfm' & Hl' & Hsame & _).
  eexists. split; [etrans; [exact Hs | exact Hs']|]. split.
  - apply all_blocked; [done|]. cbn. intros p ->%list_elem_of_singleton.
    apply (announce_blocked l' k name (mkRWMutex WHeld 0)); [done | done | by cbn; rewrite Hsame | done].
  - exists m'. split; [done|]. by rewrite Hsame.
Qed.

(** Each rename holds one lock and waits for the other. *)
Lemma rename_swap_deadlocks a b s :
  all_free (sys_locks s) -> a <> b ->
  exists c, steps ([Catalog.RenameTable a b; Catalog.RenameTable b a], s) c /\ deadlocked c /\ db c.2 = db s.
Proof.
  intros [Hwf Hfree] Hne.
  destruct (steps_lock [Catalog.RenameTable a b; Catalog.RenameTable b a] 0 a _ s Hwf (Hfree a) eq_refl)
    as (la & m1 & Hs1 & Hwf1 & Hla & Ha1 & Ho1).
  assert (Hb1 : mutex_of m1 b = free_mutex) by (rewrite Ho1 by done; apply Hfree).
  takes Hs1 1%nat b Hwf1 Hb1 as (lb & m2 & Hs2 & Hwf2 & Hlb & Hb2 & Ho2).
  assert (Ha2 : mutex_of m2 a = mkRWMutex WHeld 0) by (by rewrite Ho2).
  stops Hs2 0%nat b Hwf2 as (l3 & m3 & k3 & Hs3 & Hwf3 & Hl3 & Hsame3 & _).
  stops Hs3 1%nat a Hwf3 as (l4 & m4 & k4 & Hs4 & Hwf4 & Hl4 & Hsame4 & Hk4).
  cbn in Hsame3, Hsame4, Hk4. eexists. split; [|split].
  - etrans; [exact Hs1|]. etrans; [exact Hs2|]. etrans; [exact Hs3 | exact Hs4].
  - apply all_blocked; [done|]. cbn. intros p [->| ->%list_elem_of_singleton]%elem_of_cons.
    + apply (announce_blocked l3 k3 b (mkRWMutex WHeld 0)); [by apply Hk4 | done | | done].
      cbn. by rewrite Hsame4, Hsame3.
    + apply (announce_blocked l4 k4 a (mkRWMutex WHeld 0)); [done | done | | done].
      cbn. by rewrite Hsame4, Hsame3.
  - done.
Qed.

(** ** Property *)

(** C36. Renames can hang: renaming a table to itself never returns and holds
    the table's lock, so every later request for the table hangs too; and two
    renames that swap names have a schedule after which each holds one lock
    and waits for the other forever. *)
Theorem renames_can_hang a b s :
  all_free (sys_locks s) ->
  (exists c, steps ([Catalog.RenameTable a a], s) c /\ deadlocked c /\
     exists m, c.2 = set_locks m s /\ mutex_of m a = mkRWMutex WHeld 0) /\
  (a <> b -> exists c, steps ([Catalog.RenameTable a b; Catalog.RenameTable b a], s) c /\ deadlocked c /\ db c.2 = db s).
Proof. intros Hfree. split; [by apply rename_self_hangs | by intros; apply rename_swap_deadlocks]. Qed.

End deadlock.
