(* ===== verification/History.v ===== *)
(** * What a commit leaves on record

    Reading back, after a commit, the snapshot and the manifests it wrote. *)
From S2P Require Import Prelude Prog CacheInterface LRU MVCC Lock Models PartitionSpec GoJson Postgres World.
From S2P Require Import PgClient PgFacts Reads Sorting Registry ManifestStore Commit Wf Visibility Coherence CommitFacts.

Section history.
Context `{Postgres} `{GoText}.

(** What [GetSnapshot] answers. *)
Definition snapshot_at (name : string) (n : Z) (d : DB) : option SnapshotRow :=
  if table_id_or name d <? 0 then None
  else scan_snapshot <$> head (List.filter
    (fun r => (s_table_id r =? table_id_or name d) && (s_snapshot_id r =? int64 n)) (snapshots d)).

(** What [GetManifestList] answers. *)
Definition manifests_at (name : string) (n : Z) (d : DB) : option (ManifestListRow * list ManifestFileRow) :=
  if table_id_or name d <? 0 then None
  else (fun l => (scan_manifest_list l,
                  map scan_manifest_file (order_by mf_manifest_file_id (manifests_of (int64 n) d)))) <$>
    head (List.filter (fun r => (ml_snapshot_id r =? int64 n) && (ml_table_id r =? table_id_or name d))
            (manifest_lists d)).

Lemma wp_GetSnapshot name n s :
  quiet s -> wp (PgClient.GetSnapshot name n) s (fun r s' => unchanged s s' /\ r = Ok (snapshot_at name n (db s))).
Proof.
  intros Hq. unfold PgClient.GetSnapshot, snapshot_at. rewrite wp_bind. apply wp_GetTableID; [by intros e s' _ []|].
  intros s1 Hu1. destruct (table_id_or name (db s) <? 0); [by rewrite wp_ret|]. rewrite wp_bind.
  apply wp_pool_query_row.
  - intros e s2 Hu2 Hn. destruct Hn. by apply (unchanged_quiet _ _ Hu1).
  - intros s2 Hu2. rewrite wp_ret, first_row_head. split; [by etrans|]. rewrite (unchanged_db _ _ Hu1).
    by destruct (head _).
Qed.

Lemma wp_GetManifestList name n s :
  quiet s -> wp (ManifestStore.GetManifestList name n) s (fun r s' => unchanged s s' /\ r = Ok (manifests_at name n (db s))).
Proof.
  intros Hq. unfold ManifestStore.GetManifestList, PgClient.GetManifestList, manifests_at. rewrite wp_bind.
  apply wp_GetTableID; [by intros e s' _ []|]. intros s1 Hu1.
  destruct (table_id_or name (db s) <? 0); [by rewrite wp_ret|]. rewrite wp_bind.
  assert (Hq1 : quiet s1) by (by apply (unchanged_quiet _ _ Hu1)).
  apply wp_pool_query_row; [by intros e s2 _ []|]. intros s2 Hu2. rewrite first_row_head, (unchanged_db _ _ Hu1).
  destruct (head _) as [l|]; [|rewrite wp_ret; split; [by etrans | done]]. rewrite wp_bind.
  assert (Hu : unchanged s s2) by (by etrans).
  apply wp_pool_query; [intros e s3 _ Hn; by destruct Hn; apply (unchanged_quiet _ _ Hu)|].
  intros s3 Hu3. rewrite wp_ret. split; [by etrans|]. by rewrite (unchanged_db _ _ Hu).
Qed.

Lemma head_filter_snoc {A} (f : A -> bool) l x :
  (forall y, y ∈ l -> f y = false) -> f x = true -> head (List.filter f (l ++ [x])) = Some x.
Proof. intros Hl Hx. rewrite List.filter_app, filter_false by done. cbn. by rewrite Hx. Qed.

Lemma sorted_manifest_rows next mfs : sorted mf_manifest_file_id (manifest_rows next mfs).
Proof.
  revert next. induction mfs as [|mf mfs IH]; intros next; cbn; [constructor|]. constructor; [apply IH|].
  apply Forall_forall. intros r Hin%manifest_rows_ids. cbn. lia.
Qed.

(** What a manifest says of the files it covers. *)
Definition manifest_counts (f : ManifestFileRow) : Z * Z * Z :=
  (mfr_AddedFilesCount f, mfr_DeletedFilesCount f, mfr_AddedRowsCount f).

Lemma manifest_rows_counts next mfs :
  map manifest_counts (map scan_manifest_file (manifest_rows next mfs)) = map manifest_counts mfs.
Proof. revert next. induction mfs as [|mf mfs IH]; intros next; [done|]. cbn. by rewrite IH. Qed.

(** ** Properties *)

(** C19. A commit is on record: with every round trip delivered, after a
    successful [CommitSnapshot] the new snapshot reads back with its parent,
    its operation and the numbers of added files and deleted keys, and its
    manifest list with exactly its manifests: one for the added files, with
    their count and total rows, and one for the deleted keys, each only when
    there are any. *)
Theorem commit_recorded name parent operation parts keys s :
  sys_wf s -> quiet s ->
  wp (let* res := Registry.CommitSnapshot name parent operation parts keys in
      let* snap := PgClient.GetSnapshot name (cr_SnapshotID res) in
      let* man := ManifestStore.GetManifestList name (cr_SnapshotID res) in Ret (res, snap, man)) s
    (fun '(res, snap, man) _ => cr_Success res = true ->
      exists id list files,
        table_id name (db s) = Some id /\
        snap = Ok (Some (mkSnapshotRow (cr_SnapshotID res) id (int64 parent) operation (len32 parts) (len32 keys)
                           (pg_timestamp_text (pg_now (sys_pg s))))) /\
        man = Ok (Some (list, files)) /\ mlr_ManifestCount list = Z.of_nat (length files) /\
        map manifest_counts files =
          (if is_empty parts then [] else [(len32 parts, 0, total_rows parts)]) ++
          (if is_empty keys then [] else [(0, len32 keys, 0)])).
Proof.
  intros [Hwf Hfree _] Hq. rewrite wp_bind. eapply wp_mono; [apply wp_CommitSnapshot; [done | apply Hwf]|].
  intros res s1 (_ & _ & Hle & Hq1 & Hr). rewrite wp_bind. eapply wp_mono; [by apply wp_GetSnapshot; auto|].
  intros snap s2 [Hu2 ->]. rewrite wp_bind. eapply wp_mono.
  { apply wp_GetManifestList. rewrite (unchanged_quiet _ _ Hu2) || apply (unchanged_quiet _ _ Hu2). auto. }
  intros man s3 [_ ->]. rewrite wp_ret. intros Hs. rewrite Hs in Hr. destruct Hr as (Hsnap & _ & Hc & _).
  rewrite (unchanged_db _ _ Hu2). pose proof (committed_wf _ _ _ _ _ _ _ Hwf Hc Hle) as Hwf'.
  destruct (committed_parent _ _ _ _ _ _ _ Hwf Hc) as (id & Hid & _ & Hpar & Hdb & [Hseq _ _]).
  pose proof (wf_seqs _ _ Hwf' SeqSnapshots) as Hb. pose proof (wf_seqs _ _ Hwf SeqSnapshots) as Hb0.
  set (n := cr_SnapshotID res) in *. assert (Hn : int64 n = n) by (apply int64_id; unfold is_int64; lia).
  assert (Hids : table_id_or name (db s1) = id /\ 1 <= id).
  { pose proof (table_id_or_spec Hwf name) as Ht. rewrite Hid in Ht. rewrite Hdb, commit_table_id_or. done. }
  destruct Hids as [Hids Hpos]. unfold snapshot_at, manifests_at. rewrite Hids, Hn.
  destruct (Z.ltb_spec id 0); [lia|].
  assert (Hnew : manifests_of n (db s1) = manifest_rows (pg_seqs (sys_pg s) SeqManifestFiles)
    (commit_manifests name id n (current_spec_version name (db s)) parts keys)).
  { rewrite Hdb, Hsnap. apply (commit_manifests_of_new _ _ _ _ _ _ _ _ _ _ Hwf). lia. }
  exists id. rewrite Hnew, order_by_id by apply sorted_manifest_rows. rewrite Hdb. cbn [snapshots manifest_lists commit_db].
  rewrite head_filter_snoc; [|intros r Hin|].
  2: { destruct (wf_snapshots _ _ Hwf r Hin) as [[_ ?] _]. apply andb_false_iff. right. apply Z.eqb_neq. lia. }
  2: { cbn. by rewrite Hsnap, !Z.eqb_refl. }
  rewrite head_filter_snoc; [|intros l Hin|].
  2: { pose proof (manifest_list_issued _ _ Hwf l Hin). apply andb_false_iff. left. apply Z.eqb_neq. lia. }
  2: { cbn. by rewrite Hsnap, !Z.eqb_refl. }
  cbn [fmap option_fmap option_map]. do 2 eexists. split; [done|].
  split; [by rewrite Hpar, Hsnap|]. split; [done|].
  split; [by rewrite length_map, length_manifest_rows, Hsnap|].
  rewrite manifest_rows_counts. unfold commit_manifests. by destruct (is_empty parts), (is_empty keys).
Qed.

End history.
