(* ===== verification/TxFacts.v ===== *)
(** * Transactions: what clients can rely on

    [BeginTransaction], [CommitTransaction] and [AbortTransaction] over the
    manager's memory and the rows of the relation [transactions]. *)
From S2P Require Import Prelude Prog CacheInterface LRU MVCC Lock Models PartitionSpec GoJson Postgres World.
From S2P Require Import PgClient PgFacts PgPlain Reads Registry Commit Wf Visibility Coherence CommitFacts.
From S2P Require Import ManifestStore Config SchemaStore SpecStore Catalog CatalogFacts CatalogWf DDL Proto Server ServerFacts.

Section tx_facts.
Context `{Postgres} `{GoText}.

(** [transactions] after [UPDATE ... SET status]. *)
Definition with_status (txn : Z) (status : string) (now : Z) (d : DB) : DB :=
  set_transactions (update_where (fun r => x_txn_id r =? int64 txn) (set_status status now) (transactions d)) d.

Lemma wp_UpdateTransactionStatus txn status s :
  quiet s ->
  wp (UpdateTransactionStatus txn status) s (fun r s' =>
    r = Ok tt /\ frame s s' /\ db s' = with_status txn status (pg_now (sys_pg s)) (db s)).
Proof.
  intros Hq. unfold UpdateTransactionStatus. rewrite wp_bind.
  apply wp_pool; [unfold sql_update_transaction; solve_monotone | |].
  - intros e s' _ Hr _ _ _. destruct (Hr Hq) as [q Hr']. done.
  - intros a eff q s' [= <- <- <-] Hf Hd _. by rewrite wp_ret.
Qed.

(** The table of a transaction is read under its lock. *)
Lemma wp_GetTable_frame t s :
  all_free (sys_locks s) -> quiet s ->
  wp (Catalog.GetTable t) s (fun r s' => r = table_row t (db s) /\ idle s s' /\ frame s s').
Proof.
  intros Hfree Hq. apply wp_with_shared; [done | solve_plain |]. apply wp_GetTable; [by intros e s' _ []|].
  intros s' Hu m Hm. split; [done|]. split; [by apply unchanged_idle|]. apply frame_locks. apply Hu.
Qed.

(** The read snapshot of a new transaction. *)
Lemma begin_snapshot name d r spec row :
  live_table name d = Some r -> t_partition_spec r = Some spec -> table_row name d = Ok (Some row) ->
  tr_TableID row = t_table_id r /\
  (if 0 <? tr_CurrentSnapshotID row then uint64 (tr_CurrentSnapshotID row) else 0) = current_snapshot name d.
Proof.
  intros Hr Hs Hrow. rewrite (table_row_live _ _ _ _ Hr Hs) in Hrow. injection Hrow as <-. cbn. split; [done|].
  unfold current_snapshot. rewrite Hr.
  destruct (Z.ltb_spec 0 (t_current_snapshot_id r)), (Z.ltb_spec (t_current_snapshot_id r) 0); try done; [lia|].
  by replace (t_current_snapshot_id r) with 0 by lia.
Qed.

Lemma update_where_status txn status now l r :
  r ∈ update_where (fun r => x_txn_id r =? txn) (set_status status now) l -> x_txn_id r = txn ->
  exists r0, r0 ∈ l /\ x_txn_id r0 = txn /\ r = set_status status now r0.
Proof.
  intros (r0 & Hin & ->)%elem_of_update_where Hid. exists r0.
  destruct (Z.eqb_spec (x_txn_id r0) txn); [done|]. by destruct (n Hid).
Qed.

(** ** Properties *)

(** Beginning a transaction pins what it reads: with every round trip
    delivered, [BeginTransaction] on a live table answers the next id of the
    sequence and the table's current snapshot, leaves an active transaction
    and an "active" row under that id, and pins that snapshot. *)
Theorem begin_pins client name isolation r s :
  system_wf s -> quiet s -> client <> "" -> name <> "" -> live_table name (db s) = Some r ->
  seq_room (pg_seqs (sys_pg s)) SeqTransactions 1 ->
  let txn := pg_seqs (sys_pg s) SeqTransactions + 1 in
  let snap := current_snapshot name (db s) in
  wp (BeginTransaction (mkTransactionRequest client name isolation)) s (fun resp s' =>
    resp = Reply (mkTransactionResponse txn snap) /\
    activeTransactions (sys_mvcc s') !! txn = Some (mkTxn txn snap (sys_clock s)) /\
    IsSnapshotPinned (sys_mvcc s') snap = true /\ system_wf s' /\
    db s' = set_transactions (transactions (db s) ++
      [mk_transactions_row txn client (t_table_id r) (int64 snap) "active"
         (if isolation =? IsolationLevel_READ_COMMITTED then "read_committed" else "snapshot") None]) (db s)).
Proof.
  intros Hs Hq Hclient Hname Hr Hroom txn snap. pose proof Hs as [Hd Hl Hm].
  unfold BeginTransaction. cbn [txq_ClientId txq_TableName txq_Isolation].
  apply String.eqb_neq in Hclient, Hname. rewrite Hclient, Hname. rewrite wp_bind.
  eapply wp_mono; [by apply wp_GetTable_frame|]. intros row s1 (-> & Hi1 & Hf1).
  destruct (live_table_wf Hd name r Hr) as (_ & Hspec & _). destruct (t_partition_spec r) as [spec|] eqn:Espec; [|done].
  rewrite (table_row_live _ _ _ _ Hr Espec). cbn [tr_CurrentSnapshotID tr_TableID].
  destruct (begin_snapshot name (db s) r spec _ Hr Espec (table_row_live _ _ _ _ Hr Espec)) as [_ Hsnap].
  cbn [tr_CurrentSnapshotID] in Hsnap. rewrite Hsnap. fold snap.
  assert (Hs1 : system_wf s1) by (apply (idle_safe s s1 Hs Hi1); unfold cache_fresh; destruct Hi1 as (_ & -> & _);
    by rewrite (fr_cache _ _ Hf1)).
  destruct Hi1 as (Hl1 & Hd1 & Hq1 & Hm1 & Hqs1). rewrite wp_bind.
  eapply wp_mono; [apply wp_plain_locks; [auto with plain | by apply wp_InsertTransaction]|].
  intros res s2 [(Hf2 & _ & Hres) Hlk2]. rewrite Hq1, Hd1 in Hres. fold txn in Hres.
  destruct res as [txn'|e].
  2: { destruct Hres. split_and!; [auto | | done]. apply (has_table_id name). unfold table_id. by rewrite Hr. }
  destruct Hres as (-> & Hmax & Hseq2 & Hd2). rewrite wp_bind, wp_on_mvcc, wp_ret. cbn [fst snd].
  assert (Hw : mvcc_wf (pg_seqs (sys_pg s2)) (RegisterTransaction (sys_clock s2) txn snap (sys_mvcc s2))).
  { rewrite (fr_mvcc _ _ Hf2), Hm1. eapply mvcc_wf_register; [exact Hm | apply Hd | done | lia | lia]. }
  assert (Hs2 : system_wf s2).
  { apply (with_transactions s1 s2 Hs1 Hf2 Hlk2). rewrite Hd1, Hd2. by eexists. }
  assert (Hact : activeTransactions (RegisterTransaction (sys_clock s2) txn snap (sys_mvcc s2)) !! txn =
    Some (mkTxn txn snap (sys_clock s))).
  { cbn. by rewrite lookup_insert_eq, (fr_clock _ _ Hf2), (fr_clock _ _ Hf1). }
  split; [done|]. split; [done|]. split; [|split].
  - apply IsSnapshotPinned_readers; [apply Hw|]. by exists txn, (mkTxn txn snap (sys_clock s)).
  - by apply safe_set_mvcc.
  - done.
Qed.

(** A transaction commits once: with every round trip delivered,
    [CommitTransaction] succeeds exactly when the transaction is active and
    has not outlived the timeout, and then marks its row committed; the same
    request again is answered "not found or expired" and changes no row. *)
Theorem commit_transaction_once txn s :
  quiet s ->
  let alive := match activeTransactions (sys_mvcc s) !! txn with
               | Some tx => time_sub (sys_clock s) (StartedAt tx) <=? txnTimeout (sys_mvcc s)
               | None => false
               end in
  let refused := mkOperationResponse false "transaction not found or expired" in
  let once := if alive then with_status txn "committed" (pg_now (sys_pg s)) (db s) else db s in
  wp (let* first := CommitTransaction (mkCommitRequest txn) in
      let* second := CommitTransaction (mkCommitRequest txn) in Ret (first, second)) s (fun r s' =>
    r.1 = Reply (if alive then mkOperationResponse true "" else refused) /\ r.2 = Reply refused /\ db s' = once).
Proof.
  intros Hq alive refused once.
  assert (Hagain : forall s', sys_mvcc s' = (MVCC.CommitTransaction (sys_clock s) txn (sys_mvcc s)).2 ->
    wp (CommitTransaction (mkCommitRequest txn)) s' (fun r s'' => r = Reply refused /\ db s'' = db s')).
  { intros s' Hm. unfold CommitTransaction. cbn [cq_TxnId].
    rewrite wp_bind, wp_on_mvcc, Hm.
    rewrite (CommitTransaction_again (sys_clock s) (sys_clock s') txn). cbn [fst snd negb]. by rewrite wp_ret. }
  rewrite wp_bind. unfold CommitTransaction at 1. cbn [cq_TxnId]. rewrite wp_bind, wp_on_mvcc.
  pose proof (CommitTransaction_alive (sys_clock s) txn (sys_mvcc s)) as Halive. fold alive in Halive.
  rewrite Halive. destruct alive; cbn [negb].
  - rewrite wp_bind. eapply wp_mono; [by apply wp_UpdateTransactionStatus|]. intros r1 s1 (-> & Hf1 & Hd1).
    rewrite wp_ret, wp_bind. eapply wp_mono; [apply Hagain; apply (fr_mvcc _ _ Hf1)|].
    intros r2 s2 [-> Hd2]. rewrite wp_ret. split; [done|]. split; [done|]. by rewrite Hd2, Hd1.
  - rewrite wp_ret, wp_bind. eapply wp_mono; [by apply Hagain|]. intros r2 s2 [-> Hd2]. by rewrite wp_ret.
Qed.

(** C40. An abort overwrites a commit: [AbortTransaction] on a transaction
    that has just been committed still succeeds and leaves its row "aborted",
    with the time of the commit. *)
Theorem abort_overwrites_commit txn tx s :
  quiet s -> activeTransactions (sys_mvcc s) !! txn = Some tx ->
  time_sub (sys_clock s) (StartedAt tx) <= txnTimeout (sys_mvcc s) ->
  wp (let* c := CommitTransaction (mkCommitRequest txn) in
      let* a := AbortTransaction (mkAbortRequest txn) in Ret (c, a)) s (fun r s' =>
    r = (Reply (mkOperationResponse true ""), Reply (mkOperationResponse true "")) /\
    forall x, x ∈ transactions (db s') -> x_txn_id x = int64 txn ->
      x_status x = "aborted" /\ x_committed_at x = Some (pg_now (sys_pg s))).
Proof.
  intros Hq Htx Hlive. unfold CommitTransaction, AbortTransaction. cbn [cq_TxnId aq_TxnId].
  rewrite wp_bind, wp_bind, wp_on_mvcc. unfold MVCC.CommitTransaction. rewrite Htx. unfold expired.
  destruct (Z.ltb_spec (txnTimeout (sys_mvcc s)) (time_sub (sys_clock s) (StartedAt tx))); [lia|]. cbn [fst snd negb].
  rewrite wp_bind. eapply wp_mono; [by apply wp_UpdateTransactionStatus|]. intros r1 s1 (-> & Hf1 & Hd1).
  rewrite wp_ret, wp_bind, wp_bind, wp_on_mvcc, wp_bind. cbn [fst snd].
  eapply wp_mono; [apply wp_UpdateTransactionStatus; apply (fr_quiet _ _ Hf1); exact Hq|].
  intros r2 s2 (-> & Hf2 & Hd2). rewrite !wp_ret. split; [done|]. intros x. rewrite Hd2. cbn. intros Hin Hid.
  apply update_where_status in Hin as (x1 & Hin & Hid1 & ->); [|done]. unfold db in *. cbn in Hin. rewrite Hd1 in Hin.
  apply update_where_status in Hin as (x2 & _ & _ & ->); [|done]. done.
Qed.

End tx_facts.
