(* ===== verification/Readback.v ===== *)
(** * What a client writes is what it reads

    The handlers end to end, through the JSON documents the database keeps
    ([JsonFacts]): the files of a commit with their statistics, the properties
    of a new table, and a partition spec come back as they were sent. *)
From S2P Require Import Prelude GoStrings Json Prog CacheInterface LRU MVCC Lock Models PartitionSpec GoJson Postgres.
From S2P Require Import JsonFacts World PgClient PgFacts PgPlain Reads Registry Commit Wf Visibility Coherence CommitFacts.
From S2P Require Import SchemaStore SpecStore Catalog CatalogFacts CatalogWf DDL Proto Server ServerFacts Service TxFacts.

(** ** Specification *)

(** A file as [GetTableMetadata] returns it after the commit that added it. *)
Definition committed_file (snap : Z) (p : PartitionInfo) : PartitionInfo :=
  mkPartitionInfo (pi_PartitionKey p) (pi_DataFilePath p) (pi_RowCount p) (pi_SizeBytes p) (uint64 snap)
    (defaultString (pi_FileFormat p) "parquet") (pi_ColumnStats p).

(** The files whose key a commit does not delete. *)
Definition not_under (keys : list string) (infos : list PartitionInfo) : list PartitionInfo :=
  List.filter (fun p => negb (existsb (String.eqb (pi_PartitionKey p)) keys)) infos.

(** Statistics as a decoded message has them: integers of their types, texts
    in UTF-8. *)
Definition wire_stats (p : PartitionInfo) : Prop := stats_text_ok (protoToColumnStats (pi_ColumnStats p)).

(** A field as a decoded message has it: [int32] numbers (the transform is an
    open enum, any number can come), a text in UTF-8. *)
Definition wire_field (f : ProtoPartitionField) : Prop :=
  is_int32 (pf_FieldId f) /\ is_int32 (pf_TransformParam f) /\ ValidString (pf_SourceColumn f) = true.

(** The transform is one the enum names. *)
Definition known_transform (t : ProtoTransform) : bool := (0 <=? t) && (t <=? 6).

(** A field as it is kept: a transform the enum does not name becomes
    [IDENTITY]. *)
Definition kept_field (f : ProtoPartitionField) : ProtoPartitionField :=
  mkProtoPartitionField (pf_FieldId f) (pf_SourceColumn f)
    (if known_transform (pf_Transform f) then pf_Transform f else PartitionTransform_IDENTITY) (pf_TransformParam f).

Definition kept_spec (p : PartitionSpecProto) : PartitionSpecProto :=
  mkPartitionSpecProto (map kept_field (psp_Fields p)).

Section readback.
Context `{Postgres} `{GoText}.

(** ** Column statistics *)

Lemma stats_kept `{!Jsonb} stats t : stats_text_ok stats -> pg_jsonb (marshalColumnStats stats) = Some t ->
  unmarshalColumnStats t = stats.
Proof.
  intros Hok Ht. assert (Hm : marshalColumnStats stats = json_print (stats_doc stats)) by (by destruct stats).
  rewrite Hm in Ht. destruct (jsonb_keeps _ t (plain_stats_doc _ Hok) (depth_stats _) Ht) as (v' & Hv & Hs).
  rewrite norm_stats_doc in Hs by done. destruct (decode_stats_same _ _ Hok Hs) as [[l Hl] Hd].
  unfold unmarshalColumnStats. subst v'.
  assert (Hne : forall u, u ∈ [""; "null"; "{}"] -> String.eqb t u = false).
  { intros u Hu. destruct (String.eqb_spec t u) as [->|]; [|done].
    rewrite !elem_of_cons in Hu. destruct Hu as [->|[->|[->|?%elem_of_nil]]]; done. }
  rewrite !Hne by set_solver. cbn [orb]. unfold json_unmarshal_stats, unmarshal. rewrite Hv. cbn [mbind option_bind].
  by rewrite Hd.
Qed.

Lemma proto_stats_id l : columnStatsToProto (protoToColumnStats l) = l.
Proof. unfold columnStatsToProto, protoToColumnStats. rewrite map_map. rewrite <- (map_id l) at 2. by apply map_ext; intros []. Qed.

(** The rows of a commit, as they are read. *)
Lemma new_rows_read `{!Jsonb} keys infos : forall parts next id snap,
  new_parts infos = inr parts -> Forall wire_stats infos ->
  (forall p, p ∈ parts -> pg_jsonb (marshalColumnStats (pr_ColumnStats p)) <> None) ->
  map (partition_info true) (without keys (map scan_partition (new_rows next id snap parts))) =
  map (committed_file snap) (not_under keys infos).
Proof.
  induction infos as [|p infos IH]; intros parts next id snap Hp Hw Hj; cbn [new_parts] in Hp.
  { by injection Hp as <-. }
  destruct (pi_RowCount p <=? 0); [done|]. destruct (new_parts infos) as [k|rows] eqn:E; [done|]. injection Hp as <-.
  inversion Hw as [|? ? Hp Hps]; subst. specialize (IH rows (next + 1) id snap eq_refl Hps).
  unfold without, not_under in *. cbn [new_rows map List.filter scan_partition p_partition_key pr_PartitionKey pi_PartitionKey].
  destruct (existsb (String.eqb (pi_PartitionKey p)) keys); cbn [negb]; [apply IH; intros q Hq; apply Hj; by right|].
  cbn [map]. f_equal.
  - unfold partition_info, scan_partition, committed_file. cbn.
    specialize (Hj _ (list_elem_of_here _ _)). cbn in Hj. destruct (pg_jsonb _) as [t|] eqn:Ht; [|done]. cbn.
    rewrite (stats_kept _ t Hp Ht). by rewrite proto_stats_id.
  - apply IH. intros q Hq. apply Hj. by right.
Qed.

(** ** Reading the metadata of a table *)

Definition files_at (name : string) (d : DB) : list PartitionRow :=
  default [] (partitions_at name (current_snapshot name d) d).

(** The metadata of a live table at its current snapshot. *)
Definition metadata_at (name : string) (r : tables_row) (props : gmap string string) (d : DB) : TableMetadataResponse :=
  mkTableMetadataResponse name (t_schema_json r) (current_snapshot name d) (t_schema_version r)
    (map (partition_info true) (files_at name d)) props (total pr_RowCount (files_at name d))
    (total pr_SizeBytes (files_at name d)).

Lemma table_snapshot_current name d r : live_table name d = Some r ->
  (if t_current_snapshot_id r <? 0 then 0 else uint64 (t_current_snapshot_id r)) = current_snapshot name d.
Proof. intros Hr. unfold current_snapshot. by rewrite Hr. Qed.

(** A read of the metadata, at the snapshot asked for. *)
Lemma wp_GetTableMetadata_at name n s r spec :
  sys_wf s -> quiet s -> name <> "" -> is_uint64 n -> live_table name (db s) = Some r -> t_partition_spec r = Some spec ->
  let snap := resolved name n (db s) in
  let rows := default [] (partitions_at name snap (db s)) in
  wp (GetTableMetadata (mkTableRequest name n)) s (fun x s' => db s' = db s /\ x =
    match (if negb (String.eqb (t_properties r) "") then json_unmarshal_properties (t_properties r) else Ok ∅) with
    | Err _ => Status Internal "failed to parse table properties JSON"
    | Ok props => Reply (mkTableMetadataResponse name (t_schema_json r) snap (t_schema_version r)
                           (map (partition_info true) rows) props (total pr_RowCount rows) (total pr_SizeBytes rows))
    end).
Proof.
  intros [Hwf Hfree Hc] Hq Hne Hn Hr Hspec snap rows. unfold GetTableMetadata. cbn [tq_TableName tq_SnapshotId].
  rewrite (proj2 (String.eqb_neq _ _) Hne), wp_bind. eapply wp_mono; [by apply wp_GetTable_frame|].
  intros x s1 (-> & Hi & Hf). rewrite (table_row_live _ _ _ _ Hr Hspec). cbv zeta. unfold table_snapshot.
  cbn [tr_CurrentSnapshotID tr_PropertiesJSON]. rewrite (table_snapshot_current _ _ _ Hr), wp_bind.
  fold (resolved name n (db s)). fold snap. destruct Hi as (Hfree1 & Hd1 & Hs1 & _ & Hq1).
  assert (Hc1 : coherent (db s1) (sys_cache s1)) by (by rewrite Hd1, (fr_cache _ _ Hf)).
  eapply wp_mono; [apply wp_GetPartitions; [by rewrite Hs1, Hd1 | done | by eapply resolved_uint64]|].
  intros x s2 [(_ & Hd2 & _) Ha]. destruct (Ha Hc1) as [_ Hans]. destruct x as [x|e]; [|by destruct Hans; auto].
  cbn [answers] in Hans. subst x. rewrite Hd1, (resolved_again name n (db s) : resolved name snap (db s) = snap). fold rows.
  destruct (if negb _ then _ else _) as [props|e]; rewrite wp_ret; (split; [by rewrite Hd2|]); [|done].
  by rewrite (live_table_named_eq _ _ _ Hr).
Qed.

Lemma wp_GetTableMetadata name s r spec props :
  sys_wf s -> quiet s -> name <> "" -> live_table name (db s) = Some r -> t_partition_spec r = Some spec ->
  t_properties r <> "" -> json_unmarshal_properties (t_properties r) = Ok props ->
  wp (GetTableMetadata (mkTableRequest name 0)) s (fun x _ =>
    x = Reply (metadata_at name r props (db s))).
Proof.
  intros Hs Hq Hne Hr Hspec Hpne Hprops. eapply wp_mono; [by eapply wp_GetTableMetadata_at|]. intros x s' [_ ->].
  by rewrite (proj2 (String.eqb_neq _ _) Hpne), Hprops.
Qed.

Lemma without_app keys rows rows' : without keys (rows ++ rows') = without keys rows ++ without keys rows'.
Proof. apply List.filter_app. Qed.

(** The table after a commit. *)
Lemma committed_table name parent operation parts keys s s' r :
  let snap := pg_seqs (sys_pg s) SeqSnapshots + 1 in
  db_wf (pg_seqs (sys_pg s)) (db s) -> db_wf (pg_seqs (sys_pg s')) (db s') ->
  committed name parent operation parts keys s s' -> live_table name (db s) = Some r ->
  live_table name (db s') = Some (set_current_snapshot snap (pg_now (sys_pg s)) r) /\
  current_snapshot name (db s') = snap /\ int64 snap = snap.
Proof.
  intros snap Hwf Hwf' Hc Hr. destruct (committed_parent _ _ _ _ _ _ _ Hwf Hc) as (id & _ & _ & _ & Hdb & [Hseq _ _]).
  pose proof (wf_seqs _ _ Hwf SeqSnapshots) as Hq. pose proof (wf_seqs _ _ Hwf' SeqSnapshots) as Hq'.
  rewrite Hseq in Hq'. fold snap in Hq'.
  assert (Hl : live_table name (db s') = Some (set_current_snapshot snap (pg_now (sys_pg s)) r)).
  { eapply (live_table_set name); [by rewrite Hdb | done | done]. }
  split; [done|]. split; [|apply int64_id; unfold is_int64; lia].
  unfold current_snapshot. rewrite Hl. cbn. destruct (Z.ltb_spec snap 0); [lia|]. apply uint64_id. unfold is_uint64. lia.
Qed.

(** ** Partition specs *)

Lemma unknown_transform t : ~ 0 <= t <= 6 -> protoTransformToString t = TransformIdentity.
Proof.
  intros Ht. unfold protoTransformToString. repeat rewrite (proj2 (Z.eqb_neq t _)) by (intros ->; by apply Ht). done.
Qed.

Lemma proto_transform t : stringTransformToProto (protoTransformToString t) =
  if known_transform t then t else PartitionTransform_IDENTITY.
Proof.
  unfold known_transform. destruct (Z.leb_spec 0 t), (Z.leb_spec t 6); cbn [andb].
  - assert (Hin : t ∈ seqZ 0 7) by (apply elem_of_seqZ; lia). cbn in Hin.
    repeat (apply elem_of_cons in Hin as [->|Hin]; [reflexivity|]). by apply elem_of_nil in Hin.
  - by rewrite unknown_transform by lia.
  - by rewrite unknown_transform by lia.
  - by rewrite unknown_transform by lia.
Qed.

Lemma proto_field_kept f : wire_field f -> field_to_proto (proto_to_field f) = kept_field f.
Proof.
  intros (Hid & Hn & _). destruct f as [id column t n]. cbn in *. unfold field_to_proto, proto_to_field, kept_field. cbn.
  rewrite int32_id, proto_transform by done. f_equal.
  destruct (Z.eqb_spec n 0) as [->|]; cbn; [done | by apply int32_id].
Qed.

Lemma proto_spec_kept p : Forall wire_field (psp_Fields p) ->
  partitionSpecToProto (protoToPartitionSpec (Some p)) = kept_spec p.
Proof.
  destruct p as [fs]. cbn. intros Hw. unfold partitionSpecToProto, kept_spec. cbn. f_equal. rewrite map_map.
  apply map_ext_in. intros f Hf%list_elem_of_In. eapply Forall_forall in Hw; [|done]. by apply proto_field_kept.
Qed.

(** A spec whose transforms are all known is kept as it is. *)
Lemma kept_spec_id p : forallb (fun f => known_transform (pf_Transform f)) (psp_Fields p) = true -> kept_spec p = p.
Proof.
  destruct p as [fs]. unfold kept_spec. cbn. rewrite forallb_forall. intros Hk. f_equal.
  rewrite <- (map_id fs) at 2. apply map_ext_in. intros f Hf. unfold kept_field. rewrite Hk by done. by destruct f.
Qed.

Lemma proto_spec_text p : Forall wire_field (psp_Fields p) -> spec_text_ok (protoToPartitionSpec (Some p)).
Proof.
  intros Hw. unfold spec_text_ok. cbn. apply Forall_fmap. eapply Forall_impl; [exact Hw|].
  intros f (Hid & Hn & Hv). unfold field_text_ok, proto_to_field. cbn. split_and!; [by apply is_int32_64 | done | |].
  - unfold protoTransformToString. by repeat case_match.
  - intros n. destruct (negb _); [|done]. intros [= <-]. by apply is_int32_64.
Qed.

Lemma wp_GetCurrentSpec t s r spec :
  all_free (sys_locks s) -> quiet s -> live_table t (db s) = Some r -> t_partition_spec r = Some spec ->
  wp (GetCurrentSpec t) s (fun x s' =>
    x = Ok (Some (mkPartitionSpecVersion (t_partition_spec_version r) spec "" "current")) /\ idle s s').
Proof.
  intros Hfree Hq Hr Hs. apply wp_with_shared; [done | solve_plain|]. rewrite wp_bind.
  apply wp_GetTable; [by intros e s' _ []|]. intros s' Hu. rewrite (table_row_live _ _ _ _ Hr Hs), wp_ret.
  intros m Hm. split; [done | by apply unchanged_idle].
Qed.

Lemma spec_altered_table name text summary s s' r :
  spec_altered name text summary s s' -> live_table name (db s) = Some r ->
  exists spec', pg_jsonb text = Some spec' /\
    live_table name (db s') = Some (set_spec spec' (int32 (t_partition_spec_version r + 1)) (pg_now (sys_pg s)) r).
Proof.
  intros (r' & spec' & Hr' & Hj & Hd) Hr. rewrite Hr in Hr'. injection Hr' as <-. exists spec'. split; [done|].
  eapply (live_table_set name); [by rewrite Hd | done | exact Hr].
Qed.

Lemma wp_GetPartitionSpec name s r spec :
  all_free (sys_locks s) -> quiet s -> name <> "" -> live_table name (db s) = Some r -> t_partition_spec r = Some spec ->
  wp (GetPartitionSpec (mkGetPartitionSpecRequest name 0)) s (fun x _ => x =
    match json_unmarshal_spec spec with
    | Ok sp => Reply (mkPartitionSpecResponse name (t_partition_spec_version r) (Some (partitionSpecToProto sp)) "" "current")
    | Err _ => Status Internal "corrupt spec JSON"
    end).
Proof.
  intros Hfree Hq Hne Hr Hs. unfold GetPartitionSpec. cbn [gpq_TableName gpq_SpecVersion Z.eqb].
  rewrite (proj2 (String.eqb_neq _ _) Hne), wp_bind. eapply wp_mono; [by eapply wp_GetCurrentSpec|].
  intros x s' [-> _]. rewrite wp_ret. cbn [psv_SpecJSON]. by destruct (json_unmarshal_spec spec).
Qed.

(** ** Schemas *)

(** A document that can be a schema: an object with a member, whose numbers
    are in the range of [float64]. *)
Definition schema_document (text : string) : Prop :=
  exists ms, json_parse text = Some (JObj ms) /\ ms <> [] /\ floats_ok (JObj ms) = true.

Lemma blank_head n : forall s, blank_upto n s = true ->
  forall c t, skip_ws s = String c t -> (byte_val c =? 123) = false.
Proof.
  induction n as [|n IH]; intros [|c s] Hb c' t E; try done. cbn [skip_ws] in E. cbn [blank_upto] in Hb.
  destruct (skip_space (String c s)) as [u|] eqn:Hs; [|done]. cbn [skip_space] in Hs. fold (byte_val c) in Hs.
  destruct (is_space c) eqn:Hc.
  - assert (Hin : ((9 <=? byte_val c) && (byte_val c <=? 13)) || (byte_val c =? 32) = true).
    { unfold is_space in Hc. rewrite !orb_true_iff, !Z.eqb_eq in Hc.
      destruct Hc as [[[Hc|Hc]|Hc]|Hc]; by rewrite Hc. }
    rewrite Hin in Hs. injection Hs as <-. by eapply IH.
  - injection E as -> ->. destruct (Z.eqb_spec (byte_val c') 123) as [Hv|]; [|done]. rewrite Hv in Hs.
    destruct t as [|c2 [|c3 t]]; done.
Qed.

Lemma parse_object n d s ms r : parse_value n d s = Some (JObj ms, r) ->
  exists c t, skip_ws s = String c t /\ (byte_val c =? 123) = true.
Proof.
  destruct n as [|n]; [done|]. cbn [parse_value]. destruct (skip_ws s) as [|c t]; [done|]. intros E. exists c, t.
  split; [done|]. destruct (byte_val c =? 123); [done|]. exfalso.
  destruct (byte_val c =? 91).
  { destruct (max_depth <=? d); [done|]. destruct (skip_ws t) as [|c2 u]; [done|].
    destruct (byte_val c2 =? 93); [done|]. by destruct (parse_elements n (d + 1) t). }
  destruct (byte_val c =? 34); [by destruct (json_unquote t)|].
  destruct ((byte_val c =? 45) || is_digit c); [by destruct (scan_number (String c t))|].
  destruct (byte_val c =? 116); [by destruct (strip "true" (String c t))|].
  destruct (byte_val c =? 102); [by destruct (strip "false" (String c t))|].
  destruct (byte_val c =? 110); [by destruct (strip "null" (String c t)) | done].
Qed.

Lemma schema_change_document text : ValidateSchemaChange text = "" <-> schema_document text.
Proof.
  unfold ValidateSchemaChange, schema_document, json_unmarshal_object, unmarshal. split.
  - destruct (blank text); [done|]. destruct (json_parse text) as [[| | | | |ms]|]; try done. cbn [mbind option_bind].
    destruct (floats_ok (JObj ms)) eqn:Hf; [|done]. destruct ms as [|kv ms]; [done|]. intros _. by eexists.
  - intros (ms & Hp & Hne & Hf). assert (Hb : blank text = false).
    { destruct (blank text) eqn:Hb; [|done]. exfalso. unfold json_parse in Hp.
      destruct (parse_value _ 0 text) as [[v r]|] eqn:E; [|done]. cbn in Hp. destruct (skip_ws r); [|done].
      injection Hp as ->. apply parse_object in E as (c & t & Hs & Hc). by rewrite (blank_head _ _ Hb c t Hs) in Hc. }
    rewrite Hb, Hp. cbn [mbind option_bind]. rewrite Hf.
    destruct (remove_dups (map fst ms)) eqn:Hd; [|done]. exfalso. destruct ms as [|kv ms]; [done|].
    assert (Hin : kv.1 ∈ remove_dups (map fst (kv :: ms))) by (apply elem_of_remove_dups; by left).
    rewrite Hd in Hin. by apply elem_of_nil in Hin.
Qed.

(** A read leaves the system as it was. *)
Lemma read_safe s s' : system_wf s -> idle s s' -> frame s s' -> safe_step s s'.
Proof.
  intros Hs Hi Hf. apply idle_safe; [done | done |]. destruct Hi as (_ & Hd & _). unfold cache_fresh.
  by rewrite Hd, (fr_cache _ _ Hf).
Qed.

Lemma read_wf s : system_wf s -> cache_fresh s -> sys_wf s.
Proof. by intros [] ?; split. Qed.

Lemma wp_GetCurrentSchema t s r spec :
  all_free (sys_locks s) -> quiet s -> live_table t (db s) = Some r -> t_partition_spec r = Some spec ->
  wp (GetCurrentSchema t) s (fun x s' =>
    x = Ok (Some (mkSchemaVersion (t_schema_version r) (t_schema_json r) "" "current")) /\ idle s s' /\ frame s s').
Proof.
  intros Hfree Hq Hr Hs. apply wp_with_shared; [done | solve_plain|]. rewrite wp_bind.
  apply wp_GetTable; [by intros e s' _ []|]. intros s' Hu. rewrite (table_row_live _ _ _ _ Hr Hs), wp_ret.
  intros m Hm. split; [done|]. split; [by apply unchanged_idle | apply frame_locks, Hu].
Qed.

Lemma schema_altered_reads name schema summary r s s' :
  live_table name (db s) = Some r ->
  db s' = alter_schema_db (pg_now (sys_pg s)) (pg_seqs (sys_pg s)) name schema summary r (db s) ->
  live_table name (db s') = Some (set_schema schema (int32 (t_schema_version r + 1)) (pg_now (sys_pg s)) r) /\
  current_snapshot name (db s') = current_snapshot name (db s) /\ files_at name (db s') = files_at name (db s).
Proof.
  intros Hr Hd.
  assert (Hl : live_table name (db s') = Some (set_schema schema (int32 (t_schema_version r + 1)) (pg_now (sys_pg s)) r)).
  { eapply (live_table_set name); [by rewrite Hd | done | exact Hr]. }
  assert (Hc : current_snapshot name (db s') = current_snapshot name (db s)).
  { unfold current_snapshot. by rewrite Hl, Hr. }
  split; [done|]. split; [done|]. unfold files_at. rewrite Hc, Hd. by rewrite alter_schema_answers.
Qed.

(** ** A new table *)

(** No file belongs to a table that does not exist yet. *)
Lemma unissued_table_empty q d id n : db_wf q d -> q SeqTables < id -> visible_rows id n d = [].
Proof.
  intros Hwf Hid. unfold visible_rows. rewrite filter_false; [done|]. intros r Hin.
  destruct (visible id n r) eqn:E; [|done]. exfalso. unfold visible in E.
  apply andb_true_iff in E as [[Ht%Z.eqb_eq _]%andb_true_iff _].
  destruct (wf_partitions _ _ Hwf r Hin) as (_ & Hs & _). rewrite Ht in Hs.
  apply list_elem_of_In, in_map_iff in Hs as (x & _ & [Hx Hxt%Z.eqb_eq]%filter_In).
  destruct (wf_snapshots _ _ Hwf x) as (_ & Hh & _); [by apply list_elem_of_In|].
  unfold has_table in Hh. apply existsb_exists in Hh as (y & Hy%list_elem_of_In & Hyt%Z.eqb_eq).
  destruct (wf_tables _ _ Hwf y Hy) as [[_ Hle] _]. lia.
Qed.

Lemma create_no_files q now name schema text spec props d n :
  db_wf q d -> name_taken name d = false -> partitions_at name n (create_db now q name schema text spec props d) = Some [].
Proof.
  intros Hwf Hn. unfold partitions_at, table_id_or, table_id. rewrite live_table_created by done.
  cbn [from_option option_map fmap option_fmap t_table_id id Datatypes.id]. pose proof (wf_seqs _ _ Hwf SeqTables).
  destruct (Z.ltb_spec (q SeqTables + 1) 0); [lia|]. do 2 f_equal.
  transitivity (map scan_partition (visible_rows (q SeqTables + 1) (int64 n) d)); [done|].
  by erewrite unissued_table_empty; [|exact Hwf|lia].
Qed.

Lemma created_partitions name schema text props s s' :
  db_wf (pg_seqs (sys_pg s)) (db s) -> created name schema text props s s' ->
  exists schema' spec' props', pg_jsonb schema = Some schema' /\ pg_jsonb text = Some spec' /\ pg_jsonb props = Some props' /\
    live_table name (db s') = Some (mk_tables_row (pg_seqs (sys_pg s) SeqTables + 1) name schema' 1 (Some spec') 1 0 props'
      (pg_now (sys_pg s)) false) /\
    forall n, partitions_at name n (db s') = Some [].
Proof.
  intros Hwf (Hn & _ & schema' & spec' & props' & H1 & H2 & H3 & Hd). exists schema', spec', props'. rewrite Hd.
  split_and!; [done.. | by apply live_table_created |]. intros n. by apply create_no_files.
Qed.

Lemma properties_text m : propertiesToJSON m = json_print (map_doc m).
Proof.
  unfold propertiesToJSON. destruct (bool_decide (size m = 0%nat)) eqn:E; [|done].
  apply bool_decide_eq_true, map_size_empty_inv in E. by subst.
Qed.

Lemma kept_not_empty `{!Jsonb} v t : plain_doc v = true -> json_depth v <= max_depth -> pg_jsonb (json_print v) = Some t -> t <> "".
Proof. intros Hp Hd Ht ->. by destruct (jsonb_keeps v "" Hp Hd Ht) as (v' & Hv & _). Qed.

(** ** Properties *)

(** C14. A commit reads back: sent on the current snapshot of a table whose
    properties decode, with every round trip delivered and accepted by the
    server, [CommitSnapshot] replies with the next snapshot id, and
    [GetTableMetadata] then shows that snapshot: the files of the parent
    followed by those of the request, less in both every file under a deleted
    key.  The files of the request have the values, format (or "parquet") and
    column statistics they were sent with, statistics being what a decoded
    message can hold: integers of their types and texts in UTF-8. *)
Theorem committed_files_read_back `{!Jsonb} req parts r spec props s :
  let name := snq_TableName req in
  let keys := snq_DeletedPartitionKeys req in
  let snap := pg_seqs (sys_pg s) SeqSnapshots + 1 in
  sys_wf s -> quiet s -> name <> "" -> live_table name (db s) = Some r -> t_partition_spec r = Some spec ->
  t_properties r <> "" -> json_unmarshal_properties (t_properties r) = Ok props ->
  snq_ParentSnapshotId req = current_snapshot name (db s) ->
  new_parts (snq_NewPartitions req) = inr parts -> Forall wire_stats (snq_NewPartitions req) ->
  commit_ready (pg_seqs (sys_pg s)) name parts keys (db s) ->
  wp (let* c := Server.CommitSnapshot req in
      let* m := GetTableMetadata (mkTableRequest name 0) in Ret (c, m)) s (fun x _ =>
    x.1 = Reply (mkSnapshotResponse snap true "") /\
    exists m, x.2 = Reply m /\ tmr_CurrentSnapshotId m = snap /\ tmr_Properties m = props /\
      tmr_Partitions m =
        map (partition_info true) (without keys (default [] (partitions_at name (snq_ParentSnapshotId req) (db s)))) ++
        map (committed_file snap) (not_under keys (snq_NewPartitions req))).
Proof.
  intros name keys snap Hs Hq Hne Hr Hspec Hpne Hprops Hp Hnew Hw Hready. pose proof Hs as [Hwf Hfree _].
  rewrite wp_bind. unfold Server.CommitSnapshot. rewrite Hnew, wp_bind.
  eapply wp_mono; [apply wp_CommitSnapshot; [done | apply Hwf]|]. intros res s1 Hres.
  destruct (commit_result_wf _ _ _ _ _ _ _ _ Hs Hres) as [_ Hs1]. specialize (Hs1 (or_intror Hq)).
  destruct Hres as (_ & _ & Hle & Hq1 & Hres). specialize (Hq1 Hq).
  destruct (cr_Success res) eqn:E; [|by destruct Hres as (_ & _ & _ & [] & _)].
  destruct Hres as (Hsnap & Hmsg & Hc & _). rewrite wp_ret, wp_bind. pose proof Hs1 as [Hwf1 _ _].
  destruct (committed_parent _ _ _ _ _ _ _ Hwf Hc) as (id & Hid & Hp' & _ & Hdb & [Hseq _ _]).
  destruct (committed_table _ _ _ _ _ _ _ r Hwf Hwf1 Hc Hr) as (Hl & Hcur & Hsi). fold name snap in Hl, Hcur, Hsi, Hsnap.
  eapply wp_mono; [apply (wp_GetTableMetadata name s1 (set_current_snapshot snap (pg_now (sys_pg s)) r) spec props); done|]. intros x s2 ->.
  rewrite wp_ret. cbn [fst snd]. rewrite Hsnap, Hmsg. split; [done|]. eexists. split; [done|].
  cbn [metadata_at tmr_CurrentSnapshotId tmr_Properties tmr_Partitions]. unfold files_at.
  rewrite Hcur. split; [done|]. split; [done|].
  rewrite Hdb in Hwf1 |- *. erewrite commit_partitions_new; [|done..|unfold name, snap in *; lia].
  cbn [from_option Datatypes.id]. rewrite without_app, map_app. f_equal.
  apply new_rows_read; [done | done | apply Hready].
Qed.

(** C16. A partition spec reads back: with every round trip delivered, when
    [AlterTable] replies with success to a new spec, the rules of spec
    evolution allowed it and [GetPartitionSpec] answers the spec sent, under
    the next version: exactly the spec sent when the enum names all its
    transforms, and with [IDENTITY] in place of any number it does not name;
    otherwise it still answers the old one.  A spec the rules allow and the
    server accepts succeeds. *)
Theorem altered_spec_reads_back `{!Jsonb} name p r spec s :
  let text := json_print (spec_doc (protoToPartitionSpec (Some p))) in
  let version := t_partition_spec_version r in
  all_free (sys_locks s) -> quiet s -> name <> "" -> live_table name (db s) = Some r ->
  t_partition_spec r = Some spec -> Forall wire_field (psp_Fields p) ->
  wp (let* a := AlterTable (mkAlterTableRequest name (Some (AlterTableRequest_NewPartitionSpec (Some p)))) in
      let* g := GetPartitionSpec (mkGetPartitionSpecRequest name 0) in Ret (a, g)) s (fun x _ =>
    exists done msg, x.1 = Reply (mkOperationResponse done msg) /\
    (done = true -> ValidateSpecChange spec text = "") /\
    (ValidateSpecChange spec text = "" -> spec_accepted name text r s -> done = true) /\
    (forallb (fun f => known_transform (pf_Transform f)) (psp_Fields p) = true -> kept_spec p = p) /\
    x.2 = if done then Reply (mkPartitionSpecResponse name (int32 (version + 1)) (Some (kept_spec p)) "" "current")
          else match json_unmarshal_spec spec with
               | Ok sp => Reply (mkPartitionSpecResponse name version (Some (partitionSpecToProto sp)) "" "current")
               | Err _ => Status Internal "corrupt spec JSON"
               end).
Proof.
  intros text version Hfree Hq Hne Hr Hspec Hw. rewrite wp_bind. unfold AlterTable.
  cbn [atr_TableName atr_Alteration]. rewrite (proj2 (String.eqb_neq _ _) Hne). unfold alter_spec.
  cbn [json_marshal_spec]. fold text. rewrite wp_bind. eapply wp_mono; [by eapply wp_GetCurrentSpec|].
  intros x s1 [-> (Hfree1 & Hd1 & Hs1 & _ & Hq1)]. cbn [psv_SpecJSON]. specialize (Hq1 Hq). rewrite <- Hd1 in Hr.
  destruct (String.eqb_spec (ValidateSpecChange spec text) "") as [Hv|Hv]; cbn [negb].
  2: { rewrite wp_ret, wp_bind. eapply wp_mono; [by eapply wp_GetPartitionSpec|]. intros x s2 ->. rewrite wp_ret.
       exists false, (ValidateSpecChange spec text). split_and!; try done. apply kept_spec_id. }
  rewrite wp_bind. eapply wp_mono; [by apply wp_AlterTablePartitionSpec|].
  intros res s2 (Hfree2 & _ & _ & _ & Hq2 & Hres). unfold InvalidateTableCache. rewrite wp_bind, wp_on_cache, wp_ret.
  rewrite wp_bind. destruct (Success res) eqn:E.
  - destruct Hres as [Halt _]. destruct (spec_altered_table _ _ _ _ _ _ Halt Hr) as (spec' & Hj & Hl).
    eapply wp_mono; [apply (wp_GetPartitionSpec name (set_cache _ s2) _ _ Hfree2 (Hq2 Hq1) Hne Hl eq_refl)|]. intros x s3 ->. rewrite wp_ret.
    exists true, (ErrorMsg res). unfold to_response. rewrite E. split; [done|]. split; [done|]. split; [done|].
    split; [apply kept_spec_id|]. cbn [snd]. rewrite (spec_kept _ _ (proto_spec_text p Hw) Hj). by rewrite proto_spec_kept.
  - destruct Hres as [Hd2 Hno]. destruct Hd2 as [Hd2|[]]; [|done]. rewrite <- Hd2 in Hr.
    eapply wp_mono; [apply (wp_GetPartitionSpec name (set_cache _ s2) r spec Hfree2 (Hq2 Hq1) Hne Hr Hspec)|]. intros x s3 ->. rewrite wp_ret.
    exists false, (ErrorMsg res). unfold to_response. rewrite E. split; [done|]. split; [done|]. split; [|split; [apply kept_spec_id | done]].
    intros _ [Ha1 Ha2 Ha3 Ha4 Ha5]. destruct Hno. split; [done|]. exists r. split; by rewrite ?Hd1, ?Hs1.
Qed.

(** C18. A new table reads back: with every round trip delivered, after a
    successful [CreateTable] the metadata of the table shows the schema as the
    database keeps it, exactly the properties of the request, version 1, no
    snapshot and no file.  A creation the server accepts succeeds. *)
Theorem created_table_reads_back `{!Jsonb} req s :
  let name := ctr_TableName req in
  let schema := ctr_SchemaJson req in
  let props := ctr_Properties req in
  system_wf s -> cache_fresh s -> quiet s -> name <> "" -> map_text_ok props ->
  wp (let* c := Server.CreateTable req in
      let* m := GetTableMetadata (mkTableRequest name 0) in Ret (c, m)) s (fun x _ =>
    exists done msg, x.1 = Reply (mkOperationResponse done msg) /\
    (create_accepted name schema (initialSpecJSON (ctr_PartitionSpec req)) (propertiesToJSON props) s -> done = true) /\
    (done = true -> exists schema', pg_jsonb schema = Some schema' /\
       x.2 = Reply (mkTableMetadataResponse name schema' 0 1 [] props 0 0))).
Proof.
  intros name schema props Hs Hc Hq Hne Hok. pose proof Hs as [Hwf Hfree _]. unfold Server.CreateTable. rewrite !wp_bind.
  eapply wp_mono; [apply wp_and; [by apply wp_CreateTable | by apply ok_CreateTable]|].
  intros res s1 [(_ & _ & _ & _ & _ & Hres) (Hs1 & Hq1 & Hc1 & _)]. rewrite wp_ret, wp_bind.
  destruct (Success res) eqn:E.
  - destruct Hres as [Hcr _]. pose proof Hs1 as [Hwf1 Hfree1 _].
    destruct (created_partitions _ _ _ _ _ _ Hwf Hcr) as (schema' & spec' & props' & Hj & _ & Hp & Hl & Hrows).
    rewrite properties_text in Hp. fold name in Hl, Hrows.
    eapply wp_mono; [apply (wp_GetTableMetadata name s1 _ spec' props
      ltac:(split; [exact Hwf1 | exact Hfree1 | exact (Hc1 Hq Hc)]) (Hq1 Hq) Hne Hl eq_refl)|].
    + by eapply kept_not_empty; [apply plain_map | apply depth_map | exact Hp].
    + by apply (properties_kept _ _ Hok Hp).
    + intros x s2 ->. rewrite wp_ret. exists true, (ErrorMsg res). unfold to_response. rewrite E.
      split; [done|]. split; [done|]. intros _. exists schema'. split; [done|].
      unfold metadata_at, files_at. rewrite Hrows. unfold current_snapshot. by rewrite Hl.
  - eapply wp_mono; [by apply ok_GetTableMetadata|]. intros x s2 _. rewrite wp_ret.
    exists false, (ErrorMsg res). unfold to_response. rewrite E. split; [done|]. split; [|done].
    intros Ha. by destruct Hres as [_ []].
Qed.

(** C17. A schema reads back: with every round trip delivered, when [AlterTable]
    replies with success to a new schema, the text is a JSON object with at
    least one member, and the metadata of the table then shows it, as the
    database keeps it, under the next version; otherwise the old one.  The
    snapshot, the files and the properties are as before.  A schema the server
    accepts succeeds. *)
Theorem altered_schema_reads_back name text r spec props s :
  let rows := files_at name (db s) in
  system_wf s -> cache_fresh s -> quiet s -> name <> "" -> live_table name (db s) = Some r ->
  t_partition_spec r = Some spec -> t_properties r <> "" -> json_unmarshal_properties (t_properties r) = Ok props ->
  wp (let* a := AlterTable (mkAlterTableRequest name (Some (AlterTableRequest_NewSchemaJson text))) in
      let* m := GetTableMetadata (mkTableRequest name 0) in Ret (a, m)) s (fun x _ =>
    exists done msg, x.1 = Reply (mkOperationResponse done msg) /\
    (done = true -> schema_document text) /\
    (schema_document text -> schema_accepted name text r s -> done = true) /\
    exists schema version,
      (if done then pg_jsonb text = Some schema /\ version = int32 (t_schema_version r + 1)
       else schema = t_schema_json r /\ version = t_schema_version r) /\
      x.2 = Reply (mkTableMetadataResponse name schema (current_snapshot name (db s)) version
        (map (partition_info true) rows) props (total pr_RowCount rows) (total pr_SizeBytes rows))).
Proof.
  intros rows Hs Hc Hq Hne Hr Hspec Hpne Hprops. rewrite wp_bind. unfold AlterTable.
  cbn [atr_TableName atr_Alteration]. rewrite (proj2 (String.eqb_neq _ _) Hne). unfold alter_schema. rewrite wp_bind.
  eapply wp_mono; [by eapply wp_GetCurrentSchema; [apply Hs | ..]|].
  intros x s1 (-> & Hi & Hf). destruct (read_safe _ _ Hs Hi Hf) as (Hs1 & Hq1 & Hc1 & _). destruct Hi as (_ & Hd1 & Hseq1 & _).
  specialize (Hq1 Hq). specialize (Hc1 Hq Hc). rewrite <- Hd1 in Hr.
  destruct (String.eqb_spec (ValidateSchemaChange text) "") as [Hv|Hv]; cbn [negb].
  2: { rewrite wp_ret, wp_bind. eapply wp_mono;
         [apply (wp_GetTableMetadata name s1 r spec props); [by apply read_wf | done..]|].
       intros x s2 ->. rewrite wp_ret. exists false, (ValidateSchemaChange text). split; [done|]. split; [done|].
       split; [by intros ?%schema_change_document|]. exists (t_schema_json r), (t_schema_version r). split; [done|].
       unfold metadata_at. by rewrite Hd1. }
  apply schema_change_document in Hv. rewrite wp_bind.
  eapply wp_mono; [apply wp_and; [by apply wp_AlterTableSchema, Hs1 | by apply ok_AlterTableSchema]|].
  intros res s2 [(_ & _ & _ & _ & _ & Hres) (Hs2 & Hq2 & Hc2 & _)]. rewrite wp_bind.
  pose proof (ok_InvalidateTableCache name s2 Hs2) as Hinv. unfold InvalidateTableCache in *. rewrite wp_on_cache in *.
  destruct Hinv as (Hs3 & Hq3 & Hc3 & _). rewrite wp_ret, wp_bind.
  set (s3 := set_cache _ s2) in *. assert (Hw3 : sys_wf s3) by (apply read_wf; auto). specialize (Hq3 (Hq2 Hq1)).
  change (db s3) with (db s2) in *. destruct (Success res) eqn:E.
  - destruct Hres as [(r' & schema & Hr' & Hj & Hd2) _]. rewrite Hr in Hr'. injection Hr' as <-.
    destruct (schema_altered_reads name schema _ r s1 s2 Hr Hd2) as (Hl & Hcur & Hrows).
    eapply wp_mono; [apply (wp_GetTableMetadata name s3 _ spec props Hw3 Hq3 Hne Hl); done|].
    intros x s4 ->. rewrite wp_ret. exists true, (ErrorMsg res). unfold to_response. rewrite E. split; [done|].
    split; [done|]. split; [done|]. eexists _, _. split; [done|]. unfold metadata_at. cbn [snd].
    change (db s3) with (db s2). rewrite Hcur, Hrows, Hd1. done.
  - destruct Hres as [[Hd2|[]] Hno]; [|done]. rewrite <- Hd2 in Hr.
    eapply wp_mono; [apply (wp_GetTableMetadata name s3 r spec props Hw3 Hq3 Hne Hr); done|].
    intros x s4 ->. rewrite wp_ret. exists false, (ErrorMsg res). unfold to_response. rewrite E. split; [done|].
    split; [done|]. split; [|exists (t_schema_json r), (t_schema_version r); split; [done|]].
    + intros _ [Ha1 Ha2 Ha3 Ha4]. destruct Hno. split; [done|]. exists r. split; by rewrite ?Hd1, ?Hseq1.
    + unfold metadata_at. change (db s3) with (db s2). by rewrite Hd2, Hd1.
Qed.
End readback.
