(* ===== verification/CatalogSpec.v ===== *)
(** * The catalog a client sees

    An abstract machine for the service: a map from names to tables, each
    with its documents, its snapshots and their manifests and, at every
    snapshot, its files.  It
    knows no rows, ids, locks, transactions or cache.  [cat_step] gives, for
    each RPC, which replies are possible in a state and the state after each;
    reads have one possible reply.  [ServiceSpec] adds the transactions.
    [Refinement] proves that the server implements it. *)
From S2P Require Import Prelude Prog Sorting Models PartitionSpec GoJson Postgres PgClient Registry Commit Visibility.
From S2P Require Import SchemaStore SpecStore Proto Server Service.

(** ** State *)

(** A snapshot on record, with the time of its commit by the database's clock,
    of which its detail has the text. *)
Record LogEntry := mkLogEntry {
  le_at : Z;
  le_detail : SnapshotDetail;
}.

(** A live table.  [v_id] tells it from the others and gives its place in a
    listing.  [v_files n] are the files at snapshot [n]; a file appears as its
    row. *)
Record TableView := mkTableView {
  v_id : Z;
  v_schema : string;
  v_schema_version : Z;
  v_spec : string;
  v_spec_version : Z;
  v_properties : string;
  v_current : Z;
  v_files : Z -> list PartitionRow;
  v_log : list LogEntry;
  v_specs : list PartitionSpecVersion;
  v_manifests : list ManifestFileDetail;
}.

(** A name is free, carries a live table, or is retired: that of a table
    dropped without purge. *)
Inductive Slot :=
| Free
| Retired
| Live (v : TableView).

Definition CatalogState : Type := string -> Slot.

(** Equality of states, files compared snapshot by snapshot. *)
#[export] Instance view_equiv : Equiv TableView := fun v v' =>
  v_id v = v_id v' /\ v_schema v = v_schema v' /\ v_schema_version v = v_schema_version v' /\ v_spec v = v_spec v' /\
  v_spec_version v = v_spec_version v' /\ v_properties v = v_properties v' /\ v_current v = v_current v' /\
  (forall n, v_files v n = v_files v' n) /\ v_log v = v_log v' /\ v_specs v = v_specs v' /\
  v_manifests v = v_manifests v'.

Inductive slot_equiv : Equiv Slot :=
| equiv_Free : Free ≡ Free
| equiv_Retired : Retired ≡ Retired
| equiv_Live v v' : v ≡ v' -> Live v ≡ Live v'.
#[export] Existing Instance slot_equiv.

#[export] Instance catalog_equiv : Equiv CatalogState := fun c c' => forall t, c t ≡ c' t.

#[export] Instance view_equivalence : Equivalence (≡@{TableView}).
Proof.
  split.
  - by intros v.
  - intros v v' (?&?&?&?&?&?&?&?&?&?&?). by split_and!.
  - intros a b c (?&?&?&?&?&?&?&Hf&?&?&?) (?&?&?&?&?&?&?&Hg&?&?&?). split_and!; congruence.
Qed.

#[export] Instance slot_equivalence : Equivalence (≡@{Slot}).
Proof.
  split.
  - intros []; by constructor.
  - intros x y []; by constructor.
  - intros x y z [| |v v' Hv] Hz; inversion Hz; subst; constructor. by etrans.
Qed.

#[export] Instance catalog_equivalence : Equivalence (≡@{CatalogState}).
Proof.
  split.
  - by intros c t.
  - intros c c' Hc t. symmetry. apply Hc.
  - intros a b c Hab Hbc t. etrans; [apply Hab | apply Hbc].
Qed.

(** ** Operations on the state *)

Definition put (name : string) (x : Slot) (c : CatalogState) : CatalogState :=
  fun t => if String.eqb t name then x else c t.

(** The snapshot a request reads: zero stands for the current one. *)
Definition asked (n : Z) (v : TableView) : Z := if n =? 0 then v_current v else n.

(** The current snapshot of a name, zero when no table has it. *)
Definition current_of (x : Slot) : Z := match x with Live v => v_current v | _ => 0 end.

(** The id of the live table of a name. *)
Definition id_of (x : Slot) : Z := match x with Live v => v_id v | _ => 0 end.

(** The live names, in the order the tables were created in. *)
Definition listing (c : CatalogState) (names : list string) : Prop :=
  (forall t, t ∈ names <-> exists v, c t = Live v) /\ increasing (fun t => id_of (c t)) names.

(** The current spec document, empty when there is no table. *)
Definition spec_of (x : Slot) : string := match x with Live v => v_spec v | _ => "" end.

Definition with_schema (doc : string) (v : TableView) : TableView :=
  mkTableView (v_id v) doc (int32 (v_schema_version v + 1)) (v_spec v) (v_spec_version v) (v_properties v)
    (v_current v) (v_files v) (v_log v) (v_specs v) (v_manifests v).

Definition with_spec (doc at_ : string) (v : TableView) : TableView :=
  let version := int32 (v_spec_version v + 1) in
  mkTableView (v_id v) (v_schema v) (v_schema_version v) doc version (v_properties v) (v_current v) (v_files v) (v_log v)
    (v_specs v ++ [mkPartitionSpecVersion version doc at_ "partition spec evolution via AlterTable"]) (v_manifests v).

(** A table with no snapshot. *)
Definition new_view (id : Z) (schema spec properties : string) (specs : list PartitionSpecVersion) : TableView :=
  mkTableView id schema 1 spec 1 properties 0 (fun _ => []) [] specs [].

(** The table after the commit of snapshot [snap], whose files are the
    parent's and [news], less those under a key of [keys], and whose manifests
    are [mans]. *)
Definition with_commit (snap : Z) (entry : LogEntry) (news : list PartitionRow) (keys : list string)
    (mans : list ManifestFileDetail) (v : TableView) : TableView :=
  mkTableView (v_id v) (v_schema v) (v_schema_version v) (v_spec v) (v_spec_version v) (v_properties v) snap
    (fun n => if int64 n <? snap then v_files v n else without keys (v_files v (v_current v) ++ news))
    (v_log v ++ [entry]) (v_specs v) (v_manifests v ++ mans).

(** ** Steps *)

Section spec.
Context `{Postgres} `{GoText}.

(** A request answered "no" with a message. *)
Definition refused (reply : rpc OperationResponse) : Prop :=
  exists msg, reply = Reply (mkOperationResponse false msg).

Definition accepted (reply : rpc OperationResponse) : Prop := reply = Reply (mkOperationResponse true "").

(** The row of a committed file: the values of the request, the statistics as
    they come back from their document. *)
Record stored_file (snap : Z) (p row : PartitionRow) : Prop := {
  st_snapshot : pr_SnapshotID row = snap;
  st_key : pr_PartitionKey row = pr_PartitionKey p;
  st_path : pr_DataFilePath row = pr_DataFilePath p;
  st_format : pr_FileFormat row = pr_FileFormat p;
  st_rows : pr_RowCount row = pr_RowCount p;
  st_bytes : pr_SizeBytes row = pr_SizeBytes p;
  st_stats : pr_ColumnStats row = unmarshalColumnStats (default "" (pg_jsonb (marshalColumnStats (pr_ColumnStats p))));
}.

(** A manifest on record, from the row it was inserted as. *)
Record stored_manifest (mf : ManifestFileRow) (m : ManifestFileDetail) : Prop := {
  sm_snapshot : mfd_SnapshotId m = uint64 (mfr_SnapshotID mf);
  sm_path : mfd_ManifestPath m = mfr_ManifestPath mf;
  sm_spec : mfd_PartitionSpecId m = mfr_PartitionSpecID mf;
  sm_added : mfd_AddedFilesCount m = mfr_AddedFilesCount mf;
  sm_deleted : mfd_DeletedFilesCount m = mfr_DeletedFilesCount mf;
  sm_added_rows : mfd_AddedRowsCount m = mfr_AddedRowsCount mf;
  sm_deleted_rows : mfd_DeletedRowsCount m = mfr_DeletedRowsCount mf;
  sm_summaries : mfd_PartitionSummariesJson m = default "" (pg_jsonb (mfr_PartitionSummaries mf));
}.

(** The version a new table's history starts with, when it has a spec. *)
Definition first_specs (raw spec : string) (specs : list PartitionSpecVersion) : Prop :=
  if String.eqb (initialSpecJSON raw) "" then specs = []
  else exists at_, specs = [mkPartitionSpecVersion 1 spec at_ "initial spec"].

(** A page of files: all of them when the size is not positive. *)
Definition page_of (size after : Z) (rows : list PartitionRow) : list PartitionRow :=
  if 0 <? size then take (Z.to_nat size) (List.filter (fun p => after <? pr_PartitionID p) rows) else rows.

Definition bounds_at (rows : list PartitionRow) : list ColumnBounds :=
  map column_bounds (map (fun e => agg_stats e.1 e.2) (map_to_list (aggregate rows))).

(** The properties a document holds. *)
Definition properties_of (doc : string) : result (gmap string string) :=
  if String.eqb doc "" then Ok ∅ else json_unmarshal_properties doc.

(** *** Replies of the reads *)

Definition metadata_reply (r : TableRequest) (x : Slot) : rpc TableMetadataResponse :=
  if String.eqb (tq_TableName r) "" then Status InvalidArgument "table_name is required"
  else match x with
  | Live v =>
      let n := asked (tq_SnapshotId r) v in
      match properties_of (v_properties v) with
      | Err _ => Status Internal "failed to parse table properties JSON"
      | Ok props =>
          Reply (mkTableMetadataResponse (tq_TableName r) (v_schema v) n (v_schema_version v)
            (map (partition_info true) (v_files v n)) props (total pr_RowCount (v_files v n))
            (total pr_SizeBytes (v_files v n)))
      end
  | _ => Status NotFound ("table not found: " ++ tq_TableName r)
  end.

Definition partitions_reply (r : PartitionRequest) (x : Slot) : rpc PartitionListResponse :=
  match x with
  | Live v =>
      let rows := page_of (pq_PageSize r) (token_value (pq_PageToken r)) (v_files v (asked (pq_SnapshotId r) v)) in
      Reply (mkPartitionListResponse (map (partition_info false) rows) (partitions_next_token r rows)
        (Z.of_nat (length rows)))
  | _ => Status NotFound ("table not found: " ++ pq_TableName r)
  end.

Definition stats_reply (r : PartitionStatsRequest) (x : Slot) : rpc PartitionStatsResponse :=
  if String.eqb (psq_TableName r) "" then Status InvalidArgument "table_name is required"
  else
    let stats := match x with
                 | Live v => partition_stats (v_files v (v_current v))
                 | _ => mkPartitionStats 0 0 0 0
                 end in
    Reply (mkPartitionStatsResponse (TotalPartitions stats) (TotalRows stats) (TotalBytes stats) (AvgSizeBytes stats)).

Definition column_stats_reply (r : GetColumnStatsRequest) (x : Slot) : rpc GetColumnStatsResponse :=
  if String.eqb (gcq_TableName r) "" then Status InvalidArgument "table_name is required"
  else
    let n := if gcq_SnapshotId r =? 0 then current_of x else gcq_SnapshotId r in
    if n =? 0 then Status NotFound ("table has no snapshots: " ++ gcq_TableName r)
    else Reply (mkGetColumnStatsResponse n (bounds_at match x with Live v => v_files v n | _ => [] end)).

Definition snapshot_reply (r : GetSnapshotRequest) (x : Slot) : rpc SnapshotDetail :=
  match x with
  | Live v =>
      match List.find (fun e => sd_SnapshotId (le_detail e) =? uint64 (gsr_SnapshotId r)) (v_log v) with
      | Some e => Reply (le_detail e)
      | None => Status NotFound "snapshot not found"
      end
  | _ => Status NotFound "snapshot not found"
  end.

(** The snapshot is one of the table's. *)
Definition recorded (n : Z) (v : TableView) : bool := existsb (fun e => sd_SnapshotId (le_detail e) =? uint64 n) (v_log v).

Definition detail_summary (m : ManifestFileDetail) : ManifestFileSummary :=
  mkManifestFileSummary (mfd_ManifestFileId m) (mfd_ManifestPath m) (mfd_PartitionSpecId m) (mfd_AddedFilesCount m)
    (mfd_DeletedFilesCount m) (mfd_AddedRowsCount m) (mfd_DeletedRowsCount m) (mfd_PartitionSummariesJson m).

(** The manifests of a snapshot. *)
Definition manifests_in (n : Z) (v : TableView) : list ManifestFileDetail :=
  List.filter (fun m => mfd_SnapshotId m =? uint64 n) (v_manifests v).

Definition manifest_list_reply (r : GetManifestListRequest) (x : Slot) : rpc ManifestListResponse :=
  let n := gmq_SnapshotId r in
  if String.eqb (gmq_TableName r) "" then Status InvalidArgument "table_name is required"
  else if n =? 0 then Status InvalidArgument "snapshot_id is required"
  else match x with
  | Live v =>
      if recorded n v then
        Reply (mkManifestListResponse n (Z.of_nat (length (manifests_in n v))) (map detail_summary (manifests_in n v)))
      else Status NotFound "manifest list not found for snapshot"
  | _ => Status NotFound "manifest list not found for snapshot"
  end.

Definition manifest_reply (r : GetManifestRequest) (x : Slot) : rpc ManifestFileDetail :=
  if String.eqb (gmr_TableName r) "" then Status InvalidArgument "table_name is required"
  else if gmr_ManifestFileId r =? 0 then Status InvalidArgument "manifest_file_id is required"
  else match (match x with
              | Live v => List.find (fun m => mfd_ManifestFileId m =? gmr_ManifestFileId r) (v_manifests v)
              | _ => None
              end) with
  | Some m => Reply m
  | None => Status NotFound "manifest file not found"
  end.

(** The spec of a version, the current one for version zero. *)
Definition spec_at (n : Z) (v : TableView) : option PartitionSpecVersion :=
  if n =? 0 then Some (mkPartitionSpecVersion (v_spec_version v) (v_spec v) "" "current")
  else List.find (fun sv => psv_Version sv =? n) (v_specs v).

Definition spec_reply (r : GetPartitionSpecRequest) (x : Slot) : rpc PartitionSpecResponse :=
  if String.eqb (gpq_TableName r) "" then Status InvalidArgument "table_name is required"
  else match (match x with Live v => spec_at (gpq_SpecVersion r) v | _ => None end) with
  | None => Status NotFound "partition spec not found"
  | Some sv =>
      match json_unmarshal_spec (psv_SpecJSON sv) with
      | Err _ => Status Internal "corrupt spec JSON"
      | Ok spec => Reply (spec_response (gpq_TableName r) sv spec)
      end
  end.

(** Newest version first. *)
Definition specs_reply (r : ListPartitionSpecsRequest) (x : Slot) : rpc ListPartitionSpecsResponse :=
  if String.eqb (lpq_TableName r) "" then Status InvalidArgument "table_name is required"
  else
    let specs := match x with Live v => order_by (fun sv => - psv_Version sv) (v_specs v) | _ => [] end in
    Reply (mkListPartitionSpecsResponse (spec_responses (lpq_TableName r) specs)).

(** *** Replies with a choice *)

(** The latest snapshots, the last committed first by the database's clock;
    only the order of snapshots committed at the same time is open. *)
Definition snapshots_reply (r : ListSnapshotsRequest) (x : Slot) (reply : rpc ListSnapshotsResponse) : Prop :=
  let limit := if lsq_Limit r <=? 0 then 50 else lsq_Limit r in
  exists log, log ≡ₚ (match x with Live v => v_log v | _ => [] end) /\ sorted (fun e => - le_at e) log /\
    reply = Reply (mkListSnapshotsResponse (map le_detail (take (Z.to_nat limit) log))).

Definition table_summary (c : CatalogState) (name : string) : TableSummary :=
  match c name with
  | Live v => mkTableSummary name (v_current v) (Z.of_nat (length (v_files v (v_current v))))
  | _ => mkTableSummary name 0 0
  end.

(** A page of the listing; a full page has the token of the next, unless the
    request leaves the size to the server. *)
Definition tables_reply (r : ListTablesRequest) (c : CatalogState) (reply : rpc ListTablesResponse) : Prop :=
  let size := ltr_PageSize r in
  let offset := page_offset (ltr_PageToken r) in
  if offset <? 0 then exists msg, reply = Status Internal msg
  else exists names, listing c names /\
    let page := take (Z.to_nat (if size <=? 0 then 100 else size)) (drop (Z.to_nat offset) names) in
    let n := Z.of_nat (length page) in
    reply = Reply (mkListTablesResponse (map (table_summary c) page)
      (if (0 <? size) && (n =? size) then FormatInt (int64 (offset + n)) else "")).

Definition begin_reply (r : TransactionRequest) (x : Slot) (reply : rpc TransactionResponse) : Prop :=
  if String.eqb (txq_ClientId r) "" then reply = Status InvalidArgument "client_id is required"
  else if String.eqb (txq_TableName r) "" then reply = Status InvalidArgument "table_name is required"
  else match x with
  | Live v => (exists txn, is_uint64 txn /\ reply = Reply (mkTransactionResponse txn (v_current v))) \/
      exists msg, reply = Status Internal msg
  | _ => reply = Status NotFound ("table not found: " ++ txq_TableName r)
  end.

(** *** Writes *)

Definition create_step (r : CreateTableRequest) (c : CatalogState) (reply : rpc OperationResponse) (c' : CatalogState) : Prop :=
  refused reply /\ c' ≡ c \/
  accepted reply /\ c (ctr_TableName r) = Free /\ exists id schema spec props specs, (forall t, id_of (c t) < id) /\
    pg_jsonb (ctr_SchemaJson r) = Some schema /\ pg_jsonb (initialSpecJSON (ctr_PartitionSpec r)) = Some spec /\
    pg_jsonb (propertiesToJSON (ctr_Properties r)) = Some props /\ first_specs (ctr_PartitionSpec r) spec specs /\
    c' ≡ put (ctr_TableName r) (Live (new_view id schema spec props specs)) c.

Definition schema_step (name text : string) (c : CatalogState) (reply : rpc OperationResponse) (c' : CatalogState) : Prop :=
  refused reply /\ c' ≡ c \/
  accepted reply /\ exists v doc, c name = Live v /\ ValidateSchemaChange text = "" /\ pg_jsonb text = Some doc /\
    c' ≡ put name (Live (with_schema doc v)) c.

Definition rename_step (name newName : string) (c : CatalogState) (reply : rpc OperationResponse) (c' : CatalogState) : Prop :=
  refused reply /\ c' ≡ c \/
  accepted reply /\ exists v, c name = Live v /\ c newName = Free /\ c' ≡ put newName (Live v) (put name Free c).

(** A change the rules forbid is answered with the rule. *)
Definition spec_step (name : string) (p : option PartitionSpecProto) (c : CatalogState)
    (reply : rpc OperationResponse) (c' : CatalogState) : Prop :=
  exists text, json_marshal_spec (protoToPartitionSpec p) = Ok text /\
  let msg := ValidateSpecChange (spec_of (c name)) text in
  if negb (String.eqb msg "") then reply = Reply (mkOperationResponse false msg) /\ c' ≡ c
  else refused reply /\ c' ≡ c \/
    accepted reply /\ exists v doc at_, c name = Live v /\ pg_jsonb text = Some doc /\
      c' ≡ put name (Live (with_spec doc at_ v)) c.

Definition alter_step (r : AlterTableRequest) (c : CatalogState) (reply : rpc OperationResponse) (c' : CatalogState) : Prop :=
  let name := atr_TableName r in
  if String.eqb name "" then reply = Status InvalidArgument "table_name is required" /\ c' ≡ c
  else match atr_Alteration r with
  | Some (AlterTableRequest_NewSchemaJson text) => schema_step name text c reply c'
  | Some (AlterTableRequest_NewPartitionSpec p) => spec_step name p c reply c'
  | Some (AlterTableRequest_Rename n) =>
      let newName := match n with Some n => rt_NewName n | None => "" end in
      if String.eqb newName "" then reply = Status InvalidArgument "new table name is required" /\ c' ≡ c
      else rename_step name newName c reply c'
  | None => refused reply /\ c' ≡ c
  end.

Definition drop_step (r : DropTableRequest) (c : CatalogState) (reply : rpc OperationResponse) (c' : CatalogState) : Prop :=
  let name := dtr_TableName r in
  if String.eqb name "" then reply = Status InvalidArgument "table_name is required" /\ c' ≡ c
  else
    refused reply /\ c' ≡ c \/
    accepted reply /\ exists v, c name = Live v /\ c' ≡ put name (if dtr_Purge r then Free else Retired) c.

(** A commit on another snapshot than the current one is a conflict; one on
    the current snapshot appends a snapshot, newer than any other of the
    catalog, or is refused. *)
Definition commit_step (r : SnapshotRequest) (c : CatalogState) (reply : rpc SnapshotResponse) (c' : CatalogState) : Prop :=
  let name := snq_TableName r in
  let parent := snq_ParentSnapshotId r in
  let keys := snq_DeletedPartitionKeys r in
  match new_parts (snq_NewPartitions r) with
  | inl key =>
      reply = Reply (mkSnapshotResponse 0 false ("partition " ++ go_quote key ++ ": row_count must be > 0")) /\ c' ≡ c
  | inr parts =>
      if negb (parent =? current_of (c name))
      then reply = Reply (mkSnapshotResponse 0 false (conflict_text parent (current_of (c name)))) /\ c' ≡ c
      else (exists msg, reply = Reply (mkSnapshotResponse 0 false msg)) /\ c' ≡ c \/
        exists v snap news mans at_, reply = Reply (mkSnapshotResponse snap true "") /\ c name = Live v /\
          0 < snap < 2 ^ 63 /\ (forall t, current_of (c t) < snap) /\ Forall2 (stored_file snap) parts news /\
          increasing pr_PartitionID (v_files v (v_current v) ++ news) /\
          Forall (fun p => 0 < pr_PartitionID p < 2 ^ 63) news /\
          Forall2 stored_manifest (commit_manifests name 0 snap (v_spec_version v) parts keys) mans /\
          increasing mfd_ManifestFileId (v_manifests v ++ mans) /\
          Forall (fun m => 0 < mfd_ManifestFileId m < 2 ^ 63) mans /\
          c' ≡ put name (Live (with_commit snap
                 (mkLogEntry at_ (mkSnapshotDetail snap parent (defaultString (snq_Operation r) "append")
                    (len32 parts) (len32 keys) (pg_timestamp_text at_)))
                 news keys mans v)) c
  end.

(** *** The machine *)

(** The states of transactions are [ServiceSpec]'s: ending one leaves the
    tables as they are. *)
Definition cat_step {A} (req : Request A) (c : CatalogState) : rpc A -> CatalogState -> Prop :=
  match req in Request A return rpc A -> CatalogState -> Prop with
  | ReqCreateTable r => create_step r c
  | ReqGetTableMetadata r => fun reply c' => reply = metadata_reply r (c (tq_TableName r)) /\ c' ≡ c
  | ReqAlterTable r => alter_step r c
  | ReqDropTable r => drop_step r c
  | ReqListTables r => fun reply c' => tables_reply r c reply /\ c' ≡ c
  | ReqGetPartitions r => fun reply c' => reply = partitions_reply r (c (pq_TableName r)) /\ c' ≡ c
  | ReqGetPartitionStats r => fun reply c' => reply = stats_reply r (c (psq_TableName r)) /\ c' ≡ c
  | ReqCommitSnapshot r => commit_step r c
  | ReqGetSnapshot r => fun reply c' => reply = snapshot_reply r (c (gsr_TableName r)) /\ c' ≡ c
  | ReqListSnapshots r => fun reply c' => snapshots_reply r (c (lsq_TableName r)) reply /\ c' ≡ c
  | ReqGetColumnStats r => fun reply c' => reply = column_stats_reply r (c (gcq_TableName r)) /\ c' ≡ c
  | ReqBeginTransaction r => fun reply c' => begin_reply r (c (txq_TableName r)) reply /\ c' ≡ c
  | ReqCommitTransaction r => fun _ c' => c' ≡ c
  | ReqAbortTransaction r => fun _ c' => c' ≡ c
  | ReqGetManifestList r => fun reply c' => reply = manifest_list_reply r (c (gmq_TableName r)) /\ c' ≡ c
  | ReqGetManifest r => fun reply c' => reply = manifest_reply r (c (gmr_TableName r)) /\ c' ≡ c
  | ReqGetPartitionSpec r => fun reply c' => reply = spec_reply r (c (gpq_TableName r)) /\ c' ≡ c
  | ReqListPartitionSpecs r => fun reply c' => reply = specs_reply r (c (lpq_TableName r)) /\ c' ≡ c
  end.

(** What a client sees of a run: the requests served and their replies. *)
Record event := Served {
  ev_message : Type;
  ev_request : Request ev_message;
  ev_reply : rpc ev_message;
}.

Inductive cat_run : list event -> CatalogState -> CatalogState -> Prop :=
| cat_nil c c' : c ≡ c' -> cat_run [] c c'
| cat_cons A (req : Request A) reply es c c1 c' :
    cat_step req c reply c1 -> cat_run es c1 c' -> cat_run (Served A req reply :: es) c c'.

(** ** Runs keep the past *)

(** A later state of a table: newer snapshots, the files at old ones, and the
    records of commits and specs that there were. *)
Record extends (v v' : TableView) : Prop := {
  ex_current : v_current v <= v_current v';
  ex_files : forall n, int64 n <= v_current v -> v_files v' n = v_files v n;
  ex_log : v_log v `prefix_of` v_log v';
  ex_specs : v_specs v `prefix_of` v_specs v';
  ex_manifests : v_manifests v `prefix_of` v_manifests v';
  ex_lists : forall n, int64 n <= v_current v -> manifests_in n v' = manifests_in n v;
}.

#[export] Instance extends_preorder : PreOrder extends.
Proof.
  split; [by intros v|]. intros a b c [H1 H2 H3 H4 H5 H6] [K1 K2 K3 K4 K5 K6].
  split; [lia | | by etrans | by etrans | by etrans |]; intros n Hn; rewrite ?K2, ?K6 by lia; auto.
Qed.

Lemma equiv_extends v v' : v ≡ v' -> extends v v'.
Proof.
  intros (_ & _ & _ & _ & _ & _ & Hc & Hf & Hl & Hs & Hm).
  split; [by rewrite Hc | intros n _; by rewrite Hf | by rewrite Hl | by rewrite Hs | by rewrite Hm |].
  intros n _. unfold manifests_in. by rewrite Hm.
Qed.

(** Requests that end a table under its name. *)
Definition removes (name : string) {A} (req : Request A) : Prop :=
  match req with
  | ReqDropTable r => dtr_TableName r = name
  | ReqAlterTable r =>
      match atr_Alteration r with Some (AlterTableRequest_Rename _) => atr_TableName r = name | _ => False end
  | _ => False
  end.

Definition kept (name : string) (v : TableView) (c' : CatalogState) : Prop :=
  exists v', c' name = Live v' /\ extends v v'.

Lemma kept_slot name v v1 (c' : CatalogState) : c' name ≡ Live v1 -> extends v v1 -> kept name v c'.
Proof.
  intros Hc Hv. inversion Hc as [| |v2 v3 He Hv2]; subst. exists v2. split; [done|].
  etrans; [exact Hv|]. by apply equiv_extends.
Qed.

Lemma kept_same name v (c c' : CatalogState) : c' ≡ c -> c name = Live v -> kept name v c'.
Proof. intros Hc Hv. apply (kept_slot name v v); [rewrite <- Hv; apply Hc | done]. Qed.

Lemma kept_put name t x v (c c' : CatalogState) :
  c' ≡ put t x c -> c name = Live v -> (t = name -> exists v1, x = Live v1 /\ extends v v1) -> kept name v c'.
Proof.
  intros Hc Hv Hx. specialize (Hc name). unfold put in Hc. destruct (String.eqb_spec name t) as [->|Hne].
  - destruct (Hx eq_refl) as (v1 & -> & Hv1). by eapply kept_slot.
  - apply (kept_slot name v v); [by rewrite <- Hv | done].
Qed.

Lemma extends_commit snap entry news keys mans v :
  0 < snap < 2 ^ 63 -> v_current v < snap -> Forall (fun m => mfd_SnapshotId m = snap) mans ->
  extends v (with_commit snap entry news keys mans v).
Proof.
  intros Hpos Hs Hm. split; [cbn; lia | | by apply prefix_app_r | done | by apply prefix_app_r |]; intros n Hn.
  - cbn. by destruct (Z.ltb_spec (int64 n) snap); [|lia].
  - unfold manifests_in. cbn [v_manifests with_commit]. rewrite List.filter_app, (filter_false _ mans), app_nil_r; [done|].
    intros m Hin. eapply Forall_forall in Hm; [|done]. cbn in Hm. apply Z.eqb_neq. intros E.
    assert (int64 n = snap); [|lia]. apply Z.eqb_eq. rewrite Z.eqb_sym, int64_eqb_uint64 by lia. apply Z.eqb_eq. congruence.
Qed.

(** The manifests of a commit name its snapshot. *)
Lemma mans_snapshot name snap ver parts keys mans : 0 < snap < 2 ^ 63 ->
  Forall2 stored_manifest (commit_manifests name 0 snap ver parts keys) mans -> Forall (fun m => mfd_SnapshotId m = snap) mans.
Proof.
  intros Hs Hm. assert (Hmf : Forall (fun mf => mfr_SnapshotID mf = int64 snap) (commit_manifests name 0 snap ver parts keys)).
  { unfold commit_manifests. destruct (is_empty parts), (is_empty keys); repeat constructor. }
  induction Hm as [|mf m mfs ms [Hsn _ _ _ _ _ _ _] _ IH]; [constructor|]. apply Forall_cons in Hmf as [E Hmf].
  constructor; [|by apply IH]. rewrite Hsn, E, int64_id by (unfold is_int64; lia). apply uint64_id. unfold is_uint64. lia.
Qed.

Lemma extends_schema doc v : extends v (with_schema doc v).
Proof. by split. Qed.

Lemma extends_spec doc at_ v : extends v (with_spec doc at_ v).
Proof. split; [done | done | done | by apply prefix_app_r | done | done]. Qed.

(** One request. *)
Lemma step_extends name v {A} (req : Request A) c reply c' :
  cat_step req c reply c' -> ~ removes name req -> c name = Live v -> kept name v c'.
Proof.
  intros Hstep Hno Hv.
  assert (Hsame : c' ≡ c -> kept name v c') by (intros; by eapply kept_same).
  destruct req as [r|r|r|r|r|r|r|r|r|r|r|r|r|r|r|r|r|r]; cbn [cat_step removes] in *;
    try (by apply Hsame); try (by apply Hsame, Hstep).
  - destruct Hstep as [[_ He]|(_ & Hf & id & schema & spec & props & specs & _ & _ & _ & _ & _ & He)]; [by apply Hsame|].
    eapply kept_put; [exact He | done|]. congruence.
  - unfold alter_step in Hstep. destruct (String.eqb _ _); [by apply Hsame, Hstep|].
    destruct (atr_Alteration r) as [[text|p|n]|]; [| | |by apply Hsame, Hstep].
    + destruct Hstep as [[_ He]|(_ & v1 & doc & Hv1 & _ & _ & He)]; [by apply Hsame|].
      eapply kept_put; [exact He | done|]. intros E. eexists. split; [done|].
      replace v1 with v by congruence. apply extends_schema.
    + destruct Hstep as (text & _ & Hstep). cbv zeta in Hstep. destruct (negb _); [by apply Hsame, Hstep|].
      destruct Hstep as [[_ He]|(_ & v1 & doc & at_ & Hv1 & _ & He)]; [by apply Hsame|].
      eapply kept_put; [exact He | done|]. intros E. eexists. split; [done|].
      replace v1 with v by congruence. apply extends_spec.
    + destruct (String.eqb _ _); [by apply Hsame, Hstep|].
      destruct Hstep as [[_ He]|(_ & v1 & Hv1 & Hf & He)]; [by apply Hsame|].
      eapply (kept_put _ _ _ _ (put (atr_TableName r) Free c)); [exact He | | congruence].
      unfold put. by destruct (String.eqb_spec name (atr_TableName r)) as [->|].
  - unfold drop_step in Hstep. destruct (String.eqb _ _); [by apply Hsame, Hstep|].
    destruct Hstep as [[_ He]|(_ & v1 & Hv1 & He)]; [by apply Hsame|]. eapply kept_put; [exact He | done | by intros ?].
  - unfold commit_step in Hstep. destruct (new_parts _) as [key|parts]; [by apply Hsame, Hstep|].
    cbv zeta in Hstep. destruct (negb _); [by apply Hsame, Hstep|].
    destruct Hstep as [[_ He]|(v1 & snap & news & mans & at_ & _ & Hv1 & Hpos & Hsnap & _ & _ & _ & Hmans & _ & _ & He)]; [by apply Hsame|].
    eapply kept_put; [exact He | done|]. intros E. eexists. split; [done|]. replace v1 with v by congruence.
    pose proof (Hsnap name) as Hlt. rewrite Hv in Hlt. apply extends_commit; [done | done|].
    by eapply mans_snapshot.
Qed.

(** A whole run, if nothing in it ends the table. *)
Lemma run_extends name es : forall c c' v,
  cat_run es c c' -> Forall (fun e => ~ removes name (ev_request e)) es -> c name = Live v -> kept name v c'.
Proof.
  induction es as [|e es IH]; intros c c' v Hrun Hno Hv; inversion Hrun; subst.
  - eapply kept_same; [|done]. by symmetry.
  - apply Forall_cons in Hno as [Hno Hnos]. cbn in Hno.
    match goal with Hs : cat_step _ _ _ _ |- _ => destruct (step_extends name v _ _ _ _ Hs Hno Hv) as (v1 & Hv1 & He1) end.
    destruct (IH _ c' v1 ltac:(done) Hnos Hv1) as (v' & Hv' & He'). exists v'. split; [done | by etrans].
Qed.

(** *** Reads of the past *)

(** A read, by its number, of something the table already has. *)
Definition reads_past (name : string) (v : TableView) {A} (req : Request A) : Prop :=
  match req with
  | ReqGetPartitions r => pq_TableName r = name /\ pq_SnapshotId r <> 0 /\ int64 (pq_SnapshotId r) <= v_current v
  | ReqGetColumnStats r => gcq_TableName r = name /\ gcq_SnapshotId r <> 0 /\ int64 (gcq_SnapshotId r) <= v_current v
  | ReqGetSnapshot r => gsr_TableName r = name /\ recorded (gsr_SnapshotId r) v = true
  | ReqGetManifestList r =>
      gmq_TableName r = name /\ int64 (gmq_SnapshotId r) <= v_current v /\ recorded (gmq_SnapshotId r) v = true
  | ReqGetManifest r =>
      gmr_TableName r = name /\ existsb (fun m => mfd_ManifestFileId m =? gmr_ManifestFileId r) (v_manifests v) = true
  | ReqGetPartitionSpec r =>
      gpq_TableName r = name /\ gpq_SpecVersion r <> 0 /\
      existsb (fun sv => psv_Version sv =? gpq_SpecVersion r) (v_specs v) = true
  | _ => False
  end.

Lemma reads_past_keeps name v {A} (req : Request A) : reads_past name v req -> ~ removes name req.
Proof. destruct req; cbn; tauto. Qed.

(** What a search finds it still finds in a longer list. *)
Lemma find_prefix {A} (f : A -> bool) l l' : existsb f l = true -> l `prefix_of` l' -> List.find f l' = List.find f l.
Proof.
  intros Hf [k ->]. induction l as [|x l IH]; [done|]. cbn in *. destruct (f x); [done|]. by apply IH.
Qed.

Lemma recorded_prefix n v v' : recorded n v = true -> v_log v `prefix_of` v_log v' -> recorded n v' = true.
Proof. unfold recorded. intros Hr [k ->]. by rewrite existsb_app, Hr. Qed.

(** Such a read has the same answer in every later state of the table. *)
Lemma past_answer {A} name v v' (req : Request A) c c1 d d1 reply reply' :
  c name = Live v -> d name = Live v' -> extends v v' -> reads_past name v req ->
  cat_step req c reply c1 -> cat_step req d reply' d1 -> reply' = reply.
Proof.
  intros Hc Hd [_ Hf Hl Hs Hm Hi] Hp.
  destruct req as [r|r|r|r|r|r|r|r|r|r|r|r|r|r|r|r|r|r]; cbn [reads_past] in Hp; try done; cbn [cat_step].
  - destruct Hp as (<- & Hn & Hle). intros [-> _] [-> _]. unfold partitions_reply, asked. rewrite Hc, Hd.
    rewrite (proj2 (Z.eqb_neq _ _) Hn). by rewrite Hf.
  - destruct Hp as (<- & Hr). intros [-> _] [-> _]. unfold snapshot_reply. rewrite Hc, Hd. by rewrite (find_prefix _ _ _ Hr Hl).
  - destruct Hp as (<- & Hn & Hle). intros [-> _] [-> _]. unfold column_stats_reply. rewrite Hc, Hd.
    rewrite (proj2 (Z.eqb_neq _ _) Hn). by rewrite Hf.
  - destruct Hp as (<- & Hle & Hr). intros [-> _] [-> _]. unfold manifest_list_reply. rewrite Hc, Hd.
    by rewrite Hr, (recorded_prefix _ _ _ Hr Hl), Hi.
  - destruct Hp as (<- & Hr). intros [-> _] [-> _]. unfold manifest_reply. rewrite Hc, Hd. by rewrite (find_prefix _ _ _ Hr Hm).
  - destruct Hp as (<- & Hn & Hr). intros [-> _] [-> _]. unfold spec_reply, spec_at. rewrite Hc, Hd.
    rewrite (proj2 (Z.eqb_neq _ _) Hn). by rewrite (find_prefix _ _ _ Hr Hs).
Qed.

End spec.
