(* ===== verification/ServiceSpec.v ===== *)
(** * The service a client sees

    The catalog machine of [CatalogSpec] with the transactions of the clients:
    which are open, the snapshot each reads and since when.  [service_step]
    is one request; [between] is what happens between requests, when the
    clock moves and the cleanup loop closes what has timed out.
    [ServiceRefinement] proves that the server implements it; the lemmas here
    are what runs of it look like. *)
From S2P Require Import Prelude Prog MVCC Postgres GoJson Proto Server Service CatalogSpec.

(** ** State *)

(** An open transaction. *)
Record OpenTxn := mkOpenTxn {
  ot_snapshot : Z;
  ot_since : Z;
}.

(** [sv_issued] bounds the ids given out so far. *)
Record ServiceState := mkServiceState {
  sv_tables : CatalogState;
  sv_open : gmap Z OpenTxn;
  sv_issued : Z;
  sv_clock : Z;
}.

(** Open, and not past the time limit. *)
Definition alive (timeout now : Z) (o : option OpenTxn) : bool :=
  match o with Some tx => time_sub now (ot_since tx) <=? timeout | None => false end.

Section machine.
Context `{Postgres} `{GoText}.
Context (timeout : Z).
Implicit Types (sv : ServiceState) (id : Z).

(** ** Steps *)

(** A new transaction has an id never given out before; a commit is accepted
    when the transaction is alive; a commit and an abort close it. *)
Definition txn_step {A} (req : Request A) : ServiceState -> rpc A -> ServiceState -> Prop :=
  match req in Request A return ServiceState -> rpc A -> ServiceState -> Prop with
  | ReqBeginTransaction _ => fun sv reply sv' =>
      match reply with
      | Reply resp =>
          let id := txs_TxnId resp in
          sv_issued sv < id <= sv_issued sv' /\
          sv_open sv' = <[id := mkOpenTxn (txs_ReadSnapshotId resp) (sv_clock sv)]> (sv_open sv)
      | Status _ _ => sv_open sv' = sv_open sv
      end
  | ReqCommitTransaction r => fun sv reply sv' =>
      let id := cq_TxnId r in
      reply = Reply (if alive timeout (sv_clock sv) (sv_open sv !! id) then mkOperationResponse true ""
                     else mkOperationResponse false "transaction not found or expired") /\
      sv_open sv' = delete id (sv_open sv)
  | ReqAbortTransaction r => fun sv reply sv' => accepted reply /\ sv_open sv' = delete (aq_TxnId r) (sv_open sv)
  | _ => fun sv _ sv' => sv_open sv' = sv_open sv
  end.

Record service_step {A} (req : Request A) sv (reply : rpc A) sv' : Prop := {
  ss_tables : cat_step req (sv_tables sv) reply (sv_tables sv');
  ss_open : txn_step req sv reply sv';
  ss_issued : sv_issued sv <= sv_issued sv';
  ss_clock : sv_clock sv' = sv_clock sv;
}.

(** Between requests. *)
Inductive between : ServiceState -> ServiceState -> Prop :=
| between_clock sv now : between sv (mkServiceState (sv_tables sv) (sv_open sv) (sv_issued sv) now)
| between_cleanup sv :
    between sv (mkServiceState (sv_tables sv)
      (filter (fun p => alive timeout (sv_clock sv) (Some p.2) = true) (sv_open sv)) (sv_issued sv) (sv_clock sv)).

Inductive service_run : list event -> ServiceState -> ServiceState -> Prop :=
| run_nil sv : service_run [] sv sv
| run_serve A (req : Request A) reply es sv sv1 sv' :
    service_step req sv reply sv1 -> service_run es sv1 sv' -> service_run (Served A req reply :: es) sv sv'
| run_between es sv sv1 sv' : between sv sv1 -> service_run es sv1 sv' -> service_run es sv sv'.

(** ** Runs *)

(** Ids of open transactions have been given out. *)
Definition ids_issued sv : Prop := forall id tx, sv_open sv !! id = Some tx -> id <= sv_issued sv.

(** What an event says of a transaction: it was begun, committed, aborted. *)
Definition begins (id snap : Z) (e : event) : Prop :=
  match ev_request e in Request A return rpc A -> Prop with
  | ReqBeginTransaction _ => fun reply => reply = Reply (mkTransactionResponse id snap)
  | _ => fun _ => False
  end (ev_reply e).

Definition commits (id : Z) (e : event) : Prop :=
  match ev_request e in Request A return rpc A -> Prop with
  | ReqCommitTransaction r => fun reply => cq_TxnId r = id /\ accepted reply
  | _ => fun _ => False
  end (ev_reply e).

Definition aborts (id : Z) (e : event) : Prop :=
  match ev_request e with ReqAbortTransaction r => aq_TxnId r = id | _ => False end.

Lemma run_tables es sv sv' : service_run es sv sv' -> cat_run es (sv_tables sv) (sv_tables sv').
Proof.
  induction 1 as [sv|A req reply es sv sv1 sv' Hs _ IH|es sv sv1 sv' Hb _ IH].
  - by constructor.
  - econstructor; [apply Hs | done].
  - by destruct Hb.
Qed.

(** A run of two parts. *)
Lemma run_split es1 es2 sv sv' : service_run (es1 ++ es2) sv sv' ->
  exists sv1, service_run es1 sv sv1 /\ service_run es2 sv1 sv'.
Proof.
  intros Hr. remember (es1 ++ es2) as es eqn:E. revert es1 E.
  induction Hr as [sv|A req reply es sv sv1 sv' Hs Hr IH|es sv sv1 sv' Hb _ IH]; intros es1 E.
  - symmetry in E. apply app_eq_nil in E as [-> ->]. exists sv. split; constructor.
  - destruct es1 as [|e es1].
    + cbn in E. subst es2. exists sv. split; [constructor | by eapply run_serve].
    + injection E as <- ->. destruct (IH es1 eq_refl) as (sv2 & H1 & H2). exists sv2. split; [by eapply run_serve | done].
  - destruct (IH es1 E) as (sv2 & H1 & H2). exists sv2. split; [by eapply run_between | done].
Qed.

(** A run with a first event reaches its step. *)
Lemma run_first e es sv sv' : service_run (e :: es) sv sv' ->
  exists sv1 sv2, service_run [] sv sv1 /\ service_step (ev_request e) sv1 (ev_reply e) sv2 /\ service_run es sv2 sv'.
Proof.
  intros Hr. remember (e :: es) as es0 eqn:E.
  induction Hr as [sv|B req reply es' sv sv1 sv' Hs Hr IH|es' sv sv1 sv' Hb _ IH]; [done | |].
  - injection E as <- <-. exists sv, sv1. split; [constructor | done].
  - destruct (IH E) as (sv2 & sv3 & H1 & H2 & H3). exists sv2, sv3. split; [by eapply run_between | done].
Qed.

(** What is open after [between] was open before. *)
Lemma between_open sv sv' id tx : between sv sv' -> sv_open sv' !! id = Some tx -> sv_open sv !! id = Some tx.
Proof. intros []; cbn; [done|]. by intros [? _]%map_lookup_filter_Some. Qed.

Lemma between_issued sv sv' : between sv sv' -> sv_issued sv' = sv_issued sv.
Proof. by intros []. Qed.

(** A request opens no transaction but the one it begins, under an id not
    given out before. *)
Lemma step_open {A} (req : Request A) sv reply sv' id tx :
  service_step req sv reply sv' -> sv_open sv' !! id = Some tx ->
  (sv_open sv !! id = Some tx /\ ~ commits id (Served A req reply) /\ ~ aborts id (Served A req reply)) \/
  (sv_issued sv < id <= sv_issued sv' /\ begins id (ot_snapshot tx) (Served A req reply)).
Proof.
  intros [_ Ho _ _] Hid. unfold commits, aborts, begins.
  destruct req as [r|r|r|r|r|r|r|r|r|r|r|r|r|r|r|r|r|r]; cbn [txn_step ev_request ev_reply] in *;
    try (left; rewrite <- Ho; split; [done|]; by split; intros ?).
  - destruct reply as [[n snap]|c msg]; [|left; rewrite <- Ho; split; [done|]; by split; intros ?].
    destruct Ho as [Hn Ho]. rewrite Ho in Hid. cbn in *. apply lookup_insert_Some in Hid as [[-> <-]|[_ Hid]]; [by right|].
    left. split; [done|]. by split; intros ?.
  - destruct Ho as [_ Ho]. rewrite Ho in Hid. apply lookup_delete_Some in Hid as [Hne Hid]. left. split; [done|].
    split; [by intros [? _] | by intros ?].
  - destruct Ho as [_ Ho]. rewrite Ho in Hid. apply lookup_delete_Some in Hid as [Hne Hid]. left. split; [done|].
    split; [by intros ? | done].
Qed.

(** A transaction that is open at the end was open before, or was begun in
    the run; since then nothing has ended it. *)
Lemma run_open es sv sv' id tx : service_run es sv sv' -> sv_open sv' !! id = Some tx ->
  (sv_open sv !! id = Some tx /\ Forall (fun e => ~ commits id e /\ ~ aborts id e) es) \/
  exists es1 e es2, es = es1 ++ e :: es2 /\ begins id (ot_snapshot tx) e /\
    Forall (fun e => ~ commits id e /\ ~ aborts id e) es2.
Proof.
  induction 1 as [sv|A req reply es sv sv1 sv' Hs _ IH|es sv sv1 sv' Hb _ IH]; intros Hid.
  - by left.
  - destruct (IH Hid) as [[Hid1 Hes]|(es1 & e & es2 & -> & He & Hes)].
    + destruct (step_open _ _ _ _ _ _ Hs Hid1) as [(Hid0 & Hc & Ha)|[_ Hbeg]].
      * left. split; [done|]. by constructor.
      * right. by exists [], (Served A req reply), es.
    + right. by exists (Served A req reply :: es1), e, es2.
  - destruct (IH Hid) as [[Hid1 Hes]|Hin]; [left | by right]. split; [by eapply between_open | done].
Qed.

(** An id given out whose transaction is closed is closed for good. *)
Lemma run_closed es sv sv' id : service_run es sv sv' -> id <= sv_issued sv -> sv_open sv !! id = None ->
  sv_open sv' !! id = None /\ id <= sv_issued sv' /\ Forall (fun e => ~ commits id e) es.
Proof.
  induction 1 as [sv|A req reply es sv sv1 sv' Hs _ IH|es sv sv1 sv' Hb _ IH]; intros Hle Hid; [done | |].
  - assert (Hid1 : sv_open sv1 !! id = None).
    { destruct (sv_open sv1 !! id) as [tx|] eqn:E; [|done].
      destruct (step_open _ _ _ _ _ _ Hs E) as [(E0 & _)|[Hn _]]; [congruence | lia]. }
    destruct Hs as [_ Ho Hi _]. destruct (IH ltac:(lia) Hid1) as (H1 & H2 & H3). split; [done|]. split; [done|].
    constructor; [|done]. unfold commits. cbn [ev_request ev_reply]. destruct req; try (by intros ?).
    intros [<- Ha]. cbn [txn_step] in Ho. destruct Ho as [-> _]. rewrite Hid in Ha. discriminate Ha.
  - apply IH; [by rewrite (between_issued _ _ Hb)|]. destruct (sv_open sv1 !! id) as [tx|] eqn:E; [|done].
    apply (between_open _ _ _ _ Hb) in E. congruence.
Qed.

Lemma between_ids sv sv' : between sv sv' -> ids_issued sv -> ids_issued sv'.
Proof.
  intros Hb Hi id tx Hid. rewrite (between_issued _ _ Hb). eapply Hi. by eapply between_open.
Qed.

Lemma run_ids es sv sv' : service_run es sv sv' -> ids_issued sv -> ids_issued sv'.
Proof.
  induction 1 as [sv|A req reply es sv sv1 sv' Hs _ IH|es sv sv1 sv' Hb _ IH]; intros Hi; [done | |]; apply IH.
  - intros id tx Hid. destruct (step_open _ _ _ _ _ _ Hs Hid) as [(Hid0 & _)|[? _]]; [|lia].
    etrans; [by eapply Hi | apply Hs].
  - by eapply between_ids.
Qed.

(** An accepted commit is of a transaction that is alive, which it closes. *)
Lemma commits_step id e sv sv' : service_step (ev_request e) sv (ev_reply e) sv' -> commits id e ->
  exists tx, sv_open sv !! id = Some tx /\ time_sub (sv_clock sv) (ot_since tx) <= timeout /\ sv_open sv' = delete id (sv_open sv).
Proof.
  destruct e as [A req reply]. cbn [ev_request ev_reply]. intros [_ Ho _ _] Hc. unfold commits in Hc.
  cbn [ev_request ev_reply] in Hc. destruct req; try done. destruct Hc as [<- Ha]. cbn [txn_step] in Ho.
  destruct Ho as [-> Ho]. unfold alive in Ha. destruct (sv_open sv !! _) as [tx|]; [|discriminate Ha].
  exists tx. split; [done|]. split; [|done]. destruct (Z.leb_spec (time_sub (sv_clock sv) (ot_since tx)) timeout); [done | discriminate Ha].
Qed.

(** Before a commit that is accepted the transaction was begun, nothing
    ended it between the two, and no other commit of it is ever accepted. *)
Lemma run_commits es1 e es2 id sv sv' :
  service_run (es1 ++ e :: es2) sv sv' -> sv_open sv = ∅ -> commits id e ->
  (exists pre snap b mid, es1 = pre ++ b :: mid /\ begins id snap b /\
     Forall (fun e => ~ commits id e /\ ~ aborts id e) mid) /\
  Forall (fun e => ~ commits id e) (es1 ++ es2).
Proof.
  intros (sv1 & H1 & Hr)%run_split Hempty Hc. destruct (run_first _ _ _ _ Hr) as (sv2 & sv3 & H12 & Hs & H3).
  destruct (commits_step _ _ _ _ Hs Hc) as (tx & Htx & _ & Hdel).
  assert (Hids : ids_issued sv) by (intros i t; by rewrite Hempty, lookup_empty).
  pose proof (run_ids _ _ _ H12 (run_ids _ _ _ H1 Hids) id tx Htx) as Hle.
  destruct (run_open _ _ _ _ _ H12 Htx) as [[Htx1 _]|(? & ? & ? & E & _)]; [|by destruct (app_cons_not_nil _ _ _ E)].
  split.
  - destruct (run_open _ _ _ _ _ H1 Htx1) as [[Htx0 _]|(pre & b & mid & -> & Hb & Hmid)].
    + by rewrite Hempty, lookup_empty in Htx0.
    + by exists pre, (ot_snapshot tx), b, mid.
  - apply Forall_app. split.
    + apply Forall_forall. intros e' (pre & post & ->)%list_elem_of_split Hc'.
      apply run_split in H1 as (sva & Ha & Hr'). destruct (run_first _ _ _ _ Hr') as (svb & svc & Hab & Hsb & Hend).
      destruct (commits_step _ _ _ _ Hsb Hc') as (tx' & Htx' & _ & Hdel').
      pose proof (run_ids _ _ _ Hab (run_ids _ _ _ Ha Hids) id tx' Htx') as Hle'.
      destruct (run_closed _ _ _ id Hend) as (Hno & _); [etrans; [done | apply Hsb] | by rewrite Hdel', lookup_delete_eq |].
      congruence.
    + apply (run_closed _ _ _ id H3); [etrans; [done | apply Hs] | by rewrite Hdel, lookup_delete_eq].
Qed.

End machine.
