(* ===== verification/CatalogView.v ===== *)
(** * Reading the catalog off the rows

    [catalog_of] gives the state of the machine of [CatalogSpec] that the
    committed rows stand for, and each effect of an operation on the rows is
    the machine's operation on that state. *)
From S2P Require Import Prelude Json Prog CacheInterface LRU MVCC Lock Models PartitionSpec GoJson Postgres World PgClient PgFacts.
From S2P Require Import PgPlain Sorting Reads Registry Commit Wf Visibility Coherence CommitFacts SchemaStore SpecStore.
From S2P Require Import Catalog CatalogFacts CatalogWf DDL Proto Server ServerFacts Service Pages History TxFacts Readback.
From S2P Require Import CatalogSpec.

(** ** The abstraction *)

Section abstraction.
Context `{Postgres} `{GoText}.
Implicit Types (d : DB) (q : Seqs).

(** What is on record of a snapshot. *)
Definition entry_of (r : snapshots_row) : LogEntry := mkLogEntry (s_committed_at r) (snapshot_detail (scan_snapshot r)).

(** The snapshots of a table, in the order they were recorded in. *)
Definition log_of (id : Z) (d : DB) : list LogEntry :=
  map entry_of (List.filter (fun r => s_table_id r =? id) (snapshots d)).

(** Its spec versions, in the order they were made. *)
Definition specs_of (id : Z) (d : DB) : list PartitionSpecVersion :=
  map (fun r => spec_version_of (scan_partition_spec r)) (List.filter (fun r => ps_table_id r =? id) (partition_specs d)).

(** Its manifests. *)
Definition details_of (id : Z) (d : DB) : list ManifestFileDetail :=
  map (fun r => manifest_detail (scan_manifest_file r))
    (order_by mf_manifest_file_id (List.filter (fun r => mf_table_id r =? id) (manifest_files d))).

Definition view_of (name : string) (r : tables_row) (d : DB) : TableView :=
  mkTableView (t_table_id r) (t_schema_json r) (t_schema_version r) (default "" (t_partition_spec r)) (t_partition_spec_version r)
    (t_properties r) (current_snapshot name d) (fun n => default [] (partitions_at name n d))
    (log_of (t_table_id r) d) (specs_of (t_table_id r) d) (details_of (t_table_id r) d).

Definition catalog_of (d : DB) : CatalogState := fun name =>
  match live_table name d with
  | Some r => Live (view_of name r d)
  | None => if name_taken name d then Retired else Free
  end.

Lemma catalog_live name d r : live_table name d = Some r -> catalog_of d name = Live (view_of name r d).
Proof. unfold catalog_of. by intros ->. Qed.

Lemma catalog_live_inv name d v : catalog_of d name = Live v -> exists r, live_table name d = Some r /\ v = view_of name r d.
Proof. unfold catalog_of. destruct (live_table name d) as [r|]; [|by destruct (name_taken name d)]. intros [= <-]. by exists r. Qed.

(** No machine reads a table where the rows hold none. *)
Lemma catalog_absent {A} name d (f : TableView -> A) a : live_table name d = None ->
  match catalog_of d name with Live v => f v | _ => a end = a.
Proof. unfold catalog_of. intros ->. by destruct (name_taken name d). Qed.

Lemma current_of_catalog name d : current_of (catalog_of d name) = current_snapshot name d.
Proof. unfold catalog_of, current_snapshot. destruct (live_table name d) eqn:E; [cbn; unfold current_snapshot; by rewrite E | by destruct (name_taken name d)]. Qed.

Lemma name_taken_names t d d' : map t_table_name (tables d') = map t_table_name (tables d) -> name_taken t d' = name_taken t d.
Proof.
  intros Hn. assert (Hm : forall l, existsb (fun r => String.eqb (t_table_name r) t) l =
    existsb (fun n => String.eqb n t) (map t_table_name l)) by (induction l as [|r l IH]; [done|]; cbn; by rewrite IH).
  unfold name_taken. by rewrite !Hm, Hn.
Qed.

Lemma name_taken_false t d : name_taken t d = false <-> forall x, x ∈ tables d -> t_table_name x <> t.
Proof.
  unfold name_taken. rewrite <- not_true_iff_false, existsb_exists. split.
  - intros Hn x Hx E. apply Hn. exists x. split; [by apply list_elem_of_In | by apply String.eqb_eq].
  - intros Hn (x & Hx%list_elem_of_In & E%String.eqb_eq). by apply (Hn x).
Qed.

(** A name whose row and files are as before shows the same table. *)
Lemma catalog_same t d d' :
  live_table t d' = live_table t d -> name_taken t d' = name_taken t d ->
  (forall n, partitions_at t n d' = partitions_at t n d) ->
  (forall r, live_table t d = Some r -> log_of (t_table_id r) d' = log_of (t_table_id r) d /\
     specs_of (t_table_id r) d' = specs_of (t_table_id r) d /\ details_of (t_table_id r) d' = details_of (t_table_id r) d) ->
  catalog_of d' t ≡ catalog_of d t.
Proof.
  intros Hl Hn Hp Hlog. unfold catalog_of. rewrite Hl, Hn. destruct (live_table t d) as [r|] eqn:E.
  - destruct (Hlog r eq_refl) as (Hlg & Hsp & Hdt). constructor. unfold view_of. split_and!; try done.
    + cbn. unfold current_snapshot. by rewrite Hl, E.
    + intros n. cbn. by rewrite Hp.
  - by destruct (name_taken t d).
Qed.

(** Rows of [transactions] are no part of the machine. *)
Lemma catalog_transactions x d : catalog_of (set_transactions x d) ≡ catalog_of d.
Proof. intros t. apply catalog_same; [done | done | | done]. intros n. by apply partitions_at_ext. Qed.

(** A state that differs from another in the slot of one name. *)
Lemma equiv_put name x (c c' : CatalogState) :
  c' name ≡ x -> (forall t, t <> name -> c' t ≡ c t) -> c' ≡ put name x c.
Proof. intros Hx Hc t. unfold put. destruct (String.eqb_spec t name) as [->|]; auto. Qed.

(** Different live tables have different ids. *)
Lemma live_ids_differ q d t name r r0 :
  db_wf q d -> live_table t d = Some r -> live_table name d = Some r0 -> t <> name -> t_table_id r <> t_table_id r0.
Proof.
  intros Hwf Hr Hr0 Hne E. pose proof (live_table_named_eq _ _ _ Hr). pose proof (live_table_named_eq _ _ _ Hr0).
  apply live_table_in in Hr as [Hin _], Hr0 as [Hin0 _].
  assert (r = r0) as -> by (by apply (NoDup_map_inj t_table_id (tables d)); [apply Hwf | ..]). congruence.
Qed.

(** *** Creation *)

(** Nothing is recorded for a table id not yet issued. *)
Lemma unissued_log q d id : db_wf q d -> q SeqTables < id -> log_of id d = [] /\ specs_of id d = [] /\ details_of id d = [].
Proof.
  intros Hwf Hid. assert (Hno : forall i, has_table i d = true -> (i =? id) = false).
  { intros i Hi. unfold has_table in Hi. apply existsb_exists in Hi as (r & Hin%list_elem_of_In & Hr%Z.eqb_eq).
    destruct (wf_tables _ _ Hwf r Hin) as [[_ Hle] _]. apply Z.eqb_neq. lia. }
  unfold log_of, specs_of, details_of. split_and!; rewrite filter_false; try done; intros r Hin; apply Hno.
  - by apply (wf_snapshots _ _ Hwf).
  - by apply (wf_specs _ _ Hwf).
  - apply (wf_manifest_files _ _ Hwf) in Hin as (x & Hx & <- & _)%elem_of_snapshot_ids. by apply (wf_snapshots _ _ Hwf).
Qed.

Lemma catalog_create q now name schema text spec props d :
  db_wf q d -> name_taken name d = false ->
  catalog_of (create_db now q name schema text spec props d) ≡
  put name (Live (new_view (q SeqTables + 1) schema spec props
    (if String.eqb text "" || String.eqb text "null" then []
     else [mkPartitionSpecVersion 1 spec (pg_timestamp_text now) "initial spec"]))) (catalog_of d).
Proof.
  intros Hwf Hn. set (d' := create_db now q name schema text spec props d) in *.
  pose proof (live_table_created now q name schema text spec props d Hn) as Hl. fold d' in Hl.
  destruct (unissued_log q d (q SeqTables + 1) Hwf ltac:(lia)) as (Hlog & Hspecs & Hdet). apply equiv_put.
  - rewrite (catalog_live _ _ _ Hl). constructor. split_and!; try done.
    + unfold view_of, current_snapshot. by rewrite Hl.
    + intros n. cbn [view_of v_files new_view]. unfold d'. by rewrite create_no_files.
    + cbn [view_of v_specs new_view t_table_id]. unfold specs_of. cbn [d' create_db partition_specs].
      rewrite List.filter_app, map_app. fold (specs_of (q SeqTables + 1) d). rewrite Hspecs. unfold initial_spec_rows.
      destruct (String.eqb text ""), (String.eqb text "null"); try done. cbn. by rewrite Z.eqb_refl.
  - intros t Ht. apply catalog_same.
    + by apply create_live.
    + unfold name_taken, d'. cbn. rewrite existsb_app. cbn. destruct (String.eqb_spec name t); [congruence|]. by rewrite !orb_false_r.
    + intros n. by apply create_answers.
    + intros r Hr. split; [done|]. split; [|done]. unfold specs_of, d'. cbn [create_db partition_specs].
      rewrite List.filter_app, (filter_false _ (initial_spec_rows _ _ _ _ _)), app_nil_r; [done|].
      intros p Hp. unfold initial_spec_rows in Hp. destruct (_ && _); [|by apply elem_of_nil in Hp].
      apply list_elem_of_singleton in Hp as ->. cbn. apply Z.eqb_neq.
      destruct (live_table_wf Hwf t r Hr) as [[_ Hle] _]. lia.
Qed.

Lemma id_of_below q d t : db_wf q d -> id_of (catalog_of d t) <= q SeqTables.
Proof.
  intros Hwf. unfold catalog_of. destruct (live_table t d) as [r|] eqn:E; [by destruct (live_table_wf Hwf t r E) as ([_ ?] & _)|].
  destruct (name_taken t d); apply Hwf.
Qed.

(** *** Alterations *)

(** An update that keeps the name and the mark of rows. *)
Lemma names_updated c u d d' : tables d' = update_where c u (tables d) ->
  (forall r, t_table_name (u r) = t_table_name r) -> map t_table_name (tables d') = map t_table_name (tables d).
Proof. intros -> Hu. by apply update_where_column. Qed.

Lemma catalog_alter_schema now q name schema summary r d :
  live_table name d = Some r ->
  catalog_of (alter_schema_db now q name schema summary r d) ≡
  put name (Live (with_schema schema (view_of name r d))) (catalog_of d).
Proof.
  intros Hr. set (d' := alter_schema_db now q name schema summary r d).
  assert (Hl : live_table name d' = Some (set_schema schema (int32 (t_schema_version r + 1)) now r)).
  { by eapply (live_table_set name). }
  apply equiv_put.
  - rewrite (catalog_live _ _ _ Hl). constructor. split_and!; try done.
    + cbn. unfold current_snapshot. by rewrite Hl, Hr.
    + intros n. cbn. unfold d'. by rewrite alter_schema_answers.
  - intros t Ht. apply catalog_same; [by eapply (live_table_kept name) | by eapply name_taken_names, names_updated | | done].
    intros n. apply alter_schema_answers.
Qed.

Lemma catalog_alter_spec q0 now q name spec r d :
  db_wf q0 d -> live_table name d = Some r ->
  catalog_of (alter_spec_db now q name spec "partition spec evolution via AlterTable" r d) ≡
  put name (Live (with_spec spec (pg_timestamp_text now) (view_of name r d))) (catalog_of d).
Proof.
  intros Hwf Hr. set (d' := alter_spec_db now q name spec _ r d).
  assert (Hl : live_table name d' = Some (set_spec spec (int32 (t_partition_spec_version r + 1)) now r)).
  { by eapply (live_table_set name). }
  assert (Hspecs : forall i, specs_of i d' = specs_of i d ++ (if i =? t_table_id r then
    [mkPartitionSpecVersion (int32 (t_partition_spec_version r + 1)) spec (pg_timestamp_text now)
       "partition spec evolution via AlterTable"] else [])).
  { intros i. unfold specs_of, d'. cbn [partition_specs alter_spec_db]. rewrite List.filter_app, map_app. f_equal. cbn.
    rewrite Z.eqb_sym. by destruct (i =? t_table_id r). }
  apply equiv_put.
  - rewrite (catalog_live _ _ _ Hl). constructor. split_and!; try done.
    + cbn. unfold current_snapshot. by rewrite Hl, Hr.
    + intros n. cbn. unfold d'. by rewrite alter_spec_answers.
    + cbn [view_of v_specs with_spec t_table_id set_spec]. by rewrite Hspecs, Z.eqb_refl.
  - intros t Ht. apply catalog_same; [by eapply (live_table_kept name) | by eapply name_taken_names, names_updated | |].
    + intros n. apply alter_spec_answers.
    + intros rt Hrt. split; [done|]. split; [|done]. rewrite Hspecs. pose proof (live_ids_differ _ _ _ _ _ _ Hwf Hrt Hr Ht).
      destruct (Z.eqb_spec (t_table_id rt) (t_table_id r)); [done | by rewrite app_nil_r].
Qed.

(** *** Renaming and dropping *)

Lemma catalog_rename q now name newName r d :
  db_wf q d -> live_table name d = Some r -> name <> newName -> name_free_for newName name d = true ->
  catalog_of d newName = Free /\
  catalog_of (rename_db now name newName d) ≡ put newName (Live (view_of name r d)) (put name Free (catalog_of d)).
Proof.
  intros Hwf Hr Hne Hfree. set (d' := rename_db now name newName d).
  assert (Hwf' : db_wf q d') by (by apply rename_wf). pose proof Hr as [Hin Hl]%live_table_in.
  assert (Hno : forall x, x ∈ tables d -> t_table_name x <> newName).
  { intros x Hx E. unfold name_free_for in Hfree. apply orb_true_iff in Hfree as [Hf|Hf]; apply negb_true_iff in Hf.
    - by rewrite <- not_true_iff_false, existsb_exists in Hf; destruct Hf; exists r; rewrite <- list_elem_of_In.
    - rewrite <- not_true_iff_false, existsb_exists in Hf. apply Hf. exists x. split; [by apply list_elem_of_In|].
      rewrite E, String.eqb_refl. cbn. apply negb_true_iff. unfold live_named. rewrite E. apply andb_false_iff. left.
      by apply String.eqb_neq. }
  assert (Hnew : live_table newName d' = Some (set_name newName now r)).
  { apply (live_table_unique Hwf').
    - apply elem_of_update_where. exists r. by rewrite Hl.
    - unfold live_named in *. cbn. apply andb_true_iff in Hl as [_ ->]. by rewrite String.eqb_refl. }
  assert (Hid : table_id newName d' = table_id name d) by (unfold table_id; by rewrite Hnew, Hr).
  split.
  { unfold catalog_of. destruct (live_table newName d) as [x|] eqn:E.
    - pose proof (live_table_named_eq _ _ _ E). apply live_table_in in E as [Hx _]. by destruct (Hno x).
    - by rewrite (proj2 (name_taken_false newName d)). }
  apply equiv_put.
  - rewrite (catalog_live _ _ _ Hnew). constructor. split_and!; try done.
    + cbn. unfold current_snapshot. by rewrite Hnew, Hr.
    + intros n. cbn. unfold partitions_at, table_id_or. by rewrite Hid.
  - intros t Ht. unfold put. destruct (String.eqb_spec t name) as [->|Hto].
    + unfold catalog_of. rewrite (live_table_gone name (set_name newName now) d d'); [|done|].
      2: { intros x _. unfold live_named. cbn. by destruct (String.eqb_spec newName name). }
      rewrite (proj2 (name_taken_false name d')); [done|]. intros x (x0 & Hx & ->)%elem_of_update_where.
      destruct (live_named name x0) eqn:E; [cbn; congruence|]. intros En.
      assert (x0 = r) as ->; [|congruence]. apply (NoDup_map_inj t_table_name (tables d)); [apply Hwf | done..|].
      by rewrite En, (live_table_named_eq _ _ _ Hr).
    + apply catalog_same; [by apply rename_live | | intros n; by apply rename_answers | done].
      unfold name_taken. cbn. unfold update_where. clear -Ht Hto. induction (tables d) as [|x l IH]; [done|]. cbn.
      rewrite IH. f_equal. destruct (live_named name x) eqn:E; [|done]. cbn. unfold live_named in E.
      apply andb_true_iff in E as [->%String.eqb_eq _]. rewrite (proj2 (String.eqb_neq name t)) by congruence.
      by apply String.eqb_neq.
Qed.

Lemma catalog_drop q now name r d :
  db_wf q d -> live_table name d = Some r -> catalog_of (drop_db now name d) ≡ put name Retired (catalog_of d).
Proof.
  intros Hwf Hr. set (d' := drop_db now name d).
  assert (Hn : forall t, name_taken t d' = name_taken t d) by (intros t; by eapply name_taken_names, names_updated).
  apply equiv_put.
  - unfold catalog_of. rewrite (live_table_gone name (set_deleted now) d d'); [|done|].
    + by rewrite Hn, (live_name_taken _ _ _ Hr).
    + intros x _. unfold live_named. cbn. apply andb_false_r.
  - intros t Ht. apply catalog_same; [by apply drop_live | done | intros n; by apply drop_answers | done].
Qed.

Lemma catalog_purge q name id d :
  db_wf q d -> table_id name d = Some id -> catalog_of (purge_db name id d) ≡ put name Free (catalog_of d).
Proof.
  intros Hwf Hid. set (d' := purge_db name id d).
  assert (Hin' : forall x, x ∈ tables d' -> x ∈ tables d /\ t_table_name x <> name).
  { intros x [Hx Hxn]%elem_of_delete_where. by apply String.eqb_neq in Hxn. }
  apply equiv_put.
  - unfold catalog_of. destruct (live_table name d') as [x|] eqn:E.
    + pose proof (live_table_named_eq _ _ _ E). apply live_table_in in E as [Hx _]. by destruct (Hin' x).
    + rewrite (proj2 (name_taken_false name d')); [done|]. intros x Hx. by apply Hin'.
  - intros t Ht. apply catalog_same; [by apply purge_live | | intros n; by eapply purge_answers |].
    + unfold name_taken, d'. cbn. unfold delete_where. clear -Ht. induction (tables d) as [|x l IH]; [done|]. cbn.
      destruct (String.eqb_spec (t_table_name x) name) as [E|]; cbn; rewrite IH; [|done].
      rewrite E. by rewrite (proj2 (String.eqb_neq name t)).
    + intros r Hr. destruct (live_table name d) as [r0|] eqn:E; unfold table_id in Hid; rewrite E in Hid; [|done].
      injection Hid as <-. pose proof (live_ids_differ _ _ _ _ _ _ Hwf Hr E Ht) as Hne.
      unfold log_of, specs_of, details_of, d'. cbn. unfold delete_where. rewrite !filter_filter.
      split_and!; do 1?[apply (f_equal (map _))]; try apply (f_equal (order_by _)); apply filter_ext_elem; intros x _;
        (match goal with |- context [?i =? t_table_id r] => destruct (Z.eqb_spec i (t_table_id r)) as [->|] end; [|by rewrite andb_false_r]);
        by rewrite (proj2 (Z.eqb_neq _ _) Hne).
Qed.

(** *** Commits *)

Lemma new_rows_stored parts : forall next id snap, Forall2 (stored_file snap) parts (map scan_partition (new_rows next id snap parts)).
Proof. induction parts as [|p parts IH]; intros next id snap; [constructor|]. cbn. by constructor. Qed.

(** The files of a snapshot and those of the next commit are in the order of
    their ids. *)
Lemma commit_increasing q d t snap id n parts :
  db_wf q d ->
  increasing pr_PartitionID (default [] (partitions_at t n d) ++ map scan_partition (new_rows (q SeqPartitions) id snap parts)).
Proof.
  intros Hwf.
  assert (Hmap : forall l, increasing p_partition_id l -> increasing pr_PartitionID (map scan_partition l)).
  { intros l Hl. refine (StronglySorted_fmap scan_partition _ _ l _ Hl). by intros x y. }
  assert (Hnew : increasing p_partition_id (new_rows (q SeqPartitions) id snap parts)).
  { apply sorted_increasing; [apply NoDup_new_rows | apply sorted_new_rows]. }
  unfold partitions_at. destruct (_ <? 0); cbn [from_option Datatypes.id]; [by apply Hmap|].
  rewrite <- map_app. apply Hmap, StronglySorted_app_2; [|by apply order_by_increasing, NoDup_map_filter, Hwf|done].
  intros x y Hx%elem_of_order_by (_ & _ & _ & _ & Hy)%elem_of_new_rows.
  apply list_elem_of_In, filter_In in Hx as [Hx%list_elem_of_In _].
  destruct (wf_partitions _ _ Hwf x Hx) as [[_ ?] _]. lia.
Qed.

Lemma current_of_below q d t : db_wf q d -> current_of (catalog_of d t) <= q SeqSnapshots.
Proof.
  intros Hwf. rewrite current_of_catalog. destruct (table_id t d) as [id|] eqn:E.
  - rewrite (current_snapshot_head Hwf t id E). by apply head_snapshot_bound.
  - unfold current_snapshot. unfold table_id in E. destruct (live_table t d); [done|]. apply Hwf.
Qed.

Lemma new_manifests_stored name id id' snap v parts keys next :
  Forall2 stored_manifest (commit_manifests name id' snap v parts keys)
    (map (fun r => manifest_detail (scan_manifest_file r)) (manifest_rows next (commit_manifests name id snap v parts keys))).
Proof. unfold commit_manifests. destruct (is_empty parts), (is_empty keys); cbn; repeat constructor. Qed.

(** The manifests of a commit follow those there were. *)
Lemma commit_details now q name parent operation v parts keys r d i :
  db_wf q d -> live_table name d = Some r -> q SeqSnapshots + 1 < 2 ^ 63 ->
  details_of i (commit_db now q name (t_table_id r) parent operation v parts keys d) = details_of i d ++
    (if i =? t_table_id r then map (fun r => manifest_detail (scan_manifest_file r))
       (manifest_rows (q SeqManifestFiles) (commit_manifests name (t_table_id r) (q SeqSnapshots + 1) v parts keys)) else []).
Proof.
  intros Hwf Hr Hn. unfold details_of. cbn [manifest_files commit_db]. rewrite List.filter_app.
  assert (Hm : forall x, x ∈ manifest_rows (q SeqManifestFiles) (commit_manifests name (t_table_id r) (q SeqSnapshots + 1) v parts keys) ->
    mf_table_id x = t_table_id r) by (intros x Hx; by eapply elem_of_commit_manifest_rows in Hx as [? _]).
  destruct (Z.eqb_spec i (t_table_id r)) as [->|Hne].
  - rewrite (filter_true _ (manifest_rows _ _)) by (intros x Hx%Hm; by apply Z.eqb_eq). rewrite order_by_app, map_app; [done | apply sorted_manifest_rows|].
    intros x y [Hx%list_elem_of_In _]%list_elem_of_In%filter_In [Hy _]%manifest_rows_ids.
    destruct (wf_manifest_issued _ _ Hwf x Hx). lia.
  - rewrite (filter_false _ (manifest_rows _ _)), !app_nil_r; [done|]. intros x Hx%Hm. apply Z.eqb_neq. congruence.
Qed.

(** A table's manifests are in the order of their ids. *)
Lemma details_increasing q d i : db_wf q d ->
  increasing mfd_ManifestFileId (details_of i d) /\ Forall (fun m => 0 < mfd_ManifestFileId m < 2 ^ 63) (details_of i d).
Proof.
  intros Hwf. split.
  - refine (StronglySorted_fmap (fun r => manifest_detail (scan_manifest_file r)) _ _ _ _
      (order_by_increasing mf_manifest_file_id _ _)); [by intros x y|]. by apply NoDup_map_filter, Hwf.
  - apply Forall_fmap, Forall_forall. intros x Hx%elem_of_order_by. apply list_elem_of_In, filter_In in Hx as [Hx%list_elem_of_In _].
    destruct (wf_manifest_issued _ _ Hwf x Hx). pose proof (wf_seqs _ _ Hwf SeqManifestFiles). cbn. lia.
Qed.

Lemma catalog_commit name parent operation parts keys s s' :
  let snap := pg_seqs (sys_pg s) SeqSnapshots + 1 in
  db_wf (pg_seqs (sys_pg s)) (db s) -> db_wf (pg_seqs (sys_pg s')) (db s') ->
  committed name parent operation parts keys s s' ->
  exists r news mans, live_table name (db s) = Some r /\ snap < 2 ^ 63 /\ Forall2 (stored_file snap) parts news /\
    increasing pr_PartitionID (default [] (partitions_at name (current_snapshot name (db s)) (db s)) ++ news) /\
    Forall (fun p => 0 < pr_PartitionID p < 2 ^ 63) news /\
    Forall2 stored_manifest (commit_manifests name 0 snap (t_partition_spec_version r) parts keys) mans /\
    increasing mfd_ManifestFileId (details_of (t_table_id r) (db s) ++ mans) /\
    Forall (fun m => 0 < mfd_ManifestFileId m < 2 ^ 63) mans /\
    catalog_of (db s') ≡ put name (Live (with_commit snap
      (mkLogEntry (pg_now (sys_pg s)) (mkSnapshotDetail snap parent operation (len32 parts) (len32 keys)
         (pg_timestamp_text (pg_now (sys_pg s)))))
      news keys mans (view_of name r (db s)))) (catalog_of (db s)).
Proof.
  intros snap Hwf Hwf' Hc. destruct (committed_parent _ _ _ _ _ _ _ Hwf Hc) as (id & Hid & Hp & Hpi & Hdb & [Hseq Hseqp Hseqm]).
  destruct (live_table name (db s)) as [r|] eqn:Hr; unfold table_id in Hid; rewrite Hr in Hid; [|done]. injection Hid as <-.
  destruct (committed_table _ _ _ _ _ _ _ r Hwf Hwf' Hc Hr) as (Hl & Hcur & Hsi). fold snap in Hl, Hcur, Hsi.
  assert (Hsn : snap < 2 ^ 63) by (unfold snap; rewrite <- Hseq; apply Hwf').
  assert (Hv : current_spec_version name (db s) = t_partition_spec_version r) by (unfold current_spec_version; by rewrite Hr).
  pose proof (fun i => commit_details (pg_now (sys_pg s)) (pg_seqs (sys_pg s)) name parent operation
    (t_partition_spec_version r) parts keys r (db s) i Hwf Hr Hsn) as Hdet. rewrite <- Hv, <- Hdb in Hdet.
  pose proof (details_increasing _ _ (t_table_id r) Hwf') as [Hdi Hdr]. rewrite Hdet, Z.eqb_refl in Hdi, Hdr.
  exists r, (map scan_partition (new_rows (pg_seqs (sys_pg s) SeqPartitions) (t_table_id r) snap parts)). eexists.
  split; [done|]. split; [done|]. split; [apply new_rows_stored|]. split; [by apply commit_increasing|].
  split.
  { apply Forall_fmap, Forall_forall. intros p (_ & _ & _ & _ & ?)%elem_of_new_rows. cbn.
    pose proof (wf_seqs _ _ Hwf SeqPartitions). pose proof (wf_seqs _ _ Hwf' SeqPartitions). lia. }
  rewrite <- Hv. split; [apply new_manifests_stored|]. split; [exact Hdi|]. split; [by apply Forall_app in Hdr as [_ ?]|].
  assert (Hlog : forall i, log_of i (db s') = log_of i (db s) ++ (if i =? t_table_id r then
    [mkLogEntry (pg_now (sys_pg s)) (mkSnapshotDetail snap parent operation (len32 parts) (len32 keys)
       (pg_timestamp_text (pg_now (sys_pg s))))] else [])).
  { intros i. rewrite Hdb. unfold log_of. cbn [snapshots commit_db]. rewrite List.filter_app, map_app. f_equal. cbn.
    rewrite Z.eqb_sym. destruct (i =? t_table_id r); [|done]. cbn. fold snap. pose proof (wf_seqs _ _ Hwf SeqSnapshots).
    pose proof (wf_seqs _ _ Hwf' SeqSnapshots). unfold entry_of, snapshot_detail, scan_snapshot. cbn.
    rewrite !uint64_id; [done | |]; unfold is_uint64; [|lia].
    rewrite Hp. pose proof (head_snapshot_nonneg (t_table_id r) (db s)). pose proof (head_snapshot_bound Hwf (t_table_id r)). lia. }
  apply equiv_put.
  - rewrite (catalog_live _ _ _ Hl). constructor. split_and!; try done.
    + intros n. cbn [view_of v_files with_commit v_current]. destruct (Z.ltb_spec (int64 n) snap).
      * erewrite committed_partitions_at; [done | done | exact Hc | left; lia].
      * rewrite <- (proj1 Hc), Hdb. rewrite Hdb in Hwf'. erewrite commit_partitions_new; [done | exact Hwf | | exact Hp | exact Hwf' | exact H1].
        unfold table_id. by rewrite Hr.
    + cbn [view_of v_log with_commit t_table_id set_current_snapshot]. by rewrite Hlog, Z.eqb_refl.
    + cbn [view_of v_specs with_commit t_table_id set_current_snapshot]. by rewrite Hdb.
    + cbn [view_of v_manifests with_commit t_table_id set_current_snapshot]. by rewrite Hdet, Z.eqb_refl.
  - intros t Ht. apply catalog_same.
    + rewrite Hdb. by eapply (live_table_kept name).
    + eapply name_taken_names. rewrite Hdb. by eapply names_updated.
    + intros n. eapply committed_partitions_at; [done | exact Hc | by right].
    + intros rt Hrt. rewrite Hlog, Hdet. pose proof (live_ids_differ _ _ _ _ _ _ Hwf Hrt Hr Ht).
      destruct (Z.eqb_spec (t_table_id rt) (t_table_id r)); [done|]. rewrite !app_nil_r. split; [done|]. split; [by rewrite Hdb | done].
Qed.

Lemma no_table_row name d : live_table name d = None -> table_row name d = Ok None.
Proof. unfold table_row. by intros ->. Qed.

Lemma no_table_id name d : live_table name d = None -> (table_id_or name d <? 0) = true.
Proof. unfold table_id_or, table_id. by intros ->. Qed.

Lemma live_table_id q name d r : db_wf q d -> live_table name d = Some r ->
  table_id_or name d = t_table_id r /\ (t_table_id r <? 0) = false.
Proof.
  intros Hwf Hr. destruct (live_table_wf Hwf name r Hr) as ([? _] & _). unfold table_id_or, table_id. rewrite Hr.
  split; [done|]. apply Z.ltb_ge. lia.
Qed.

(** *** Manifests of a snapshot *)

(** The snapshot ids of manifests are kept as signed numbers. *)
Lemma manifest_snapshot q d n r : db_wf q d -> r ∈ manifest_files d ->
  (mfd_SnapshotId (manifest_detail (scan_manifest_file r)) =? uint64 n) = (mf_snapshot_id r =? int64 n).
Proof.
  intros Hwf Hr. apply (wf_manifest_files _ _ Hwf), (snapshot_id_issued Hwf) in Hr as [? ?].
  pose proof (wf_seqs _ _ Hwf SeqSnapshots). cbn [manifest_detail scan_manifest_file mfd_SnapshotId mfr_SnapshotID].
  rewrite uint64_id by (unfold is_uint64; lia). symmetry. apply int64_eqb_uint64. lia.
Qed.

(** The manifests of a table's snapshot are those of the snapshot. *)
Lemma manifests_in_of name r n q d l :
  db_wf q d -> l ∈ manifest_lists d -> ml_snapshot_id l = int64 n -> ml_table_id l = t_table_id r ->
  manifests_in n (view_of name r d) =
  map (fun x => manifest_detail (scan_manifest_file x)) (order_by mf_manifest_file_id (manifests_of (int64 n) d)).
Proof.
  intros Hwf Hl Hn Ht. unfold manifests_in. cbn [view_of v_manifests]. unfold details_of, manifests_of.
  rewrite filter_map_comm. f_equal. rewrite <- order_by_filter, filter_filter. f_equal. apply filter_ext_elem. intros x Hx.
  rewrite (manifest_snapshot q d) by done. destruct (Z.eqb_spec (mf_snapshot_id x) (int64 n)) as [E|]; [|by rewrite andb_false_r].
  rewrite andb_true_r. apply Z.eqb_eq. rewrite <- Ht. symmetry. eapply manifest_list_table; [done..|]. congruence.
Qed.

Lemma recorded_list name r n q d : db_wf q d ->
  recorded n (view_of name r d) =
  existsb (fun l => (ml_snapshot_id l =? int64 n) && (ml_table_id l =? t_table_id r)) (manifest_lists d).
Proof.
  intros Hwf. assert (Hx : forall x, x ∈ snapshots d ->
    (sd_SnapshotId (snapshot_detail (scan_snapshot x)) =? uint64 n) = (s_snapshot_id x =? int64 n)).
  { intros x Hx. destruct (wf_snapshots _ _ Hwf x Hx) as ([? ?] & _). pose proof (wf_seqs _ _ Hwf SeqSnapshots).
    cbn. rewrite uint64_id by (unfold is_uint64; lia). symmetry. apply int64_eqb_uint64. lia. }
  apply eq_true_iff_eq. unfold recorded. cbn [view_of v_log]. unfold log_of. rewrite !existsb_exists. split.
  - intros (e & Hin & E). apply in_map_iff in Hin as (x & <- & [Hin Ht]%filter_In).
    apply list_elem_of_In in Hin as Hin'. cbn [entry_of le_detail] in E. rewrite Hx in E by done.
    assert (Hl : (s_snapshot_id x, s_table_id x) ∈ map (fun r => (ml_snapshot_id r, ml_table_id r)) (manifest_lists d)).
    { rewrite (wf_manifest_lists _ _ Hwf). by apply (list_elem_of_fmap_2 (fun r => (s_snapshot_id r, s_table_id r))). }
    apply list_elem_of_fmap in Hl as (l & [= H1 H2] & Hl). exists l. split; [by apply list_elem_of_In|]. by rewrite <- H1, <- H2, E.
  - intros (l & Hl%list_elem_of_In & [E Ht]%andb_true_iff).
    assert (Hs : (ml_snapshot_id l, ml_table_id l) ∈ map (fun r => (s_snapshot_id r, s_table_id r)) (snapshots d)).
    { rewrite <- (wf_manifest_lists _ _ Hwf). by apply (list_elem_of_fmap_2 (fun r => (ml_snapshot_id r, ml_table_id r))). }
    apply list_elem_of_fmap in Hs as (x & [= H1 H2] & Hs). exists (entry_of x). split.
    + apply (in_map entry_of), filter_In. rewrite <- H2. split; [by apply list_elem_of_In | done].
    + cbn [entry_of le_detail]. by rewrite Hx, <- H1.
Qed.

(** What [GetManifestList] finds. *)
Lemma manifests_at_view name r n q d : db_wf q d -> live_table name d = Some r ->
  match manifests_at name n d with
  | Some (l, files) => recorded n (view_of name r d) = true /\ map manifest_detail files = manifests_in n (view_of name r d) /\
      mlr_ManifestCount l = Z.of_nat (length (manifests_in n (view_of name r d)))
  | None => recorded n (view_of name r d) = false
  end.
Proof.
  intros Hwf Hr. destruct (live_table_id _ _ _ _ Hwf Hr) as [Hid Hpos]. unfold manifests_at. rewrite Hid, Hpos.
  rewrite (recorded_list name r n _ _ Hwf). destruct (List.filter _ (manifest_lists d)) as [|l ls] eqn:E; cbn [head fmap option_fmap option_map].
  - apply not_true_iff_false. rewrite existsb_exists. intros (l & Hl & Hc).
    assert (Hin : In l []) by (rewrite <- E; by apply filter_In). done.
  - assert (Hl : In l (l :: ls)) by (by left). rewrite <- E in Hl. apply filter_In in Hl as [Hl Hc].
    split; [apply existsb_exists; by exists l|]. apply list_elem_of_In in Hl.
    apply andb_true_iff in Hc as [Hn%Z.eqb_eq Ht%Z.eqb_eq]. rewrite (manifests_in_of name r n _ _ l Hwf Hl Hn Ht).
    rewrite map_map, length_map, length_order_by. split; [done|]. rewrite <- Hn. apply (wf_manifest_counts _ _ Hwf l Hl).
Qed.

(** The join with the live table of a name. *)
Lemma live_filter q name d r i : db_wf q d -> live_table name d = Some r ->
  List.filter (fun t => (t_table_id t =? i) && live_named name t) (tables d) = if t_table_id r =? i then [r] else [].
Proof.
  intros Hwf Hr. assert (Hl : List.filter (live_named name) (tables d) = [r]).
  { unfold live_table in Hr. destruct (List.filter _ _) as [|r' l] eqn:E; [done|]. injection Hr as ->. f_equal.
    destruct l as [|x l]; [done|]. exfalso. pose proof (NoDup_map_filter t_table_name (live_named name) _ (wf_names _ _ Hwf)) as Hnd.
    assert (Hin : forall y, In y (r :: x :: l) -> t_table_name y = name).
    { intros y Hy. rewrite <- E in Hy. apply filter_In in Hy as [_ Hy]. unfold live_named in Hy.
      by apply andb_true_iff in Hy as [?%String.eqb_eq _]. }
    rewrite E in Hnd. cbn in Hnd. apply NoDup_cons in Hnd as [Hno _]. apply Hno.
    rewrite (Hin r) by (by left). rewrite (Hin x) by (by right; left). left. }
  rewrite <- (filter_ext (fun t => live_named name t && (t_table_id t =? i))) by (intros; apply andb_comm).
  rewrite <- filter_filter, Hl. done.
Qed.

End abstraction.
