(* ===== verification/Refinement.v ===== *)
(** * The server implements the catalog machine

    With the network delivering, each request is a step of the machine of
    [CatalogSpec] between the states [catalog_of] reads off the rows, and a
    whole history of a server, with cleanup ticks and moves of the clocks in
    between, is a run. *)
From S2P Require Import Prelude Json Prog CacheInterface LRU MVCC Lock Models PartitionSpec GoJson Postgres World PgClient PgFacts.
From S2P Require Import PgPlain Sorting Reads Registry Commit Wf Visibility Coherence CommitFacts SchemaStore SpecStore.
From S2P Require Import Catalog CatalogFacts CatalogWf DDL Proto Server ServerFacts Service Pages History TxFacts Readback.
From S2P Require Import CatalogSpec CatalogView.

(** ** Requests *)

Section simulation.
Context `{Postgres} `{GoText}.

(** A server between two requests, while the network delivers. *)
Record ready (s : Sys) : Prop := {
  rd_wf : system_wf s;
  rd_quiet : quiet s;
  rd_cache : cache_fresh s;
}.

Lemma in_order_ready s : in_order true s <-> ready s.
Proof. split; [intros [? Hh]; by destruct (Hh eq_refl)|]. intros [??]. by split. Qed.

(** Run from a ready server, the program makes a step of the machine. *)
Definition refines {A} (p : Prog Sys (rpc A)) (step : CatalogState -> rpc A -> CatalogState -> Prop) : Prop :=
  forall s, ready s -> wp p s (fun reply s' => step (catalog_of (db s)) reply (catalog_of (db s'))).

(** A read answers from the state and leaves it. *)
Lemma refines_read {A} (p : Prog Sys (rpc A)) (answer : CatalogState -> rpc A -> Prop) :
  (forall s, ready s -> wp p s (fun reply s' => db s' = db s /\ answer (catalog_of (db s)) reply)) ->
  refines p (fun c reply c' => answer c reply /\ c' ≡ c).
Proof. intros Hp s Hs. eapply wp_mono; [by apply Hp|]. intros reply s' [-> Ha]. done. Qed.

(** A table is there, with all the documents a row must have, or is not. *)
Lemma table_cases s name : ready s ->
  live_table name (db s) = None \/
  exists r spec, live_table name (db s) = Some r /\ t_partition_spec r = Some spec /\ view_of name r (db s) = view_of name r (db s).
Proof.
  intros [[Hwf _ _] _ _]. destruct (live_table name (db s)) as [r|] eqn:E; [right | by left].
  destruct (live_table_wf Hwf name r E) as (_ & Hs & _). destruct (t_partition_spec r) as [spec|] eqn:Es; [|done].
  by exists r, spec.
Qed.

(** *** Reads of a table *)

Lemma refines_GetTableMetadata r : is_uint64 (tq_SnapshotId r) ->
  refines (GetTableMetadata r) (fun c reply c' => reply = metadata_reply r (c (tq_TableName r)) /\ c' ≡ c).
Proof.
  intros Hn. apply (refines_read _ (fun c reply => reply = metadata_reply r (c (tq_TableName r)))). intros s Hs.
  destruct r as [name n]. cbn [tq_TableName tq_SnapshotId] in *. unfold metadata_reply. cbn [tq_TableName tq_SnapshotId].
  destruct (String.eqb_spec name "") as [->|Hne]; [by unfold GetTableMetadata; cbn [tq_TableName String.eqb]; rewrite wp_ret|].
  pose proof Hs as [[Hwf Hfree Hm] Hq Hc]. destruct (table_cases s name Hs) as [E|(r & spec & Hr & Hspec & _)].
  - rewrite catalog_absent by done. unfold GetTableMetadata. cbn [tq_TableName].
    rewrite (proj2 (String.eqb_neq _ _) Hne), wp_bind. eapply wp_mono; [by apply wp_GetTable_frame|].
    intros x s1 (-> & (_ & Hd & _) & _). by rewrite (no_table_row _ _ E), wp_ret.
  - rewrite (catalog_live _ _ _ Hr). eapply wp_mono; [by eapply wp_GetTableMetadata_at; [apply read_wf|..]|].
    intros x s1 [Hd ->]. split; [done|]. cbn [view_of v_properties]. unfold properties_of.
    by destruct (String.eqb (t_properties r) "").
Qed.

Lemma page_of_rows size last rows :
  map scan_partition (take size (after last rows)) =
  take size (List.filter (fun p => last <? pr_PartitionID p) (map scan_partition rows)).
Proof. rewrite filter_map_comm. symmetry. apply firstn_map. Qed.

Lemma refines_GetPartitions r : is_uint64 (pq_SnapshotId r) ->
  refines (GetPartitions r) (fun c reply c' => reply = partitions_reply r (c (pq_TableName r)) /\ c' ≡ c).
Proof.
  intros Hn. apply (refines_read _ (fun c reply => reply = partitions_reply r (c (pq_TableName r)))). intros s Hs.
  pose proof Hs as [[Hwf Hfree Hm] Hq Hc]. set (name := pq_TableName r). set (n := resolved name (pq_SnapshotId r) (db s)).
  set (rows := if 0 <? pq_PageSize r
               then partitions_page name n (pq_PageSize r) (token_value (pq_PageToken r)) (db s)
               else partitions_at name n (db s)).
  unfold GetPartitions. cbv zeta. rewrite wp_bind.
  assert (Hrows : wp (if 0 <? pq_PageSize r
      then Registry.GetPartitionsPaged (pq_TableName r) (pq_SnapshotId r) (pq_PageSize r) (token_value (pq_PageToken r))
      else Registry.GetPartitions (pq_TableName r) (pq_SnapshotId r)) s (fun x s' => db s' = db s /\ x = Ok rows)).
  { unfold rows. destruct (Z.ltb_spec 0 (pq_PageSize r)).
    - eapply wp_mono; [by apply wp_GetPartitionsPaged|]. intros x s1 ((_ & Hd & _) & _ & Ha). split; [done|].
      destruct x as [x|e]; [by rewrite Ha | by destruct Ha].
    - eapply wp_mono; [by apply wp_GetPartitions|]. intros x s1 [(_ & Hd & _) Hco]. split; [done|].
      destruct (Hco Hc) as [_ Ha]. destruct x as [x|e]; [by rewrite Ha | by destruct Ha]. }
  eapply wp_mono; [exact Hrows|]. intros x s1 [Hd ->]. unfold partitions_reply, page_of. fold name.
  destruct (table_cases s name Hs) as [E|(tr & spec & Hr & Hspec & _)].
  - rewrite catalog_absent by done. unfold rows, partitions_page, partitions_at. rewrite (no_table_id _ _ E).
    destruct (0 <? _); by rewrite wp_ret.
  - rewrite (catalog_live _ _ _ Hr). cbn [view_of v_files]. change (asked (pq_SnapshotId r) _) with n.
    destruct (live_table_id _ _ _ _ Hwf Hr) as [Hid Hpos]. unfold rows. rewrite partitions_page_after.
    unfold partitions_at. rewrite Hid, Hpos. cbn [from_option Datatypes.id].
    destruct (0 <? pq_PageSize r); rewrite wp_ret; (split; [done|]); [|done]. by rewrite page_of_rows.
Qed.

Lemma refines_GetPartitionStats r :
  refines (GetPartitionStats r) (fun c reply c' => reply = stats_reply r (c (psq_TableName r)) /\ c' ≡ c).
Proof.
  apply (refines_read _ (fun c reply => reply = stats_reply r (c (psq_TableName r)))). intros s Hs.
  pose proof Hs as [[Hwf Hfree Hm] Hq Hc]. unfold GetPartitionStats, stats_reply. cbv zeta.
  destruct (String.eqb _ _); [by rewrite wp_ret|]. rewrite wp_bind. eapply wp_mono; [by apply wp_GetStats|].
  intros x s1 ((_ & Hd & _) & _ & Ha). destruct x as [st|e]; [|by destruct Ha]. cbn in Ha. subst st. rewrite wp_ret.
  split; [done|]. unfold stats_at. destruct (table_cases s (psq_TableName r) Hs) as [E|(tr & spec & Hr & Hspec & _)].
  - rewrite catalog_absent by done. unfold partitions_at. by rewrite (no_table_id _ _ E).
  - rewrite (catalog_live _ _ _ Hr). cbn [view_of v_files v_current]. unfold partitions_at.
    destruct (live_table_id _ _ _ _ Hwf Hr) as [Hid Hpos]. by rewrite Hid, Hpos.
Qed.

Lemma wp_column_stats_at name n s : quiet s ->
  wp (column_stats_at name n) s (fun reply s' => db s' = db s /\
    reply = Reply (mkGetColumnStatsResponse n (bounds_at (default [] (partitions_at name n (db s)))))).
Proof.
  intros Hq. unfold column_stats_at, GetColumnStatsForSnapshot. rewrite wp_bind, wp_bind.
  apply wp_QueryPartitions; [by intros e s' _ []|]. intros s' Hu. rewrite !wp_ret. by rewrite (unchanged_db _ _ Hu).
Qed.

Lemma refines_GetColumnStats r :
  refines (GetColumnStats r) (fun c reply c' => reply = column_stats_reply r (c (gcq_TableName r)) /\ c' ≡ c).
Proof.
  apply (refines_read _ (fun c reply => reply = column_stats_reply r (c (gcq_TableName r)))). intros s Hs.
  pose proof Hs as [[Hwf Hfree Hm] Hq Hc]. set (name := gcq_TableName r). unfold GetColumnStats, column_stats_reply. cbv zeta.
  fold name. destruct (String.eqb name ""); [by rewrite wp_ret|].
  assert (Hfiles : forall n, match catalog_of (db s) name with Live v => v_files v n | _ => [] end =
    default [] (partitions_at name n (db s))).
  { intros n. destruct (table_cases s name Hs) as [E|(tr & spec & Hr & _ & _)].
    - rewrite catalog_absent by done. unfold partitions_at. by rewrite (no_table_id _ _ E).
    - by rewrite (catalog_live _ _ _ Hr). }
  rewrite current_of_catalog. destruct (gcq_SnapshotId r =? 0) eqn:E0.
  - rewrite wp_bind. apply wp_GetCurrentSnapshot; [by intros e s' _ []|]. intros s1 Hu1.
    destruct (current_snapshot name (db s) =? 0); [rewrite wp_ret; split; [apply (unchanged_db _ _ Hu1) | done]|].
    eapply wp_mono; [apply wp_column_stats_at, (unchanged_quiet _ _ Hu1), Hq|]. rewrite (unchanged_db _ _ Hu1).
    intros x s2 [Hd ->]. by rewrite Hfiles.
  - rewrite E0. eapply wp_mono; [by apply wp_column_stats_at|]. intros x s2 [Hd ->]. by rewrite Hfiles.
Qed.

(** *** Histories *)

Lemma find_map {A B} (f : A -> B) (p : B -> bool) (l : list A) :
  List.find p (map f l) = f <$> head (List.filter (fun x => p (f x)) l).
Proof. induction l as [|x l IH]; [done|]. cbn. by destruct (p (f x)). Qed.

(** What a search by number finds in the view of a table. *)
Lemma find_snapshot q d id n : db_wf q d ->
  List.find (fun e => sd_SnapshotId (le_detail e) =? uint64 n) (log_of id d) =
  entry_of <$>
    head (List.filter (fun x => (s_table_id x =? id) && (s_snapshot_id x =? int64 n)) (snapshots d)).
Proof.
  intros Hwf. unfold log_of. rewrite find_map, filter_filter. do 2 f_equal. apply filter_ext_elem. intros x Hx. f_equal.
  destruct (wf_snapshots _ _ Hwf x Hx) as ([? ?] & _). pose proof (wf_seqs _ _ Hwf SeqSnapshots).
  cbn [entry_of le_detail snapshot_detail scan_snapshot sd_SnapshotId sr_SnapshotID]. rewrite uint64_id by (unfold is_uint64; lia).
  symmetry. apply int64_eqb_uint64. lia.
Qed.

Lemma find_manifest id d n :
  List.find (fun m => mfd_ManifestFileId m =? n) (details_of id d) =
  (fun x => manifest_detail (scan_manifest_file x)) <$>
    head (List.filter (fun x => (mf_table_id x =? id) && (mf_manifest_file_id x =? n)) (manifest_files d)).
Proof.
  unfold details_of. rewrite find_map. cbn [manifest_detail scan_manifest_file mfd_ManifestFileId mfr_ManifestFileID].
  by rewrite order_by_same, filter_filter.
Qed.

Lemma find_spec id d v :
  List.find (fun sv => psv_Version sv =? v) (specs_of id d) =
  (fun x => spec_version_of (scan_partition_spec x)) <$>
    head (List.filter (fun x => (ps_table_id x =? id) && (ps_spec_version x =? v)) (partition_specs d)).
Proof. unfold specs_of. rewrite find_map, filter_filter. done. Qed.

Lemma refines_GetSnapshot r :
  refines (GetSnapshot r) (fun c reply c' => reply = snapshot_reply r (c (gsr_TableName r)) /\ c' ≡ c).
Proof.
  apply (refines_read _ (fun c reply => reply = snapshot_reply r (c (gsr_TableName r)))). intros s Hs.
  pose proof Hs as [[Hwf Hfree Hm] Hq Hc]. set (name := gsr_TableName r). unfold GetSnapshot. rewrite wp_bind.
  eapply wp_mono; [by apply wp_GetSnapshot|]. intros x s1 [Hu ->]. rewrite wp_ret. split; [apply (unchanged_db _ _ Hu)|].
  fold name. unfold snapshot_reply, snapshot_at. destruct (table_cases s name Hs) as [E|(tr & spec & Hr & _ & _)].
  - rewrite catalog_absent by done. by rewrite (no_table_id _ _ E).
  - rewrite (catalog_live _ _ _ Hr). destruct (live_table_id _ _ _ _ Hwf Hr) as [Hid Hpos]. rewrite Hid, Hpos.
    cbn [view_of v_log]. rewrite (find_snapshot _ _ _ _ Hwf). by destruct (head _).
Qed.

Lemma refines_ListSnapshots r :
  refines (ListSnapshots r) (fun c reply c' => snapshots_reply r (c (lsq_TableName r)) reply /\ c' ≡ c).
Proof.
  apply (refines_read _ (fun c reply => snapshots_reply r (c (lsq_TableName r)) reply)). intros s Hs.
  pose proof Hs as [[Hwf Hfree Hm] Hq Hc]. set (name := lsq_TableName r). unfold ListSnapshots, PgClient.ListSnapshots.
  rewrite wp_bind, wp_bind. apply wp_GetTableID; [by intros e s' _ []|]. intros s1 Hu1. fold name. unfold snapshots_reply.
  destruct (table_cases s name Hs) as [E|(tr & spec & Hr & _ & _)].
  - rewrite (no_table_id _ _ E), !wp_ret. split; [apply (unchanged_db _ _ Hu1)|]. rewrite catalog_absent by done.
    exists []. split; [done|]. split; [constructor|]. cbn. by rewrite take_nil.
  - destruct (live_table_id _ _ _ _ Hwf Hr) as [Hid Hpos]. rewrite Hid, Hpos, wp_bind.
    apply wp_pool_query; [intros e s2 _ Hn; by destruct Hn; apply (unchanged_quiet _ _ Hu1)|]. intros s2 Hu2.
    rewrite !wp_ret. split; [by rewrite (unchanged_db _ _ Hu2), (unchanged_db _ _ Hu1)|].
    rewrite (catalog_live _ _ _ Hr), (unchanged_db _ _ Hu1). cbn [view_of v_log].
    exists (order_by (fun e => - le_at e) (log_of (t_table_id tr) (db s))).
    split; [apply order_by_Permutation|]. split; [apply order_by_sorted|]. unfold log_of.
    rewrite (order_by_map (fun x => - s_committed_at x)) by done. rewrite firstn_map, !map_map. done.
Qed.

Lemma wp_GetSpecAtVersion name n s : ready s ->
  wp (GetSpecAtVersion name n) s (fun x s' => db s' = db s /\
    x = Ok (if table_id_or name (db s) <? 0 then None
            else List.find (fun sv => psv_Version sv =? n) (specs_of (table_id_or name (db s)) (db s)))).
Proof.
  intros [[Hwf Hfree Hm] Hq Hc]. apply wp_with_shared; [done | unfold GetPartitionSpecByVersion; solve_plain|].
  rewrite wp_bind. apply wp_GetTableID; [by intros e s' _ []|]. intros s1 Hu1. destruct (_ <? 0).
  { rewrite wp_ret. intros m Hm'. split; [apply (unchanged_db _ _ Hu1) | done]. }
  rewrite wp_bind. unfold GetPartitionSpecByVersion. rewrite wp_bind.
  apply wp_pool_query_row; [intros e s2 _ Hn; by destruct Hn; apply (unchanged_quiet _ _ Hu1)|]. intros s2 Hu2.
  rewrite wp_ret, first_row_head. rewrite find_spec, (unchanged_db _ _ Hu1).
  assert (Hd2 : forall m, db (set_locks m s2) = db s) by (intros m; by rewrite <- (unchanged_db _ _ Hu1), <- (unchanged_db _ _ Hu2)).
  destruct (head _) as [row|]; rewrite wp_ret; by intros m Hm'.
Qed.

Lemma refines_GetPartitionSpec r :
  refines (GetPartitionSpec r) (fun c reply c' => reply = spec_reply r (c (gpq_TableName r)) /\ c' ≡ c).
Proof.
  apply (refines_read _ (fun c reply => reply = spec_reply r (c (gpq_TableName r)))). intros s Hs.
  pose proof Hs as [[Hwf Hfree Hm] Hq Hc]. set (name := gpq_TableName r). unfold GetPartitionSpec, spec_reply. cbv zeta.
  fold name. destruct (String.eqb name ""); [by rewrite wp_ret|]. rewrite wp_bind.
  assert (Hsv : wp (if gpq_SpecVersion r =? 0 then GetCurrentSpec name else GetSpecAtVersion name (gpq_SpecVersion r)) s
    (fun x s' => db s' = db s /\ x = Ok match catalog_of (db s) name with Live v => spec_at (gpq_SpecVersion r) v | _ => None end)).
  { unfold spec_at. destruct (table_cases s name Hs) as [E|(tr & spec & Hr & Hspec & _)].
    - rewrite catalog_absent by done. destruct (gpq_SpecVersion r =? 0).
      + apply wp_with_shared; [done | solve_plain|]. rewrite wp_bind. apply wp_GetTable; [by intros e s' _ []|].
        intros s' Hu. rewrite (no_table_row _ _ E), wp_ret. intros m Hm'. split; [apply (unchanged_db _ _ Hu) | done].
      + eapply wp_mono; [by apply wp_GetSpecAtVersion|]. intros x s' [Hd ->]. by rewrite (no_table_id _ _ E).
    - rewrite (catalog_live _ _ _ Hr). destruct (gpq_SpecVersion r =? 0).
      + eapply wp_mono; [by eapply wp_GetCurrentSpec|]. intros x s' [-> (_ & Hd & _)]. split; [done|]. cbn. by rewrite Hspec.
      + eapply wp_mono; [by apply wp_GetSpecAtVersion|]. intros x s' [Hd ->].
        destruct (live_table_id _ _ _ _ Hwf Hr) as [Hid Hpos]. by rewrite Hid, Hpos. }
  eapply wp_mono; [exact Hsv|]. intros x s' [Hd ->].
  destruct (match catalog_of _ _ with Live _ => _ | _ => _ end) as [sv|]; by rewrite wp_ret.
Qed.

Lemma refines_ListPartitionSpecs r :
  refines (ListPartitionSpecs r) (fun c reply c' => reply = specs_reply r (c (lpq_TableName r)) /\ c' ≡ c).
Proof.
  apply (refines_read _ (fun c reply => reply = specs_reply r (c (lpq_TableName r)))). intros s Hs.
  pose proof Hs as [[Hwf Hfree Hm] Hq Hc]. set (name := lpq_TableName r). unfold ListPartitionSpecs, specs_reply. cbv zeta.
  fold name. destruct (String.eqb name ""); [by rewrite wp_ret|]. rewrite wp_bind.
  apply wp_with_shared; [done | unfold ListPartitionSpecHistory; solve_plain|]. rewrite wp_bind.
  apply wp_GetTableID; [by intros e s' _ []|]. intros s1 Hu1.
  destruct (table_cases s name Hs) as [E|(tr & spec & Hr & _ & _)].
  - rewrite (no_table_id _ _ E), wp_ret. intros m Hm'. rewrite wp_ret, catalog_absent by done.
    split; [apply (unchanged_db _ _ Hu1) | done].
  - destruct (live_table_id _ _ _ _ Hwf Hr) as [Hid Hpos]. rewrite Hid, Hpos, wp_bind. unfold ListPartitionSpecHistory.
    rewrite wp_bind. apply wp_pool_query; [intros e s2 _ Hn; by destruct Hn; apply (unchanged_quiet _ _ Hu1)|].
    intros s2 Hu2. rewrite !wp_ret. intros m Hm'. rewrite wp_ret, (catalog_live _ _ _ Hr).
    split; [by rewrite <- (unchanged_db _ _ Hu1), <- (unchanged_db _ _ Hu2)|]. rewrite (unchanged_db _ _ Hu1).
    cbn [view_of v_specs]. unfold specs_of. rewrite map_map.
    by rewrite (order_by_map (fun r => - ps_spec_version r) (fun sv => - psv_Version sv)).
Qed.

(** *** Listing the tables *)

Definition summary_at (name : string) (d : DB) : TableSummary :=
  mkTableSummary name (current_snapshot name d)
    (Z.of_nat (length (default [] (partitions_at name (current_snapshot name d) d)))).

Lemma wp_GetVisiblePartitionCount name n s : quiet s ->
  wp (GetVisiblePartitionCount name n) s (fun x s' => unchanged s s' /\
    x = Ok (Z.of_nat (length (default [] (partitions_at name n (db s)))))).
Proof.
  intros Hq. unfold GetVisiblePartitionCount. rewrite wp_bind. apply wp_GetTableID; [by intros e s' _ []|]. intros s1 Hu1.
  unfold partitions_at. destruct (_ <? 0); [by rewrite wp_ret|].
  apply wp_pool_query_row; [intros e s2 _ Hn; by destruct Hn; apply (unchanged_quiet _ _ Hu1)|]. intros s2 Hu2.
  split; [by etrans|]. rewrite (unchanged_db _ _ Hu1). cbn [first_row from_option Datatypes.id]. do 2 f_equal.
  unfold visible_rows. by rewrite length_map, length_order_by.
Qed.

(** No file is older than the first snapshot. *)
Lemma no_files_at_zero q t d : db_wf q d -> default [] (partitions_at t 0 d) = [].
Proof.
  intros Hwf. unfold partitions_at. destruct (_ <? 0); [done|]. cbn [from_option Datatypes.id]. unfold visible_rows.
  rewrite filter_false; [done|]. intros p Hp. unfold visible. destruct (wf_partitions _ _ Hwf p Hp) as (_ & Hs & _).
  apply (snapshot_id_issued Hwf) in Hs as [? _]. change (int64 0) with 0.
  destruct (Z.leb_spec (p_snapshot_id p) 0); [lia|]. by rewrite andb_false_r.
Qed.

Lemma wp_list_summaries q d rows : forall s,
  db_wf q d -> db s = d -> quiet s ->
  (forall t, t ∈ rows -> exists r, live_table (tr_TableName t) d = Some r /\ tr_CurrentSnapshotID t = t_current_snapshot_id r) ->
  wp (list_summaries rows) s (fun x s' => unchanged s s' /\ x = Ok (map (fun t => summary_at (tr_TableName t) d) rows)).
Proof.
  induction rows as [|t rows IH]; intros s Hwf Hd Hq Hrows; cbn [list_summaries]; [by rewrite wp_ret|].
  destruct (Hrows t (list_elem_of_here _ _)) as (r & Hr & Ht).
  assert (Hcur : (if 0 <? tr_CurrentSnapshotID t then uint64 (tr_CurrentSnapshotID t) else 0) =
    current_snapshot (tr_TableName t) d).
  { rewrite Ht. unfold current_snapshot. rewrite Hr.
    destruct (Z.ltb_spec 0 (t_current_snapshot_id r)), (Z.ltb_spec (t_current_snapshot_id r) 0); try done; [lia|].
    by replace (t_current_snapshot_id r) with 0 by lia. }
  rewrite Hcur, wp_bind. set (n := current_snapshot (tr_TableName t) d) in *.
  assert (Hcount : wp (if 0 <? n then GetVisiblePartitionCount (tr_TableName t) n else Ret (Ok 0)) s
    (fun x s' => unchanged s s' /\ x = Ok (Z.of_nat (length (default [] (partitions_at (tr_TableName t) n d)))))).
  { destruct (Z.ltb_spec 0 n); [by rewrite <- Hd; apply wp_GetVisiblePartitionCount|]. rewrite wp_ret. split; [done|].
    pose proof (current_snapshot_uint64 _ (tr_TableName t) _ Hwf) as [Hn _]. fold n in Hn.
    replace n with 0 by lia. by erewrite no_files_at_zero. }
  eapply wp_mono; [exact Hcount|]. intros x s1 [Hu1 ->]. rewrite wp_bind. eapply wp_mono; [apply IH|].
  - done.
  - by rewrite (unchanged_db _ _ Hu1).
  - by apply (unchanged_quiet _ _ Hu1).
  - intros t' Ht'. apply Hrows. by right.
  - intros x s2 [Hu2 ->]. rewrite wp_ret. split; [by etrans | done].
Qed.

Lemma scan_all_ok {A B} (scan : A -> result B) (f : A -> B) rows :
  (forall r, r ∈ rows -> scan r = Ok (f r)) -> scan_all scan rows = Ok (map f rows).
Proof.
  induction rows as [|r rows IH]; intros Hr; [done|]. cbn. rewrite (Hr r) by left. rewrite IH; [done|].
  intros r' Hr'. apply Hr. by right.
Qed.

(** The rows of the live tables, and of a page of them. *)
Definition live_rows (d : DB) : list tables_row :=
  order_by t_table_id (List.filter (fun r => negb (t_is_deleted r)) (tables d)).

Definition tables_page (limit offset : Z) (d : DB) : list tables_row :=
  take (Z.to_nat limit) (drop (Z.to_nat offset) (live_rows d)).

Lemma elem_of_live_rows q d r : db_wf q d -> r ∈ live_rows d -> live_table (t_table_name r) d = Some r.
Proof.
  intros Hwf Hin. apply elem_of_order_by, list_elem_of_In, filter_In in Hin as [Hin%list_elem_of_In Hd].
  apply (live_table_unique Hwf); [done|]. unfold live_named. by rewrite String.eqb_refl.
Qed.

Lemma tables_page_live q limit offset d r :
  db_wf q d -> r ∈ tables_page limit offset d -> live_table (t_table_name r) d = Some r.
Proof.
  intros Hwf Hr. eapply elem_of_live_rows; [exact Hwf|]. eapply elem_of_submseteq; [exact Hr|].
  apply sublist_submseteq. etrans; [apply sublist_take | apply sublist_drop].
Qed.

(** They are the listing of the catalog. *)
Lemma listing_rows q d : db_wf q d -> listing (catalog_of d) (map t_table_name (live_rows d)).
Proof.
  intros Hwf. split.
  - intros t. split.
    + intros (r & -> & Hr%(elem_of_live_rows _ _ _ Hwf))%list_elem_of_fmap. eexists. by apply catalog_live.
    + intros (v & (r & Hr & _)%catalog_live_inv). rewrite <- (live_table_named_eq _ _ _ Hr).
      apply (list_elem_of_fmap_2 t_table_name), elem_of_order_by, list_elem_of_In, filter_In.
      pose proof (live_table_named _ _ _ Hr) as Hn. apply live_table_in in Hr as [Hin _].
      split; [by apply list_elem_of_In|]. unfold live_named in Hn. by apply andb_true_iff in Hn as [_ ?].
  - apply (increasing_map t_table_id); [by apply order_by_increasing, NoDup_map_filter, Hwf|].
    intros r Hr%(elem_of_live_rows _ _ _ Hwf). by rewrite (catalog_live _ _ _ Hr).
Qed.

(** The query of a page: refused for a negative offset. *)
Lemma wp_ListTables_rows namespace size token s : ready s ->
  let limit := if size <=? 0 then 100 else size in
  let offset := page_offset token in
  wp (Catalog.ListTables namespace size token) s (fun x s' => unchanged s s' /\
    if offset <? 0 then exists e, x = Err e
    else exists rows, x = Ok rows /\ map tr_TableName rows = map t_table_name (tables_page limit offset (db s)) /\
      forall t, t ∈ rows -> exists r, live_table (tr_TableName t) (db s) = Some r /\
        tr_CurrentSnapshotID t = t_current_snapshot_id r).
Proof.
  intros [[Hwf Hfree Hm] Hq Hc] limit offset. unfold Catalog.ListTables, PgClient.ListTables. cbv zeta. fold limit.
  rewrite wp_bind. apply wp_pool; [unfold sql_list_tables; solve_monotone | |];
    unfold sql_list_tables, check, select; fold offset; rewrite Z.leb_antisym.
  - intros e s1 Hf Hr _ Hd Hs. rewrite wp_ret. destruct (Hr Hq) as [q Hq']. destruct (offset <? 0); cbn [negb] in *; [|done].
    split; [|by eexists]. split; [done|].
    split; [by destruct Hd as [|(?&?&?&[=]&_)] | by destruct Hs].
  - intros rows eff q s1 Hr Hf Hd Hs. rewrite wp_ret. destruct (offset <? 0); cbn [negb] in Hr; [done|].
    injection Hr as <- <- <-. split; [done|]. fold (tables_page limit offset (db s)).
    set (scan := fun r => mkTableRow (t_table_id r) (t_table_name r) (t_schema_json r) (t_schema_version r)
      (default "" (t_partition_spec r)) (t_partition_spec_version r) (t_current_snapshot_id r) (t_properties r)).
    exists (map scan (tables_page limit offset (db s))). split; [|split; [by rewrite map_map|]].
    + apply scan_all_ok. intros r Hr. apply (tables_page_live _ limit offset _ _ Hwf) in Hr.
      destruct (live_table_wf Hwf _ r Hr) as (_ & Hspec & _). unfold scan_table, scan. by destruct (t_partition_spec r).
    + intros t Ht. apply list_elem_of_fmap in Ht as (r & -> & Hr). exists r. split; [|done].
      by apply (tables_page_live _ limit offset _ _ Hwf).
Qed.

(** Both readings of a page token. *)
Lemma token_offset token : token_value token = page_offset token.
Proof. unfold token_value, page_offset. destruct (String.eqb token ""); [done|]. by destruct (ParseInt token). Qed.

Lemma refines_ListTables r : refines (ListTables r) (fun c reply c' => tables_reply r c reply /\ c' ≡ c).
Proof.
  apply (refines_read _ (fun c reply => tables_reply r c reply)). intros s Hs.
  pose proof Hs as [[Hwf Hfree Hm] Hq Hc]. unfold ListTables, tables_reply. cbv zeta. rewrite wp_bind.
  eapply wp_mono; [by apply wp_ListTables_rows|]. cbv zeta. set (limit := if ltr_PageSize r <=? 0 then _ else _).
  set (offset := page_offset _). intros x s1 [Hu1 Hx]. destruct (offset <? 0).
  { destruct Hx as [e ->]. rewrite wp_ret. split; [apply (unchanged_db _ _ Hu1) | by eexists]. }
  destruct Hx as (rows & -> & Hnames & Hrows). rewrite wp_bind.
  eapply wp_mono; [eapply (wp_list_summaries _ (db s)); [exact Hwf | apply (unchanged_db _ _ Hu1) |
    by apply (unchanged_quiet _ _ Hu1) | exact Hrows]|].
  intros x s2 [Hu2 ->]. rewrite wp_ret. split; [by rewrite (unchanged_db _ _ Hu2), (unchanged_db _ _ Hu1)|].
  assert (Hpage : map tr_TableName rows = take (Z.to_nat limit) (drop (Z.to_nat offset) (map t_table_name (live_rows (db s))))).
  { by rewrite Hnames, skipn_map, firstn_map. }
  exists (map t_table_name (live_rows (db s))). split; [by eapply listing_rows|]. rewrite <- Hpage, length_map. f_equal.
  f_equal; [|unfold tables_next_token; by rewrite token_offset].
  rewrite map_map. apply map_ext_in. intros t Ht%list_elem_of_In. destruct (Hrows t Ht) as (tr & Hr & _).
  unfold table_summary. by rewrite (catalog_live _ _ _ Hr).
Qed.

(** *** Manifests *)

Lemma refines_GetManifestList r :
  refines (GetManifestList r) (fun c reply c' => reply = manifest_list_reply r (c (gmq_TableName r)) /\ c' ≡ c).
Proof.
  apply (refines_read _ (fun c reply => reply = manifest_list_reply r (c (gmq_TableName r)))). intros s Hs.
  pose proof Hs as [[Hwf Hfree Hm] Hq Hc]. set (name := gmq_TableName r). unfold GetManifestList, manifest_list_reply. cbv zeta.
  fold name. destruct (String.eqb name ""); [by rewrite wp_ret|]. destruct (_ =? 0); [by rewrite wp_ret|]. rewrite wp_bind.
  eapply wp_mono; [by apply wp_GetManifestList|]. intros x s1 [Hu ->]. rewrite wp_ret. split; [apply (unchanged_db _ _ Hu)|].
  destruct (table_cases s name Hs) as [E|(tr & spec & Hr & _ & _)].
  - rewrite catalog_absent by done. unfold manifests_at. by rewrite (no_table_id _ _ E).
  - rewrite (catalog_live _ _ _ Hr). pose proof (manifests_at_view _ _ (gmq_SnapshotId r) _ _ Hwf Hr) as Hv.
    destruct (manifests_at _ _ _) as [[l files]|]; [|by rewrite Hv]. destruct Hv as (-> & <- & Hcount).
    by rewrite Hcount, length_map, map_map.
Qed.

Lemma wp_GetManifestFile name n s : ready s ->
  wp (ManifestStore.GetManifestFile name n) s (fun x s' => db s' = db s /\
    x = Ok (match live_table name (db s) with
            | Some r => scan_manifest_file <$> head (List.filter (fun x => (mf_table_id x =? t_table_id r) && (mf_manifest_file_id x =? n))
                                                       (manifest_files (db s)))
            | None => None
            end)).
Proof.
  intros [[Hwf Hfree Hm] Hq Hc]. unfold ManifestStore.GetManifestFile, PgClient.GetManifestFile. rewrite wp_bind.
  apply wp_pool_query_row; [by intros e s2 _ []|]. intros s1 Hu. rewrite wp_ret, first_row_head. split; [apply (unchanged_db _ _ Hu)|].
  destruct (live_table name (db s)) as [r|] eqn:Hr.
  - assert (Hj : forall l, List.flat_map (fun x => map (fun _ => x)
        (List.filter (fun t => (t_table_id t =? mf_table_id x) && live_named name t) (tables (db s)))) l =
      List.filter (fun x => mf_table_id x =? t_table_id r) l).
    { induction l as [|x l IH]; [done|]. cbn. rewrite IH, (live_filter _ _ _ r) by done. rewrite Z.eqb_sym.
      by destruct (mf_table_id x =? t_table_id r). }
    rewrite Hj, filter_filter, (filter_ext (fun x => (mf_manifest_file_id x =? n) && (mf_table_id x =? t_table_id r))
      (fun x => (mf_table_id x =? t_table_id r) && (mf_manifest_file_id x =? n))) by (intros; apply andb_comm).
    by destruct (head _).
  - assert (Hj : forall l, List.flat_map (fun x : manifest_files_row => map (fun _ => x)
        (List.filter (fun t => (t_table_id t =? mf_table_id x) && live_named name t) (tables (db s)))) l = []).
    { induction l as [|x l IH]; [done|]. cbn. rewrite IH, filter_false; [done|]. intros t Ht.
      unfold live_table in Hr. destruct (List.filter (live_named name) (tables (db s))) as [|y ys] eqn:E; [|done].
      destruct (live_named name t) eqn:El; [|by rewrite andb_false_r]. exfalso.
      assert (Hin : In t []) by (rewrite <- E; apply filter_In; split; [by apply list_elem_of_In | done]). done. }
    by rewrite Hj.
Qed.

Lemma refines_GetManifest r :
  refines (GetManifest r) (fun c reply c' => reply = manifest_reply r (c (gmr_TableName r)) /\ c' ≡ c).
Proof.
  apply (refines_read _ (fun c reply => reply = manifest_reply r (c (gmr_TableName r)))). intros s Hs.
  pose proof Hs as [[Hwf Hfree Hm] Hq Hc]. set (name := gmr_TableName r). unfold GetManifest, manifest_reply. cbv zeta.
  fold name. destruct (String.eqb name ""); [by rewrite wp_ret|]. destruct (_ =? 0); [by rewrite wp_ret|]. rewrite wp_bind.
  eapply wp_mono; [by apply wp_GetManifestFile|]. intros x s1 [Hd ->]. rewrite wp_ret. split; [done|].
  destruct (table_cases s name Hs) as [E|(tr & spec & Hr & _ & _)].
  - by rewrite catalog_absent, E by done.
  - rewrite (catalog_live _ _ _ Hr), Hr. cbn [view_of v_manifests]. rewrite find_manifest. by destruct (head _).
Qed.

(** *** Requests that only touch transactions *)

Lemma wp_status txn status s : quiet s ->
  wp (UpdateTransactionStatus txn status) s (fun _ s' => catalog_of (db s') ≡ catalog_of (db s)).
Proof.
  intros Hq. eapply wp_mono; [by apply wp_UpdateTransactionStatus|]. intros x s' (_ & _ & ->). apply catalog_transactions.
Qed.

Lemma refines_CommitTransaction r : refines (CommitTransaction r) (fun c _ c' => c' ≡ c).
Proof.
  intros s [Hwf Hq Hc]. unfold CommitTransaction. rewrite wp_bind, wp_on_mvcc. cbn [fst snd].
  destruct (negb _); [by rewrite wp_ret|]. rewrite wp_bind. eapply wp_mono; [by apply wp_status|].
  intros [|] s' He; by rewrite wp_ret.
Qed.

Lemma refines_AbortTransaction r : refines (AbortTransaction r) (fun c _ c' => c' ≡ c).
Proof.
  intros s [Hwf Hq Hc]. unfold AbortTransaction. rewrite wp_bind, wp_on_mvcc. cbn [fst snd].
  rewrite wp_bind. eapply wp_mono; [by apply wp_status|]. intros [|] s' He; by rewrite wp_ret.
Qed.

Lemma refines_BeginTransaction r :
  refines (BeginTransaction r) (fun c reply c' => begin_reply r (c (txq_TableName r)) reply /\ c' ≡ c).
Proof.
  intros s Hs. pose proof Hs as [[Hwf Hfree Hm] Hq Hc]. set (name := txq_TableName r). unfold BeginTransaction, begin_reply.
  cbv zeta. fold name. destruct (String.eqb (txq_ClientId r) ""); [by rewrite wp_ret|].
  destruct (String.eqb name ""); [by rewrite wp_ret|]. rewrite wp_bind.
  eapply wp_mono; [by apply wp_GetTable_frame|]. intros x s1 (-> & Hi1 & Hf1).
  destruct (read_safe _ _ (rd_wf _ Hs) Hi1 Hf1) as (Hwf1 & _). destruct Hi1 as (_ & Hd1 & _).
  destruct (table_cases s name Hs) as [E|(tr & spec & Hr & Hspec & _)].
  { rewrite (no_table_row _ _ E), wp_ret, Hd1, catalog_absent by done. done. }
  pose proof (table_row_live _ _ _ _ Hr Hspec) as Hrow. destruct (begin_snapshot _ _ _ _ _ Hr Hspec Hrow) as [_ Hsnap].
  rewrite Hrow. rewrite Hsnap, wp_bind, (catalog_live _ _ _ Hr).
  eapply wp_mono; [by apply wp_InsertTransaction|]. intros x s2 (Hf2 & (y & Hy) & Htxn).
  assert (He : catalog_of (db s2) ≡ catalog_of (db s)) by (rewrite Hy, Hd1; apply catalog_transactions).
  destruct x as [txn|e]; [|rewrite wp_ret; split; [right; by eexists | done]]. destruct Htxn as (_ & Htxn & _).
  rewrite wp_bind, wp_on_mvcc, wp_ret. cbn [fst snd]. split; [left | done]. exists txn. split; [|done]. unfold is_uint64. lia.
Qed.

(** *** Writes *)

(** With every round trip delivered an operation of the manager is applied
    and says so, or changes nothing and says so. *)
Lemma outcome_quiet applied possible s res s' : quiet s -> op_outcome applied possible s res s' ->
  (Success res = true /\ accepted (Reply (to_response res)) /\ applied s') \/
  (Success res = false /\ refused (Reply (to_response res)) /\ db s' = db s).
Proof.
  intros Hq (_ & _ & _ & _ & _ & Hr). unfold accepted, refused, to_response. destruct (Success res); [left|right].
  - by destruct Hr as [? ->].
  - destruct Hr as [[Hd|[]] _]; [|done]. split; [done|]. split; [by eexists | done].
Qed.

Lemma refines_CreateTable r : refines (CreateTable r) (create_step r).
Proof.
  intros s [[Hwf Hfree Hm] Hq Hc]. unfold CreateTable. rewrite wp_bind. eapply wp_mono; [by apply wp_CreateTable|].
  intros res s' Hout. rewrite wp_ret. destruct (outcome_quiet _ _ _ _ _ Hq Hout) as [(_ & Ha & Happ)|(_ & Hr & Hd)].
  2: { left. by rewrite Hd. }
  right. split; [done|]. destruct Happ as (Hn & _ & schema & spec & props & H1 & H2 & H3 & Hd).
  assert (Hnull : String.eqb (initialSpecJSON (ctr_PartitionSpec r)) "null" = false).
  { unfold initialSpecJSON. by destruct (String.eqb (ctr_PartitionSpec r) ""). }
  split.
  { unfold catalog_of. rewrite Hn. destruct (live_table _ _) as [tr|] eqn:E; [|done].
    apply live_name_taken in E. congruence. }
  pose proof (catalog_create _ (pg_now (sys_pg s)) _ schema (initialSpecJSON (ctr_PartitionSpec r)) spec props _ Hwf Hn) as He.
  rewrite Hnull, orb_false_r in He. rewrite Hd. do 5 eexists.
  split; [intros t; pose proof (id_of_below _ _ t Hwf) as Hid; apply Z.lt_succ_r in Hid; exact Hid|]. split; [exact H1|]. split; [exact H2|]. split; [exact H3|].
  split; [|exact He]. unfold first_specs. destruct (String.eqb (initialSpecJSON _) ""); [done | by eexists].
Qed.

Lemma refines_alter_schema name text : refines (alter_schema name text) (schema_step name text).
Proof.
  intros s Hs. pose proof Hs as [[Hwf Hfree Hm] Hq Hc]. unfold alter_schema. rewrite wp_bind.
  assert (Hcur : wp (GetCurrentSchema name) s (fun x s' => (exists sv, x = Ok sv /\
    (sv = None -> live_table name (db s) = None)) /\ idle s s')).
  { destruct (table_cases s name Hs) as [E|(tr & spec & Hr & Hspec & _)].
    - apply wp_with_shared; [done | solve_plain|]. rewrite wp_bind. apply wp_GetTable; [by intros e s' _ []|].
      intros s' Hu. rewrite (no_table_row _ _ E), wp_ret. intros m Hm'. split; [by exists None | by apply unchanged_idle].
    - eapply wp_mono; [by eapply wp_GetCurrentSchema|]. intros x s' (-> & Hi & _). split; [by eexists|done]. }
  eapply wp_mono; [exact Hcur|]. intros x s1 [(sv & -> & Hnone) (Hfree1 & Hd1 & _ & _ & Hq1)]. cbv zeta.
  set (msg := match sv with Some _ => _ | None => _ end). destruct (String.eqb_spec msg "") as [Hmsg|]; cbn [negb].
  2: { rewrite wp_ret, Hd1. left. split; [by eexists | done]. }
  rewrite wp_bind. eapply wp_mono; [by apply wp_AlterTableSchema|]. intros res s2 Hout.
  unfold InvalidateTableCache. rewrite wp_bind, wp_on_cache, wp_ret. change (db (set_cache _ s2)) with (db s2).
  destruct (outcome_quiet _ _ _ _ _ (Hq1 Hq) Hout) as [(_ & Ha & Happ)|(_ & Hr & Hd)].
  2: { left. by rewrite Hd, Hd1. }
  right. split; [done|]. destruct Happ as (tr & doc & Hr & Hj & Hd). rewrite Hd1 in Hr, Hd.
  exists (view_of name tr (db s)), doc. split; [by apply catalog_live|].
  split; [destruct sv; [done | by rewrite (Hnone eq_refl) in Hr]|]. split; [done|]. rewrite Hd. by apply catalog_alter_schema.
Qed.

Lemma refines_alter_spec name p : refines (alter_spec name p) (spec_step name p).
Proof.
  intros s Hs. pose proof Hs as [[Hwf Hfree Hm] Hq Hc]. unfold alter_spec, spec_step. cbn [json_marshal_spec].
  set (text := json_print _). rewrite wp_bind.
  assert (Hcur : wp (GetCurrentSpec name) s (fun x s' => (exists sv, x = Ok sv /\
    match sv with Some sv => psv_SpecJSON sv | None => "" end = spec_of (catalog_of (db s) name)) /\ idle s s')).
  { destruct (table_cases s name Hs) as [E|(tr & spec & Hr & Hspec & _)].
    - apply wp_with_shared; [done | solve_plain|]. rewrite wp_bind. apply wp_GetTable; [by intros e s' _ []|].
      intros s' Hu. rewrite (no_table_row _ _ E), wp_ret. intros m Hm'. split; [|by apply unchanged_idle].
      exists None. split; [done|]. unfold spec_of. by rewrite catalog_absent.
    - eapply wp_mono; [by eapply wp_GetCurrentSpec|]. intros x s' (-> & Hi). split; [|done]. eexists. split; [done|].
      rewrite (catalog_live _ _ _ Hr). cbn. by rewrite Hspec. }
  eapply wp_mono; [exact Hcur|]. intros x s1 [(sv & -> & Hsv) (Hfree1 & Hd1 & _ & _ & Hq1)]. cbv zeta. rewrite Hsv.
  set (msg := ValidateSpecChange _ _). destruct (String.eqb_spec msg "") as [Hmsg|Hmsg]; cbn [negb].
  2: { rewrite wp_ret, Hd1. exists text. split; [done|]. fold msg. by rewrite (proj2 (String.eqb_neq _ _) Hmsg). }
  rewrite wp_bind. eapply wp_mono; [by apply wp_AlterTablePartitionSpec|]. intros res s2 Hout.
  unfold InvalidateTableCache. rewrite wp_bind, wp_on_cache, wp_ret. change (db (set_cache _ s2)) with (db s2).
  exists text. split; [done|]. fold msg. rewrite Hmsg. cbn [String.eqb negb].
  destruct (outcome_quiet _ _ _ _ _ (Hq1 Hq) Hout) as [(_ & Ha & Happ)|(_ & Hr & Hd)].
  2: { left. by rewrite Hd, Hd1. }
  right. split; [done|]. destruct Happ as (tr & doc & Hr & Hj & Hd). rewrite Hd1 in Hr, Hd.
  do 3 eexists. split; [by apply catalog_live|]. split; [done|]. rewrite Hd. by eapply catalog_alter_spec.
Qed.

Lemma refines_alter_rename name n :
  match n with Some n => rt_NewName n <> name | None => True end ->
  refines (alter_rename name n) (fun c reply c' =>
    let newName := match n with Some n => rt_NewName n | None => "" end in
    if String.eqb newName "" then reply = Status InvalidArgument "new table name is required" /\ c' ≡ c
    else rename_step name newName c reply c').
Proof.
  intros Hne s [[Hwf Hfree Hm] Hq Hc]. unfold alter_rename. cbv zeta.
  set (newName := match n with Some n => rt_NewName n | None => "" end).
  destruct (String.eqb newName "") eqn:E; [by rewrite wp_ret|].
  assert (Hnn : name <> newName) by (unfold newName in *; destruct n; [congruence | done]). rewrite wp_bind.
  eapply wp_mono; [by apply wp_RenameTable|]. intros res s2 Hout. unfold InvalidateTableCache.
  rewrite wp_bind, wp_on_cache, wp_bind, wp_on_cache, wp_ret. change (db (set_cache _ (set_cache _ s2))) with (db s2).
  destruct (outcome_quiet _ _ _ _ _ Hq Hout) as [(_ & Ha & Hlive & Hok & Hd)|(_ & Hr & Hd)].
  2: { left. by rewrite Hd. }
  right. split; [done|]. destruct (live_table name (db s)) as [tr|] eqn:Hr; [|done].
  destruct (catalog_rename _ (pg_now (sys_pg s)) _ _ _ _ Hwf Hr Hnn Hok) as [Hf He].
  exists (view_of name tr (db s)). split; [by apply catalog_live|]. split; [done|]. by rewrite Hd.
Qed.

Lemma refines_AlterTable r : request_ok (ReqAlterTable r) -> refines (AlterTable r) (alter_step r).
Proof.
  intros Hr. unfold AlterTable, alter_step. destruct r as [name alt]. cbn [atr_TableName atr_Alteration] in *.
  destruct (String.eqb name ""); [intros s _; by rewrite wp_ret|]. destruct alt as [[text|p|n]|].
  - apply refines_alter_schema.
  - apply refines_alter_spec.
  - apply refines_alter_rename. by destruct n.
  - intros s _. rewrite wp_ret. split; [by eexists | done].
Qed.

Lemma refines_DropTable r : refines (DropTable r) (drop_step r).
Proof.
  intros s [[Hwf Hfree Hm] Hq Hc]. destruct r as [name purge]. unfold DropTable, drop_step. cbn [dtr_TableName dtr_Purge].
  destruct (String.eqb name ""); [by rewrite wp_ret|]. rewrite wp_bind.
  assert (Hout : wp (Catalog.DropTable name purge) s (fun res s' =>
    (accepted (Reply (to_response res)) /\ exists v, catalog_of (db s) name = Live v /\
       catalog_of (db s') ≡ put name (if purge then Free else Retired) (catalog_of (db s))) \/
    (refused (Reply (to_response res)) /\ db s' = db s))).
  { destruct purge.
    - eapply wp_mono; [by apply wp_DropTable_purge|]. intros res s' Hout.
      destruct (outcome_quiet _ _ _ _ _ Hq Hout) as [(_ & Ha & id & Hid & _ & Hd)|(_ & Hr & Hd)]; [left | by right].
      split; [done|]. pose proof Hid as Hid'. unfold table_id in Hid'. destruct (live_table name (db s)) as [tr|] eqn:E; [|done].
      eexists. split; [by apply catalog_live|]. rewrite Hd. by eapply catalog_purge.
    - eapply wp_mono; [by apply wp_DropTable_soft|]. intros res s' Hout.
      destruct (outcome_quiet _ _ _ _ _ Hq Hout) as [(_ & Ha & Hl & Hd)|(_ & Hr & Hd)]; [left | by right].
      split; [done|]. destruct (live_table name (db s)) as [tr|] eqn:E; [|done].
      eexists. split; [by apply catalog_live|]. rewrite Hd. by eapply catalog_drop. }
  eapply wp_mono; [exact Hout|]. intros res s' Hcase. unfold InvalidateTableCache.
  assert (Hend : forall s2, db s2 = db s' -> refused (Reply (to_response res)) /\ catalog_of (db s2) ≡ catalog_of (db s) \/
    accepted (Reply (to_response res)) /\ exists v, catalog_of (db s) name = Live v /\
      catalog_of (db s2) ≡ put name (if purge then Free else Retired) (catalog_of (db s))).
  { intros s2 ->. destruct Hcase as [|[Hr ->]]; [by right | by left]. }
  destruct (Success res); [rewrite wp_bind, wp_on_cache|]; rewrite wp_ret; by apply Hend.
Qed.

Lemma refines_CommitSnapshot r : refines (CommitSnapshot r) (commit_step r).
Proof.
  intros s [Hs Hq Hc]. pose proof Hs as [Hwf Hfree Hm]. unfold CommitSnapshot, commit_step.
  destruct (new_parts (snq_NewPartitions r)) as [key|parts]; [by rewrite wp_ret|]. rewrite wp_bind.
  eapply wp_mono; [apply wp_CommitSnapshot; [done | apply Hwf]|]. intros res s' Hres. rewrite wp_ret.
  destruct (commit_result_wf _ _ _ _ _ _ _ _ (read_wf _ Hs Hc) Hres) as [Hwf' _].
  destruct Hres as (_ & _ & _ & _ & Hres). cbv zeta. rewrite current_of_catalog. set (name := snq_TableName r) in *.
  destruct (cr_Success res).
  - destruct Hres as (-> & -> & Hcom & _). pose proof (proj1 Hcom) as Hp. rewrite <- Hp, Z.eqb_refl. cbn [negb]. right.
    destruct (catalog_commit _ _ _ _ _ _ _ Hwf Hwf' Hcom) as (tr & news & mans & Hr & Hmax & Hst & Hinc & Hids & Hman & Hmi & Hmr & He).
    do 5 eexists. split; [done|]. split; [by apply catalog_live|].
    pose proof (wf_seqs _ _ Hwf SeqSnapshots). split; [lia|].
    split; [|do 6 (split; [done|]); exact He].
    intros t. pose proof (current_of_below _ _ t Hwf). lia.
  - destruct Hres as (-> & _ & [Hd|[]] & _ & Hmsg); [|done]. rewrite Hd.
    destruct (Z.eqb_spec (snq_ParentSnapshotId r) (current_snapshot name (db s))) as [|Hne]; cbn [negb].
    + left. split; [by eexists | done].
    + by rewrite (Hmsg Hq Hne).
Qed.

(** *** All requests *)

Lemma serve_refines {A} (req : Request A) : request_ok req -> refines (serve req) (cat_step req).
Proof.
  destruct req; cbn [serve cat_step]; intros Hr.
  - apply refines_CreateTable.
  - by apply refines_GetTableMetadata.
  - by apply refines_AlterTable.
  - apply refines_DropTable.
  - apply refines_ListTables.
  - by apply refines_GetPartitions.
  - apply refines_GetPartitionStats.
  - apply refines_CommitSnapshot.
  - apply refines_GetSnapshot.
  - apply refines_ListSnapshots.
  - apply refines_GetColumnStats.
  - apply refines_BeginTransaction.
  - apply refines_CommitTransaction.
  - apply refines_AbortTransaction.
  - apply refines_GetManifestList.
  - apply refines_GetManifest.
  - apply refines_GetPartitionSpec.
  - apply refines_ListPartitionSpecs.
Qed.

(** ** Histories of a server *)

(** What happens between requests: ticks of the cleanup loop, and the clocks
    move. *)
Inductive background : Sys -> Sys -> Prop :=
| background_cleanup s n s' : run CleanupExpiredTransactions s = Some (n, s') -> background s s'
| background_clocks s now clock :
    background s
      (mkSys (mkPG (pg_db (sys_pg s)) (pg_txs (sys_pg s)) (pg_next_tx (sys_pg s)) (pg_seqs (sys_pg s)) now [])
         (sys_locks s) (sys_mvcc s) (sys_cache s) (sys_disable_cache s) clock).

(** The requests a server answers, in order, and its states. *)
Inductive history : list event -> Sys -> Sys -> Prop :=
| history_nil s : history [] s s
| history_serve A (req : Request A) s reply s1 es s' :
    request_ok req -> run (serve req) s = Some (reply, s1) -> history es s1 s' ->
    history (Served A req reply :: es) s s'
| history_background s s1 es s' : background s s1 -> history es s1 s' -> history es s s'.

Lemma background_ready s s' : background s s' -> ready s -> ready s' /\ db s' = db s.
Proof.
  intros Hb Hs. split.
  - apply in_order_ready. apply in_order_ready in Hs. refine (life_in_order _ _ _ _ Hs).
    destruct Hb; [by eapply life_cleanup | by apply life_environment].
  - destruct Hb as [s n s' Hr|]; [|done]. unfold CleanupExpiredTransactions, on_mvcc in Hr.
    pose proof (wp_on_mvcc MVCC.CleanupExpiredTransactions s (fun _ s' => db s' = db s)) as Hw. unfold wp, on_mvcc in Hw.
    rewrite Hr in Hw. by apply Hw.
Qed.

(** A request served takes one step of the machine. *)
Lemma served_step {A} (req : Request A) s reply s' :
  ready s -> request_ok req -> run (serve req) s = Some (reply, s') ->
  ready s' /\ cat_step req (catalog_of (db s)) reply (catalog_of (db s')).
Proof.
  intros Hs Hr Hrun. split.
  - apply in_order_ready in Hs. destruct (ok_in_order _ _ _ (ok_serve req Hr) Hs) as (a & s1 & Hrun' & Hs1).
    apply in_order_ready. congruence.
  - pose proof (serve_refines req Hr s Hs) as Hw. unfold wp in Hw. by rewrite Hrun in Hw.
Qed.

Lemma history_run es s s' : history es s s' -> ready s ->
  ready s' /\ cat_run es (catalog_of (db s)) (catalog_of (db s')).
Proof.
  induction 1 as [s|A req s reply s1 es s' Hok Hrun Hh IH|s s1 es s' Hb Hh IH]; intros Hs.
  - split; [done | by constructor].
  - destruct (served_step _ _ _ _ Hs Hok Hrun) as [Hs1 Hstep]. destruct (IH Hs1) as [Hs' Hrest].
    split; [done | by econstructor].
  - destruct (background_ready _ _ Hb Hs) as [Hs1 Hd]. rewrite <- Hd. by apply IH.
Qed.

(** ** Properties *)

(** The tables alone: the requests a server answers and their replies are a
    run of the catalog machine. *)
Theorem service_refines_catalog (s0 s : Sys) (es : list event) :
  started true s0 -> history es s0 s -> cat_run es (catalog_of (db s0)) (catalog_of (db s)).
Proof. intros Hst Hh. apply (history_run es s0 s Hh), in_order_ready. by apply started_in_order. Qed.

(** C9. Reads of the past repeat: in a history in which the network delivers
    every round trip, while a table is neither dropped nor renamed, a request for something it has by its number (the files or the
    column statistics of a snapshot that is committed, a snapshot's record, its
    manifests, a manifest, a version of the spec) gets the same answer
    whenever it is sent, whatever is committed, altered, created or dropped in
    between. *)
Theorem past_reads_repeat {A} (s0 s s1 s2 s3 : Sys) (es0 es : list event) (name : string) (v : TableView)
    (req : Request A) (reply reply' : rpc A) :
  started true s0 -> history es0 s0 s -> catalog_of (db s) name = Live v -> reads_past name v req -> request_ok req ->
  run (serve req) s = Some (reply, s1) -> history es s1 s2 ->
  Forall (fun e => ~ removes name (ev_request e)) es ->
  run (serve req) s2 = Some (reply', s3) -> reply' = reply.
Proof.
  intros Hst Hh0 Hv Hp Hok Hr1 Hh Hno Hr2.
  destruct (history_run _ _ _ Hh0) as [Hs _]; [by apply in_order_ready, started_in_order|].
  destruct (served_step req _ _ _ Hs Hok Hr1) as [Hs1 H1]. destruct (history_run _ _ _ Hh Hs1) as [Hs2 Hrun].
  destruct (served_step req _ _ _ Hs2 Hok Hr2) as [_ H2].
  destruct (step_extends name v _ _ _ _ H1) as (v1 & E1 & He1); [by eapply reads_past_keeps | done|].
  destruct (run_extends name es _ _ v1 Hrun Hno E1) as (v2 & E2 & He2).
  eapply (past_answer name v v2); [done | done | by etrans | done..].
Qed.

End simulation.
