(* ===== verification/ServiceRefinement.v ===== *)
(** * The server implements the service machine

    [Refinement] for the tables, and here the transactions: which handlers
    leave the transaction manager alone, what the others do to it, and the
    theorem for whole histories of a server. *)
From S2P Require Import Prelude Json Prog CacheInterface LRU MVCC Lock Models PartitionSpec GoJson Postgres World PgClient PgFacts.
From S2P Require Import PgPlain Sorting Reads Registry Commit Wf Visibility Coherence CommitFacts ManifestStore SchemaStore SpecStore.
From S2P Require Import Catalog CatalogFacts CatalogWf DDL Proto Server ServerFacts Service Pages History TxFacts Readback.
From S2P Require Import CatalogSpec ServiceSpec CatalogView Refinement.

(** ** What leaves the transactions alone *)

Section aloof.
Context (m : MVCCManager) (clock : Z).

(** The manager and the process clock have these values. *)
Definition mvcc_at (s : Sys) : Prop := sys_mvcc s = m /\ sys_clock s = clock.

Lemma aloof_on_pg {A} (f : PG -> A * PG) : keeps mvcc_at (on_pg f).
Proof. apply keeps_act_total. intros s Hs. by destruct (f (sys_pg s)). Qed.

Lemma aloof_on_cache {A} f : keeps mvcc_at (on_cache (A := A) f).
Proof. apply keeps_act_total. intros s Hs. by destruct (f (sys_cache s)). Qed.

Lemma aloof_cache_disabled : keeps mvcc_at cache_disabled.
Proof. by apply keeps_act_total. Qed.

Lemma aloof_lock_op f : keeps mvcc_at (lock_op f).
Proof. apply keeps_act_partial. intros s x s' Hs. destruct (f (sys_locks s)); [|done]. by intros [= <- <-]. Qed.

Lemma aloof_get_mutex t : keeps mvcc_at (get_mutex t).
Proof. apply keeps_act_total. intros s Hs. by destruct (getOrCreate t (sys_locks s)). Qed.

End aloof.

Create HintDb aloof.
#[export] Hint Resolve aloof_on_pg aloof_on_cache aloof_cache_disabled aloof_lock_op aloof_get_mutex : aloof.

Ltac head_of t := match t with ?f _ => head_of f | _ => t end.

(** Proves [keeps (mvcc_at m clock) p], unfolding [p] down to its actions. *)
Ltac solve_aloof :=
  repeat first
    [ match goal with |- forall _, _ => intro end
    | apply keeps_ret
    | solve [auto 1 with aloof]
    | apply keeps_deferred
    | apply keeps_for_each
    | apply keeps_bind
    | match goal with |- keeps _ (match ?x with _ => _ end) => destruct x end
    | match goal with |- keeps _ ?p => let h := head_of p in progress unfold h end
    | progress cbv zeta ].

Section frames.
Context `{Postgres} `{GoText}.

Lemma aloof_list_summaries m clock rows : keeps (mvcc_at m clock) (list_summaries rows).
Proof. induction rows as [|t rows IH]; cbn [list_summaries]; solve_aloof. Qed.

#[local] Hint Resolve aloof_list_summaries : aloof.

(** Requests other than those of the transactions. *)
Definition on_tables {A} (req : Request A) : Prop :=
  match req with ReqBeginTransaction _ | ReqCommitTransaction _ | ReqAbortTransaction _ => False | _ => True end.

Lemma aloof_serve {A} (req : Request A) m clock : on_tables req -> keeps (mvcc_at m clock) (serve req).
Proof. destruct req; intros Hr; try destruct Hr; cbn [serve]; solve_aloof. Qed.

(** ** The requests of the transactions *)

Definition open_txn (tx : TransactionState) : OpenTxn := mkOpenTxn (ReadSnapshotID tx) (StartedAt tx).

(** The state of the machine that a server is in. *)
Definition service_of (s : Sys) : ServiceState :=
  mkServiceState (catalog_of (db s)) (open_txn <$> activeTransactions (sys_mvcc s))
    (pg_seqs (sys_pg s) SeqTransactions) (sys_clock s).

(** The time limit is set once. *)
Definition limit (s : Sys) : Z := txnTimeout (sys_mvcc s).

(** What a handler does to the transactions, and that it leaves the clock and
    the time limit. *)
Definition txn_refines {A} (p : Prog Sys (rpc A)) (req : Request A) : Prop :=
  forall s, ready s -> wp p s (fun reply s' =>
    txn_step (limit s) req (service_of s) reply (service_of s') /\ sys_clock s' = sys_clock s /\ limit s' = limit s).

Lemma txn_refines_tables {A} (req : Request A) s reply s' :
  on_tables req -> run (serve req) s = Some (reply, s') ->
  txn_step (limit s) req (service_of s) reply (service_of s') /\ sys_clock s' = sys_clock s /\ limit s' = limit s.
Proof.
  intros Hr Hrun. destruct (keeps_run _ _ _ _ _ (aloof_serve req (sys_mvcc s) (sys_clock s) Hr) (conj eq_refl eq_refl) Hrun) as [Hm Hc].
  unfold limit. rewrite Hm, Hc. split; [|done]. destruct req; try destruct Hr; cbn; by rewrite Hm.
Qed.

Lemma alive_active timeout now m id :
  alive timeout now ((open_txn <$> activeTransactions m) !! id) =
  match activeTransactions m !! id with Some tx => time_sub now (StartedAt tx) <=? timeout | None => false end.
Proof. rewrite lookup_fmap. by destruct (activeTransactions m !! id). Qed.

Lemma commit_limit now id m : txnTimeout (MVCC.CommitTransaction now id m).2 = txnTimeout m.
Proof. unfold MVCC.CommitTransaction. destruct (activeTransactions m !! id); [|done]. by destruct (expired _ _ _). Qed.

Lemma abort_active id m :
  activeTransactions (MVCC.AbortTransaction id m) = delete id (activeTransactions m) /\
  txnTimeout (MVCC.AbortTransaction id m) = txnTimeout m.
Proof.
  unfold MVCC.AbortTransaction. destruct (activeTransactions m !! id) eqn:E; [done|]. by rewrite delete_id.
Qed.

Lemma txn_CommitTransaction r : txn_refines (CommitTransaction r) (ReqCommitTransaction r).
Proof.
  intros s [Hwf Hq Hc]. unfold CommitTransaction. rewrite wp_bind, wp_on_mvcc. set (id := cq_TxnId r).
  set (m := (MVCC.CommitTransaction (sys_clock s) id (sys_mvcc s)).2).
  assert (Hopen : open_txn <$> activeTransactions m = delete id (open_txn <$> activeTransactions (sys_mvcc s))).
  { unfold m. by rewrite CommitTransaction_active, fmap_delete. }
  assert (Hlim : txnTimeout m = limit s) by apply commit_limit.
  rewrite CommitTransaction_alive. cbn [txn_step]. cbv zeta. cbn [sv_open sv_clock service_of]. fold id. rewrite alive_active.
  fold (limit s). destruct (match activeTransactions _ !! id with Some _ => _ | None => _ end); cbn [negb].
  - rewrite wp_bind. eapply wp_mono; [by apply wp_UpdateTransactionStatus|]. intros x s' (-> & Hf & _). rewrite wp_ret.
    unfold limit. rewrite (fr_mvcc _ _ Hf), (fr_clock _ _ Hf). done.
  - rewrite wp_ret. done.
Qed.

Lemma txn_AbortTransaction r : txn_refines (AbortTransaction r) (ReqAbortTransaction r).
Proof.
  intros s [Hwf Hq Hc]. unfold AbortTransaction. rewrite wp_bind, wp_on_mvcc. cbn [fst snd].
  destruct (abort_active (aq_TxnId r) (sys_mvcc s)) as [Ha Hl]. rewrite wp_bind.
  eapply wp_mono; [by apply wp_UpdateTransactionStatus|]. intros x s' (-> & Hf & _). rewrite wp_ret.
  cbn [txn_step service_of sv_open]. unfold limit. rewrite (fr_mvcc _ _ Hf), (fr_clock _ _ Hf). cbn.
  by rewrite Ha, fmap_delete.
Qed.

Lemma txn_BeginTransaction r : txn_refines (BeginTransaction r) (ReqBeginTransaction r).
Proof.
  intros s Hs. pose proof Hs as [[Hwf Hfree Hm] Hq Hc]. unfold BeginTransaction. cbv zeta.
  destruct (String.eqb (txq_ClientId r) ""); [by rewrite wp_ret|].
  destruct (String.eqb (txq_TableName r) ""); [by rewrite wp_ret|]. rewrite wp_bind.
  eapply wp_mono; [by apply wp_GetTable_frame|]. intros x s1 (_ & Hi1 & Hf1).
  destruct (read_safe _ _ (rd_wf _ Hs) Hi1 Hf1) as (Hwf1 & _). destruct Hi1 as (_ & _ & Hseq1 & _).
  assert (Hend : forall s2, frame s1 s2 -> sys_mvcc s2 = sys_mvcc s /\ sys_clock s2 = sys_clock s).
  { intros s2 Hf2. split; [by rewrite (fr_mvcc _ _ Hf2), (fr_mvcc _ _ Hf1) | by rewrite (fr_clock _ _ Hf2), (fr_clock _ _ Hf1)]. }
  destruct (Hend s1 (frame_refl s1)) as [Hm1 Hc1]. unfold limit.
  destruct x as [[row|]|e]; [|rewrite wp_ret; cbn; by rewrite Hm1..]. rewrite wp_bind.
  eapply wp_mono; [by apply wp_InsertTransaction|]. intros x s2 (Hf2 & _ & Hx). destruct (Hend s2 Hf2) as [Hm2 Hc2].
  destruct x as [txn|e]; [|rewrite wp_ret; cbn; by rewrite Hm2]. destruct Hx as (Htxn & _ & Hseq2 & _). rewrite Hseq1 in Htxn.
  rewrite wp_bind, wp_on_mvcc, wp_ret. cbn. rewrite Hm2, Hc2, Hseq2. split; [split; [lia|] | done].
  by rewrite fmap_insert.
Qed.

(** *** All requests *)

Lemma served_service {A} (req : Request A) s reply s' :
  ready s -> request_ok req -> run (serve req) s = Some (reply, s') ->
  ready s' /\ limit s' = limit s /\ service_step (limit s) req (service_of s) reply (service_of s').
Proof.
  intros Hs Hok Hrun. destruct (served_step req s reply s' Hs Hok Hrun) as [Hs' Hcat].
  assert (Htxn : txn_step (limit s) req (service_of s) reply (service_of s') /\ sys_clock s' = sys_clock s /\ limit s' = limit s).
  { destruct req; try (by apply txn_refines_tables); [pose proof (txn_BeginTransaction r s Hs) as Hw |
      pose proof (txn_CommitTransaction r s Hs) as Hw | pose proof (txn_AbortTransaction r s Hs) as Hw];
      unfold wp in Hw; cbn [serve] in Hrun; by rewrite Hrun in Hw. }
  destruct Htxn as (Ht & Hclock & Hlim). split; [done|]. split; [done|]. split; [done | done | | done].
  pose proof (ok_serve req Hok s (rd_wf _ Hs)) as Hw. unfold wp in Hw. rewrite Hrun in Hw.
  destruct Hw as (_ & _ & _ & Hle). apply (Hle SeqTransactions).
Qed.

(** ** Histories of a server *)

Lemma background_between s s' : background s s' -> limit s' = limit s /\ between (limit s) (service_of s) (service_of s').
Proof.
  intros [s0 n s1 Hrun|s0 now clock]; [|split; [done | apply between_clock]].
  unfold CleanupExpiredTransactions, on_mvcc in Hrun. cbn in Hrun.
  destruct (MVCC.CleanupExpiredTransactions (sys_clock s0) (sys_mvcc s0)) as [n' m] eqn:E. injection Hrun as <- <-.
  unfold MVCC.CleanupExpiredTransactions in E.
  destruct (cleanup_any_order (sys_clock s0) _ (sys_mvcc s0) (reflexivity _)) as (_ & Hlim & _ & Hact & _).
  rewrite E in Hlim, Hact. cbn in Hlim, Hact. split; [exact Hlim|].
  assert (Hs : service_of (set_mvcc m s0) = mkServiceState (sv_tables (service_of s0))
    (filter (fun p => alive (limit s0) (sv_clock (service_of s0)) (Some p.2) = true) (sv_open (service_of s0)))
    (sv_issued (service_of s0)) (sv_clock (service_of s0))); [|rewrite Hs; apply between_cleanup].
  unfold service_of. cbn. f_equal. rewrite Hact, map_filter_fmap. f_equal. apply map_filter_ext. intros i tx _. cbn.
  unfold limit, expired. rewrite Z.leb_antisym. by destruct (_ <? _).
Qed.

Lemma history_service es s s' : history es s s' -> ready s ->
  ready s' /\ limit s' = limit s /\ service_run (limit s) es (service_of s) (service_of s').
Proof.
  induction 1 as [s|A req s reply s1 es s' Hok Hrun Hh IH|s s1 es s' Hb Hh IH]; intros Hs.
  - split; [done|]. split; [done | constructor].
  - destruct (served_service _ _ _ _ Hs Hok Hrun) as (Hs1 & Hl1 & Hstep). destruct (IH Hs1) as (Hs' & Hl' & Hrest).
    rewrite Hl1 in *. split; [done|]. split; [done | by eapply run_serve].
  - destruct (background_between _ _ Hb) as [Hl1 Hbt]. destruct (background_ready _ _ Hb Hs) as [Hs1 _].
    destruct (IH Hs1) as (Hs' & Hl' & Hrest). rewrite Hl1 in *. split; [done|]. split; [done | by eapply run_between].
Qed.

(** A server starts with no transaction. *)
Lemma started_open healthy s : started healthy s -> sv_open (service_of s) = ∅.
Proof. intros (cfg & pg & clock & -> & _). cbn. apply fmap_empty. Qed.

(** ** Properties *)

(** C3. The server is the service machine: while the network delivers, the
    requests a server answers, from its start on a well-formed database, with
    their replies, are a run of the abstract service, which starts with no
    open transaction: every read has the reply its state determines (the
    snapshots of a table are listed last-committed first, where only the order
    of equal commit times is open, as is the wording of internal errors),
    every accepted write its specified effect, a commit of a transaction is
    accepted exactly when it is open and within the time limit, and nothing
    else changes anything, between the states read off the server before and
    after. *)
Theorem server_implements_service (s0 s : Sys) (es : list event) :
  started true s0 -> history es s0 s ->
  sv_open (service_of s0) = ∅ /\ service_run (limit s0) es (service_of s0) (service_of s).
Proof.
  intros Hst Hh. split; [by eapply started_open|].
  apply (history_service es s0 s Hh), in_order_ready. by apply started_in_order.
Qed.

(** C27. A transaction commits at most once, and only if it was begun and
    has not ended: while the network delivers, before any accepted commit of
    an id, in the whole life of a server, a [BeginTransaction] was answered
    with that id, with no commit accepted and no abort of it in between, and
    no other commit of that id is accepted before or after. *)
Theorem transaction_commits_once (s0 s : Sys) (es1 es2 : list event) (e : event) (id : Z) :
  started true s0 -> history (es1 ++ e :: es2) s0 s -> commits id e ->
  (exists pre snap b mid, es1 = pre ++ b :: mid /\ begins id snap b /\
     Forall (fun e => ~ commits id e /\ ~ aborts id e) mid) /\
  Forall (fun e => ~ commits id e) (es1 ++ es2).
Proof.
  intros Hst Hh Hc. destruct (history_service _ _ _ Hh) as (_ & _ & Hrun); [by apply in_order_ready, started_in_order|].
  eapply run_commits; [exact Hrun | by eapply started_open | done].
Qed.

End frames.
