(* ===== verification/PastRows.v ===== *)
(** * What statements leave of a table's past

    [past d]: the rows of [d] answer every query for the past of one table
    (its files up to a snapshot, its snapshots, manifests and spec versions)
    as some earlier rows [d0] did, and the table still carries its name.  A
    [harmless] effect keeps [past] in whatever state it takes hold, and a
    [mild] statement has a harmless effect: every statement of the
    server is mild but the drops and the rename of the table itself. *)
From S2P Require Import Prelude Prog Models PartitionSpec GoJson Postgres World PgClient PgFacts Reads.
From S2P Require Import Sorting Registry Commit Wf Visibility CatalogWf.

(** ** Rows a query does not see *)

Section unseen.
Context {A : Type}.
Implicit Types (f c : A -> bool) (l : list A).

Lemma filter_snoc_unseen f l x : f x = false -> List.filter f (l ++ [x]) = List.filter f l.
Proof. intros Hx. rewrite List.filter_app. cbn. rewrite Hx. apply app_nil_r. Qed.

Lemma filter_delete_unseen f c l :
  (forall x, x ∈ List.filter f l -> c x = false) -> List.filter f (delete_where c l) = List.filter f l.
Proof.
  intros Hc. unfold delete_where. rewrite filter_filter. apply filter_ext_elem. intros x Hx.
  destruct (f x) eqn:E; [|apply andb_false_r]. rewrite Hc; [done|]. by apply list_elem_of_In, filter_In; rewrite <- list_elem_of_In.
Qed.

Lemma filter_update_seen f c u l :
  (forall x, x ∈ l -> c x = true -> f (u x) = f x) -> List.filter f (update_where c u l) = update_where c u (List.filter f l).
Proof.
  intros Hu. unfold update_where. rewrite filter_map_comm. f_equal. apply filter_ext_elem. intros x Hx.
  destruct (c x) eqn:E; [by apply Hu | done].
Qed.

End unseen.

Section past.
Context `{Postgres} `{GoText}.

(** Rows [d0], well-formed when the sequences were at [q0], and a live table
    of theirs. *)
Context (d0 : DB) (q0 : Seqs) (Hwf : db_wf q0 d0) (name : string) (id : Z) (Hid : table_id name d0 = Some id).

(** The snapshots issued so far. *)
Definition issued_by (n : Z) : Prop := n <= q0 SeqSnapshots.

#[global] Instance issued_by_dec n : Decision (issued_by n).
Proof. unfold issued_by. apply _. Defined.

(** The conditions of the queries. *)
Definition is_snapshot (n : Z) (r : snapshots_row) : bool := (s_table_id r =? id) && (s_snapshot_id r =? n).
Definition is_list (n : Z) (r : manifest_lists_row) : bool := (ml_snapshot_id r =? n) && (ml_table_id r =? id).
Definition is_spec (v : Z) (r : partition_specs_row) : bool := (ps_table_id r =? id) && (ps_spec_version r =? v).

(** A manifest of the table, and a spec version. *)
Definition has_manifest (m : Z) : Prop := exists r, r ∈ manifest_files d0 /\ mf_table_id r = id /\ mf_manifest_file_id r = m.
Definition has_spec (v : Z) : Prop := existsb (is_spec v) (partition_specs d0) = true.

Record past (d : DB) : Prop := {
  pa_named : forall r, r ∈ tables d -> live_named name r = (t_table_id r =? id);
  pa_there : has_table id d = true;
  pa_files : forall n, issued_by n ->
    map scan_partition (visible_rows id n d) = map scan_partition (visible_rows id n d0);
  pa_snapshot : forall n, issued_by n -> List.filter (is_snapshot n) (snapshots d) = List.filter (is_snapshot n) (snapshots d0);
  pa_list : forall n, issued_by n ->
    List.filter (is_list n) (manifest_lists d) = List.filter (is_list n) (manifest_lists d0);
  pa_manifests : forall n, n ∈ snapshot_ids id d0 -> manifests_of n d = manifests_of n d0;
  pa_manifest : forall m, has_manifest m ->
    List.filter (fun r => mf_manifest_file_id r =? m) (manifest_files d) =
    List.filter (fun r => mf_manifest_file_id r =? m) (manifest_files d0);
  pa_spec : forall v, has_spec v ->
    List.filter (is_spec v) (partition_specs d) = List.filter (is_spec v) (partition_specs d0);
}.

(** ** The table in past rows *)

Lemma live_id r : r ∈ tables d0 -> live_named name r = (t_table_id r =? id).
Proof.
  intros Hr. unfold table_id in Hid. destruct (live_table name d0) as [r0|] eqn:E; [|done]. injection Hid as <-.
  pose proof E as [Hin Hl]%live_table_in. destruct (Z.eqb_spec (t_table_id r) (t_table_id r0)) as [Ei|Hne].
  - by rewrite (NoDup_map_inj t_table_id (tables d0) r r0 (wf_table_ids _ _ Hwf)).
  - apply not_true_iff_false. intros Hn. rewrite (live_table_unique Hwf name r Hr Hn) in E. congruence.
Qed.

Lemma past_start : past d0.
Proof. split; try done; [apply live_id | by eapply has_table_id]. Qed.

Lemma past_live d : past d -> exists r, live_table name d = Some r /\ t_table_id r = id.
Proof.
  intros Hp. pose proof (pa_there _ Hp) as Ht. unfold has_table in Ht. apply existsb_exists in Ht as (r & Hr & Ei).
  unfold live_table. destruct (List.filter (live_named name) (tables d)) as [|r1 l] eqn:E.
  - assert (Hin : In r []); [|done]. rewrite <- E. apply filter_In. rewrite (pa_named _ Hp) by (by apply list_elem_of_In). done.
  - exists r1. split; [done|]. assert (Hin : In r1 (r1 :: l)) by (by left). rewrite <- E in Hin.
    apply filter_In in Hin as [Hin Hl]. rewrite (pa_named _ Hp) in Hl by (by apply list_elem_of_In). by apply Z.eqb_eq.
Qed.

Lemma past_id d : past d -> table_id name d = Some id.
Proof. intros (r & Hr & Ei)%past_live. unfold table_id. rewrite Hr. cbn. by rewrite Ei. Qed.

Lemma id_issued : issued q0 SeqTables id.
Proof.
  unfold table_id in Hid. destruct (live_table name d0) as [r|] eqn:E; [|done]. injection Hid as <-.
  by destruct (live_table_wf Hwf name r E).
Qed.

Lemma past_id_or d : past d -> table_id_or name d = id /\ (id <? 0) = false.
Proof.
  intros Hp. unfold table_id_or. rewrite (past_id _ Hp). split; [done|]. destruct id_issued. apply Z.ltb_ge. lia.
Qed.

(** Other names are other tables. *)
Lemma past_other_row d r t : past d -> r ∈ tables d -> t <> name -> t_table_name r = t -> (t_table_id r =? id) = false.
Proof.
  intros Hp Hr Hne <-. rewrite <- (pa_named _ Hp r Hr). unfold live_named.
  by rewrite (proj2 (String.eqb_neq _ _) Hne).
Qed.

Lemma past_other_id d t i : past d -> t <> name -> table_id t d = Some i -> i <> id.
Proof.
  intros Hp Hne. unfold table_id. destruct (live_table t d) as [r|] eqn:E; [|done]. intros [= <-].
  apply live_table_in in E as [Hin Hn]. apply Z.eqb_neq.
  eapply past_other_row; [done..|]. unfold live_named in Hn. by apply andb_true_iff in Hn as [?%String.eqb_eq _].
Qed.

(** The manifests a query for the past finds are the table's. *)
Lemma manifests_own n r : n ∈ snapshot_ids id d0 -> r ∈ manifests_of n d0 -> mf_table_id r = id.
Proof.
  intros Hn Hr. apply list_elem_of_In, filter_In in Hr as [Hr%list_elem_of_In En%Z.eqb_eq].
  apply (wf_manifest_files _ _ Hwf) in Hr. apply elem_of_snapshot_ids in Hn as (x & Hx & <- & <-), Hr as (y & Hy & <- & Ey).
  f_equal. apply (NoDup_map_inj s_snapshot_id (snapshots d0)); [apply Hwf | done..| congruence].
Qed.

Lemma manifest_own m r : has_manifest m -> r ∈ manifest_files d0 -> mf_manifest_file_id r = m -> mf_table_id r = id.
Proof.
  intros (x & Hx & <- & <-) Hr E. f_equal. apply (NoDup_map_inj mf_manifest_file_id (manifest_files d0)); [apply Hwf | done..].
Qed.

Lemma manifest_issued m : has_manifest m -> m <= q0 SeqManifestFiles.
Proof. intros (x & Hx & _ & <-). by destruct (wf_manifest_issued _ _ Hwf x Hx). Qed.

(** ** Changes of one relation *)

Lemma past_tables x d : past d ->
  (forall r, r ∈ x -> live_named name r = (t_table_id r =? id)) ->
  existsb (fun r => t_table_id r =? id) x = true -> past (set_tables x d).
Proof. intros [] Hn Hx. by split. Qed.

Lemma past_update_tables c u d : past d ->
  (forall r, r ∈ tables d -> c r = true -> t_table_id (u r) = t_table_id r /\ live_named name (u r) = live_named name r) ->
  past (set_tables (update_where c u (tables d)) d).
Proof.
  intros Hp Hu. apply past_tables; [done | |].
  - intros r (x & Hx & ->)%elem_of_update_where. destruct (c x) eqn:E; [|by apply (pa_named _ Hp)].
    destruct (Hu x Hx E) as [-> ->]. by apply (pa_named _ Hp).
  - pose proof (pa_there _ Hp) as Ht. unfold has_table in Ht. apply existsb_exists in Ht as (r & Hr%list_elem_of_In & Ei).
    apply existsb_exists. exists (if c r then u r else r). split.
    + apply list_elem_of_In, elem_of_update_where. by exists r.
    + destruct (c r) eqn:E; [|done]. by rewrite (proj1 (Hu r Hr E)).
Qed.

Lemma past_schema_history x d : past d -> past (set_schema_history x d).
Proof. by intros []. Qed.

Lemma past_transactions x d : past d -> past (set_transactions x d).
Proof. by intros []. Qed.

Lemma past_snapshots x d : past d ->
  (forall n, issued_by n -> List.filter (is_snapshot n) x = List.filter (is_snapshot n) (snapshots d)) -> past (set_snapshots x d).
Proof. intros [] Hx. split; try done. intros n Hn. cbn. rewrite Hx by done. auto. Qed.

Lemma past_partitions x d : past d ->
  (forall n, issued_by n -> map scan_partition (order_by p_partition_id (List.filter (visible id n) x)) =
     map scan_partition (visible_rows id n d)) -> past (set_partitions x d).
Proof. intros [] Hx. split; try done. intros n Hn. etrans; [by apply Hx | auto]. Qed.

Lemma past_manifest_lists x d : past d ->
  (forall n, issued_by n -> List.filter (is_list n) x = List.filter (is_list n) (manifest_lists d)) ->
  past (set_manifest_lists x d).
Proof. intros [] Hx. split; try done. intros n Hn. cbn. rewrite Hx by done. auto. Qed.

Lemma past_manifest_files x d : past d ->
  (forall n, n ∈ snapshot_ids id d0 -> List.filter (fun r => mf_snapshot_id r =? n) x = manifests_of n d) ->
  (forall m, has_manifest m -> List.filter (fun r => mf_manifest_file_id r =? m) x =
     List.filter (fun r => mf_manifest_file_id r =? m) (manifest_files d)) -> past (set_manifest_files x d).
Proof.
  intros [] Hs Hm. split; try done.
  - intros n Hn. etrans; [by apply Hs | auto].
  - intros m Hn. cbn. rewrite Hm by done. auto.
Qed.

Lemma past_partition_specs x d : past d ->
  (forall v, has_spec v -> List.filter (is_spec v) x = List.filter (is_spec v) (partition_specs d)) ->
  past (set_partition_specs x d).
Proof. intros [] Hx. split; try done. intros v Hv. cbn. rewrite Hx by done. auto. Qed.

(** ** Statements *)

Definition harmless (eff : DB -> DB) : Prop := forall d, past d -> past (eff d).

Definition mild {A} (st : Stmt A) : Prop := forall now d q a eff q',
  past d -> seqs_le q0 q -> st now d q = (Ok (a, eff), q') -> harmless eff.

Lemma harmless_view log d : Forall harmless log -> past d -> past (tx_view log d).
Proof.
  unfold tx_view. intros Hl. revert d. induction Hl as [|f log Hf _ IH]; intros d Hp; cbn; [done|]. apply IH. by apply Hf.
Qed.

Lemma mild_select {A} (f : DB -> A) : mild (select f).
Proof. by intros now d q a eff q' _ _ [= <- <- <-] d' Hp. Qed.

(** *** Tables *)

Lemma mild_insert_table t schema spec props : mild (sql_insert_table t schema spec props).
Proof.
  intros now d q a eff q' Hp Hq Hst. unfold sql_insert_table in Hst. stmt_cases Hst; [by intros d' Hp'|]. intros d' Hp'.
  pose proof id_issued as [_ Hle]. destruct (Hq SeqTables) as [Hle' _]. apply past_tables; [done | |].
  - intros r [Hr|Hr%list_elem_of_singleton]%elem_of_app; [by apply (pa_named _ Hp')|]. subst r. cbn.
    rewrite (proj2 (Z.eqb_neq (q SeqTables + 1) id)) by lia. unfold live_named. cbn.
    destruct (String.eqb_spec t name) as [->|]; [|done]. exfalso.
    destruct (past_live _ Hp) as (r & Hr & _). apply live_table_in in Hr as [Hr Hl].
    match goal with E : existsb _ (tables d) = false |- _ => apply not_true_iff_false in E; apply E end.
    apply existsb_exists. exists r. split; [by apply list_elem_of_In|]. unfold live_named in Hl.
    by apply andb_true_iff in Hl as [? _].
  - rewrite existsb_app. apply orb_true_iff. left. apply (pa_there _ Hp').
Qed.

(** An update of the live rows of a name that keeps their names and marks. *)
Lemma harmless_update t u :
  (forall r, t_table_id (u r) = t_table_id r /\ t_table_name (u r) = t_table_name r /\ t_is_deleted (u r) = t_is_deleted r) ->
  harmless (fun d => set_tables (update_where (live_named t) u (tables d)) d).
Proof.
  intros Hu d Hp. apply past_update_tables; [done|]. intros r _ _. destruct (Hu r) as (Hi & Hn & Hd).
  unfold live_named. by rewrite Hi, Hn, Hd.
Qed.

Lemma mild_update_schema schema v t : mild (sql_update_schema schema v t).
Proof.
  intros now d q a eff q' _ _ Hst. unfold sql_update_schema in Hst. stmt_cases Hst. by apply harmless_update.
Qed.

Lemma mild_update_spec spec v t : mild (sql_update_spec spec v t).
Proof. intros now d q a eff q' _ _ Hst. unfold sql_update_spec in Hst. stmt_cases Hst. by apply harmless_update. Qed.

Lemma mild_update_snapshot n t : mild (sql_update_snapshot n t).
Proof. intros now d q a eff q' _ _ Hst. unfold sql_update_snapshot in Hst. stmt_cases Hst. by apply harmless_update. Qed.

Lemma mild_soft_delete_table t : t <> name -> mild (sql_soft_delete_table t).
Proof.
  intros Hne now d q a eff q' _ _ Hst. unfold sql_soft_delete_table in Hst. stmt_cases Hst. intros d' Hp'.
  apply past_update_tables; [done|]. intros r _ Hr. split; [done|]. unfold live_named in *.
  apply andb_true_iff in Hr as [Hn%String.eqb_eq _]. cbn [t_table_name t_is_deleted set_deleted].
  by rewrite Hn, (proj2 (String.eqb_neq _ _) Hne).
Qed.

Lemma mild_delete_table t : t <> name -> mild (sql_delete_table t).
Proof.
  intros Hne now d q a eff q' _ _ Hst. unfold sql_delete_table in Hst. stmt_cases Hst. intros d' Hp'.
  destruct (past_live _ Hp') as (r0 & Hr0 & Ei). apply live_table_in in Hr0 as [Hin0 Hl0]. apply past_tables; [done | |].
  - intros r [Hr _]%elem_of_delete_where. by apply (pa_named _ Hp').
  - apply existsb_exists. exists r0. split; [|by apply Z.eqb_eq]. apply list_elem_of_In, elem_of_delete_where.
    split; [done|]. unfold live_named in Hl0. apply andb_true_iff in Hl0 as [->%String.eqb_eq _]. apply String.eqb_neq. congruence.
Qed.

(** The rename runs outside transactions: its effect takes hold at once. *)
Lemma rename_past newName t now d q a eff q' :
  t <> name -> past d -> sql_rename_table newName t now d q = (Ok (a, eff), q') -> past (eff d).
Proof.
  intros Hne Hp Hst. unfold sql_rename_table in Hst. stmt_cases Hst. apply past_update_tables; [done|].
  intros r Hr Hl. split; [done|]. apply andb_true_iff in Hl as Hl'. destruct Hl' as [Hn%String.eqb_eq Hd].
  replace (live_named name r) with false by (unfold live_named; by rewrite Hn, (proj2 (String.eqb_neq _ _) Hne)).
  unfold live_named. cbn [t_table_name t_is_deleted set_name]. destruct (String.eqb_spec newName name) as [->|]; [exfalso|done].
  destruct (past_live _ Hp) as (r0 & Hr0 & _). apply live_table_in in Hr0 as [Hin0 Hl0].
  unfold live_named in Hl0. apply andb_true_iff in Hl0 as [Hn0%String.eqb_eq _].
  match goal with E : name_free_for _ _ _ = true |- _ => unfold name_free_for in E; apply orb_true_iff in E as [E|E] end;
    match goal with E : negb (existsb _ _) = true |- _ => apply negb_true_iff, not_true_iff_false in E; apply E end; apply existsb_exists.
  - exists r. by rewrite <- list_elem_of_In.
  - exists r0. split; [by apply list_elem_of_In|]. rewrite Hn0, String.eqb_refl. unfold live_named. rewrite Hn0.
    cbn. by rewrite (proj2 (String.eqb_neq name t)) by congruence.
Qed.

(** *** Other relations *)

Lemma mild_insert_schema_history i v schema summary : mild (sql_insert_schema_history i v schema summary).
Proof.
  intros now d q a eff q' _ _ Hst. unfold sql_insert_schema_history in Hst. stmt_cases Hst. intros d' Hp'. by apply past_schema_history.
Qed.

Lemma mild_insert_transaction client i n isolation : mild (sql_insert_transaction client i n isolation).
Proof.
  intros now d q a eff q' _ _ Hst. unfold sql_insert_transaction in Hst. stmt_cases Hst. intros d' Hp'. by apply past_transactions.
Qed.

Lemma mild_update_transaction status i : mild (sql_update_transaction status i).
Proof.
  intros now d q a eff q' _ _ Hst. unfold sql_update_transaction in Hst. stmt_cases Hst. intros d' Hp'. by apply past_transactions.
Qed.

Lemma mild_insert_snapshot i parent operation added deleted : mild (sql_insert_snapshot i parent operation added deleted).
Proof.
  intros now d q a eff q' _ Hq Hst. unfold sql_insert_snapshot in Hst. stmt_cases Hst. intros d' Hp'.
  destruct (Hq SeqSnapshots) as [Hle _]. apply past_snapshots; [done|]. intros n Hn. apply filter_snoc_unseen.
  unfold is_snapshot. cbn. unfold issued_by in Hn. rewrite (proj2 (Z.eqb_neq (q SeqSnapshots + 1) n)) by lia. apply andb_false_r.
Qed.

(** A file of a later snapshot is not visible at an earlier one. *)
Lemma mild_insert_partition i n part stats : ~ issued_by n -> mild (sql_insert_partition i n part stats).
Proof.
  intros Hnew now d q a eff q' _ _ Hst. unfold sql_insert_partition in Hst. stmt_cases Hst. intros d' Hp'.
  apply past_partitions; [done|]. intros m Hm. rewrite filter_snoc_unseen; [done|]. unfold visible. cbn.
  unfold issued_by in *. rewrite (proj2 (Z.leb_gt n m)) by lia. by rewrite andb_false_r.
Qed.

(** A file deleted by a later snapshot stays visible at an earlier one. *)
Lemma mild_mark_deleted n i key : ~ issued_by n -> mild (sql_mark_deleted n i key).
Proof.
  intros Hnew now d q a eff q' _ _ Hst. unfold sql_mark_deleted in Hst. stmt_cases Hst. intros d' Hp'.
  apply past_partitions; [done|]. intros m Hm. unfold issued_by in *. rewrite filter_update_seen.
  - unfold update_where. rewrite (order_by_map p_partition_id p_partition_id), List.map_map.
    + apply List.map_ext. intros r. by destruct (live_keyed i key r).
    + intros r. by destruct (live_keyed i key r).
  - intros r _ Hr. unfold live_keyed in Hr. apply andb_true_iff in Hr as [_ Hr%negb_true_iff]. unfold visible. cbn.
    rewrite Hr. cbn. destruct (Z.ltb_spec m n); [done | lia].
Qed.

Lemma mild_insert_manifest_file row : ~ issued_by (mfr_SnapshotID row) -> mild (sql_insert_manifest_file row).
Proof.
  intros Hnew now d q a eff q' _ Hq Hst. unfold sql_insert_manifest_file in Hst. stmt_cases Hst. intros d' Hp'.
  apply past_manifest_files; [done | |].
  - intros n [_ Hn]%(snapshot_id_issued Hwf). apply filter_snoc_unseen. cbn. apply Z.eqb_neq. unfold issued_by in *. lia.
  - intros m Hm%manifest_issued. destruct (Hq SeqManifestFiles) as [Hle _]. apply filter_snoc_unseen. cbn. apply Z.eqb_neq. lia.
Qed.

Lemma mild_insert_manifest_list n i count : ~ issued_by n -> mild (sql_insert_manifest_list n i count).
Proof.
  intros Hnew now d q a eff q' _ _ Hst. unfold sql_insert_manifest_list in Hst. stmt_cases Hst. intros d' Hp'.
  apply past_manifest_lists; [done|]. intros m Hm. apply filter_snoc_unseen. unfold is_list, issued_by in *. cbn.
  by rewrite (proj2 (Z.eqb_neq n m)) by lia.
Qed.

(** A version on record is never inserted again. *)
Lemma mild_insert_partition_spec i v spec summary : mild (sql_insert_partition_spec i v spec summary).
Proof.
  intros now d q a eff q' Hp _ Hst. unfold sql_insert_partition_spec in Hst. stmt_cases Hst. intros d' Hp'.
  apply past_partition_specs; [done|]. intros w Hw. apply filter_snoc_unseen. unfold is_spec. cbn.
  destruct (Z.eqb_spec i id) as [->|]; [|done]. destruct (Z.eqb_spec v w) as [->|]; [exfalso|done].
  match goal with E : negb (existsb _ _) = true |- _ => apply negb_true_iff, not_true_iff_false in E; apply E end.
  unfold has_spec in Hw. apply existsb_exists in Hw as Hw'. destruct Hw' as (r & Hr & Er).
  assert (Hin : In r (List.filter (is_spec w) (partition_specs d))).
  { rewrite (pa_spec _ Hp w Hw). by apply filter_In. }
  apply filter_In in Hin as [Hin _]. apply existsb_exists. by exists r.
Qed.

(** *** Deletes of another table's rows *)

Lemma mild_delete_manifest_files i : i <> id -> mild (sql_delete_manifest_files i).
Proof.
  intros Hne now d q a eff q' _ _ Hst. unfold sql_delete_manifest_files in Hst. stmt_cases Hst. intros d' Hp'.
  apply past_manifest_files; [done | |].
  - intros n Hn. apply filter_delete_unseen. intros r Hr. fold (manifests_of n d') in Hr. rewrite (pa_manifests _ Hp' n Hn) in Hr.
    apply (manifests_own n r Hn) in Hr. apply Z.eqb_neq. congruence.
  - intros m Hm. apply filter_delete_unseen. intros r Hr. rewrite (pa_manifest _ Hp' m Hm) in Hr.
    apply list_elem_of_In, filter_In in Hr as [Hr%list_elem_of_In Er%Z.eqb_eq].
    apply (manifest_own m r Hm Hr) in Er. apply Z.eqb_neq. congruence.
Qed.

Lemma mild_delete_manifest_lists i : i <> id -> mild (sql_delete_manifest_lists i).
Proof.
  intros Hne now d q a eff q' _ _ Hst. unfold sql_delete_manifest_lists in Hst. stmt_cases Hst. intros d' Hp'.
  apply past_manifest_lists; [done|]. intros n _. apply filter_delete_unseen.
  intros r [_ [_ Er%Z.eqb_eq]%andb_true_iff]%list_elem_of_In%filter_In. apply Z.eqb_neq. congruence.
Qed.

Lemma mild_delete_partitions i : i <> id -> mild (sql_delete_partitions i).
Proof.
  intros Hne now d q a eff q' _ _ Hst. unfold sql_delete_partitions in Hst. stmt_cases Hst. intros d' Hp'.
  apply past_partitions; [done|]. intros n _. rewrite filter_delete_unseen; [done|].
  intros r [_ [[Er%Z.eqb_eq _]%andb_true_iff _]%andb_true_iff]%list_elem_of_In%filter_In. apply Z.eqb_neq. congruence.
Qed.

Lemma mild_delete_snapshots i : i <> id -> mild (sql_delete_snapshots i).
Proof.
  intros Hne now d q a eff q' _ _ Hst. unfold sql_delete_snapshots in Hst. stmt_cases Hst. intros d' Hp'.
  apply past_snapshots; [done|]. intros n _. apply filter_delete_unseen.
  intros r [_ [Er%Z.eqb_eq _]%andb_true_iff]%list_elem_of_In%filter_In. apply Z.eqb_neq. congruence.
Qed.

Lemma mild_delete_schema_history i : mild (sql_delete_schema_history i).
Proof.
  intros now d q a eff q' _ _ Hst. unfold sql_delete_schema_history in Hst. stmt_cases Hst. intros d' Hp'.
  by apply past_schema_history.
Qed.

Lemma mild_delete_partition_specs i : i <> id -> mild (sql_delete_partition_specs i).
Proof.
  intros Hne now d q a eff q' _ _ Hst. unfold sql_delete_partition_specs in Hst. stmt_cases Hst. intros d' Hp'.
  apply past_partition_specs; [done|]. intros v _. apply filter_delete_unseen.
  intros r [_ [Er%Z.eqb_eq _]%andb_true_iff]%list_elem_of_In%filter_In. apply Z.eqb_neq. congruence.
Qed.

End past.
