(* ===== verification/Stable.v ===== *)
(** * Programs that keep the past of a table

    [stable p Q]: whatever the goroutines of a server do in between, each
    action of [p] keeps what answers for the past of one table as it was at
    the start: the rows, the effects of every open transaction if it commits,
    and the cached answers; and the result of [p] satisfies [Q].  The invariant
    [held] does not mention the locks: the past needs none. *)
From S2P Require Import Prelude Prog Protocol CacheInterface LRU MVCC Lock Models PartitionSpec GoJson Postgres World.
From S2P Require Import PgClient PgFacts Reads Registry Coherence PastRows.

(** ** The invariant *)

Section held.
Context `{Postgres} `{GoText}.

(** The server at the start, and a live table of it. *)
Context (s0 : Sys) (name : string) (id : Z).

Notation d0 := (db s0).
Notation q0 := (pg_seqs (sys_pg s0)).
Notation past := (past d0 q0 name id).
Notation harmless := (harmless d0 q0 name id).
Notation mild := (mild d0 q0 name id).
Notation issued_by := (issued_by q0).

(** The connections keep the past: in the rows, and in what any open
    transaction does to them if it commits. *)
Record held_pg (w : PG) : Prop := {
  hp_past : past (pg_db w);
  hp_seqs : seqs_le q0 (pg_seqs w);
  hp_logs : forall tx start log, pg_txs w !! tx = Some (mkTxState start (Some log)) -> Forall harmless log;
  hp_quiet : quiet s0 -> pg_net w = [];
}.

(** A cached answer for the past is the answer at the start. *)
Definition cached_past (key : string) (rows : list PartitionRow) : Prop :=
  forall n, is_uint64 n -> issued_by (int64 n) -> key = makeCacheKey name n -> partitions_at name n d0 = Some rows.

Record held (s : Sys) : Prop := {
  hd_pg : held_pg (sys_pg s);
  hd_cache : all_cached cached_past (sys_cache s);
}.

(** Every action of the program keeps the invariant, and its result satisfies
    [Q], whatever the other threads do in between. *)
Definition stable {A} (p : Prog Sys A) (Q : A -> Prop) : Prop :=
  conforms (fun _ : list unit => held) tt p (fun a _ => Q a).

Definition calm {A} (p : Prog Sys A) : Prop := stable p (fun _ => True).

(** The answer, or an error of the network. *)
Definition fetched {A} (a : A) (r : result A) : Prop :=
  match r with Ok x => x = a | Err _ => ~ quiet s0 end.

(** ** Rules *)

Lemma stable_ret {A} (a : A) (Q : A -> Prop) : Q a -> stable (Ret a) Q.
Proof. done. Qed.

Lemma stable_mono {A} (p : Prog Sys A) (Q Q' : A -> Prop) : stable p Q -> (forall a, Q a -> Q' a) -> stable p Q'.
Proof. intros Hp HQ. eapply conforms_mono; [exact Hp|]. auto. Qed.

Lemma stable_bind {A B} (p : Prog Sys A) (k : A -> Prog Sys B) (Q : B -> Prop) :
  stable p (fun a => stable (k a) Q) -> stable (bind p k) Q.
Proof. intros Hp. apply conforms_bind. eapply conforms_mono; [exact Hp|]. by intros a []. Qed.

Lemma calm_bind {A B} (p : Prog Sys A) (k : A -> Prog Sys B) : calm p -> (forall a, calm (k a)) -> calm (bind p k).
Proof. intros Hp Hk. apply stable_bind. eapply stable_mono; [exact Hp|]. intros a _. apply Hk. Qed.

Lemma stable_deferred {A} (cleanup : Prog Sys unit) (body : Prog Sys A) (Q : A -> Prop) :
  calm cleanup -> stable body Q -> stable (deferred cleanup body) Q.
Proof.
  intros Hc Hb. apply stable_bind. eapply stable_mono; [exact Hb|]. intros a Ha. apply stable_bind.
  eapply stable_mono; [exact Hc|]. by intros [] _.
Qed.

Lemma calm_for_each {A} (l : list A) (f : A -> Prog Sys (result unit)) : (forall x, calm (f x)) -> calm (for_each l f).
Proof. intros Hf. induction l as [|x l IH]; cbn; [done|]. apply calm_bind; [done|]. by intros []. Qed.

Lemma stable_act {A} (f : Sys -> A * Sys) (Q : A -> Prop) :
  (forall s, held s -> held (f s).2 /\ Q (f s).1) -> stable (act f) Q.
Proof. intros Hf. apply conforms_act. intros i gs s Hs _. exists tt. by apply Hf. Qed.

(** Locks, clocks and the transaction manager are no part of it. *)
Lemma calm_lock_op f : calm (lock_op f).
Proof.
  intros i gs s x s' [Hp Hc] _ Hf. exists tt. split; [|done]. destruct (f (sys_locks s)); [|done]. cbn in Hf. by injection Hf as <- <-.
Qed.

Lemma calm_get_mutex t : calm (get_mutex t).
Proof. apply stable_act. intros s [Hp Hc]. by destruct (getOrCreate t (sys_locks s)). Qed.

Lemma calm_on_mvcc {A} f : calm (on_mvcc (A := A) f).
Proof. apply stable_act. intros s [Hp Hc]. by destruct (f (sys_clock s) (sys_mvcc s)). Qed.

Lemma calm_cache_disabled : calm cache_disabled.
Proof. by apply stable_act. Qed.

Lemma stable_on_cache {A} f (Q : A -> Prop) :
  (forall c, all_cached cached_past c -> all_cached cached_past (f c).2 /\ Q (f c).1) -> stable (on_cache f) Q.
Proof.
  intros Hf. apply stable_act. intros s [Hp Hc]. destruct (Hf _ Hc) as [Hc' HQ].
  by destruct (f (sys_cache s)).
Qed.

Lemma calm_InvalidateTableCache t : calm (InvalidateTableCache t).
Proof. apply stable_on_cache. intros c Hc. split; [|done].
  exact (all_cached_invalidate_if cached_past cached_past c (table_key t) Hc (fun k v _ Hv => Hv)).
Qed.

(** *** Round trips *)

Lemma stable_on_pg {A} (f : PG -> A * PG) (Q : A -> Prop) :
  (forall w, held_pg w -> held_pg (f w).2 /\ Q (f w).1) -> stable (on_pg f) Q.
Proof.
  intros Hf. apply stable_act. intros s [Hp Hc]. destruct (Hf _ Hp) as [Hp' HQ]. by destruct (f (sys_pg s)).
Qed.

Lemma held_use_fault w : held_pg w -> held_pg (use_fault w).
Proof. intros [Hp Hq Hl Hn]. split; try done. intros Hh. cbn. by rewrite Hn. Qed.

Lemma held_set_seqs q w : seqs_le (pg_seqs w) q -> held_pg w -> held_pg (set_seqs q w).
Proof. intros Hle [Hp Hq Hl Hn]. split; try done. cbn. by etrans. Qed.

Lemma held_set_db d w : past d -> held_pg w -> held_pg (set_db d w).
Proof. by intros Hd []. Qed.

(** Transactions whose logs are those of [w], some cleared, and maybe one
    more. *)
Lemma held_set_txs txs w : held_pg w ->
  (forall tx start log, txs !! tx = Some (mkTxState start (Some log)) -> Forall harmless log) -> held_pg (set_txs txs w).
Proof. by intros [] Hl. Qed.

Lemma held_insert_tx tx t w : held_pg w -> (forall log, tx_log t = Some log -> Forall harmless log) ->
  held_pg (set_txs (<[tx := t]> (pg_txs w)) w).
Proof.
  intros Hw Ht. apply held_set_txs; [done|]. intros tx' start log [[-> ->]|[Hne Hl]]%lookup_insert_Some; [by apply Ht|].
  by eapply (hp_logs _ Hw).
Qed.

Lemma held_delete_tx tx w : held_pg w -> held_pg (set_txs (delete tx (pg_txs w)) w).
Proof.
  intros Hw. apply held_set_txs; [done|]. intros tx' start log [_ Hl]%lookup_delete_Some. by eapply (hp_logs _ Hw).
Qed.

(** A statement of the pool takes effect at once. *)
Lemma held_exec_pool {A} (st : Stmt A) w : monotone st ->
  (forall now d q a eff q', past d -> seqs_le q0 q -> st now d q = (Ok (a, eff), q') -> past (eff d)) ->
  held_pg w -> held_pg (exec_pool st w).2.
Proof.
  intros Hm Hst Hw. unfold exec_pool. specialize (Hm (pg_now w) (pg_db w) (pg_seqs w)).
  destruct (st _ _ _) as [[[a eff]|e] q] eqn:E; cbn in *; apply held_set_seqs; try done. apply held_set_db; [|done].
  eapply Hst; [apply Hw | apply Hw | exact E].
Qed.

Lemma stable_pool {A} (st : Stmt A) (Q : result A -> Prop) : monotone st ->
  (forall now d q a eff q', past d -> seqs_le q0 q -> st now d q = (Ok (a, eff), q') -> past (eff d) /\ Q (Ok a)) ->
  (forall now d q e q', st now d q = (Err e, q') -> Q (Err e)) -> (forall e, ~ quiet s0 -> Q (Err (ErrText e))) ->
  stable (on_pg (pool st)) Q.
Proof.
  intros Hm Hok Herr Hlost. apply stable_on_pg. intros w Hw.
  assert (Hexec : held_pg (exec_pool st (use_fault w)).2).
  { apply held_exec_pool; [done | | by apply held_use_fault]. intros. by eapply Hok. }
  assert (Hno : quiet s0 -> next_fault w = Delivered) by (intros Hq%(hp_quiet _ Hw); unfold next_fault; by rewrite Hq).
  unfold pool. destruct (next_fault w) as [|e|e] eqn:Ef; cbn [fst snd].
  - split; [done|]. unfold exec_pool. destruct (st _ _ _) as [[[a eff]|e] q] eqn:E; cbn; [|by eapply Herr].
    eapply Hok; [apply Hw | apply Hw | exact E].
  - split; [by apply held_use_fault|]. apply Hlost. by intros Hq%Hno.
  - split; [done|]. apply Hlost. by intros Hq%Hno.
Qed.

Lemma stable_pool_select {A} (f : DB -> A) (Q : result A -> Prop) :
  (forall d, past d -> Q (Ok (f d))) -> (forall e, ~ quiet s0 -> Q (Err (ErrText e))) -> stable (on_pg (pool (select f))) Q.
Proof.
  intros Hok Herr. apply stable_pool; [apply monotone_select | | done | done].
  intros now d q a eff q' Hp _ [= <- <- <-]. auto.
Qed.

(** What a mild statement does waits in the log of its transaction. *)
Lemma stable_in_tx {A} tx (st : Stmt A) (Q : result A -> Prop) : monotone st -> mild st ->
  (forall now d q a eff q', past d -> seqs_le q0 q -> st now d q = (Ok (a, eff), q') -> Q (Ok a)) -> (forall e, Q (Err e)) ->
  stable (on_pg (in_tx tx st)) Q.
Proof.
  intros Hm Hst Hok Herr. apply stable_on_pg. intros w Hw. unfold in_tx.
  destruct (pg_txs w !! tx) as [[start lg]|] eqn:Et; [|split; [done | apply Herr]].
  pose proof (held_use_fault w Hw) as Hf.
  assert (Hab : forall w', held_pg w' -> held_pg (tx_abort tx (mkTxState start lg) w')) by (intros w' Hw'; by apply held_insert_tx).
  assert (Hexec : held_pg (exec_tx tx (mkTxState start lg) st (use_fault w)).2 /\ Q (exec_tx tx (mkTxState start lg) st (use_fault w)).1).
  { unfold exec_tx. cbn [tx_log tx_start]. destruct lg as [log|]; [|split; [done | apply Herr]].
    pose proof (hp_logs _ Hw _ _ _ Et) as Hlog. pose proof (harmless_view _ _ _ _ _ _ Hlog (hp_past _ Hw)) as Hv.
    pose proof (Hm start (tx_view log (pg_db w)) (pg_seqs w)) as Hle.
    destruct (st start (tx_view log (pg_db w)) (pg_seqs w)) as [[[a eff]|e] q] eqn:E; cbn in E, Hle |- *;
      rewrite E; cbn [fst snd]; split; [| | by apply (held_set_seqs _ (tx_abort _ _ (use_fault w))); [|apply Hab] | apply Herr].
    - apply (held_set_seqs _ (set_txs _ (use_fault w))); [done|]. apply (held_insert_tx _ _ (use_fault w)); [done|]. intros log' [= <-]. apply Forall_app. split; [done|].
      apply Forall_singleton. eapply Hst; [exact Hv | apply Hw | exact E].
    - eapply Hok; [exact Hv | apply Hw | exact E]. }
  destruct Hexec as [He HQ]. destruct (next_fault w); cbn [fst snd]; auto.
Qed.

Lemma calm_in_tx {A} tx (st : Stmt A) : monotone st -> mild st -> calm (on_pg (in_tx tx st)).
Proof. intros Hm Hst. by apply stable_in_tx. Qed.

Lemma stable_tx_select_row {A} tx (f : DB -> list A) (Q : result A -> Prop) :
  (forall d, past d -> Q (first_row (Ok (f d)))) -> (forall e, Q (Err e)) -> stable (tx_query_row tx (select f)) Q.
Proof.
  intros Hok Herr. apply stable_bind, stable_in_tx; [apply monotone_select | apply mild_select | | done].
  intros now d q a eff q' Hp _ [= <- <- <-]. by apply stable_ret, Hok.
Qed.

Lemma calm_tx_query_row {A} tx (st : Stmt (list A)) : monotone st -> mild st -> calm (tx_query_row tx st).
Proof. intros Hm Hst. apply calm_bind; [by apply calm_in_tx | done]. Qed.

Lemma calm_tx_exec tx (st : Stmt Z) : monotone st -> mild st -> calm (tx_exec tx st).
Proof. apply calm_in_tx. Qed.

Lemma calm_pool_mild {A} (st : Stmt A) : monotone st -> mild st -> calm (on_pg (pool st)).
Proof. intros Hm Hst. apply stable_pool; try done. intros. split; [by eapply Hst | done]. Qed.

Lemma calm_BeginTx : calm BeginTx.
Proof.
  apply stable_on_pg. intros w Hw. pose proof (held_use_fault w Hw) as Hf. unfold pg_begin.
  destruct (next_fault w); cbn; [|by split..]. split; [|done]. destruct Hf as [Hp Hq Hl Hn]. split; try done. cbn.
  intros tx start log [[_ [= <- <-]]|[_ Hl']]%lookup_insert_Some; [done | by eapply Hl].
Qed.

(** A commit has the effects its log promised. *)
Lemma calm_tx_commit tx : calm (tx_commit tx).
Proof.
  apply stable_on_pg. intros w Hw. pose proof (held_use_fault w Hw) as Hf. split; [|done]. unfold pg_commit.
  destruct (pg_txs w !! tx) as [[start lg]|] eqn:Et; [|done].
  assert (Hc : held_pg (exec_commit tx (mkTxState start lg) (use_fault w)).2).
  { unfold exec_commit. cbn [tx_log]. destruct lg as [log|]; cbn [snd]; [|by apply (held_delete_tx tx (use_fault w))].
    apply (held_delete_tx tx (set_db (tx_view log (pg_db w)) (use_fault w))), held_set_db; [|done].
    apply (harmless_view _ _ _ _ _ _ (hp_logs _ Hw _ _ _ Et)), Hw. }
  destruct (next_fault w); cbn [fst snd]; [done | by apply (held_delete_tx tx (use_fault w)) | done].
Qed.

Lemma calm_tx_rollback tx : calm (tx_rollback tx).
Proof. apply stable_on_pg. intros w Hw. split; [|done]. by apply held_delete_tx. Qed.

Lemma stable_with_tx {A} (failed : error -> A) (body : Z -> Prog Sys A) (Q : A -> Prop) :
  (forall e, Q (failed e)) -> (forall tx, stable (body tx) Q) -> stable (with_tx failed body) Q.
Proof.
  intros Hf Hb. apply stable_bind. eapply stable_mono; [apply calm_BeginTx|]. intros [tx|e] _; [|by apply stable_ret].
  apply stable_deferred; [apply calm_tx_rollback | done].
Qed.

Lemma stable_with_shared {A} t (body : Prog Sys A) (Q : A -> Prop) : stable body Q -> stable (with_shared t body) Q.
Proof.
  intros Hb. unfold with_shared, LockShared. apply stable_bind, stable_bind.
  eapply stable_mono; [apply calm_get_mutex|]. intros l _. apply stable_bind.
  eapply stable_mono; [apply calm_lock_op|]. intros _ _. apply stable_ret, stable_deferred; [apply calm_lock_op | done].
Qed.

Lemma calm_with_exclusive {A} t (body : Prog Sys A) : calm body -> calm (with_exclusive t body).
Proof.
  intros Hb. unfold with_exclusive, LockExclusive.
  repeat first [done | apply calm_get_mutex | apply calm_lock_op | apply calm_bind; [|intros ?]].
Qed.

End held.
