(* ===== verification/ConcurrentReads.v ===== *)
(** * Reads of the past under concurrency

    Any number of goroutines, interleaved action by action over a network
    that fails as it likes: every request but the drop and the rename of a
    table keeps what answers for its past ([calm]), so a read of the past
    finds what was there at the start. *)
From S2P Require Import Prelude Json Prog Protocol CacheInterface LRU MVCC Lock Models PartitionSpec GoJson Postgres World.
From S2P Require Import PgClient PgFacts PgPlain Sorting Reads Registry Commit Wf Visibility Coherence CommitFacts.
From S2P Require Import ManifestStore SchemaStore SpecStore Catalog Proto Server ServerFacts Service Pages History Progress.
From S2P Require Import CatalogSpec CatalogView Refinement ServiceRefinement PastRows Stable.

Section concurrent.
Context `{Postgres} `{GoText}.
Context (s0 : Sys) (name : string) (id : Z).
Context (Hwf : db_wf (pg_seqs (sys_pg s0)) (db s0)) (Hid : table_id name (db s0) = Some id).

Notation d0 := (db s0).
Notation q0 := (pg_seqs (sys_pg s0)).
Notation past := (past d0 q0 name id).
Notation mild := (mild d0 q0 name id).
Notation issued_by := (issued_by q0).
Notation stable := (stable s0 name id).
Notation calm := (calm s0 name id).
Notation fetched := (fetched s0).

(** ** Leaves *)

Create HintDb mild.
#[local] Hint Resolve mild_select mild_insert_table mild_update_schema mild_update_spec mild_update_snapshot
  mild_soft_delete_table mild_delete_table mild_insert_schema_history mild_insert_transaction mild_update_transaction
  mild_insert_snapshot mild_insert_partition mild_mark_deleted mild_insert_manifest_file mild_insert_manifest_list
  mild_insert_partition_spec mild_delete_manifest_files mild_delete_manifest_lists mild_delete_partitions
  mild_delete_snapshots mild_delete_schema_history mild_delete_partition_specs : mild.

Lemma mild_list_tables limit offset : mild (sql_list_tables limit offset).
Proof. intros now d q a eff q' _ _ Hst. unfold sql_list_tables in Hst. stmt_cases Hst. by intros d' Hp'. Qed.

#[local] Hint Resolve mild_list_tables : mild.

Lemma calm_ret {A} (a : A) : calm (Ret a).
Proof. done. Qed.

Lemma calm_deferred {A} (cleanup : Prog Sys unit) (body : Prog Sys A) : calm cleanup -> calm body -> calm (deferred cleanup body).
Proof. apply stable_deferred. Qed.

Lemma calm_with_shared {A} t (body : Prog Sys A) : calm body -> calm (with_shared t body).
Proof. apply stable_with_shared. Qed.

Lemma calm_with_tx {A} (failed : error -> A) (body : Z -> Prog Sys A) : (forall tx, calm (body tx)) -> calm (with_tx failed body).
Proof. by apply stable_with_tx. Qed.

Create HintDb calm.
#[local] Hint Resolve calm_ret calm_lock_op calm_get_mutex calm_on_mvcc calm_cache_disabled calm_InvalidateTableCache calm_BeginTx
  calm_tx_commit calm_tx_rollback : calm.

Ltac solve_mild :=
  first [ solve [eauto 2 with mild]
        | match goal with |- PastRows.mild _ _ _ _ ?st => let h := head_of st in unfold h; solve [eauto 2 with mild] end ].

Ltac solve_named_monotone :=
  match goal with |- monotone ?st => let h := head_of st in try unfold h; solve_monotone end.

(** Proves [calm p], unfolding [p] down to its actions. *)
Ltac calm_step :=
  lazymatch goal with
  | |- forall _, _ => intro
  | |- Stable.stable ?s ?n ?i ?p (fun _ => True) => change (Stable.calm s n i p)
  | |- Stable.calm _ _ _ ?p =>
      first [ solve [eauto 1 with calm]
            | lazymatch p with
              | bind _ _ => apply calm_bind
              | match ?x with _ => _ end => destruct x
              | with_exclusive _ _ => apply calm_with_exclusive
              | with_shared _ _ => apply calm_with_shared
              | with_tx _ _ => apply calm_with_tx
              | deferred _ _ => apply calm_deferred
              | for_each _ _ => apply calm_for_each
              | tx_exec _ _ => apply calm_tx_exec; [solve_named_monotone | solve_mild]
              | tx_query_row _ _ => apply calm_tx_query_row; [solve_named_monotone | solve_mild]
              | on_pg (pool _) => apply calm_pool_mild; [solve_named_monotone | solve_mild]
              | _ => let h := head_of p in progress unfold h; cbv zeta
              end ]
  end.

Ltac solve_calm := repeat calm_step.

(** ** Writers *)

Lemma calm_CatalogCreateTable t schema spec props : calm (Catalog.CreateTable t schema spec props).
Proof. solve_calm. Qed.

Lemma calm_AlterTableSchema t schema summary : calm (AlterTableSchema t schema summary).
Proof. solve_calm. Qed.

Lemma calm_AlterTablePartitionSpec t spec summary : calm (AlterTablePartitionSpec t spec summary).
Proof. solve_calm. Qed.

Lemma calm_RenameTable oldName newName : oldName <> name -> calm (Catalog.RenameTable oldName newName).
Proof.
  intros Hne. unfold Catalog.RenameTable, PgClient.RenameTable, pool_exec. do 2 apply calm_with_exclusive.
  apply calm_bind; [|solve_calm]. apply calm_bind; [|solve_calm].
  apply stable_pool; [unfold sql_rename_table; solve_monotone | | done | done].
  intros now d q a eff q' Hp _ Hst. split; [by eapply rename_past | done].
Qed.

(** The purge of another table deletes another table's rows. *)
Lemma calm_purge_rows tx i t : i <> id -> t <> name -> calm (purge_rows tx i t).
Proof. intros Hi Ht. solve_calm. Qed.

Lemma calm_DropTable t purge : t <> name -> calm (Catalog.DropTable t purge).
Proof.
  intros Hne. apply calm_with_exclusive, calm_with_tx. intros tx. apply calm_bind; [|solve_calm].
  unfold PgClient.DropTable. destruct purge; [|solve_calm]. apply stable_bind, stable_tx_select_row.
  - intros d Hp. rewrite first_row_table_id. destruct (table_id t d) as [i|] eqn:E; [|done].
    apply calm_purge_rows; [by eapply past_other_id | done].
  - intros []; apply calm_ret.
Qed.

(** *** The commit *)

(** A snapshot record has a new id. *)
Lemma stable_InsertSnapshotTx tx t parent operation added deleted :
  stable (InsertSnapshotTx tx t parent operation added deleted)
    (fun r => match r with Ok (n, _) => n = 0 \/ ~ issued_by (int64 n) | Err _ => True end).
Proof.
  apply stable_bind, stable_tx_select_row; [|by intros []; apply stable_ret; try left].
  intros d _. destruct (first_row _) as [i|[]]; try (by apply stable_ret; try left). apply stable_bind, stable_bind, stable_in_tx.
  - unfold sql_insert_snapshot. solve_monotone.
  - apply mild_insert_snapshot.
  - intros now d' q a eff q' _ Hq Hst. unfold sql_insert_snapshot in Hst. stmt_cases Hst. do 2 apply stable_ret. cbn.
    destruct (Hq SeqSnapshots) as [Hle _]. pose proof (wf_seqs _ _ Hwf SeqSnapshots).
    match goal with E : (_ <? _) = true |- _ => apply Z.ltb_lt in E end. right.
    destruct (Z.ltb_spec (q SeqSnapshots + 1) 0); [lia|]. rewrite uint64_id, int64_id by (unfold is_uint64, is_int64; lia).
    unfold PastRows.issued_by. lia.
  - intros e. by do 2 apply stable_ret.
Qed.

Lemma calm_commit_manifests_tx tx t i n v parts keys : ~ issued_by (int64 n) -> calm (commit_manifests_tx tx t i n v parts keys).
Proof. intros Hn. solve_calm. Qed.

Lemma calm_commit_tx tx t parent operation v parts keys : calm (commit_tx tx t parent operation v parts keys).
Proof.
  apply stable_bind. eapply stable_mono; [apply stable_InsertSnapshotTx|]. intros [[n i]|e] Hn; [|done].
  destruct (Z.eqb_spec n 0) as [|Hne]; [done|]. destruct Hn as [Hn|Hn]; [done|].
  pose proof (calm_commit_manifests_tx tx t i n v parts keys Hn). solve_calm.
Qed.

Lemma calm_CommitSnapshot t parent operation parts keys : calm (Registry.CommitSnapshot t parent operation parts keys).
Proof.
  pose proof (fun tx v => calm_commit_tx tx t parent operation v parts keys). solve_calm.
Qed.

(** ** Queries *)

Lemma stable_pool_select_row {A} (f : DB -> list A) (Q : result A -> Prop) :
  (forall d, past d -> Q (first_row (Ok (f d)))) -> (forall e, ~ quiet s0 -> Q (Err (ErrText e))) ->
  stable (pool_query_row (select f)) Q.
Proof.
  intros Hok Herr. apply stable_bind, stable_pool_select; [intros d Hp; apply stable_ret, (Hok d Hp) | intros e Hq; apply stable_ret, (Herr e Hq)].
Qed.

(** The table keeps its id. *)
Lemma stable_GetTableID (Q : result Z -> Prop) :
  Q (Ok id) -> (forall e, ~ quiet s0 -> Q (Err e)) -> stable (GetTableID name) Q.
Proof.
  intros Hok Herr. apply stable_bind, stable_pool_select_row.
  - intros d Hp. rewrite first_row_table_id. by rewrite (past_id _ _ _ _ _ Hp).
  - intros e Hq. by apply stable_ret, Herr.
Qed.

Lemma id_not_negative : (id <? 0) = false.
Proof. by destruct (past_id_or _ _ Hwf _ _ Hid _ (past_start _ _ Hwf _ _ Hid)). Qed.

(** What the files were. *)
Definition files (n : Z) : list PartitionRow := map scan_partition (visible_rows id (int64 n) d0).

Lemma files_at n : partitions_at name n d0 = Some (files n).
Proof.
  unfold partitions_at. destruct (past_id_or _ _ Hwf _ _ Hid _ (past_start _ _ Hwf _ _ Hid)) as [-> Hpos]. by rewrite Hpos.
Qed.

Lemma stable_QueryPartitions n : issued_by (int64 n) -> stable (QueryPartitions name n) (fetched (Some (files n))).
Proof.
  intros Hn. apply stable_bind, stable_GetTableID; [|by intros e Hq; apply stable_ret]. rewrite id_not_negative.
  apply stable_bind, stable_pool_select; [|by intros e Hq; apply stable_ret]. intros d Hp. apply stable_ret. cbn.
  f_equal. apply (pa_files _ _ _ _ _ Hp _ Hn).
Qed.

Lemma stable_QueryPartitionsPaged n size after_id : issued_by (int64 n) -> 0 < size ->
  stable (QueryPartitionsPaged name n size after_id)
    (fetched (Some (take (Z.to_nat size) (List.filter (fun p => after_id <? pr_PartitionID p) (files n))))).
Proof.
  intros Hn Hs. apply stable_bind, stable_GetTableID; [|by intros e Hq; apply stable_ret]. rewrite id_not_negative.
  rewrite (proj2 (Z.leb_gt size 0)) by done. apply stable_bind, stable_pool_select; [|by intros e Hq; apply stable_ret].
  intros d Hp. apply stable_ret. cbn. do 2 f_equal. unfold files. rewrite <- (pa_files _ _ _ _ _ Hp _ Hn), <- page_of_rows.
  unfold after, visible_rows. by rewrite <- order_by_filter, filter_filter.
Qed.

(** Whatever is read, what is put in the cache answers for the past. *)
Lemma stable_cached_files t n : is_uint64 n ->
  stable (QueryPartitions t n) (fun r =>
    (forall rows, r = Ok (Some rows) -> cached_past s0 name (makeCacheKey t n) rows) /\
    (t = name -> issued_by (int64 n) -> fetched (Some (files n)) r)).
Proof.
  intros Hn. destruct (decide (t = name /\ issued_by (int64 n))) as [[-> Hi]|Hno].
  - eapply stable_mono; [by apply stable_QueryPartitions|]. intros r Hr. split; [|done]. intros rows ->. cbn in Hr. injection Hr as ->.
    intros m Hm _ Hk. apply makeCacheKey_eq in Hk as [_ <-]; [|done..]. apply files_at.
  - assert (Hc : calm (QueryPartitions t n)) by solve_calm. eapply stable_mono; [exact Hc|]. intros r _. split.
    + intros rows _ m Hm Him Hk. apply makeCacheKey_eq in Hk as [-> <-]; [|done..]. by destruct Hno.
    + intros -> Hi. by destruct Hno.
Qed.

Lemma stable_GetCurrentSnapshot t : stable (GetCurrentSnapshot t) (fun r => forall n, r = Ok n -> is_uint64 n).
Proof.
  apply stable_bind, stable_pool_select_row; [|by intros e _; apply stable_ret; intros n [=]].
  intros d _. destruct (first_row _) as [n|[]]; apply stable_ret; try done; intros m; [|by intros [= <-]].
  destruct (n <? 0); intros [= <-]; [done | apply uint64_range].
Qed.

Lemma stable_resolveSnapshot t n : is_uint64 n ->
  stable (resolveSnapshot t n) (fun r => match r with Ok m => is_uint64 m /\ (n <> 0 -> m = n) | Err _ => n = 0 end).
Proof.
  intros Hn. unfold resolveSnapshot. destruct (Z.eqb_spec n 0) as [->|Hne]; cbn [negb]; [|by apply stable_ret].
  eapply stable_mono; [apply stable_GetCurrentSnapshot|]. intros [m|e] Hm; [|done]. split; [by apply Hm | done].
Qed.

(** A cached read, of the past or not. *)
Lemma stable_GetPartitions t n : is_uint64 n ->
  stable (Registry.GetPartitions t n) (fun r => t = name -> n <> 0 -> issued_by (int64 n) -> fetched (Some (files n)) r).
Proof.
  intros Hn. apply stable_with_shared, stable_bind. eapply stable_mono; [by apply stable_resolveSnapshot|].
  intros [m|e] Hm; [|by apply stable_ret]. destruct Hm as [Hm Heq]. cbv zeta. apply stable_bind.
  eapply stable_mono; [apply calm_cache_disabled|]. intros disabled _. apply stable_bind.
  apply (stable_mono _ _ _ _ (fun c => forall rows, c = Some rows -> cached_past s0 name (makeCacheKey t m) rows)).
  { destruct disabled; [by apply stable_ret|]. apply stable_on_cache. intros c Hc.
    split; [exact (all_cached_get (K := string) _ _ _ Hc)|]. intros rows Hr. exact (all_cached_hit (K := string) _ _ _ rows Hc Hr). }
  intros [rows|] Hc.
  - apply stable_ret. intros -> Hne Hi. cbn. rewrite (Heq Hne) in Hc. f_equal.
    specialize (Hc rows eq_refl n Hn Hi eq_refl). rewrite files_at in Hc. by injection Hc.
  - apply stable_bind. eapply stable_mono; [by apply stable_cached_files|]. intros [[rows|]|e] [Hp Hf].
    + apply stable_bind. apply (stable_mono _ _ _ _ (fun _ => True)).
      { destruct disabled; [done|]. apply stable_on_cache. intros c Hca. split; [|done].
        exact (all_cached_put (cached_past s0 name) c _ rows Hca (Hp rows eq_refl)). }
      intros _ _. apply stable_ret. intros E Hne. rewrite (Heq Hne) in Hf. by apply Hf.
    + apply stable_ret. intros E Hne. rewrite (Heq Hne) in Hf. by apply Hf.
    + apply stable_ret. intros E Hne. rewrite (Heq Hne) in Hf. by apply Hf.
Qed.

(** ** Every request *)

Lemma calm_GetPartitions t n : is_uint64 n -> calm (Registry.GetPartitions t n).
Proof. intros Hn. eapply stable_mono; [by apply stable_GetPartitions | done]. Qed.

Lemma calm_list_summaries rows : calm (list_summaries rows).
Proof. induction rows as [|t rows IH]; cbn [list_summaries]; solve_calm. Qed.

#[local] Hint Resolve calm_CatalogCreateTable calm_AlterTableSchema calm_AlterTablePartitionSpec calm_RenameTable
  calm_DropTable calm_CommitSnapshot calm_GetPartitions calm_list_summaries : calm.

(** The table's metadata, with files of its snapshot at the time. *)
Lemma calm_GetTableMetadata r : is_uint64 (tq_SnapshotId r) -> calm (GetTableMetadata r).
Proof.
  intros Hn. unfold GetTableMetadata. cbv zeta. destruct (String.eqb _ _); [done|].
  apply calm_bind; [solve_calm|]. intros [[row|]|e]; [|done..]. apply calm_bind; [|solve_calm]. apply calm_GetPartitions.
  destruct (_ =? 0); [|done]. unfold table_snapshot. destruct (_ <? 0); [done | apply uint64_range].
Qed.

Lemma calm_AlterTable r : request_ok (ReqAlterTable r) -> ~ removes name (ReqAlterTable r) -> calm (AlterTable r).
Proof.
  intros Hok Hno. unfold AlterTable. cbv zeta. cbn [removes] in Hno. destruct (String.eqb _ _); [done|].
  destruct (atr_Alteration r) as [[text|p|n]|]; [solve_calm | solve_calm | | done].
  pose proof (fun m => calm_RenameTable (atr_TableName r) m Hno). solve_calm.
Qed.

Lemma calm_serve {A} (req : Request A) : request_ok req -> ~ removes name req -> calm (serve req).
Proof.
  intros Hok Hno. destruct req; cbn [serve].
  2: by apply calm_GetTableMetadata.
  2: by apply calm_AlterTable.
  2: pose proof (calm_DropTable (dtr_TableName r) (dtr_Purge r) Hno).
  4: pose proof (calm_GetPartitions (pq_TableName r) (pq_SnapshotId r) Hok).
  all: solve_calm.
Qed.

(** ** Reads of the past *)

Lemma stable_GetSnapshot n : int64 n ∈ snapshot_ids id d0 ->
  stable (PgClient.GetSnapshot name n)
    (fetched (scan_snapshot <$> head (List.filter (is_snapshot id (int64 n)) (snapshots d0)))).
Proof.
  intros [_ Hn]%(snapshot_id_issued Hwf). apply stable_bind, stable_GetTableID; [|by intros e Hq; apply stable_ret].
  rewrite id_not_negative. apply stable_bind, stable_pool_select_row; [|by intros e Hq; apply stable_ret].
  intros d Hp. apply stable_ret. rewrite first_row_head. rewrite <- (pa_snapshot _ _ _ _ _ Hp (int64 n) Hn).
  unfold is_snapshot. by destruct (head _).
Qed.

Lemma stable_GetManifestList n : int64 n ∈ snapshot_ids id d0 ->
  stable (ManifestStore.GetManifestList name n) (fetched (manifests_at name n d0)).
Proof.
  intros Hn. pose proof Hn as [_ Hi]%(snapshot_id_issued Hwf). unfold manifests_at.
  destruct (past_id_or _ _ Hwf _ _ Hid _ (past_start _ _ Hwf _ _ Hid)) as [-> Hpos]. rewrite Hpos.
  apply stable_bind, stable_GetTableID; [|by intros e Hq; apply stable_ret]. rewrite Hpos.
  apply stable_bind, stable_pool_select_row; [|by intros e Hq; apply stable_ret].
  intros d Hp. rewrite first_row_head. pose proof (pa_list _ _ _ _ _ Hp (int64 n) Hi) as E. unfold is_list in E. rewrite E.
  destruct (head _) as [l|]; [|by apply stable_ret].
  apply stable_bind, stable_pool_select; [|by intros e Hq; apply stable_ret]. intros d2 Hp2. apply stable_ret. cbn.
  fold (manifests_of (int64 n) d2). by rewrite (pa_manifests _ _ _ _ _ Hp2 _ Hn).
Qed.

(** The join with the live table of the name keeps the table's rows. *)
Lemma join_rows d (l : list manifest_files_row) : past d -> (forall r, r ∈ l -> mf_table_id r = id) ->
  head (List.flat_map (fun r => map (fun _ => r)
    (List.filter (fun t => (t_table_id t =? mf_table_id r) && live_named name t) (tables d))) l) = head l.
Proof.
  intros Hp Hl. destruct l as [|r l]; [done|]. cbn. rewrite (Hl r) by left.
  destruct (past_live _ _ _ _ _ Hp) as (t & Ht & Ei). apply live_table_in in Ht as [Hin Hlive].
  assert (Hf : In t (List.filter (fun t => (t_table_id t =? id) && live_named name t) (tables d))).
  { apply filter_In. rewrite Ei, Z.eqb_refl, <- list_elem_of_In. done. }
  by destruct (List.filter _ (tables d)).
Qed.

Lemma stable_GetManifestFile m : has_manifest d0 id m ->
  stable (ManifestStore.GetManifestFile name m) (fetched (scan_manifest_file <$>
    head (List.filter (fun r => (mf_table_id r =? id) && (mf_manifest_file_id r =? m)) (manifest_files d0)))).
Proof.
  intros Hm. apply stable_bind, stable_pool_select_row; [|by intros e Hq; apply stable_ret].
  assert (Hown : forall r, r ∈ List.filter (fun r => mf_manifest_file_id r =? m) (manifest_files d0) -> mf_table_id r = id).
  { intros r [Hr%list_elem_of_In E%Z.eqb_eq]%list_elem_of_In%filter_In. by eapply manifest_own. }
  intros d Hp. apply stable_ret. rewrite first_row_head, (pa_manifest _ _ _ _ _ Hp m Hm), join_rows by done.
  replace (List.filter (fun r => (mf_table_id r =? id) && _) _) with
    (List.filter (fun r => mf_manifest_file_id r =? m) (manifest_files d0)); [by destruct (head _)|].
  apply filter_ext_elem. intros r Hr. destruct (Z.eqb_spec (mf_manifest_file_id r) m) as [E|]; [|by rewrite andb_false_r].
  rewrite andb_true_r. symmetry. apply Z.eqb_eq. by eapply manifest_own.
Qed.

Lemma stable_GetSpecAtVersion v : has_spec d0 id v ->
  stable (GetSpecAtVersion name v)
    (fetched ((fun x => spec_version_of (scan_partition_spec x)) <$> head (List.filter (is_spec id v) (partition_specs d0)))).
Proof.
  intros Hv. apply stable_with_shared, stable_bind, stable_GetTableID; [|by intros e Hq; apply stable_ret].
  rewrite id_not_negative. apply stable_bind, stable_bind, stable_pool_select_row; [|by intros e Hq; do 2 apply stable_ret].
  intros d Hp. rewrite first_row_head. rewrite <- (pa_spec _ _ _ _ _ Hp v Hv). unfold is_spec.
  destruct (head _) as [x|]; by do 2 apply stable_ret.
Qed.

(** *** The replies *)

(** A status of the network. *)
Definition network_error {A} (reply : rpc A) : Prop := ~ quiet s0 /\ exists msg, reply = Status Internal msg.

(** The one reply the abstract machine gives at the start, or such a status. *)
Definition as_at_start {A} (req : Request A) (reply : rpc A) : Prop :=
  cat_step req (catalog_of d0) reply (catalog_of d0) \/ network_error reply.

Lemma stable_rpc {A B} (p : Prog Sys (result A)) (k : A -> Prog Sys (rpc B)) a (Q : rpc B -> Prop) :
  stable p (fetched a) -> (forall reply, network_error reply -> Q reply) -> stable (k a) Q -> stable (rpc* x := p in k x) Q.
Proof.
  intros Hp Hn Hk. apply stable_bind. eapply stable_mono; [exact Hp|]. intros [x|e] Hx; cbn in Hx; [by subst x|].
  apply stable_ret, Hn. split; [done|]. by exists (error_text e).
Qed.

Context (r0 : tables_row) (Hr0 : live_table name d0 = Some r0).
Notation view := (view_of name r0 d0).

Lemma row_id : t_table_id r0 = id.
Proof. unfold table_id in Hid. rewrite Hr0 in Hid. by injection Hid. Qed.

Lemma view_files n : v_files view n = files n.
Proof. cbn. by rewrite files_at. Qed.

Lemma current_issued n : int64 n <= v_current view -> issued_by (int64 n).
Proof.
  cbn. rewrite (current_snapshot_head Hwf name id Hid). pose proof (head_snapshot_bound Hwf id). unfold PastRows.issued_by. lia.
Qed.

Lemma recorded_snapshot n : recorded n view = true -> int64 n ∈ snapshot_ids id d0.
Proof.
  rewrite (recorded_list name r0 n _ _ Hwf), row_id. intros Hr. apply existsb_exists in Hr as (l & Hl%list_elem_of_In & Hc).
  apply andb_true_iff in Hc as [Hn%Z.eqb_eq Ht%Z.eqb_eq].
  assert (Hs : (ml_snapshot_id l, ml_table_id l) ∈ map (fun r => (s_snapshot_id r, s_table_id r)) (snapshots d0)).
  { rewrite <- (wf_manifest_lists _ _ Hwf). by apply (list_elem_of_fmap_2 (fun r => (ml_snapshot_id r, ml_table_id r))). }
  apply list_elem_of_fmap in Hs as (x & [= H1 H2] & Hx). apply elem_of_snapshot_ids. exists x. by rewrite <- H1, <- H2.
Qed.

Lemma past_GetPartitions r : is_uint64 (pq_SnapshotId r) -> reads_past name view (ReqGetPartitions r) ->
  stable (GetPartitions r) (as_at_start (ReqGetPartitions r)).
Proof.
  intros Hn (Ht & Hne & Hle%current_issued). unfold GetPartitions. cbv zeta. rewrite Ht.
  apply (stable_rpc _ _ (Some (page_of (pq_PageSize r) (token_value (pq_PageToken r)) (files (pq_SnapshotId r))))).
  - unfold page_of. destruct (Z.ltb_spec 0 (pq_PageSize r)).
    + apply stable_with_shared. unfold resolveSnapshot. rewrite (proj2 (Z.eqb_neq _ _) Hne). by apply stable_QueryPartitionsPaged.
    + eapply stable_mono; [by apply stable_GetPartitions | auto].
  - by right.
  - apply stable_ret. left. split; [|done]. rewrite Ht, (catalog_live _ _ _ Hr0). unfold partitions_reply, asked.
    by rewrite (proj2 (Z.eqb_neq _ _) Hne), view_files.
Qed.

Lemma past_GetColumnStats r : reads_past name view (ReqGetColumnStats r) ->
  stable (GetColumnStats r) (as_at_start (ReqGetColumnStats r)).
Proof.
  intros (Ht & Hne & Hle%current_issued). unfold GetColumnStats. cbv zeta. rewrite Ht.
  assert (Hstep : forall reply, reply = column_stats_reply r (Live view) -> as_at_start (ReqGetColumnStats r) reply).
  { intros reply ->. left. split; [|done]. by rewrite Ht, (catalog_live _ _ _ Hr0). }
  unfold column_stats_reply in Hstep. cbv zeta in Hstep. rewrite (proj2 (Z.eqb_neq _ _) Hne).
  rewrite Ht, !(proj2 (Z.eqb_neq _ _) Hne), view_files in Hstep.
  destruct (String.eqb name ""); [by apply stable_ret, Hstep|]. unfold column_stats_at, GetColumnStatsForSnapshot.
  eapply stable_rpc; [|by right | apply stable_ret, Hstep; reflexivity].
  apply stable_bind. eapply stable_mono; [by apply stable_QueryPartitions|]. intros [x|e] Hx; apply stable_ret; [|done].
  cbn in Hx. by subst x.
Qed.

Lemma past_GetSnapshot r : reads_past name view (ReqGetSnapshot r) -> stable (GetSnapshot r) (as_at_start (ReqGetSnapshot r)).
Proof.
  intros (Ht & Hn%recorded_snapshot). unfold GetSnapshot. rewrite Ht.
  eapply stable_rpc; [by apply stable_GetSnapshot | by right |]. apply stable_ret. left. split; [|done].
  rewrite Ht, (catalog_live _ _ _ Hr0). unfold snapshot_reply. cbn [view_of v_log].
  rewrite row_id, (find_snapshot _ _ _ _ Hwf). unfold is_snapshot. by destruct (head _).
Qed.

Lemma past_GetManifestList r : reads_past name view (ReqGetManifestList r) ->
  stable (GetManifestList r) (as_at_start (ReqGetManifestList r)).
Proof.
  intros (Ht & _ & Hrec). pose proof (recorded_snapshot _ Hrec) as Hn. unfold GetManifestList. rewrite Ht.
  assert (Hstep : forall reply, reply = manifest_list_reply r (Live view) -> as_at_start (ReqGetManifestList r) reply).
  { intros reply ->. left. split; [|done]. by rewrite Ht, (catalog_live _ _ _ Hr0). }
  unfold manifest_list_reply in Hstep. cbv zeta in Hstep. rewrite Ht, Hrec in Hstep.
  destruct (String.eqb name ""); [by apply stable_ret, Hstep|]. destruct (_ =? 0); [by apply stable_ret, Hstep|].
  eapply stable_rpc; [by apply stable_GetManifestList | by right |]. apply stable_ret, Hstep.
  pose proof (manifests_at_view _ _ (gmq_SnapshotId r) _ _ Hwf Hr0) as Hv.
  destruct (manifests_at _ _ _) as [[l fs]|]; [|by rewrite Hrec in Hv]. destruct Hv as (_ & <- & Hcount).
  by rewrite Hcount, length_map, map_map.
Qed.

Lemma past_GetManifest r : reads_past name view (ReqGetManifest r) -> stable (GetManifest r) (as_at_start (ReqGetManifest r)).
Proof.
  intros (Ht & Hm). unfold GetManifest. rewrite Ht.
  assert (Hstep : forall reply, reply = manifest_reply r (Live view) -> as_at_start (ReqGetManifest r) reply).
  { intros reply ->. left. split; [|done]. by rewrite Ht, (catalog_live _ _ _ Hr0). }
  unfold manifest_reply in Hstep. rewrite Ht in Hstep. cbn [view_of v_manifests] in Hstep. rewrite find_manifest, row_id in Hstep.
  destruct (String.eqb name ""); [by apply stable_ret, Hstep|]. destruct (_ =? 0); [by apply stable_ret, Hstep|].
  eapply stable_rpc; [apply stable_GetManifestFile | by right | apply stable_ret, Hstep; by destruct (head _)].
  cbn [view_of v_manifests] in Hm. unfold details_of in Hm. apply existsb_exists in Hm as (x & Hx & E%Z.eqb_eq).
  apply in_map_iff in Hx as (y & <- & Hy%list_elem_of_In%elem_of_order_by). apply list_elem_of_In, filter_In in Hy as [Hy Et%Z.eqb_eq].
  exists y. rewrite row_id in Et. by rewrite list_elem_of_In.
Qed.

Lemma past_GetPartitionSpec r : reads_past name view (ReqGetPartitionSpec r) ->
  stable (GetPartitionSpec r) (as_at_start (ReqGetPartitionSpec r)).
Proof.
  intros (Ht & Hne & Hv). unfold GetPartitionSpec. cbv zeta. rewrite Ht, (proj2 (Z.eqb_neq _ _) Hne).
  assert (Hstep : forall reply, reply = spec_reply r (Live view) -> as_at_start (ReqGetPartitionSpec r) reply).
  { intros reply ->. left. split; [|done]. by rewrite Ht, (catalog_live _ _ _ Hr0). }
  unfold spec_reply, spec_at in Hstep. rewrite Ht, (proj2 (Z.eqb_neq _ _) Hne) in Hstep. cbn [view_of v_specs] in Hstep.
  rewrite find_spec, row_id in Hstep. fold (is_spec id (gpq_SpecVersion r)) in Hstep.
  destruct (String.eqb name ""); [by apply stable_ret, Hstep|].
  eapply stable_rpc; [apply stable_GetSpecAtVersion | by right |].
  - cbn [view_of v_specs] in Hv. unfold specs_of in Hv. apply existsb_exists in Hv as (x & Hx & E).
    apply in_map_iff in Hx as (y & <- & Hy). apply filter_In in Hy as [Hy Et]. rewrite row_id in Et.
    apply existsb_exists. exists y. split; [done|]. unfold is_spec. by rewrite Et.
  - destruct (_ <$> _); by apply stable_ret, Hstep.
Qed.

Lemma stable_read {A} (req : Request A) : request_ok req -> reads_past name view req -> stable (serve req) (as_at_start req).
Proof.
  intros Hok Hp. destruct req; try done; cbn [serve].
  - by apply past_GetPartitions.
  - by apply past_GetSnapshot.
  - by apply past_GetColumnStats.
  - by apply past_GetManifestList.
  - by apply past_GetManifest.
  - by apply past_GetPartitionSpec.
Qed.

End concurrent.

(** ** Pools *)

Section pools.
Context `{Postgres} `{GoText}.

(** A goroutine of a server: the one that serves the read, with its reply, or
    another. *)
Definition member {A} (req : Request A) (g : option goroutine) : Prog Sys (option (rpc A)) :=
  match g with
  | Some g => let* _ := thread g in Ret None
  | None => let* reply := serve req in Ret (Some reply)
  end.

(** A goroutine that does not end the table under its name. *)
Definition leaves_table (name : string) (g : goroutine) : Prop :=
  match g with Serves req => request_ok req /\ ~ removes name req | Cleans => True end.

Lemma calm_thread s name id g : db_wf (pg_seqs (sys_pg s)) (db s) -> table_id name (db s) = Some id ->
  leaves_table name g -> calm s name id (thread g).
Proof.
  intros Hwf Hid Hg. destruct g as [A req|]; (apply calm_bind; [|done]); [|apply calm_on_mvcc].
  destruct Hg. by apply calm_serve.
Qed.

Lemma held_start s name id : sys_wf s -> pg_txs (sys_pg s) = ∅ -> table_id name (db s) = Some id -> held s name id s.
Proof.
  intros [Hwf _ Hc] Htx Hid. split.
  - split; [by apply past_start | done | | done]. intros tx start log. by rewrite Htx, lookup_empty.
  - eapply all_cached_mono; [exact Hc|]. intros k rows (t & n & Hn & -> & Hr) m Hm _ Hk.
    by apply makeCacheKey_eq in Hk as [<- <-].
Qed.

Lemma stable_member {A} s name r (req : Request A) g :
  db_wf (pg_seqs (sys_pg s)) (db s) -> live_table name (db s) = Some r ->
  request_ok req -> reads_past name (view_of name r (db s)) req -> (forall g', g = Some g' -> leaves_table name g') ->
  stable s name (t_table_id r) (member req g) (fun a => forall reply, a = Some reply -> as_at_start s req reply).
Proof.
  intros Hwf Hr Hok Hp Hg. assert (Hid : table_id name (db s) = Some (t_table_id r)) by (unfold table_id; by rewrite Hr).
  destruct g as [g|]; apply stable_bind.
  - eapply stable_mono; [apply calm_thread; [done | done | by apply Hg]|]. intros _ _. by apply stable_ret.
  - eapply stable_mono; [by eapply stable_read|]. intros a Ha. apply stable_ret. by intros reply' [= <-].
Qed.

Lemma lookup_map_elem {A B C} (f : A -> B) (h : A -> C) l j y :
  map f l !! j = Some y -> exists x, x ∈ l /\ y = f x /\ map h l !! j = Some (h x).
Proof.
  revert j. induction l as [|x l IH]; intros [|j]; cbn; try done.
  - intros [= <-]. exists x. split; [left | done].
  - intros (z & Hz & -> & Hh)%IH. exists z. split; [by right | done].
Qed.

(** ** Properties *)

(** C10. Reads of the past are stable under concurrency: take any number of
    goroutines of a server, some serving the same request for something a
    table already has by its number (the files or the column statistics of a
    committed snapshot, a snapshot's record, its manifests, a manifest, a
    version of the spec), the others any requests but the drop or the rename
    of that table, or cleanup ticks.  However they interleave, and wherever the
    network fails, every reply to the read is the one the state at the start
    determines, unless the network failed and the reply says so. *)
Theorem past_reads_concurrent {A} (req : Request A) (name : string) (v : TableView) (gs : list (option goroutine))
    (s : Sys) (c : list (Prog Sys (option (rpc A))) * Sys) :
  sys_wf s -> pg_txs (sys_pg s) = ∅ -> catalog_of (db s) name = Live v -> reads_past name v req -> request_ok req ->
  (forall g, Some g ∈ gs -> leaves_table name g) -> steps (map (member req) gs, s) c ->
  forall i reply, c.1 !! i = Some (Ret (Some reply)) ->
    cat_step req (catalog_of (db s)) reply (catalog_of (db s)) \/
    (~ quiet s /\ exists msg, reply = Status Internal msg).
Proof.
  intros Hs Htx Hv Hp Hok Hgs Hsteps i reply Hi. pose proof (sw_db _ Hs) as Hwf.
  apply catalog_live_inv in Hv as (r & Hr & ->).
  assert (Hid : table_id name (db s) = Some (t_table_id r)) by (unfold table_id; by rewrite Hr).
  destruct (conforms_steps (fun _ : list unit => held s name (t_table_id r))
    (fun _ a _ => forall reply, a = Some reply -> as_at_start s req reply) _ _ (map (fun _ => tt) gs) Hsteps) as (us & _ & Hps).
  - by apply held_start.
  - intros j p Hj. exists tt. destruct (lookup_map_elem _ (fun _ => tt) _ _ _ Hj) as (g & Hg & -> & Htt). split; [exact Htt|].
    apply stable_member; [done..|]. intros g' ->. by apply Hgs.
  - destruct (Hps i _ Hi) as (u & _ & Ha). by apply Ha.
Qed.

End pools.
