(* ===== verification/Listing.v ===== *)
(** * Listing the tables page by page

    A client's loop over [ListTables] with page tokens.  The catalog machine
    says what one page is; here the pages are put together, and what a client
    misses that leaves the page size to the server. *)
From S2P Require Import Prelude Sorting Prog Models GoJson Postgres World PgClient PgFacts Wf Coherence Proto Server ServerFacts Service.
From S2P Require Import CatalogSpec CatalogView Refinement.

(** ** Listings of a catalog *)

Lemma listing_unique c names names' : listing c names -> listing c names' -> names = names'.
Proof.
  intros [Hin Hs] [Hin' Hs'].
  assert (Hnd : forall l, increasing (fun t => id_of (c t)) l -> NoDup l).
  { induction 1 as [|x l _ IH Hx]; constructor; [|done]. intros Hl. eapply Forall_forall in Hx; [|done]. cbn in Hx. lia. }
  refine (StronglySorted_unique (fun x y => id_of (c x) < id_of (c y)) names names' Hs Hs' _).
  - intros x y Hxy Hyx. lia.
  - apply NoDup_Permutation; [by apply Hnd..|]. intros t. by rewrite Hin, Hin'.
Qed.

Section equiv.
Context (c c' : CatalogState) (He : c ≡ c').

Lemma equiv_slot t : match c t, c' t with Live v, Live v' => v ≡ v' | Live _, _ | _, Live _ => False | _, _ => True end.
Proof. by destruct (He t) as [| |v v' Hv]. Qed.

Lemma equiv_id_of t : id_of (c t) = id_of (c' t).
Proof. pose proof (equiv_slot t) as Ht. destruct (c t), (c' t); try done. apply Ht. Qed.

Lemma equiv_listing names : listing c names -> listing c' names.
Proof.
  intros [Hin Hs]. split.
  - intros t. rewrite Hin. pose proof (equiv_slot t) as Ht. destruct (c t), (c' t); try done; split; by intros [? ?]; eauto.
  - rewrite <- (map_id names). apply (increasing_map (fun t => id_of (c t))); [done|]. intros t _. symmetry. apply equiv_id_of.
Qed.

Lemma equiv_summary t : table_summary c t = table_summary c' t.
Proof.
  unfold table_summary. pose proof (equiv_slot t) as Ht. destruct (c t), (c' t); try done.
  destruct Ht as (_ & _ & _ & _ & _ & _ & -> & -> & _). done.
Qed.

End equiv.

Section pages.
Context `{Postgres} `{GoText}.

(** ** The client *)

(** Pages of [size] tables until the server returns no token; [None] when the
    fuel runs out or an RPC fails. *)
Fixpoint fetch_tables (fuel : nat) (size : Z) (token : string) : Prog Sys (option (list TableSummary)) :=
  match fuel with
  | O => Ret None
  | S fuel' =>
      let* r := serve (ReqListTables (mkListTablesRequest "" size token)) in
      match r with
      | Status _ _ => Ret None
      | Reply page =>
          if String.eqb (lts_NextPageToken page) "" then Ret (Some (lts_Tables page))
          else
            let* rest := fetch_tables fuel' size (lts_NextPageToken page) in
            Ret (app (lts_Tables page) <$> rest)
      end
  end.

(** A request of a server that is ready. *)
Lemma wp_served {A} (req : Request A) s : ready s -> request_ok req ->
  wp (serve req) s (fun reply s' => ready s' /\ cat_step req (catalog_of (db s)) reply (catalog_of (db s'))).
Proof.
  intros Hs Hok. pose proof (ok_serve req Hok s (rd_wf _ Hs)) as Hw. apply wp_run in Hw as (reply & s' & Hrun & _).
  apply wp_run. exists reply, s'. split; [done|]. by apply served_step.
Qed.

Lemma page_offset_FormatInt n : is_int64 n -> page_offset (FormatInt n) = n.
Proof.
  intros Hn. unfold page_offset. destruct (String.eqb_spec (FormatInt n) "") as [E|]; [by destruct (FormatInt_not_empty n)|].
  by rewrite ParseInt_FormatInt.
Qed.

(** One page, at an offset the server accepts. *)
Lemma wp_tables_page size token names s :
  ready s -> listing (catalog_of (db s)) names -> 0 <= page_offset token ->
  let page := take (Z.to_nat (if size <=? 0 then 100 else size)) (drop (Z.to_nat (page_offset token)) names) in
  let n := Z.of_nat (length page) in
  wp (serve (ReqListTables (mkListTablesRequest "" size token))) s (fun reply s' =>
    ready s' /\ catalog_of (db s') ≡ catalog_of (db s) /\
    reply = Reply (mkListTablesResponse (map (table_summary (catalog_of (db s))) page)
      (if (0 <? size) && (n =? size) then FormatInt (int64 (page_offset token + n)) else ""))).
Proof.
  intros Hs Hnames Hoff page n. eapply wp_mono; [by apply wp_served|]. intros reply s' [Hs' [Hr He]].
  split; [done|]. split; [done|]. unfold tables_reply in Hr. cbn [ltr_PageSize ltr_PageToken] in Hr. cbv zeta in Hr.
  destruct (Z.ltb_spec (page_offset token) 0); [lia|]. destruct Hr as (names' & Hnames' & ->).
  by rewrite (listing_unique _ _ _ Hnames' Hnames).
Qed.

Lemma wp_fetch_tables size names fuel : forall token s,
  ready s -> listing (catalog_of (db s)) names -> is_int64 (Z.of_nat (length names)) -> 0 < size -> 0 <= page_offset token ->
  let rest := drop (Z.to_nat (page_offset token)) names in
  (length rest < fuel)%nat ->
  wp (fetch_tables fuel size token) s (fun r _ => r = Some (map (table_summary (catalog_of (db s))) rest)).
Proof.
  induction fuel as [|fuel IH]; intros token s Hs Hnames Hlen Hsize Hoff rest Hfuel; [lia|].
  cbn [fetch_tables]. rewrite wp_bind. eapply wp_mono; [by apply wp_tables_page|]. cbv zeta. fold rest.
  destruct (Z.leb_spec size 0); [lia|]. set (page := take (Z.to_nat size) rest).
  intros reply s1 (Hs1 & He & ->). cbn [lts_NextPageToken lts_Tables]. destruct (Z.ltb_spec 0 size); [|lia]. cbn [andb].
  assert (Hpage : length page = (Z.to_nat size `min` length rest)%nat) by apply length_take.
  assert (Hrest : length rest = (length names - Z.to_nat (page_offset token))%nat) by apply length_drop.
  destruct (Z.eqb_spec (Z.of_nat (length page)) size) as [Hfull|Hpart].
  2: { rewrite String.eqb_refl, wp_ret. unfold page. by rewrite take_ge by lia. }
  set (next := page_offset token + Z.of_nat (length page)). unfold is_int64 in Hlen.
  rewrite (int64_id next) by (unfold is_int64, next; lia).
  pose proof (page_offset_FormatInt next ltac:(unfold is_int64, next; lia)) as Htok.
  destruct (String.eqb_spec (FormatInt next) "") as [E|_]; [by destruct (FormatInt_not_empty next)|].
  assert (Hdrop : drop (Z.to_nat next) names = drop (Z.to_nat size) rest).
  { unfold rest. rewrite drop_drop. f_equal. unfold next. lia. }
  rewrite wp_bind. eapply wp_mono; [apply IH|].
  - done.
  - by eapply equiv_listing.
  - done.
  - done.
  - rewrite Htok. unfold next. lia.
  - rewrite Htok, Hdrop, length_drop. lia.
  - intros r s2 ->. rewrite wp_ret, Htok, Hdrop. cbn. f_equal.
    rewrite (map_ext (table_summary (catalog_of (db s1))) _ (equiv_summary _ _ He)). unfold page.
    by rewrite <- map_app, take_drop.
Qed.

(** Fewer tables than an [int64] counts. *)
Lemma live_rows_count q d : db_wf q d -> is_int64 (Z.of_nat (length (live_rows d))).
Proof.
  intros Hwf. assert (Z.of_nat (length (live_rows d)) < 2 ^ 63); [|unfold is_int64; lia].
  apply (increasing_length t_table_id); [by apply order_by_increasing, NoDup_map_filter, Hwf | | lia].
  apply Forall_forall. intros r Hr%(elem_of_live_rows _ _ _ Hwf).
  destruct (live_table_wf Hwf _ r Hr) as ([? ?] & _). pose proof (wf_seqs _ _ Hwf SeqTables). lia.
Qed.

(** ** Properties *)

(** C28. Listing the tables page by page is complete and ends: while the
    network delivers, at any moment of a server's life, a client that follows
    the page tokens of [ListTables] gets, whatever its page size, every live
    table once with its current snapshot and number of files, in the order
    of creation, after at most one page more than there are tables; but a
    client that leaves the page size to the server gets the first hundred
    tables and no token, however many there are. *)
Theorem tables_listed (s0 s : Sys) (es : list event) :
  started true s0 -> history es s0 s ->
  let c := catalog_of (db s) in
  exists names, listing c names /\
    forall fuel size, (length names < fuel)%nat ->
      exists s', run (fetch_tables fuel size "") s =
        Some (Some (map (table_summary c) (if 0 <? size then names else take 100 names)), s').
Proof.
  intros Hst Hh c. destruct (history_run _ _ _ Hh) as [Hs _]; [by apply in_order_ready, started_in_order|].
  pose proof (sys_db_wf _ (rd_wf _ Hs)) as Hwf. exists (map t_table_name (live_rows (db s))).
  pose proof (listing_rows _ _ Hwf) as Hnames. split; [done|]. intros fuel size Hfuel.
  assert (Hw : wp (fetch_tables fuel size "") s (fun r _ => r = Some (map (table_summary c)
    (if 0 <? size then map t_table_name (live_rows (db s)) else take 100 (map t_table_name (live_rows (db s))))))).
  { destruct (Z.ltb_spec 0 size).
    - apply (wp_fetch_tables size _ fuel "" s Hs Hnames); [|done..]. rewrite length_map. by eapply live_rows_count.
    - destruct fuel as [|fuel]; [lia|]. cbn [fetch_tables]. rewrite wp_bind.
      eapply wp_mono; [by apply wp_tables_page|]. cbv zeta. destruct (Z.leb_spec size 0); [|lia].
      intros reply s1 (_ & _ & ->). destruct (Z.ltb_spec 0 size); [lia|]. cbn [andb lts_NextPageToken lts_Tables].
      by rewrite String.eqb_refl, wp_ret. }
  apply wp_run in Hw as (r & s' & Hr & ->). by exists s'.
Qed.

End pages.
