(* ===== verification/Accepted.v ===== *)
(** * Writes that must succeed

    The other half of the contract of [CatalogSpec], whose writes may always
    be refused: what a request needs for the server to accept it, in terms of
    the catalog and of what the database has left to give. *)
From S2P Require Import Prelude Json Prog CacheInterface LRU MVCC Lock Models PartitionSpec GoJson Postgres World PgClient PgFacts.
From S2P Require Import PgPlain Sorting Reads Registry Commit Wf Visibility Coherence CommitFacts SchemaStore SpecStore.
From S2P Require Import Catalog CatalogFacts CatalogWf DDL Proto Server ServerFacts Service TxFacts Readback.
From S2P Require Import CatalogSpec CatalogView Refinement.

Section accepted.
Context `{Postgres} `{GoText}.
Implicit Types (d : DB) (q : Seqs).

(** ** Purges *)

(** A snapshot of one table is of no other. *)
Lemma snapshot_of_one_table q d i j n :
  db_wf q d -> n ∈ snapshot_ids i d -> existsb (fun r => (s_snapshot_id r =? n) && (s_table_id r =? j)) (snapshots d) = true -> i = j.
Proof.
  intros Hwf (r & Hr & Hi & Hn)%elem_of_snapshot_ids (r' & Hr' & Hj)%existsb_exists.
  apply andb_true_iff in Hj as [Hn'%Z.eqb_eq Hj%Z.eqb_eq].
  assert (r = r') as ->; [|congruence]. apply (NoDup_map_inj s_snapshot_id (snapshots d)); [apply Hwf | done | by apply list_elem_of_In | congruence].
Qed.

Lemma none_satisfy {A} (f : A -> bool) l : (forall x, x ∈ l -> f x = false) -> negb (existsb f l) = true.
Proof.
  intros Hl. apply negb_true_iff, not_true_is_false. rewrite existsb_exists. intros (x & Hx%list_elem_of_In & Hf).
  by rewrite Hl in Hf.
Qed.

Lemma deleted_none {A} (f : A -> bool) l : negb (existsb f (delete_where f l)) = true.
Proof. apply none_satisfy. by intros x [_ ?]%elem_of_delete_where. Qed.

(** Only the rows of [transactions] can keep a table from being purged. *)
Lemma purgeable_unless_used q name id d :
  db_wf q d -> table_id name d = Some id -> (forall x, x ∈ transactions d -> x_table_id x <> id) -> purgeable name id d.
Proof.
  intros Hwf Hid Hx. split.
  - unfold snapshots_unreferenced. cbv zeta. cbn [snapshots purge_files partitions manifest_files manifest_lists].
    rewrite !none_satisfy; [done| | |]; intros r [Hin Hr%Z.eqb_neq]%elem_of_delete_where; apply not_true_is_false; intros E; apply Hr.
    + (* a manifest list *)
      assert (Hl : (ml_snapshot_id r, ml_table_id r) ∈ map (fun r => (s_snapshot_id r, s_table_id r)) (snapshots d)).
      { rewrite <- (wf_manifest_lists _ _ Hwf). by apply (list_elem_of_fmap_2 (fun r => (ml_snapshot_id r, ml_table_id r))). }
      apply list_elem_of_fmap in Hl as (x & [= Hn Ht] & Hxin). eapply snapshot_of_one_table; [exact Hwf | | exact E].
      apply elem_of_snapshot_ids. exists x. by rewrite Hn.
    + eapply snapshot_of_one_table; [exact Hwf | by apply (wf_manifest_files _ _ Hwf) | exact E].
    + eapply snapshot_of_one_table; [exact Hwf | by apply (wf_partitions _ _ Hwf) | exact E].
  - apply forallb_forall. intros r Hin%list_elem_of_In. destruct (String.eqb (t_table_name r) name) eqn:E; [|done].
    cbn [negb orb]. assert (t_table_id r = id) as ->.
    { destruct (Z.eq_dec (t_table_id r) id) as [|Hne]; [done|]. apply (purge_other_row q name id d) in Hne; [congruence | done..]. }
    unfold table_unreferenced, purge_children. cbn. rewrite !deleted_none. cbn. rewrite !andb_true_r.
    apply none_satisfy. intros x Hxin. apply Z.eqb_neq. auto.
Qed.

(** ** Enabled requests *)

(** What a write needs.  A spec change needs a version that is not recorded
    yet, which only the wrap-around of the counter can break. *)
Definition enabled {A} (req : Request A) (s : Sys) : Prop :=
  let c := catalog_of (db s) in
  let room n k := seq_room (pg_seqs (sys_pg s)) n k in
  match req with
  | ReqCreateTable r =>
      c (ctr_TableName r) = Free /\ pg_jsonb (ctr_SchemaJson r) <> None /\
      pg_jsonb (initialSpecJSON (ctr_PartitionSpec r)) <> None /\ pg_jsonb (propertiesToJSON (ctr_Properties r)) <> None /\
      room SeqTables 1%nat /\ room SeqPartitionSpecs 1%nat
  | ReqAlterTable r =>
      atr_TableName r <> "" /\ exists v, c (atr_TableName r) = Live v /\
      match atr_Alteration r with
      | Some (AlterTableRequest_NewSchemaJson text) =>
          ValidateSchemaChange text = "" /\ pg_jsonb text <> None /\ room SeqSchemaHistory 1%nat
      | Some (AlterTableRequest_NewPartitionSpec p) =>
          let text := json_print (spec_doc (protoToPartitionSpec p)) in
          ValidateSpecChange (v_spec v) text = "" /\ pg_jsonb text <> None /\ room SeqPartitionSpecs 1%nat /\
          forall sv, sv ∈ v_specs v -> psv_Version sv <> int32 (v_spec_version v + 1)
      | Some (AlterTableRequest_Rename (Some n)) => rt_NewName n <> "" /\ c (rt_NewName n) = Free
      | _ => False
      end
  | ReqDropTable r =>
      dtr_TableName r <> "" /\ exists t, live_table (dtr_TableName r) (db s) = Some t /\
      (dtr_Purge r = true -> forall x, x ∈ transactions (db s) -> x_table_id x <> t_table_id t)
  | ReqCommitSnapshot r =>
      exists v parts, c (snq_TableName r) = Live v /\ new_parts (snq_NewPartitions r) = inr parts /\
      snq_ParentSnapshotId r = v_current v /\
      room SeqSnapshots 1%nat /\ room SeqPartitions (length parts) /\ room SeqManifestFiles 2%nat /\
      room SeqManifestLists 1%nat /\
      (forall p, p ∈ parts -> pg_jsonb (marshalColumnStats (pr_ColumnStats p)) <> None) /\
      pg_jsonb (summaries_json (map pr_PartitionKey parts)) <> None /\
      pg_jsonb (summaries_json (snq_DeletedPartitionKeys r)) <> None
  | _ => False
  end.

(** The reply of a write that took effect. *)
Definition succeeds {A} (req : Request A) : rpc A -> Prop :=
  match req in Request A return rpc A -> Prop with
  | ReqCreateTable _ | ReqAlterTable _ | ReqDropTable _ => accepted
  | ReqCommitSnapshot _ => fun reply => exists snap, reply = Reply (mkSnapshotResponse snap true "")
  | _ => fun _ => True
  end.

(** An operation of the manager that can be applied is. *)
Lemma outcome_enabled applied (possible : Prop) s res s' :
  quiet s -> possible -> op_outcome applied possible s res s' -> accepted (Reply (to_response res)).
Proof.
  intros Hq Hp (_ & _ & _ & _ & _ & Hr). unfold accepted, to_response. destruct (Success res).
  - by destruct Hr as [_ ->].
  - by destruct Hr as [_ []].
Qed.

Lemma name_free name d : catalog_of d name = Free -> live_table name d = None /\ name_taken name d = false.
Proof. unfold catalog_of. destruct (live_table name d); [done|]. by destruct (name_taken name d). Qed.

Lemma enabled_CreateTable r s : ready s -> enabled (ReqCreateTable r) s -> wp (CreateTable r) s (fun reply _ => accepted reply).
Proof.
  intros [[Hwf Hfree Hm] Hq Hc] ([_ Hn]%name_free & H1 & H2 & H3 & H4 & H5). unfold CreateTable. rewrite wp_bind.
  eapply wp_mono; [by apply wp_CreateTable|]. intros res s' Hout. rewrite wp_ret.
  eapply outcome_enabled; [exact Hq | | exact Hout]. split; try done. intros p Hp.
  pose proof (wf_specs _ _ Hwf p Hp) as Ht. unfold has_table in Ht. apply existsb_exists in Ht as (t & Ht%list_elem_of_In & E%Z.eqb_eq).
  destruct (wf_tables _ _ Hwf t Ht) as [[_ ?] _]. lia.
Qed.

(** The version to be recorded is not. *)
Lemma new_version name r d v : (forall sv, sv ∈ v_specs (view_of name r d) -> psv_Version sv <> v) ->
  forall p, p ∈ partition_specs d -> ~ (ps_table_id p = t_table_id r /\ ps_spec_version p = v).
Proof.
  intros Hv p Hp [Ht Hpv]. apply (Hv (spec_version_of (scan_partition_spec p))); [|done]. cbn [view_of v_specs].
  unfold specs_of. apply (list_elem_of_fmap_2 (fun r => spec_version_of (scan_partition_spec r))).
  apply list_elem_of_In, filter_In. split; [by apply list_elem_of_In | by apply Z.eqb_eq].
Qed.

Lemma enabled_alter_schema name text r s : ready s -> live_table name (db s) = Some r -> ValidateSchemaChange text = "" ->
  pg_jsonb text <> None -> seq_room (pg_seqs (sys_pg s)) SeqSchemaHistory 1 ->
  wp (alter_schema name text) s (fun reply _ => accepted reply).
Proof.
  intros Hs Hr Hv Hj Hroom. pose proof Hs as [[Hwf Hfree Hm] Hq Hc].
  destruct (table_cases s name Hs) as [E|(r' & spec & Hr' & Hspec & _)]; [congruence|].
  assert (r' = r) as -> by congruence. unfold alter_schema. rewrite wp_bind.
  eapply wp_mono; [by eapply wp_GetCurrentSchema|]. intros x s1 (-> & (Hfree1 & Hd1 & Hs1 & _ & Hq1) & _).
  cbv zeta. rewrite Hv. cbn [String.eqb negb]. rewrite wp_bind. eapply wp_mono; [by apply wp_AlterTableSchema|].
  intros res s2 Hout. unfold InvalidateTableCache. rewrite wp_bind, wp_on_cache, wp_ret.
  eapply outcome_enabled; [exact (Hq1 Hq) | | exact Hout]. exists r. split; by rewrite ?Hd1, ?Hs1, ?Hspec.
Qed.

Lemma enabled_alter_spec name p r s : ready s -> live_table name (db s) = Some r ->
  let text := json_print (spec_doc (protoToPartitionSpec p)) in
  let v := view_of name r (db s) in
  ValidateSpecChange (v_spec v) text = "" -> pg_jsonb text <> None -> seq_room (pg_seqs (sys_pg s)) SeqPartitionSpecs 1 ->
  (forall sv, sv ∈ v_specs v -> psv_Version sv <> int32 (v_spec_version v + 1)) ->
  wp (alter_spec name p) s (fun reply _ => accepted reply).
Proof.
  intros Hs Hr text v Hv Hj Hroom Hnew. pose proof Hs as [[Hwf Hfree Hm] Hq Hc].
  destruct (table_cases s name Hs) as [E|(r' & spec & Hr' & Hspec & _)]; [congruence|].
  assert (r' = r) as -> by congruence. unfold alter_spec. cbn [json_marshal_spec]. fold text. rewrite wp_bind.
  eapply wp_mono; [by eapply wp_GetCurrentSpec|]. intros x s1 (-> & (Hfree1 & Hd1 & Hs1 & _ & Hq1)).
  cbv zeta. cbn [psv_SpecJSON]. unfold v in Hv. cbn [view_of v_spec] in Hv. rewrite Hspec in Hv. cbn [from_option Datatypes.id] in Hv.
  rewrite Hv. cbn [String.eqb negb]. rewrite wp_bind. eapply wp_mono; [by apply wp_AlterTablePartitionSpec|].
  intros res s2 Hout. unfold InvalidateTableCache. rewrite wp_bind, wp_on_cache, wp_ret.
  eapply outcome_enabled; [exact (Hq1 Hq) | | exact Hout]. exists r.
  split; rewrite ?Hd1, ?Hs1, ?Hspec; try done. by eapply new_version.
Qed.

Lemma enabled_rename name n r s : ready s -> live_table name (db s) = Some r -> rt_NewName n <> "" ->
  catalog_of (db s) (rt_NewName n) = Free -> wp (alter_rename name (Some n)) s (fun reply _ => accepted reply).
Proof.
  intros [[Hwf Hfree Hm] Hq Hc] Hr Hne [Hnone Hn]%name_free. unfold alter_rename. cbv zeta.
  rewrite (proj2 (String.eqb_neq _ _) Hne). cbn [negb]. rewrite wp_bind.
  eapply wp_mono; [apply wp_RenameTable; [done | congruence]|]. intros res s2 Hout. unfold InvalidateTableCache.
  rewrite wp_bind, wp_on_cache, wp_bind, wp_on_cache, wp_ret. eapply outcome_enabled; [exact Hq | | exact Hout].
  split; [by rewrite Hr|]. unfold name_free_for. apply orb_true_iff. right. apply none_satisfy. intros x Hx.
  rewrite (proj2 (String.eqb_neq _ _)); [done|]. by apply (proj1 (name_taken_false _ _) Hn).
Qed.

Lemma enabled_DropTable r s : ready s -> enabled (ReqDropTable r) s -> wp (DropTable r) s (fun reply _ => accepted reply).
Proof.
  intros [[Hwf Hfree Hm] Hq Hc] (Hne & t & Ht & Hx). destruct r as [name purge]. cbn [dtr_TableName dtr_Purge] in *.
  assert (Hout : wp (Catalog.DropTable name purge) s (fun res _ => accepted (Reply (to_response res)))).
  { assert (Hid : table_id name (db s) = Some (t_table_id t)) by (unfold table_id; by rewrite Ht). destruct purge.
    - eapply wp_mono; [by apply wp_DropTable_purge|]. intros res s' Hout. eapply outcome_enabled; [exact Hq | | exact Hout].
      eexists. split; [exact Hid|]. eapply purgeable_unless_used; [done..|]. by apply Hx.
    - eapply wp_mono; [by apply wp_DropTable_soft|]. intros res s' Hout. eapply outcome_enabled; [exact Hq | | exact Hout].
      by rewrite Ht. }
  unfold DropTable. cbn [dtr_TableName dtr_Purge]. rewrite (proj2 (String.eqb_neq _ _) Hne), wp_bind.
  eapply wp_mono; [exact Hout|]. intros res s' Ha. unfold InvalidateTableCache.
  destruct (Success res); [rewrite wp_bind, wp_on_cache|]; by rewrite wp_ret.
Qed.

Lemma enabled_CommitSnapshot r s : ready s -> enabled (ReqCommitSnapshot r) s ->
  wp (CommitSnapshot r) s (fun reply _ => exists snap, reply = Reply (mkSnapshotResponse snap true "")).
Proof.
  intros [Hs Hq Hc] (v & parts & Hv & Hp & Hpar & R1 & R2 & R3 & R4 & Hstats & Hsum). pose proof Hs as [Hwf Hfree Hm].
  unfold CommitSnapshot. rewrite Hp, wp_bind. eapply wp_mono; [apply wp_CommitSnapshot; [done | apply Hwf]|].
  intros res s' (_ & _ & _ & _ & Hres). rewrite wp_ret. destruct (cr_Success res).
  - destruct Hres as (_ & -> & _). by eexists.
  - destruct Hres as (_ & _ & _ & Hno & _). destruct Hno. split; [done|]. destruct (catalog_live_inv _ _ _ Hv) as (t & Ht & ->).
    split; [done|]. split; try done; [unfold table_id; by rewrite Ht|]. intros l Hl. by eapply manifest_list_issued.
Qed.

(** ** Properties *)

(** C11. Writes that should succeed do: while the network delivers, at any
    moment of a server's life, a creation under a free name with an
    initial partition spec, an alteration of a live table that the rules
    allow (a rename to a free name), a soft drop, a purge of a table without
    transaction rows, and a commit of valid files on the current snapshot are
    all accepted, provided that PostgreSQL takes the documents as JSON, the id
    sequences are not used up and the next version of a changed spec is not
    on record already ([enabled]). *)
Theorem writes_succeed {A} (s0 s : Sys) (es : list event) (req : Request A) :
  started true s0 -> history es s0 s -> enabled req s ->
  exists reply s', run (serve req) s = Some (reply, s') /\ succeeds req reply.
Proof.
  intros Hst Hh He. destruct (history_run _ _ _ Hh) as [Hs _]; [by apply in_order_ready, started_in_order|].
  destruct req as [r|r|r|r|r|r|r|r|r|r|r|r|r|r|r|r|r|r]; try done; cbn [serve succeeds]; apply wp_run.
  - by apply enabled_CreateTable.
  - destruct He as (Hne & v & Hv & He). destruct (catalog_live_inv _ _ _ Hv) as (t & Ht & ->). unfold AlterTable.
    rewrite (proj2 (String.eqb_neq _ _) Hne). destruct (atr_Alteration r) as [[text|p|[n|]]|]; try done.
    + destruct He as (? & ? & ?). by apply (enabled_alter_schema _ _ t).
    + destruct He as (? & ? & ? & ?). by apply (enabled_alter_spec _ _ t).
    + destruct He as [? ?]. by apply (enabled_rename _ _ t).
  - by apply enabled_DropTable.
  - by apply enabled_CommitSnapshot.
Qed.

End accepted.
