(* ===== verification/Samples.v ===== *)
(** * A sample system

    A concrete server and a small catalog, at which the theorems
    with hypotheses are applied: a table "events" with two snapshots, three
    files (one replaced by the second snapshot), their manifests, a spec
    history and one open transaction. *)
From S2P Require Import Prelude Prog CacheInterface LRU MVCC Lock GoStrings Json Models PartitionSpec GoJson Postgres JsonFacts World.
From S2P Require Import PgClient PgFacts Reads Registry Commit Wf Coherence Config Proto Server ServerFacts Service.

(** A server whose [jsonb] keeps the compact form of a document. *)
#[export] Instance sample_postgres : Postgres := {
  pg_jsonb text := json_print <$> json_parse text;
  pg_timestamp_text := FormatInt;
  pg_error_text code relation := (code ++ " " ++ relation)%string;
}.

#[export] Instance sample_jsonb : Jsonb.
Proof.
  intros v t Hp Hd. cbn [pg_jsonb sample_postgres]. apply plain_literals in Hp. rewrite json_parse_print by done.
  intros [= <-]. exists (json_norm (json_norm v)). split; [|rewrite json_norm_idem; apply jsonb_same_refl].
  apply json_parse_print; [by rewrite literals_norm | by rewrite depth_norm].
Qed.

#[export] Instance sample_text : GoText := {
  json_error_text type text := ("json: cannot unmarshal " ++ text ++ " into Go value of type " ++ type)%string;
  is_print n := true;
}.

Definition day_field : PartitionField := mkPartitionField 1 "ts" TransformDay None.
Definition bucket_field (n : Z) : PartitionField := mkPartitionField 2 "user" TransformBucket (Some n).

Definition day_spec : PartitionSpec := mkPartitionSpec [day_field].
Definition bucket_spec (n : Z) : PartitionSpec := mkPartitionSpec [day_field; bucket_field n].

(** The documents of the catalog. *)
Definition day_json : string := Eval vm_compute in json_print (spec_doc day_spec).
Definition bucket16_json : string := Eval vm_compute in json_print (spec_doc (bucket_spec 16)).
Definition bucket32_json : string := Eval vm_compute in json_print (spec_doc (bucket_spec 32)).
Definition user16_json : string := Eval vm_compute in json_print (spec_doc (mkPartitionSpec [bucket_field 16])).
Definition user32_json : string := Eval vm_compute in json_print (spec_doc (mkPartitionSpec [bucket_field 32])).

Definition schema_json : string := Eval vm_compute in json_print (JObj [("type", JStr "struct"); ("fields", JArr [])]).
Definition schema2_json : string :=
  Eval vm_compute in json_print (JObj [("type", JStr "struct"); ("fields", JArr [JObj [("name", JStr "ts")]])]).

Definition stats_a : list ColumnStats := [mkColumnStats 1 0 0 10 "a" "m" 80].
Definition stats_b : list ColumnStats := [mkColumnStats 1 2 0 5 "c" "z" 40; mkColumnStats 2 0 1 5 "" "" 40].
Definition stats_a_json : string := Eval vm_compute in json_print (stats_doc stats_a).
Definition stats_b_json : string := Eval vm_compute in json_print (stats_doc stats_b).

Definition summaries_of (keys : list string) : string :=
  json_print (JArr (map (fun k => map_doc {[ "partition_key" := k ]}) keys)).
Definition summaries1 : string := Eval vm_compute in summaries_of ["day=1"; "day=2"].
Definition summaries2 : string := Eval vm_compute in summaries_of ["day=3"].
Definition summaries3 : string := Eval vm_compute in summaries_of ["day=2"].

Definition events : tables_row := mk_tables_row 1 "events" schema_json 1 (Some day_json) 1 2 "{}" 0 false.
Definition old_events : tables_row := mk_tables_row 2 "old" schema_json 1 (Some day_json) 1 0 "{}" 0 true.

Definition sample_db : DB := mkDB
  [events; old_events]
  []
  [mk_snapshots_row 1 1 0 10 "append" 2 0; mk_snapshots_row 2 1 1 20 "overwrite" 1 1]
  [mk_partitions_row 1 1 1 "day=1" "s3://1" "parquet" 10 100 stats_a_json false None;
   mk_partitions_row 2 1 1 "day=2" "s3://2" "parquet" 20 200 stats_a_json true (Some 2);
   mk_partitions_row 3 1 2 "day=3" "s3://3" "parquet" 5 50 stats_b_json false None]
  [mk_transactions_row 1 "spark" 1 2 "active" "snapshot" None]
  [mk_manifest_files_row 1 1 1 "iceberg://events/1/0.avro" 1 2 0 30 0 summaries1;
   mk_manifest_files_row 2 1 2 "iceberg://events/2/0.avro" 1 1 0 5 0 summaries2;
   mk_manifest_files_row 3 1 2 "iceberg://events/2/1.avro" 1 0 1 0 0 summaries3]
  [mk_manifest_lists_row 1 1 1 1; mk_manifest_lists_row 2 2 1 2]
  [mk_partition_specs_row 1 1 1 day_json 5 (Some "initial spec")].

Definition sample_seqs : Seqs := fun n =>
  match n with
  | SeqTables => 2 | SeqSchemaHistory => 0 | SeqSnapshots => 2 | SeqPartitions => 3 | SeqTransactions => 1
  | SeqManifestFiles => 3 | SeqManifestLists => 2 | SeqPartitionSpecs => 1
  end.

Definition sample_pg : PG := mkPG sample_db ∅ 0 sample_seqs 100 [].

Definition sample_config : Config := FromEnv (fun _ => "").

(** A server just started on the sample database. *)
Definition sample_sys : Sys := New sample_config sample_pg 0.

(** The same, its network about to lose the reply to the eleventh round trip,
    which is the COMMIT of a commit of one file. *)
Definition faulty_sys : Sys :=
  set_pg (set_net (repeat Delivered 10 ++ [LostReply "connection reset"]) sample_pg) sample_sys.

(** Case analysis of membership in a concrete list. *)
Ltac each_elem :=
  repeat match goal with
  | H : _ ∈ _ :: _ |- _ => apply elem_of_cons in H as [->|H]
  | H : _ ∈ [] |- _ => by apply elem_of_nil in H
  end.

Ltac solve_nodup := apply (bool_decide_eq_true_1 _); vm_compute; reflexivity.

Lemma sample_wf : db_wf sample_seqs sample_db.
Proof.
  split.
  - intros []; cbn; lia.
  - solve_nodup.
  - solve_nodup.
  - cbn [tables sample_db]. intros r Hr. each_elem; (split; [vm_compute; split; congruence|]); split; done.
  - solve_nodup.
  - cbn [snapshots sample_db]. intros r Hr. each_elem; (split; [vm_compute; split; congruence|]); split; done.
  - solve_nodup.
  - cbn [partitions sample_db]. intros r Hr. each_elem; (split; [vm_compute; split; congruence|]); cbn; split_and!;
      try done; try lia; vm_compute; repeat constructor.
  - done.
  - cbn [manifest_files sample_db]. intros r Hr. each_elem; vm_compute; repeat constructor.
  - solve_nodup.
  - cbn [manifest_files sample_db]. intros r Hr. each_elem; vm_compute; split; congruence.
  - cbn [manifest_lists sample_db]. intros r Hr. each_elem; done.
  - cbn [partition_specs sample_db]. intros r Hr. each_elem; done.
Qed.

Lemma sample_locks_free : all_free (sys_locks sample_sys).
Proof. by split; [split|]. Qed.

Lemma sample_cache_coherent : coherent sample_db (sys_cache sample_sys).
Proof. split; [apply NewLRU_wf | by intros k v ?%elem_of_nil]. Qed.

Lemma sample_sys_wf : sys_wf sample_sys.
Proof. split; [apply sample_wf | apply sample_locks_free | apply sample_cache_coherent]. Qed.

Lemma faulty_sys_wf : sys_wf faulty_sys.
Proof. split; [apply sample_wf | apply sample_locks_free | apply sample_cache_coherent]. Qed.

Lemma sample_system_wf : system_wf sample_sys.
Proof.
  split; [apply sample_wf | apply sample_locks_free | split; [|done]].
  intros n. unfold readers. cbn. by rewrite map_filter_empty, decide_True, lookup_empty.
Qed.

Lemma sample_quiet : quiet sample_sys.
Proof. done. Qed.

Lemma sample_room n k : (k <= 10)%nat -> seq_room sample_seqs n k.
Proof. intros Hk. unfold seq_room. destruct n; cbn [sample_seqs]; lia. Qed.

(** What the server keeps of the documents. *)
Lemma jsonb_object : pg_jsonb "{}" = Some "{}".
Proof. vm_compute. reflexivity. Qed.

Lemma jsonb_schema : pg_jsonb schema_json = Some schema_json.
Proof. vm_compute. reflexivity. Qed.

Lemma jsonb_schema2 : pg_jsonb schema2_json = Some schema2_json.
Proof. vm_compute. reflexivity. Qed.

Lemma jsonb_day : pg_jsonb day_json = Some day_json.
Proof. vm_compute. reflexivity. Qed.

Lemma jsonb_bucket16 : pg_jsonb bucket16_json = Some bucket16_json.
Proof. vm_compute. reflexivity. Qed.

Lemma jsonb_empty : pg_jsonb "" = None.
Proof. vm_compute. reflexivity. Qed.

(** Files to commit. *)
Definition day4 : PartitionRow := mkPartitionRow 0 0 0 "day=4" "s3://4" "parquet" 7 70 stats_b.
Definition day1 : PartitionRow := mkPartitionRow 0 0 0 "day=1" "s3://1b" "parquet" 11 110 [].

Lemma sample_accepts v : json_literals v = true -> json_depth v <= max_depth -> pg_jsonb (json_print v) <> None.
Proof. intros Hl Hd. cbn [pg_jsonb sample_postgres]. by rewrite json_parse_print. Qed.

Lemma sample_summaries keys : pg_jsonb (summaries_json keys) <> None.
Proof.
  unfold summaries_json. apply sample_accepts.
  - cbn [json_literals]. rewrite !forallb_forall. intros v (m & <- & _)%in_map_iff. cbn [map_doc json_literals].
    rewrite forallb_forall. by intros kv (x & <- & _)%in_map_iff.
  - cbn [json_depth]. enough (foldr (fun x a => Z.max (json_depth x) a) 0 (map map_doc (map (fun k => {[ "partition_key" := k ]}) keys)) <= 1)
      by (unfold max_depth; lia). apply (foldr_max_le json_depth); [lia|]. intros v (m & -> & _)%list_elem_of_fmap.
    apply depth_flat, Forall_forall. by intros kv (x & -> & _)%list_elem_of_fmap.
Qed.

(** The server accepts a commit of files with valid statistics. *)
Lemma sample_ready parts keys : (length parts <= 10)%nat -> Forall (fun p => stats_text_ok (pr_ColumnStats p)) parts ->
  commit_ready sample_seqs "events" parts keys sample_db.
Proof.
  intros Hn Hst. split; try (apply sample_room; lia).
  - vm_compute. congruence.
  - cbn [manifest_lists sample_db]. intros r Hr. each_elem; cbn; lia.
  - intros p Hp. eapply Forall_forall in Hst; [|done]. unfold marshalColumnStats. destruct (pr_ColumnStats p) as [|c l]; [by vm_compute|].
    cbn [json_marshal_stats]. apply sample_accepts; [by apply plain_literals, plain_stats_doc | apply depth_stats].
  - split; apply sample_summaries.
Qed.

Lemma day4_ready : Forall (fun p => stats_text_ok (pr_ColumnStats p)) [day4].
Proof. repeat constructor; cbn; unfold is_int64, is_int32; try lia; reflexivity. Qed.

(** ** Requests to the samples *)

(** The server after a request. *)
Definition next_state {A} (req : Request A) (s : Sys) : Sys :=
  match run (serve req) s with Some (_, s') => s' | None => s end.

Lemma replied {A} (req : Request A) s reply :
  option_map fst (run (serve req) s) = Some reply -> run (serve req) s = Some (reply, next_state req s).
Proof. unfold next_state. destruct (run (serve req) s) as [[a s']|]; cbn; congruence. Qed.

Definition sample_commit : Request SnapshotResponse :=
  ReqCommitSnapshot (mkSnapshotRequest "events" [mkPartitionInfo "day=4" "s3://4" 7 70 0 "" []] ["day=3"] 2 "").

Definition sample_read : PartitionRequest := mkPartitionRequest "events" "" 2 0 "".

(** The files of snapshot 2, before and after the commit deletes "day=3". *)
Definition sample_files : PartitionListResponse :=
  mkPartitionListResponse
    [mkPartitionInfo "day=1" "s3://1" 10 100 1 "parquet" []; mkPartitionInfo "day=3" "s3://3" 5 50 2 "parquet" []] "" 2.
