(* ===== verification/Faults.v ===== *)
(** * Network failures the cache does not survive

    When the reply to a [COMMIT] is lost, the handler reports an error and
    leaves the cached answers of the table in place: the server goes on
    serving the files of a table that is gone, or takes an answer it cached
    for a snapshot that did not exist yet for that of the snapshot committed
    since. *)
From S2P Require Import Prelude Prog CacheInterface LRU Lock Models GoJson Postgres World PgClient PgFacts PgPlain.
From S2P Require Import Reads Registry Commit Wf Visibility Coherence Catalog CatalogFacts CatalogWf DDL Proto Server Service TxFacts Samples.

(** ** A drop whose reply is lost *)

(** The third round trip of a soft drop is its [COMMIT]. *)
Definition losing_commit (e : string) (s : Sys) : Sys :=
  set_pg (set_net [Delivered; Delivered; LostReply e] (sys_pg s)) s.

Definition drop_request (name : string) : Request OperationResponse := ReqDropTable (mkDropTableRequest name false).

(** A read of all files of a snapshot. *)
Definition read_request (name : string) (n : Z) : Request PartitionListResponse :=
  ReqGetPartitions (mkPartitionRequest name "" n 0 "").

(** The cache answers a read of the table at snapshot [n]. *)
Definition answered (name : string) (n : Z) (rows : list PartitionRow) (s : Sys) : Prop :=
  sys_disable_cache s = false /\ (Get (makeCacheKey name n) (sys_cache s)).1 = Some rows.

(** Computes the database side of the system. *)
Ltac delivered :=
  cbn [losing_commit sys_pg set_pg pg_begin next_fault use_fault set_net set_seqs set_txs set_db tail fst snd
    pg_db pg_txs pg_next_tx pg_seqs pg_now pg_net sys_locks sys_mvcc sys_cache sys_disable_cache sys_clock].

Section faults.
Context `{Postgres} `{GoText}.

(** The rows are as after the drop, which has reported the error, and the
    cache is as it was. *)
Lemma wp_DropTable_lost name e s :
  all_free (sys_locks s) -> live_table name (db s) <> None ->
  wp (Catalog.DropTable name false) (losing_commit e s) (fun res s' =>
    res = failed e /\ all_free (sys_locks s') /\ quiet s' /\ live_table name (db s') = None /\
    sys_cache s' = sys_cache s /\ sys_disable_cache s' = sys_disable_cache s).
Proof.
  intros Hfree Hlive. apply wp_with_exclusive; [done | unfold PgClient.DropTable, finish_tx; solve_plain|].
  assert (Hn : (0 <? Z.of_nat (length (List.filter (live_named name) (tables (db s))))) = true).
  { unfold live_table in Hlive. destruct (List.filter _ _); [done | by apply Z.ltb_lt]. }
  destruct s as [[d txs nx q now net] lk mv c dis ck]. unfold db in *. cbn [sys_pg pg_db] in *.
  unfold with_tx, BeginTx. rewrite wp_bind, wp_on_pg. delivered.
  rewrite wp_deferred, wp_bind. unfold PgClient.DropTable. rewrite wp_bind. unfold tx_exec. rewrite wp_on_pg.
  unfold in_tx. delivered. rewrite lookup_insert_eq. delivered.
  cbn [exec_tx tx_log tx_start sql_soft_delete_table with_now modify tx_view foldl]. delivered. rewrite Hn, wp_ret.
  unfold finish_tx. rewrite wp_bind. unfold tx_commit. rewrite wp_on_pg. unfold pg_commit. delivered.
  rewrite lookup_insert_eq. delivered. cbn [exec_commit tx_log app tx_view foldl]. delivered. rewrite wp_ret.
  unfold tx_rollback. rewrite wp_on_pg. intros m Hm. split_and!; try done.
  eapply (live_table_gone name); [done|]. intros r _. unfold live_named. cbn. apply andb_false_r.
Qed.

(** A cached answer needs no database. *)
Lemma wp_GetPartitions_cached name n rows s :
  all_free (sys_locks s) -> n <> 0 -> answered name n rows s ->
  wp (Registry.GetPartitions name n) s (fun r s' => r = Ok (Some rows) /\ answered name n rows s').
Proof.
  intros Hfree Hn [Hdis Hget]. apply wp_with_shared; [done | unfold resolveSnapshot; solve_plain|]. unfold resolveSnapshot.
  rewrite (proj2 (Z.eqb_neq _ _) Hn). cbn [negb]. rewrite wp_bind, wp_ret. cbv zeta. rewrite wp_bind. unfold cache_disabled at 1.
  rewrite wp_act. cbn [fst snd]. rewrite Hdis, wp_bind, wp_on_cache, Hget, wp_ret. intros m Hm. split; [done|]. split; [done|].
  cbn. unfold Get in *. destruct (items (sys_cache s) !! _) as [p|] eqn:E; cbn in *; [|done]. by rewrite E.
Qed.

(** ** Properties *)

(** C37. A drop whose [COMMIT] reply is lost leaves the table's cached answers
    in place: on any server, when the cache holds the files of a table at a
    snapshot and the table is dropped, and the reply to the [COMMIT] is lost,
    the drop is reported as failed, the table is gone from the database and
    unknown to [GetTableMetadata], and reads of the snapshot are still
    answered with its files, the cached answer staying where it is. *)
Theorem dropped_table_still_served name n rows e s :
  all_free (sys_locks s) -> name <> "" -> n <> 0 -> live_table name (db s) <> None -> answered name n rows s ->
  exists s1 s2 s3,
    run (serve (drop_request name)) (losing_commit e s) = Some (Reply (mkOperationResponse false e), s1) /\
    live_table name (db s1) = None /\
    run (serve (ReqGetTableMetadata (mkTableRequest name n))) s1 = Some (Status NotFound ("table not found: " ++ name), s2) /\
    run (serve (read_request name n)) s2 =
      Some (Reply (mkPartitionListResponse (map (partition_info false) rows) "" (Z.of_nat (length rows))), s3) /\
    answered name n rows s3.
Proof.
  intros Hfree Hne Hn Hlive [Hdis Hget].
  assert (Hdrop : wp (serve (drop_request name)) (losing_commit e s) (fun reply s1 =>
    reply = Reply (mkOperationResponse false e) /\ all_free (sys_locks s1) /\ quiet s1 /\ live_table name (db s1) = None /\
    answered name n rows s1)).
  { cbn [serve drop_request]. unfold DropTable. cbn [dtr_TableName dtr_Purge].
    rewrite (proj2 (String.eqb_neq _ _) Hne), wp_bind. eapply wp_mono; [by apply wp_DropTable_lost|].
    intros res s1 (-> & Hfree1 & Hq1 & Hgone & Hc1 & Hdis1). cbn [Success failed]. rewrite wp_ret.
    split_and!; try done; unfold answered in *; by rewrite ?Hdis1, ?Hc1. }
  apply wp_run in Hdrop as (reply & s1 & Hr1 & -> & Hfree1 & Hq1 & Hgone & [Hdis1 Hget1]). exists s1.
  assert (Hmeta : wp (serve (ReqGetTableMetadata (mkTableRequest name n))) s1 (fun reply s2 =>
    reply = Status NotFound ("table not found: " ++ name) /\ all_free (sys_locks s2) /\ answered name n rows s2)).
  { cbn [serve]. unfold GetTableMetadata. cbn [tq_TableName]. rewrite (proj2 (String.eqb_neq _ _) Hne), wp_bind.
    eapply wp_mono; [by apply wp_GetTable_frame|]. intros x s2 (-> & (Hfree2 & _) & Hf). unfold table_row. rewrite Hgone, wp_ret.
    split_and!; [done | done |]. unfold answered. by rewrite (fr_disable _ _ Hf), (fr_cache _ _ Hf). }
  apply wp_run in Hmeta as (reply & s2 & Hr2 & -> & Hfree2 & Hans2). exists s2.
  assert (Hread : wp (serve (read_request name n)) s2 (fun reply s3 =>
    reply = Reply (mkPartitionListResponse (map (partition_info false) rows) "" (Z.of_nat (length rows))) /\
    answered name n rows s3)).
  { cbn [serve read_request]. unfold GetPartitions. cbn [pq_PageSize pq_TableName pq_SnapshotId]. rewrite wp_bind.
    eapply wp_mono; [by apply wp_GetPartitions_cached|]. intros x s3 [-> Hans3]. rewrite wp_ret. split; [|done].
    do 2 f_equal. unfold partitions_next_token. by destruct (last rows). }
  apply wp_run in Hread as (reply & s3 & Hr3 & -> & Hans3). by exists s3.
Qed.

End faults.

(** ** A commit whose reply is lost *)

(** The fourteenth round trip of [sample_commit] is its [COMMIT]. *)
Definition losing_snapshot (s : Sys) : Sys :=
  set_pg (set_net (repeat Delivered 13 ++ [LostReply "connection reset"]) (sys_pg s)) s.

(** A read of snapshot 3, one that the table does not have yet, and reads of
    the current snapshot, whole and by pages. *)
Definition early_read : Request PartitionListResponse := ReqGetPartitions (mkPartitionRequest "events" "" 3 0 "").
Definition current_read : Request PartitionListResponse := ReqGetPartitions (mkPartitionRequest "events" "" 0 0 "").
Definition current_page : Request PartitionListResponse := ReqGetPartitions (mkPartitionRequest "events" "" 0 10 "").

(** The files of snapshot 3, as a page. *)
Definition committed_page : PartitionListResponse :=
  mkPartitionListResponse
    [mkPartitionInfo "day=1" "s3://1" 10 100 1 "parquet" []; mkPartitionInfo "day=4" "s3://4" 7 70 3 "parquet" []] "4" 2.

(** On a concrete server: a commit whose [COMMIT] reply is lost leaves in place what a read of the
    snapshot has cached before there was one: the commit, reported as failed,
    has made snapshot 3 the current one, and from then on a read of the
    current snapshot is answered with the files of snapshot 2, while a read by
    pages, which does not use the cache, shows those of snapshot 3. *)
Theorem lost_commit_serves_old_files :
  exists s1 s2 s3,
    run (serve early_read) sample_sys = Some (Reply sample_files, s1) /\
    run (serve sample_commit) (losing_snapshot s1) = Some (Reply (mkSnapshotResponse 0 false "connection reset"), s2) /\
    current_snapshot "events" (db s2) = 3 /\
    run (serve current_page) s2 = Some (Reply committed_page, s3) /\
    option_map fst (run (serve current_read) s3) = Some (Reply sample_files).
Proof.
  pose (s1 := next_state early_read sample_sys).
  pose (s2 := next_state sample_commit (losing_snapshot s1)).
  exists s1, s2, (next_state current_page s2).
  split; [refine (replied _ _ _ _); vm_compute; reflexivity|].
  split; [refine (replied sample_commit (losing_snapshot s1) _ _); vm_compute; reflexivity|].
  split; [vm_compute; reflexivity|].
  split; [refine (replied _ s2 _ _); vm_compute; reflexivity|]. vm_compute. reflexivity.
Qed.
