(* ===== verification/SpecHistory.v ===== *)
(** * The spec versions a server keeps

    Every version after a table's first was checked against the one before
    ([SpecFacts]) and is kept as it was checked ([JsonFacts]), so the versions
    on record at any moment form one evolution.  The check and the write are
    under different locks, though: two alterations at the same time can break
    the chain. *)
From S2P Require Import Prelude Json Prog CacheInterface LRU MVCC Lock Models PartitionSpec GoJson Postgres JsonFacts World PgClient PgFacts.
From S2P Require Import Registry Commit Wf Visibility SchemaStore SpecStore SpecFacts Catalog Proto Server Service Readback.
From S2P Require Import CatalogSpec CatalogView Refinement Samples.

(** ** Specification *)

Section spec_history.
Context `{Postgres} `{GoText}.

Definition decoded (sv : PartitionSpecVersion) : result PartitionSpec := json_unmarshal_spec (psv_SpecJSON sv).

(** Version [b] of a table's spec, [k] versions after [a]: it decodes to a
    well-formed spec that evolves from that of [a], if [a] has one. *)
Record follows (k : nat) (a b : PartitionSpecVersion) : Prop := {
  fw_version : psv_Version b = int32 (psv_Version a + Z.of_nat k);
  fw_spec : exists spec, decoded b = Ok spec /\ spec_ok (Fields spec) /\
    forall old, decoded a = Ok old -> evolves (Fields old) (Fields spec);
}.

(** The versions of a table, oldest first: each follows all before it, and
    the last is the current one. *)
Record evolving (v : TableView) : Prop := {
  eg_follows : forall i j a b, (i < j)%nat -> v_specs v !! i = Some a -> v_specs v !! j = Some b -> follows (j - i) a b;
  eg_current : forall sv, last (v_specs v) = Some sv -> psv_Version sv = v_spec_version v /\ psv_SpecJSON sv = v_spec v;
}.

Definition all_evolving (c : CatalogState) : Prop := forall t v, c t = Live v -> evolving v.

(** The field numbers of a new spec are [int32]s and its texts UTF-8, as in
    any decoded message. *)
Definition spec_request {A} (req : Request A) : Prop :=
  match req with
  | ReqAlterTable r =>
      match atr_Alteration r with
      | Some (AlterTableRequest_NewPartitionSpec (Some p)) => Forall wire_field (psp_Fields p)
      | _ => True
      end
  | _ => True
  end.

(** ** One more version *)

Lemma follows_trans k l a b c : follows k a b -> follows l b c -> follows (k + l) a c.
Proof.
  intros [Hv1 (s1 & Hd1 & _ & He1)] [Hv2 (s2 & Hd2 & Hok & He2)]. split.
  - rewrite Hv2, Hv1, int32_add_l. f_equal. lia.
  - exists s2. split_and!; [done | done|]. intros old Ho. eapply evolves_trans; [by apply He1 | by apply He2].
Qed.

(** A version made from a request that was checked against the current one. *)
Lemma follows_checked `{!Jsonb} a p doc at_ summary :
  match p with Some p => Forall wire_field (psp_Fields p) | None => True end ->
  let text := json_print (spec_doc (protoToPartitionSpec p)) in
  ValidateSpecChange (psv_SpecJSON a) text = "" -> pg_jsonb text = Some doc ->
  follows 1 a (mkPartitionSpecVersion (int32 (psv_Version a + 1)) doc at_ summary).
Proof.
  intros Hw text Hv Hj. assert (Hok : spec_text_ok (protoToPartitionSpec p)).
  { destruct p as [p|]; [by apply proto_spec_text | constructor]. }
  apply ValidateSpecChange_accepts in Hv as (spec & Hp & Hs & He). unfold text in Hp. rewrite spec_direct in Hp by done.
  injection Hp as <-. split; [done|]. exists (protoToPartitionSpec p).
  split; [by apply spec_kept|]. split; [done|]. intros old Ho. apply He; [|done].
  intros E. unfold decoded in Ho. by rewrite E in Ho.
Qed.

Lemma evolving_new id schema spec raw props specs : first_specs raw spec specs -> evolving (new_view id schema spec props specs).
Proof.
  intros Hf. unfold first_specs in Hf. destruct (String.eqb _ _); [subst specs | destruct Hf as [at_ ->]]; split; cbn; try done.
  - intros [|i] [|j] a b Hij Ha Hb; try lia; done.
  - by intros sv [= <-].
Qed.

Lemma evolving_spec `{!Jsonb} p doc at_ v :
  match p with Some p => Forall wire_field (psp_Fields p) | None => True end ->
  let text := json_print (spec_doc (protoToPartitionSpec p)) in
  ValidateSpecChange (v_spec v) text = "" -> pg_jsonb text = Some doc -> evolving v -> evolving (with_spec doc at_ v).
Proof.
  intros Hw text Hv Hj [Hf Hc]. split; cbn [v_specs v_spec v_spec_version with_spec].
  2: { intros sv. rewrite last_snoc. by intros [= <-]. }
  intros i j a b Hij Ha Hb. apply lookup_app_Some in Hb as [Hb|[Hj' Hb]].
  { rewrite lookup_app_l in Ha by (apply lookup_lt_Some in Hb; lia). by apply Hf. }
  apply list_lookup_singleton_Some in Hb as [Hj0 <-]. assert (Hlen : j = length (v_specs v)) by lia. clear Hj'.
  rewrite lookup_app_l in Ha by lia. destruct (last (v_specs v)) as [sv|] eqn:El.
  2: { apply last_None in El. rewrite El in Ha. by rewrite lookup_nil in Ha. }
  destruct (Hc sv eq_refl) as [Hsv Hdoc]. rewrite <- Hsv. rewrite <- Hdoc in Hv.
  pose proof (follows_checked sv p doc at_ "partition spec evolution via AlterTable" Hw Hv Hj) as Hlast.
  rewrite last_lookup in El. destruct (Nat.eq_dec i (pred (length (v_specs v)))) as [->|Hne].
  - rewrite El in Ha. injection Ha as <-. by replace (j - pred (length (v_specs v)))%nat with 1%nat by lia.
  - replace (j - i)%nat with ((pred (length (v_specs v)) - i) + 1)%nat by lia. eapply follows_trans; [|exact Hlast].
    apply (Hf i (pred (length (v_specs v)))); [lia | done..].
Qed.

(** ** Runs *)

Lemma evolving_equiv v v' : v ≡ v' -> evolving v -> evolving v'.
Proof. intros (_ & _ & _ & H1 & H2 & _ & _ & _ & _ & H3 & _) [Hf Hc]. split; by rewrite <- ?H1, <- ?H2, <- ?H3. Qed.

Lemma all_evolving_equiv c c' : c' ≡ c -> all_evolving c -> all_evolving c'.
Proof.
  intros He Hc t v Hv. specialize (He t). rewrite Hv in He. inversion He as [| |? v' Hvv Ev Ev']; subst.
  eapply evolving_equiv; [symmetry; exact Hvv|]. by apply (Hc t).
Qed.

Lemma all_evolving_put name x c c' : c' ≡ put name x c -> (forall v, x = Live v -> evolving v) ->
  all_evolving c -> all_evolving c'.
Proof.
  intros He Hx Hc. apply (all_evolving_equiv _ _ He). intros t v. unfold put. destruct (String.eqb t name); [apply Hx | apply Hc].
Qed.

(** A spec step changes nothing, or a table by a change that was checked. *)
Lemma spec_step_checked name p c reply c' : spec_step name p c reply c' ->
  c' ≡ c \/ exists v doc at_, c name = Live v /\
    ValidateSpecChange (v_spec v) (json_print (spec_doc (protoToPartitionSpec p))) = "" /\
    pg_jsonb (json_print (spec_doc (protoToPartitionSpec p))) = Some doc /\
    c' ≡ put name (Live (with_spec doc at_ v)) c.
Proof.
  unfold spec_step, json_marshal_spec. intros (text & Ht & Hstep). apply (f_equal (fun r => match r with Ok t => t | Err _ => text end)) in Ht.
  cbv beta iota in Ht. rewrite Ht. clear Ht. revert Hstep.
  cbv zeta. set (msg := ValidateSpecChange _ _) at 1 2. destruct (String.eqb_spec msg "") as [Hmsg|]; cbn [negb]; [|intros [_ He]; by left].
  intros [[_ He]|(_ & v & doc & at_ & Hv & Hj & He)]; [by left|]. right. exists v, doc, at_. split; [exact Hv|].
  unfold msg in Hmsg. rewrite Hv in Hmsg. split; [exact Hmsg|]. split; [exact Hj | exact He].
Qed.

Lemma step_evolving `{!Jsonb} {A} (req : Request A) c reply c' :
  spec_request req -> cat_step req c reply c' -> all_evolving c -> all_evolving c'.
Proof.
  intros Hreq Hstep Hc.
  assert (Hsame : c' ≡ c -> all_evolving c') by (intros; by eapply all_evolving_equiv).
  assert (Hkeep : forall name v v1, c name = Live v -> evolving v1 -> c' ≡ put name (Live v1) c -> all_evolving c').
  { intros name v v1 _ Hv1 He. eapply all_evolving_put; [exact He | by intros ? [= <-] | done]. }
  destruct req as [r|r|r|r|r|r|r|r|r|r|r|r|r|r|r|r|r|r]; cbn [cat_step spec_request] in *;
    try (by apply Hsame); try (by apply Hsame, Hstep).
  - destruct Hstep as [[_ He]|(_ & _ & id & schema & spec & props & specs & _ & _ & _ & _ & Hf & He)]; [by apply Hsame|].
    eapply all_evolving_put; [exact He | | done]. intros ? [= <-]. by eapply evolving_new.
  - unfold alter_step in Hstep. destruct (String.eqb _ _); [by apply Hsame, Hstep|].
    destruct (atr_Alteration r) as [[text|p|n]|]; [| | |by apply Hsame, Hstep].
    + destruct Hstep as [[_ He]|(_ & v1 & doc & Hv1 & _ & _ & He)]; [by apply Hsame|].
      eapply Hkeep; [exact Hv1 | | exact He]. by destruct (Hc _ _ Hv1).
    + apply spec_step_checked in Hstep as [He|(v1 & doc & at_ & Hv1 & Hv & Hj & He)]; [by apply Hsame|].
      eapply Hkeep; [exact Hv1 | | exact He].
      eapply (evolving_spec p); [exact Hreq | exact Hv | exact Hj | by eapply Hc].
    + destruct (String.eqb _ _); [by apply Hsame, Hstep|].
      destruct Hstep as [[_ He]|(_ & v1 & Hv1 & _ & He)]; [by apply Hsame|].
      eapply all_evolving_put; [exact He | intros ? [= <-]; by eapply Hc|].
      eapply all_evolving_put; [reflexivity | done | done].
  - unfold drop_step in Hstep. destruct (String.eqb _ _); [by apply Hsame, Hstep|].
    destruct Hstep as [[_ He]|(_ & v1 & _ & He)]; [by apply Hsame|].
    eapply all_evolving_put; [exact He | by destruct (dtr_Purge r) | done].
  - unfold commit_step in Hstep. destruct (new_parts _) as [key|parts]; [by apply Hsame, Hstep|].
    cbv zeta in Hstep. destruct (negb _); [by apply Hsame, Hstep|].
    destruct Hstep as [[_ He]|(v1 & snap & news & mans & at_ & _ & Hv1 & _ & _ & _ & _ & _ & _ & _ & _ & He)]; [by apply Hsame|].
    eapply Hkeep; [exact Hv1 | | exact He]. by destruct (Hc _ _ Hv1).
Qed.

Lemma run_evolving `{!Jsonb} es : forall c c', cat_run es c c' -> Forall (fun e => spec_request (ev_request e)) es ->
  all_evolving c -> all_evolving c'.
Proof.
  induction es as [|e es IH]; intros c c' Hrun Hreq Hc; inversion Hrun; subst; [by eapply all_evolving_equiv|].
  apply Forall_cons in Hreq as [Hr Hrs]. eapply IH; [done | done|]. by eapply step_evolving.
Qed.

(** ** Property *)

(** C21. The spec versions on record are one evolution: started on a database
    where this holds, such as an empty one, after any history of requests
    answered one after the other while the network delivers, every version of
    every live table's spec after the first decodes to a well-formed spec (at
    least one field, known transforms with the parameters they need, distinct
    ids) that keeps id, column and transform of every field of every earlier
    version that decodes, and numbers the fields added since above them; the
    versions are numbered in sequence, and the last is the current spec. *)
Theorem spec_versions_evolve `{!Jsonb} (s0 s : Sys) (es : list event) (name : string) (v : TableView) :
  started true s0 -> all_evolving (catalog_of (db s0)) -> history es s0 s ->
  Forall (fun e => spec_request (ev_request e)) es -> catalog_of (db s) name = Live v -> evolving v.
Proof.
  intros Hst Hc Hh Hreq Hv. destruct (history_run _ _ _ Hh) as [_ Hrun]; [by apply in_order_ready, started_in_order|].
  by eapply (run_evolving es _ _ Hrun Hreq Hc).
Qed.

End spec_history.

(** ** Two alterations at the same time *)

(** The state after a program. *)
Definition state_after {S A} (p : Prog S A) (s : S) : S := match run p s with Some (_, s') => s' | None => s end.

Lemma run_after {S A} (p : Prog S A) s a : option_map fst (run p s) = Some a -> run p s = Some (a, state_after p s).
Proof. unfold state_after. destruct (run p s) as [[b s']|]; cbn; congruence. Qed.

(** Two threads of which each does its first part before either does the
    rest. *)
Lemma crossed_steps {S A X} (r1 r2 : Prog S X) (k1 k2 : X -> Prog S A) s s1 s2 s3 s4 x y a b :
  run r1 s = Some (x, s1) -> run r2 s1 = Some (y, s2) -> run (k1 x) s2 = Some (a, s3) -> run (k2 y) s3 = Some (b, s4) ->
  steps ([bind r1 k1; bind r2 k2], s) ([Ret a; Ret b], s4).
Proof.
  intros H1 H2 H3 H4. etrans; [exact (run_steps_bind [_; _] 0 r1 k1 _ _ _ eq_refl H1)|].
  etrans; [exact (run_steps_bind [_; _] 1 r2 k2 _ _ _ eq_refl H2)|].
  etrans; [exact (run_steps [_; _] 0 _ _ _ _ eq_refl H3) | exact (run_steps [_; _] 1 _ _ _ _ eq_refl H4)].
Qed.

(** Sixteen buckets of users, or the region, as the second field. *)
Definition by_user : PartitionSpecProto := partitionSpecToProto (bucket_spec 16).
Definition by_region : PartitionSpecProto :=
  partitionSpecToProto (mkPartitionSpec [day_field; mkPartitionField 2 "region" TransformIdentity None]).

Definition first_version : PartitionSpecVersion := mkPartitionSpecVersion 1 day_json "" "current".

(** What [alter_spec] does once it has the current spec. *)
Definition alter_with (p : PartitionSpecProto) (current : result (option PartitionSpecVersion)) : Prog Sys (rpc OperationResponse) :=
  let text := json_print (spec_doc (protoToPartitionSpec (Some p))) in
  rpc* sv := Ret current in
  let msg := ValidateSpecChange (match sv with Some sv => psv_SpecJSON sv | None => "" end) text in
  if negb (String.eqb msg "") then Ret (Reply (mkOperationResponse false msg))
  else
    let* res := Catalog.AlterTablePartitionSpec "events" text "partition spec evolution via AlterTable" in
    let* _ := InvalidateTableCache "events" in Ret (Reply (to_response res)).

Definition alter_events (p : PartitionSpecProto) : Request OperationResponse :=
  ReqAlterTable (mkAlterTableRequest "events" (Some (AlterTableRequest_NewPartitionSpec (Some p)))).

Lemma alter_events_parts p : serve (alter_events p) = bind (GetCurrentSpec "events") (alter_with p).
Proof. reflexivity. Qed.

(** On a concrete server: two alterations that both extend the first version
    are both accepted when each reads the current spec before the other
    writes, and the third version drops a field of the second. *)
Theorem concurrent_specs_clash :
  exists s2 a b, steps ([serve (alter_events by_user); serve (alter_events by_region)], sample_sys)
    ([Ret (Reply (mkOperationResponse true "")); Ret (Reply (mkOperationResponse true ""))], s2) /\
    map decoded (skipn 1 (specs_of 1 (db s2))) = [Ok a; Ok b] /\ ~ evolves (Fields a) (Fields b).
Proof.
  pose proof (run_after (GetCurrentSpec "events") sample_sys (Ok (Some first_version)) ltac:(vm_compute; reflexivity)) as H1.
  set (s1 := state_after _ _) in H1.
  pose proof (run_after (GetCurrentSpec "events") s1 (Ok (Some first_version)) ltac:(vm_compute; reflexivity)) as H2.
  set (s2 := state_after _ s1) in H2.
  pose proof (run_after (alter_with by_user (Ok (Some first_version))) s2 (Reply (mkOperationResponse true ""))
    ltac:(vm_compute; reflexivity)) as H3. set (s3 := state_after _ s2) in H3.
  pose proof (run_after (alter_with by_region (Ok (Some first_version))) s3 (Reply (mkOperationResponse true ""))
    ltac:(vm_compute; reflexivity)) as H4. set (s4 := state_after _ s3) in H4.
  exists s4, (bucket_spec 16), (protoToPartitionSpec (Some by_region)).
  split; [|split; [vm_compute; reflexivity|]].
  - rewrite !alter_events_parts. exact (crossed_steps _ _ _ _ _ _ _ _ _ _ _ _ _ H1 H2 H3 H4).
  - intros [Hk _]. destruct (Hk (bucket_field 16)) as (g & Hg & Hid & Hcol & _); [cbn; right; left|].
    cbn in Hg. apply elem_of_cons in Hg as [->|Hg]; [done|]. by apply list_elem_of_singleton in Hg as ->.
Qed.
