(* ===== verification/Process.v ===== *)
(** * The server process (cmd/server/main.go)

    [main] and its goroutines as a step relation: the main goroutine, the one
    in [grpcServer.Serve], the cleanup loop, and one per request being served.
    The gRPC library, the listener and the signals are known by what they
    document: [Serve] returns nil only after [GracefulStop], which lets no new
    request in and returns when the handlers have; a signal can come at any
    time once [signal.Notify] has asked for it. *)
From S2P Require Import Prelude Prog CacheInterface LRU MVCC Lock Models GoJson Postgres World Config PgClient Server Service LockPool Progress.

(** ** The connection pool *)

(** What [pgxpool] offers: a connection string may not parse, a pool with a
    configuration may not come up, and a ping may fail. *)
Class Pgxpool := {
  PoolConfig : Type;
  ParseConfig : string -> result PoolConfig;
  set_MaxConns : Z -> PoolConfig -> PoolConfig;
  NewWithConfig : PoolConfig -> result PG;
  Ping : PG -> result unit;
}.

Inductive PoolState := NoPool | PoolOpen | PoolClosed.

Section pool.
Context `{Pgxpool}.

(** The client and what is left of the pool: one that does not answer is
    closed again. *)
Definition NewPGClient (connString : string) (maxConns : Z) : result PG * PoolState :=
  match ParseConfig connString with
  | Err e => (Err e, NoPool)
  | Ok cfg =>
      match NewWithConfig (set_MaxConns (int32 maxConns) cfg) with
      | Err e => (Err e, NoPool)
      | Ok pool =>
          match Ping pool with
          | Err e => (Err e, PoolClosed)
          | Ok _ => (Ok pool, PoolOpen)
          end
      end
  end.

(** [server.New]: a client, and a fresh server on it. *)
Definition new_server (cfg : Config) (clock : Z) : result Sys * PoolState :=
  let (pgClient, pool) := NewPGClient (PGConnString cfg) (PoolSize cfg) in
  match pgClient with
  | Err e => (Err (ErrText ("init pg client: " ++ error_text e)), pool)
  | Ok pgClient => (Ok (New cfg pgClient clock), pool)
  end.

End pool.

(** [c.Pool.Close()], when there is a pool. *)
Definition PGClient_Close (pool : PoolState) : PoolState :=
  match pool with NoPool => NoPool | _ => PoolClosed end.

(** [svc.Close()] *)
Definition Server_Close (pool : PoolState) : PoolState := PGClient_Close pool.

(** ** The goroutines *)

(** Everything but the main goroutine: the handlers being run and their
    shared state, the pool, whether [Serve] has been called and has not
    returned, the channel [errCh] with its one place, the cleanup loop, and
    the channels [stopCleanup] (closed or not) and [stop]. *)
Record Work := mkWork {
  w_handlers : list (Prog Sys unit);
  w_sys : Sys;
  w_pool : PoolState;
  w_serving : bool;
  w_errCh : option (option string);
  w_cleanup : bool;
  w_stopCleanup : bool;
  w_stop : bool;
}.

Definition set_pool (hs : list (Prog Sys unit)) (s : Sys) (w : Work) : Work :=
  mkWork hs s (w_pool w) (w_serving w) (w_errCh w) (w_cleanup w) (w_stopCleanup w) (w_stop w).

(** [errCh <- grpcServer.Serve(lis)]: the goroutine ends. *)
Definition serve_returns (err : option string) (w : Work) : Work :=
  mkWork (w_handlers w) (w_sys w) (w_pool w) false (Some err) (w_cleanup w) (w_stopCleanup w) (w_stop w).

(** The branch [<-stopCleanup] of the cleanup loop. *)
Definition cleanup_returns (w : Work) : Work :=
  mkWork (w_handlers w) (w_sys w) (w_pool w) (w_serving w) (w_errCh w) false (w_stopCleanup w) (w_stop w).

(** [close(stopCleanup)], with the signal or the error received. *)
Definition close_stopCleanup (w : Work) : Work :=
  mkWork (w_handlers w) (w_sys w) (w_pool w) (w_serving w) (w_errCh w) (w_cleanup w) true (w_stop w).
Definition receive_stop (w : Work) : Work :=
  mkWork (w_handlers w) (w_sys w) (w_pool w) (w_serving w) (w_errCh w) (w_cleanup w) (w_stopCleanup w) false.
Definition receive_err (w : Work) : Work :=
  mkWork (w_handlers w) (w_sys w) (w_pool w) (w_serving w) None (w_cleanup w) (w_stopCleanup w) (w_stop w).
Definition notify (w : Work) : Work :=
  mkWork (w_handlers w) (w_sys w) (w_pool w) (w_serving w) (w_errCh w) (w_cleanup w) (w_stopCleanup w) true.
Definition close_pool (w : Work) : Work :=
  mkWork (w_handlers w) (w_sys w) (Server_Close (w_pool w)) (w_serving w) (w_errCh w) (w_cleanup w) (w_stopCleanup w)
    (w_stop w).

(** After [server.New]. *)
Definition new_work (s : Sys) (pool : PoolState) : Work := mkWork [] s pool false None false false false.

(** The goroutines of [Serve] and of the cleanup loop are running. *)
Definition start_work (w : Work) : Work :=
  mkWork (w_handlers w) (w_sys w) (w_pool w) true (w_errCh w) true (w_stopCleanup w) (w_stop w).

(** ** The process *)

(** Where the main goroutine is: before [server.New], before [net.Listen], in
    its [select], in [GracefulStop], before the deferred [svc.Close]; or the
    process has ended, with an exit code, and the pool and the handlers as
    they were. *)
Inductive Process :=
| Starting
| Listening (w : Work)
| Running (w : Work)
| Stopping (w : Work)
| Returning (w : Work)
| Exited (code : Z) (pool : PoolState) (handlers : list (Prog Sys unit)) (s : option Sys).

Definition finished (hs : list (Prog Sys unit)) : Prop := forall p, p ∈ hs -> p = Ret tt.

Section process.
Context `{Postgres} `{GoText} `{Pgxpool}.
Context (cfg : Config).

(** The main goroutine and what it set off, going on by themselves. *)
Inductive goroutine_step : Work -> Work -> Prop :=
| step_handler w hs s : step (w_handlers w, w_sys w) (hs, s) -> goroutine_step w (set_pool hs s w)
| step_cleanup_stop w : w_cleanup w = true -> w_stopCleanup w = true -> goroutine_step w (cleanup_returns w).

Inductive main_step : Process -> Process -> Prop :=
| main_new clock s pool : new_server cfg clock = (Ok s, pool) -> main_step Starting (Listening (new_work s pool))
| main_new_fatal clock e pool : new_server cfg clock = (Err e, pool) -> main_step Starting (Exited 1 pool [] None)
| main_listen w : main_step (Listening w) (Running (start_work w))
| main_listen_fatal w : main_step (Listening w) (Exited 1 (w_pool w) (w_handlers w) (Some (w_sys w)))
| main_signal w : w_stop w = true -> main_step (Running w) (Stopping (close_stopCleanup (receive_stop w)))
| main_err_fatal w e : w_errCh w = Some (Some e) ->
    main_step (Running w) (Exited 1 (w_pool w) (w_handlers w) (Some (w_sys w)))
| main_err_nil w : w_errCh w = Some None -> main_step (Running w) (Returning (close_stopCleanup (receive_err w)))
| main_graceful w : finished (w_handlers w) -> main_step (Stopping w) (Returning w)
| main_return w : main_step (Returning w) (Exited 0 (w_pool (close_pool w)) (w_handlers w) (Some (w_sys w)))
| serve_stopped w : w_serving w = true -> main_step (Stopping w) (Stopping (serve_returns None w))
| goroutines_run w w' : goroutine_step w w' -> main_step (Running w) (Running w')
| goroutines_stop w w' : goroutine_step w w' -> main_step (Stopping w) (Stopping w')
| goroutines_return w w' : goroutine_step w w' -> main_step (Returning w) (Returning w').

(** What comes from outside: the ticker, the clocks and the network, a
    signal; and while the server is up, requests that [admits] lets in and an
    error that ends [Serve]. *)
Inductive outside_work : Work -> Work -> Prop :=
| outside_tick w n s : w_cleanup w = true -> run CleanupExpiredTransactions (w_sys w) = Some (n, s) ->
    outside_work w (set_pool (w_handlers w) s w)
| outside_world w now net clock :
    let pg := sys_pg (w_sys w) in
    outside_work w (set_pool (w_handlers w)
      (mkSys (mkPG (pg_db pg) (pg_txs pg) (pg_next_tx pg) (pg_seqs pg) now net) (sys_locks (w_sys w)) (sys_mvcc (w_sys w))
         (sys_cache (w_sys w)) (sys_disable_cache (w_sys w)) clock) w)
| outside_signal w : outside_work w (notify w).

Inductive outside_step (admits : goroutine -> Prop) : Process -> Process -> Prop :=
| outside_running w w' : outside_work w w' -> outside_step admits (Running w) (Running w')
| outside_stopping w w' : outside_work w w' -> outside_step admits (Stopping w) (Stopping w')
| outside_returning w w' : outside_work w w' -> outside_step admits (Returning w) (Returning w')
| outside_request w A (req : Request A) : w_serving w = true -> admits (Serves req) ->
    outside_step admits (Running w) (Running (set_pool (w_handlers w ++ [thread (Serves req)]) (w_sys w) w))
| outside_serve_error w e : w_serving w = true -> outside_step admits (Running w) (Running (serve_returns (Some e) w)).

Definition process_step (admits : goroutine -> Prop) (p p' : Process) : Prop :=
  main_step p p' \/ outside_step admits p p'.

Definition reachable (admits : goroutine -> Prop) (p : Process) : Prop := rtc (process_step admits) Starting p.

(** ** The pool outlives the handlers *)

Definition running_work (p : Process) : option Work :=
  match p with Listening w | Running w | Stopping w | Returning w => Some w | _ => None end.

Definition process_ok (p : Process) : Prop :=
  match p with
  | Starting => True
  | Listening w => w_pool w = PoolOpen /\ w_errCh w = None
  | Running w => w_pool w = PoolOpen /\ w_errCh w <> Some None
  | Stopping w => w_pool w = PoolOpen /\ w_stopCleanup w = true
  | Returning w => w_pool w = PoolOpen /\ w_stopCleanup w = true /\ finished (w_handlers w)
  | Exited code pool hs _ => code = 1 /\ (hs = [] \/ pool = PoolOpen) \/ code = 0 /\ pool = PoolClosed /\ finished hs
  end.

Lemma new_server_open clock s pool : new_server cfg clock = (Ok s, pool) -> pool = PoolOpen.
Proof.
  unfold new_server, NewPGClient. destruct (ParseConfig _) as [c|]; [|done].
  destruct (NewWithConfig _) as [pg|]; [|done]. by destruct (Ping pg); intros [= _ <-].
Qed.

Lemma goroutine_step_keeps w w' : goroutine_step w w' ->
  w_pool w' = w_pool w /\ w_stopCleanup w' = w_stopCleanup w /\ w_errCh w' = w_errCh w /\
  (finished (w_handlers w) -> w_handlers w' = w_handlers w).
Proof.
  intros [w0 hs s Hstep|w0]; [|done]. split_and!; try done. intros Hf.
  remember (w_handlers w0, w_sys w0) as c eqn:Ec. remember (hs, s) as c' eqn:Ec'.
  destruct Hstep as [i ps s0 X f k x s' Hi Hf0]. injection Ec as -> ->.
  apply list_elem_of_lookup_2, Hf in Hi. done.
Qed.

Lemma outside_work_keeps w w' : outside_work w w' ->
  w_pool w' = w_pool w /\ w_stopCleanup w' = w_stopCleanup w /\ w_errCh w' = w_errCh w /\ w_handlers w' = w_handlers w.
Proof. by intros []. Qed.

Lemma main_step_ok p p' : main_step p p' -> process_ok p -> process_ok p'.
Proof.
  intros [clock s pool Hn|clock e pool _|w|w|w _|w e _|w He|w Hf|w|w _|w w' Hg|w w' Hg|w w' Hg]; cbn.
  - intros _. split; [by eapply new_server_open | done].
  - intros _. left. split; [done | by left].
  - by intros [? ->].
  - intros [? _]. left. split; [done | by right].
  - by intros [? _].
  - intros [? _]. left. split; [done | by right].
  - intros [_ Hn]. by rewrite He in Hn.
  - by intros [? ?].
  - intros (-> & _ & Hf). by right.
  - done.
  - intros [? ?]. by destruct (goroutine_step_keeps _ _ Hg) as (-> & _ & -> & _).
  - intros [? ?]. by destruct (goroutine_step_keeps _ _ Hg) as (-> & -> & _).
  - intros (? & ? & Hf). destruct (goroutine_step_keeps _ _ Hg) as (-> & -> & _ & Hh). by rewrite Hh.
Qed.

Lemma outside_step_ok admits p p' : outside_step admits p p' -> process_ok p -> process_ok p'.
Proof.
  intros [w w' Ho|w w' Ho|w w' Ho|w A req _ _|w e _]; cbn; try done.
  - destruct (outside_work_keeps _ _ Ho) as (-> & _ & -> & _). done.
  - destruct (outside_work_keeps _ _ Ho) as (-> & -> & _). done.
  - destruct (outside_work_keeps _ _ Ho) as (-> & -> & _ & ->). done.
  - by intros [? _].
Qed.

Lemma reachable_ok admits p : reachable admits p -> process_ok p.
Proof.
  intros Hr. assert (Hz : process_ok Starting) by done. revert Hz. unfold reachable in Hr.
  induction Hr as [p|p1 p2 p3 [Hs|Hs] _ IH]; [done | |]; intros Hp; apply IH; [by eapply main_step_ok | by eapply outside_step_ok].
Qed.

(** ** Shutting down *)

(** The handlers keep the lock discipline. *)
Definition handlers_ok (p : Process) : Prop :=
  match p with
  | Starting | Exited _ _ _ None => True
  | Listening w | Running w | Stopping w | Returning w => pool_ok (w_handlers w, w_sys w)
  | Exited _ _ hs (Some s) => pool_ok (hs, s)
  end.

Lemma locks_agree_idle sts m : locks_agree sts m -> locks_agree (sts ++ [Idle]) m.
Proof.
  intros [Hwf Href Hmu]. assert (Hc : forall st, st <> Idle -> count_status st (sts ++ [Idle]) = count_status st sts).
  { intros st Hst. unfold count_status. rewrite sum_by_snoc. unfold indicator at 2. by rewrite decide_False, Z.add_0_r. }
  split; [done | |].
  - intros i st l Hi Hr. apply lookup_app_Some in Hi as [Hi|[_ Hi]]; [by eapply Href|].
    apply list_lookup_singleton_Some in Hi as [_ <-]. done.
  - intros t l Hl. destruct (Hmu t l Hl) as (mu & E & Ha). exists mu. split; [done|].
    unfold mutex_agrees. by rewrite !Hc.
Qed.

Lemma pool_ok_add (hs : list (Prog Sys unit)) s p : one_lock Idle p -> pool_ok (hs, s) -> pool_ok (hs ++ [p], s).
Proof.
  intros Hp (sts & Hps & Hag). exists (sts ++ [Idle]). cbn. split; [|by apply locks_agree_idle].
  apply Forall2_app; [done|]. by constructor.
Qed.

Lemma pool_ok_locks (hs : list (Prog Sys unit)) s s' : sys_locks s' = sys_locks s -> pool_ok (hs, s) -> pool_ok (hs, s').
Proof. intros E (sts & Hps & Hag). exists sts. cbn. by rewrite E. Qed.

Lemma main_step_handlers p p' : main_step p p' -> handlers_ok p -> handlers_ok p'.
Proof.
  intros [clock s pool Hn|clock e pool _|w|w|w _|w e _|w He|w Hf|w|w _|w w' Hg|w w' Hg|w w' Hg]; try done; unfold handlers_ok; cbn.
  { intros _. unfold new_server in Hn. destruct (NewPGClient _ _) as [[pg|e] pl]; [|done]. injection Hn as <- <-.
    apply (threads_ok []); [by split; [split|] | by intros g ?%elem_of_nil]. }
  all: by destruct Hg as [w hs s Hs|w]; [apply (pool_ok_step _ _ Hs)|].
Qed.

Lemma outside_step_handlers admits p p' :
  (forall g, admits g -> renames g = false) -> outside_step admits p p' -> handlers_ok p -> handlers_ok p'.
Proof.
  intros Had [w w' Ho|w w' Ho|w w' Ho|w A req _ Hr|w e _]; unfold handlers_ok; cbn; try done.
  1-3: destruct Ho as [w n s Hc Hrun| |]; cbn; try done; apply pool_ok_locks;
    unfold CleanupExpiredTransactions, on_mvcc in Hrun; cbn in Hrun;
    destruct (MVCC.CleanupExpiredTransactions _ _) as [n' m]; by injection Hrun as _ <-.
  intros Hp. apply pool_ok_add; [apply (one_lock_thread (Serves req)); auto | done].
Qed.

Lemma reachable_handlers admits p : (forall g, admits g -> renames g = false) -> reachable admits p -> handlers_ok p.
Proof.
  intros Had Hr. assert (Hz : handlers_ok Starting) by done. revert Hz. unfold reachable in Hr.
  induction Hr as [p|p1 p2 p3 [Hs|Hs] _ IH]; [done | |]; intros Hp; apply IH;
    [by eapply main_step_handlers | by eapply outside_step_handlers].
Qed.

(** What the goroutines do by themselves ends. *)
Definition work_step (w w' : Work) : Prop :=
  goroutine_step w w' \/ w_serving w = true /\ w' = serve_returns None w.

Lemma work_ends w : sn work_step w.
Proof.
  remember (w_handlers w, w_sys w) as c eqn:Ec. revert w Ec. induction (steps_end c) as [c _ IHc]. intros w Ec.
  remember (Nat.b2n (w_cleanup w) + Nat.b2n (w_serving w))%nat as n eqn:En. revert w Ec En.
  induction n as [n IHn] using lt_wf_ind. intros w Ec En. constructor. intros w' Hs. unfold flip in Hs.
  assert (Hless : forall w1, (w_handlers w1, w_sys w1) = c ->
    (Nat.b2n (w_cleanup w1) + Nat.b2n (w_serving w1) < n)%nat -> sn work_step w1) by (intros; by eapply IHn).
  destruct Hs as [Hg|[Hv ->]]; [inversion Hg as [w0 hs s Hstep|w0 Hc _]; subst w0 w'|].
  - apply (IHc (hs, s)); [|done]. unfold flip. by rewrite Ec.
  - apply Hless; [done|]. rewrite En, Hc. cbn. lia.
  - apply Hless; [done|]. rewrite En, Hv. cbn. lia.
Qed.

Lemma exited_ends code pool hs s : sn main_step (Exited code pool hs s).
Proof. constructor. intros p Hp. inversion Hp. Qed.

Lemma returning_ends w : sn main_step (Returning w).
Proof.
  induction (work_ends w) as [w _ IH]. constructor. intros p Hp. unfold flip in *. inversion Hp; subst.
  - apply exited_ends.
  - apply IH. by left.
Qed.

Lemma stopping_ends w : sn main_step (Stopping w).
Proof.
  induction (work_ends w) as [w _ IH]. constructor. intros p Hp. unfold flip in *. inversion Hp; subst.
  - apply returning_ends.
  - apply IH. by right.
  - apply IH. by left.
Qed.

(** Once the main goroutine has left its [select] for the signal. *)
Definition shutting_down (p : Process) : Prop :=
  match p with Stopping _ | Returning _ => True | Exited code _ _ s => code = 0 /\ s <> None | _ => False end.

Lemma main_step_shutting p p' : main_step p p' -> shutting_down p -> shutting_down p'.
Proof. by intros [] H'. Qed.

Lemma outside_step_shutting admits p p' : outside_step admits p p' -> shutting_down p -> shutting_down p'.
Proof. by intros []. Qed.

Lemma steps_shutting admits p p' : rtc (process_step admits) p p' -> shutting_down p -> shutting_down p'.
Proof.
  induction 1 as [p|p1 p2 p3 [Hs|Hs] _ IH]; intros Hp; [exact Hp | |]; apply IH.
  - exact (main_step_shutting _ _ Hs Hp).
  - exact (outside_step_shutting _ _ _ Hs Hp).
Qed.

Lemma finished_free (hs : list (Prog Sys unit)) s : pool_ok (hs, s) -> finished hs -> all_free (sys_locks s).
Proof.
  intros (sts & Hps & Hag) Hf. apply (stuck_finished hs s sts Hps Hag). intros c Hstep.
  remember (hs, s) as c0 eqn:Ec. destruct Hstep as [i ps s0 X f k x s' Hi _]. injection Ec as -> ->.
  apply list_elem_of_lookup_2, Hf in Hi. done.
Qed.

(** A process that is shutting down goes on, or has ended. *)
Lemma shutting_progress p : process_ok p -> handlers_ok p -> shutting_down p ->
  (exists p', main_step p p') \/
  exists hs s, p = Exited 0 PoolClosed hs (Some s) /\ finished hs /\ all_free (sys_locks s).
Proof.
  intros Hp Hh Hs. destruct p as [|w|w|w|w|code pool hs s]; try done.
  - left. destruct (step_or_stuck (w_handlers w) (w_sys w)) as [[[hs s] Hstep]|Hstuck].
    + eexists. by apply goroutines_stop, step_handler.
    + destruct Hh as (sts & Hps & Hag). destruct (stuck_finished _ _ sts Hps Hag Hstuck) as [Hret _].
      eexists. apply main_graceful. intros p Hin. by destruct (Hret p Hin) as [[] ->].
  - left. eexists. apply main_return.
  - right. destruct Hs as [-> Hs]. destruct s as [s|]; [|done]. destruct Hp as [[? _]|(_ & -> & Hf)]; [done|].
    exists hs, s. split; [done|]. split; [done|]. by eapply finished_free.
Qed.

(** ** Properties *)

(** C26. The connection pool outlives the handlers: it is open as long as the
    process is up, so that no request is ever served on a closed pool, and a
    process that ends normally has closed it, with every request it let in
    answered; one that ends with an error leaves the pool open under
    handlers, or has none. *)
Theorem pool_outlives_handlers (admits : goroutine -> Prop) (p : Process) :
  reachable admits p ->
  match p with
  | Starting => True
  | Listening w | Running w | Stopping w | Returning w => w_pool w = PoolOpen
  | Exited code pool hs _ => code = 0 /\ pool = PoolClosed /\ finished hs \/ code = 1 /\ (hs = [] \/ pool = PoolOpen)
  end.
Proof. intros Hp%reachable_ok. destruct p; cbn in Hp; [done | apply Hp.. |]. destruct Hp; [by right | by left]. Qed.

(** C7. A signal ends the server: from the moment [main] has received it, the
    server cannot go on for ever by itself, and goes on, whatever requests
    (other than renames), cleanup ticks and network failures came before and
    come in between, until it exits with code 0, every request answered,
    every table lock free and the pool closed. *)
Theorem shutdown_ends (admits : goroutine -> Prop) (w : Work) (p : Process) :
  (forall g, admits g -> renames g = false) -> reachable admits (Stopping w) -> rtc (process_step admits) (Stopping w) p ->
  sn main_step p /\
  ((exists p', main_step p p') \/
   exists hs s, p = Exited 0 PoolClosed hs (Some s) /\ finished hs /\ all_free (sys_locks s)).
Proof.
  intros Had Hr Hp. assert (Hs : shutting_down p).
  { by apply (steps_shutting admits (Stopping w)). }
  assert (Hr' : reachable admits p) by (unfold reachable in *; by etrans). split.
  - destruct p; [destruct Hs.. | apply stopping_ends | apply returning_ends | apply exited_ends].
  - apply shutting_progress; [by eapply reachable_ok | by eapply reachable_handlers | done].
Qed.

(** The pool size reaches the driver as an [int32]: larger sizes lose their
    high bits, and the pool may be given no connections at all. *)
Theorem pool_size_truncated (getenv : string -> string) :
  getenv "POOL_SIZE" = "4294967296" ->
  PoolSize (FromEnv getenv) = 2 ^ 32 /\ forall conn, NewPGClient conn (PoolSize (FromEnv getenv)) = NewPGClient conn 0.
Proof. intros E. assert (Hs : PoolSize (FromEnv getenv) = 2 ^ 32) by (unfold FromEnv; cbn [PoolSize]; by rewrite E). by rewrite Hs. Qed.

End process.
