(* ===== verification/Witnesses.v ===== *)
(** * The theorems at work

    Each theorem with hypotheses, applied to the sample system: its
    hypotheses hold there, and what it concludes is checked on values. *)
From S2P Require Import Prelude Prog CacheInterface LRU MVCC Lock Models PartitionSpec GoJson Postgres World.
From S2P Require Import PgClient PgFacts Reads Registry Commit Wf Visibility Coherence CommitFacts History.
From S2P Require Import ManifestStore Config SchemaStore SpecStore Catalog CatalogFacts DDL Deadlock Proto Server.
From S2P Require Import GoStrings Json JsonFacts Readback ServerFacts Service Pages SpecFacts StatsFacts TxFacts LockPool Progress Race Serial Bench.
From S2P Require Import CatalogSpec CatalogView Refinement ServiceSpec ServiceRefinement Listing PastRows Stable ConcurrentReads Accepted Samples Faults SpecHistory Process.

(** What a [wp] says of the run. *)
Lemma wp_result {S A} (p : Prog S A) s (Q : A -> S -> Prop) :
  wp p s Q -> exists a s', run p s = Some (a, s') /\ Q a s'.
Proof. apply wp_run. Qed.

(** ** Commits *)

(** The reply to the COMMIT is lost: the call fails, and the whole commit is
    in the database or nothing of it. *)
Lemma commit_atomic_witness :
  exists res s', run (Registry.CommitSnapshot "events" 2 "append" [day4] []) faulty_sys = Some (res, s') /\
    (cr_Success res = false -> db s' = db faulty_sys \/ committed "events" 2 "append" [day4] [] faulty_sys s').
Proof.
  destruct (wp_result _ _ _ (commit_atomic "events" 2 "append" [day4] [] faulty_sys faulty_sys_wf))
    as (res & s' & Hr & _ & Hq).
  exists res, s'. split; [exact Hr|]. intros E. rewrite E in Hq. destruct Hq as [|[_ ?]]; [by left | by right].
Defined.

Lemma commit_succeeds_witness :
  exists res s', run (Registry.CommitSnapshot "events" 2 "append" [day4] ["day=1"]) sample_sys = Some (res, s') /\
    cr_Success res = true /\ current_snapshot "events" (db s') = cr_SnapshotID res.
Proof.
  destruct (wp_result _ _ _ (commit_succeeds "events" 2 "append" [day4] ["day=1"] sample_sys sample_sys_wf
    sample_quiet eq_refl (sample_ready [day4] ["day=1"] ltac:(cbn; lia) day4_ready))) as (res & s' & Hr & Hs & _ & _ & Hc).
  exists res, s'. split; [exact Hr|]. split; [exact Hs | exact Hc].
Defined.

(** A stale parent. *)
Lemma commit_conflict_witness :
  exists res s', run (Registry.CommitSnapshot "events" 1 "append" [day4] []) sample_sys = Some (res, s') /\
    cr_ErrorMsg res = "conflict: snapshot 1 is no longer current (current=2)" /\ db s' = sample_db.
Proof.
  assert (Hp : 1 <> current_snapshot "events" (db sample_sys)) by (vm_compute; congruence).
  destruct (wp_result _ _ _ (commit_conflict "events" 1 "append" [day4] [] sample_sys sample_sys_wf Hp))
    as (res & s' & Hr & _ & Hd & _ & Hm).
  exists res, s'. split; [exact Hr|]. split; [|exact Hd]. rewrite (Hm sample_quiet). vm_compute. reflexivity.
Defined.

(** The files of snapshot 1 after an overwrite. *)
Lemma commit_time_travel_witness :
  exists res s', run (Registry.CommitSnapshot "events" 2 "overwrite" [day4] ["day=1"]) sample_sys = Some (res, s') /\
    option_map (map pr_DataFilePath) (partitions_at "events" 1 (db s')) = Some ["s3://1"; "s3://2"].
Proof.
  assert (Hn : int64 1 <= pg_seqs (sys_pg sample_sys) SeqSnapshots \/ "events" <> "events") by (left; vm_compute; congruence).
  destruct (wp_result _ _ _ (commit_time_travel "events" 2 "overwrite" [day4] ["day=1"] sample_sys "events" 1
    sample_sys_wf Hn)) as (res & s' & Hr & Hp).
  exists res, s'. split; [exact Hr|]. rewrite Hp. vm_compute. reflexivity.
Defined.

Lemma commit_visible_witness :
  exists res s', run (Registry.CommitSnapshot "events" 2 "overwrite" [day4] ["day=1"]) sample_sys = Some (res, s') /\
    (cr_Success res = true ->
     option_map (map pr_DataFilePath) (partitions_at "events" 3 (db s')) = Some ["s3://3"; "s3://4"]).
Proof.
  assert (Hn : pg_seqs (sys_pg sample_sys) SeqSnapshots < int64 3) by (vm_compute; reflexivity).
  destruct (wp_result _ _ _ (commit_visible "events" 2 "overwrite" [day4] ["day=1"] sample_sys 3 sample_sys_wf Hn))
    as (res & s' & Hr & Hp).
  exists res, s'. split; [exact Hr|]. intros Hs. destruct (Hp Hs) as (id & Hid & ->). vm_compute. reflexivity.
Defined.

(** Replacing "day=1" in one commit. *)
Lemma commit_replace_lost_witness :
  exists res s', run (Registry.CommitSnapshot "events" 2 "overwrite" [day1] ["day=1"]) sample_sys = Some (res, s') /\
    forall r n, r ∈ partitions (db s') -> 3 < p_partition_id r -> p_partition_key r = "day=1" -> visible 1 n r = false.
Proof.
  assert (Hall : forall i n r, wp (Registry.CommitSnapshot "events" 2 "overwrite" [day1] ["day=1"]) sample_sys (fun res s' =>
    r ∈ partitions (db s') -> pg_seqs (sys_pg sample_sys) SeqPartitions < p_partition_id r ->
    p_partition_key r ∈ ["day=1"] -> visible i n r = false)).
  { intros i n r. apply (commit_replace_lost "events" 2 "overwrite" [day1] ["day=1"] sample_sys i n r sample_sys_wf). }
  destruct (wp_result _ _ _ (Hall 1 1 (mk_partitions_row 0 0 0 "" "" "" 0 0 "" false None))) as (res & s' & Hr & _).
  exists res, s'. split; [exact Hr|]. intros r n Hin Hid Hkey.
  specialize (Hall 1 n r). unfold wp in Hall. rewrite Hr in Hall. apply Hall; [done | done|]. rewrite Hkey. left.
Defined.

Lemma commit_recorded_witness :
  exists r s', run (let* res := Registry.CommitSnapshot "events" 2 "append" [day4] ["day=1"] in
      let* snap := PgClient.GetSnapshot "events" (cr_SnapshotID res) in
      let* man := ManifestStore.GetManifestList "events" (cr_SnapshotID res) in Ret (res, snap, man)) sample_sys = Some (r, s') /\
    (cr_Success r.1.1 = true -> exists list files, r.2 = Ok (Some (list, files)) /\ mlr_ManifestCount list = 2 /\
       map manifest_counts files = [(1, 0, 7); (0, 1, 0)]).
Proof.
  destruct (wp_result _ _ _ (commit_recorded "events" 2 "append" [day4] ["day=1"] sample_sys sample_sys_wf sample_quiet))
    as ([[res snap] man] & s' & Hr & Hp).
  exists (res, snap, man), s'. split; [exact Hr|]. intros Hs.
  destruct (Hp Hs) as (id & list & files & _ & _ & Hm & Hc & Hf). exists list, files. split; [exact Hm|].
  split; [|exact Hf]. rewrite Hc. rewrite <- (length_map manifest_counts), Hf. reflexivity.
Defined.

(** ** Concurrency *)

(** A client at snapshot 2 and one at snapshot 3. *)
Definition call2 : call := mkCall "events" 2 "append" [day4] [].
Definition call3 : call := mkCall "events" 3 "append" [day1] [].
Definition racing : list call := [call2; call3].

(** What a call run alone reports, and the state it leaves. *)
Definition outcome (ca : call) (s : Sys) : option (bool * Z) :=
  (fun x => (cr_Success x.1, cr_SnapshotID x.1)) <$> run (commit_call ca) s.

Definition after (ca : call) (s : Sys) : Sys := match run (commit_call ca) s with Some (_, s') => s' | None => s end.

Lemma outcome_steps ca ok n s (ps : list (Prog Sys CommitResult)) i :
  outcome ca s = Some (ok, n) -> ps !! i = Some (commit_call ca) ->
  exists res, cr_Success res = ok /\ cr_SnapshotID res = n /\ steps (ps, s) (<[i := Ret res]> ps, after ca s).
Proof.
  unfold outcome, after. destruct (run (commit_call ca) s) as [[res s']|] eqn:E; [|done]. intros [= <- <-] Hi.
  exists res. split_and!; [done..|]. by eapply run_steps.
Qed.

(** The first call commits snapshot 3, and the second, which names it as its
    parent, snapshot 4. *)
Lemma commits_serialized_witness :
  exists c, steps (map commit_call racing, sample_sys) c /\ committed_as racing c 0 call2 3 /\ committed_as racing c 1 call3 4 /\
    exists r, r ∈ snapshots (db c.2) /\ s_snapshot_id r = 4 /\ s_parent_snapshot_id r = 3.
Proof.
  destruct (outcome_steps call2 true 3 sample_sys (map commit_call racing) 0) as (res & Hs & Hn & Hst);
    [vm_compute; reflexivity | reflexivity|].
  destruct (outcome_steps call3 true 4 (after call2 sample_sys) (<[0%nat := Ret res]> (map commit_call racing)) 1)
    as (res' & Hs' & Hn' & Hst'); [vm_compute; reflexivity | reflexivity|].
  eexists. assert (Hc : steps (map commit_call racing, sample_sys) _) by (etrans; [exact Hst | exact Hst']).
  split; [exact Hc|]. clear Hst Hst'.
  split; [split; [reflexivity|]; exists res; split; [reflexivity | by split]|].
  assert (H1 : committed_as racing (<[1%nat := Ret res']> (<[0%nat := Ret res]> (map commit_call racing)),
    after call3 (after call2 sample_sys)) 1 call3 4).
  { split; [reflexivity|]. exists res'. split; [reflexivity | by split]. }
  split; [exact H1|].
  destruct (commits_serialized racing sample_sys _ sample_wf sample_locks_free Hc) as [Hrec _].
  destruct (Hrec 1%nat call3 4 H1) as (_ & r & Hin & _ & Hid & Hp).
  exists r. split; [exact Hin|]. split; [exact Hid | exact Hp].
Defined.

(** Two racing commits, a read and a cleanup tick. *)
Definition busy : list goroutine :=
  [Serves (ReqCommitSnapshot (mkSnapshotRequest "events" [] [] 2 "append"));
   Serves (ReqCommitSnapshot (mkSnapshotRequest "events" [] ["day=1"] 2 "overwrite"));
   Serves (ReqGetTableMetadata (mkTableRequest "events" 0)); Cleans].

(** A run to a state from which nothing moves. *)
Lemma runs_out {A} (c : list (Prog Sys A) * Sys) : sn step c -> exists c', steps c c' /\ forall c'', ~ step c' c''.
Proof.
  intros Hc. induction Hc as [[ps s] _ IH]. destruct (step_or_stuck ps s) as [[c' Hstep]|Hstuck]; [|by eexists].
  destruct (IH c' Hstep) as (c2 & Hs & Hn). exists c2. split; [by eapply rtc_l | done].
Qed.

Lemma requests_never_deadlock_witness :
  exists c, steps (map thread busy, sample_sys) c /\ (forall p, p ∈ c.1 -> p = Ret tt) /\ all_free (sys_locks c.2).
Proof.
  assert (Hb : forall g, g ∈ busy -> renames g = false) by (intros g Hg; unfold busy in Hg; each_elem; reflexivity).
  destruct (requests_never_deadlock busy sample_sys sample_locks_free Hb) as [Hend Hall].
  destruct (runs_out _ Hend) as (c & Hs & Hstuck). exists c. split; [exact Hs|].
  destruct (Hall c Hs) as [[c' Hstep]|Hdone]; [destruct (Hstuck c' Hstep) | exact Hdone].
Defined.

(** ** Service *)

Lemma sample_started healthy : started healthy sample_sys.
Proof. exists sample_config, sample_pg, 0. split; [done|]. split; [apply sample_wf | done]. Qed.

(** A request after the network was told to fail twice. *)
Lemma service_total_witness :
  exists a s', run (serve (ReqGetTableMetadata (mkTableRequest "events" 0)))
    (set_pg (set_net [Lost "timeout"; LostReply "timeout"] sample_pg) sample_sys) = Some (a, s') /\ all_free (sys_locks s').
Proof.
  destruct (service_total false sample_sys (set_pg (set_net [Lost "timeout"; LostReply "timeout"] sample_pg) sample_sys)
    (ReqGetTableMetadata (mkTableRequest "events" 0))) as (a & s' & Hr & _ & Hl & _).
  - apply sample_started.
  - apply rtc_once. exact (life_environment false sample_sys 100 [Lost "timeout"; LostReply "timeout"] 0 ltac:(congruence)).
  - split; vm_compute; congruence.
  - exists a, s'. split; [exact Hr | exact Hl].
Defined.

Lemma cache_transparent_witness :
  exists s', run (Registry.GetPartitions "events" 1) sample_sys =
    Some (Ok (partitions_at "events" 1 sample_db), s') /\ db s' = sample_db.
Proof.
  destruct (cache_transparent sample_sys sample_sys "events" 1 (sample_started true) (rtc_refl _ _)) as (s' & Hr & Hd & _).
  - split; vm_compute; congruence.
  - exists s'. split; [exact Hr | exact Hd].
Defined.

Lemma pages_complete_witness :
  exists s' rows, run (fetch_all 3 "events" 1 1 "") sample_sys = Some (Some (map (partition_info false) rows), s') /\
    map pr_DataFilePath rows = ["s3://1"; "s3://2"].
Proof.
  assert (Hl : option_map (@length PartitionRow) (partitions_at "events" 1 sample_db) = Some 2%nat) by (vm_compute; reflexivity).
  assert (Hp : option_map (map pr_DataFilePath) (partitions_at "events" 1 sample_db) = Some ["s3://1"; "s3://2"])
    by (vm_compute; reflexivity).
  destruct (partitions_at "events" 1 sample_db) as [rows|] eqn:E; [|discriminate].
  cbn [option_map] in Hl, Hp. injection Hl as Hl. injection Hp as Hp.
  destruct (pages_complete "events" 1 1 3 sample_sys rows sample_sys_wf sample_quiet) as (s' & Hr).
  - reflexivity.
  - exact E.
  - rewrite Hl. lia.
  - exists s', rows. split; [exact Hr | exact Hp].
Defined.

Lemma cache_keys_separate_witness :
  (makeCacheKey "a" 12 = makeCacheKey "a:1" 2 -> "a" = "a:1" /\ 12 = 2) /\
  spec_find (makeCacheKey "b" 2) (entries (invalidated "a" (Put (makeCacheKey "b" 2) [] (NewLRU 4)))) =
    Some (mkEntry (makeCacheKey "b" 2) []).
Proof.
  split.
  - apply (cache_keys_separate "a" "a:1" 12 2 (NewLRU 4)); [split; lia | split; lia | apply NewLRU_wf].
  - destruct (cache_keys_separate "a" "b" 1 2 (Put (makeCacheKey "b" 2) [] (NewLRU 4))) as (_ & _ & Hk);
      [split; lia | split; lia | apply Put_refines, NewLRU_wf |]. rewrite Hk by reflexivity. vm_compute. reflexivity.
Defined.

(** ** Specs *)

(** From a day spec to sixteen buckets, and on to thirty-two. *)
Lemma spec_history_evolves_witness : evolves (Fields day_spec) (Fields (bucket_spec 32)).
Proof.
  apply (spec_history_evolves day_json bucket32_json).
  - apply (tc_l _ day_json bucket16_json bucket32_json); [|apply tc_once]; (split; [done | vm_compute; reflexivity]).
  - reflexivity.
  - reflexivity.
Defined.

(** Sixteen buckets become thirty-two. *)
Lemma spec_change_accepted_witness : ValidateSpecChange user16_json user32_json = "".
Proof.
  apply (proj2 (spec_change_accepted user16_json user32_json) (mkPartitionSpec [bucket_field 16])
    (mkPartitionSpec [bucket_field 32]) ltac:(vm_compute; reflexivity) ltac:(vm_compute; reflexivity)).
  - split; [discriminate | | apply NoDup_singleton]. constructor; [|constructor].
    split; [discriminate | vm_compute; reflexivity | by exists 32].
  - constructor; [|constructor]. by split.
Defined.

Lemma spec_wire_roundtrip_witness :
  protoToPartitionSpec (Some (partitionSpecToProto (bucket_spec 16))) = bucket_spec 16.
Proof.
  apply (spec_wire_roundtrip (bucket_spec 16)).
  - repeat constructor; try done. by exists 16.
  - cbn. intros f Hf. each_elem; (split; [split; cbn; lia|]); cbn; intros n; [done|]. intros [= <-]. split; lia.
Defined.

(** ** Statistics *)

(** Two files at the current snapshot, one of them with two columns. *)
Lemma column_stats_exact_witness :
  exists bs s', run (GetColumnStats (mkGetColumnStatsRequest "events" 0)) sample_sys =
    Some (Reply (mkGetColumnStatsResponse 2 bs), s') /\
    forall b, b ∈ bs -> cb_ColumnId b = 1 -> cb_ValueCount b = 15.
Proof.
  destruct (wp_result _ _ _ (column_stats_exact (mkGetColumnStatsRequest "events" 0) sample_sys sample_quiet
    ltac:(done) ltac:(vm_compute; congruence))) as (r & s' & Hr & _ & bs & -> & _ & _ & Hb).
  exists bs, s'. split; [exact Hr|]. intros b Hin Hc. destruct (Hb b Hin) as [_ _ [Hv _] _ _]. rewrite Hc in Hv.
  rewrite Hv; vm_compute; [reflexivity | split; congruence].
Defined.

Lemma partition_stats_exact_witness :
  exists avg s', run (GetPartitionStats (mkPartitionStatsRequest "events")) sample_sys =
    Some (Reply (mkPartitionStatsResponse 2 15 150 avg), s').
Proof.
  set (rows := [mkPartitionRow 1 1 1 "day=1" "s3://1" "parquet" 10 100 [mkColumnStats 1 0 0 10 "a" "m" 80];
    mkPartitionRow 3 1 2 "day=3" "s3://3" "parquet" 5 50
      [mkColumnStats 1 2 0 5 "c" "z" 40; mkColumnStats 2 0 1 5 "" "" 40]]).
  destruct (wp_result _ _ _ (partition_stats_exact "events" sample_sys rows sample_locks_free sample_quiet
    ltac:(done) ltac:(vm_compute; reflexivity) ltac:(vm_compute; split; congruence) ltac:(vm_compute; split; congruence)))
    as (r & s' & Hr & _ & avg & -> & _).
  exists avg, s'. exact Hr.
Defined.

(** ** Written and read back *)

(** A file as a client sends it. *)
Definition day5 : PartitionInfo :=
  mkPartitionInfo "day=5" "s3://5" 9 90 0 "" [mkProtoColumnStats 1 0 0 9 "a" "q" 90].

Definition day5_request : SnapshotRequest := mkSnapshotRequest "events" [day5] ["day=1"] 2 "append".

Lemma day5_rows : exists parts, new_parts [day5] = inr parts /\ (length parts <= 10)%nat /\
  Forall (fun p => stats_text_ok (pr_ColumnStats p)) parts.
Proof.
  eexists. split; [reflexivity|]. split; [cbn; lia|].
  repeat constructor; cbn; unfold is_int64, is_int32; try lia; reflexivity.
Qed.

Lemma no_properties : json_unmarshal_properties "{}" = Ok ∅.
Proof. vm_compute. reflexivity. Qed.

Lemma committed_files_read_back_witness :
  exists x s', run (let* c := Server.CommitSnapshot day5_request in
                    let* m := GetTableMetadata (mkTableRequest "events" 0) in Ret (c, m)) sample_sys = Some (x, s') /\
    exists m, x.2 = Reply m /\ last (tmr_Partitions m) = Some (committed_file 3 day5).
Proof.
  destruct day5_rows as (parts & Hp & Hl & Hst).
  destruct (wp_result _ _ _ (committed_files_read_back day5_request parts events day_json ∅ sample_sys sample_sys_wf
    sample_quiet ltac:(discriminate) eq_refl eq_refl ltac:(discriminate) no_properties eq_refl Hp
    ltac:(repeat constructor; cbn; unfold is_int64, is_int32; try lia; reflexivity)
    (sample_ready parts ["day=1"] Hl Hst))) as (x & s' & Hr & _ & m & Hm & _ & _ & Hf).
  exists x, s'. split; [exact Hr|]. exists m. split; [exact Hm|]. rewrite Hf. apply last_snoc.
Defined.

Lemma schema2_document : schema_document schema2_json.
Proof. eexists. split; [vm_compute; reflexivity | split; [discriminate | vm_compute; reflexivity]]. Qed.

Lemma schema2_accepted : schema_accepted "events" schema2_json events sample_sys.
Proof. split; [reflexivity | discriminate | by rewrite jsonb_schema2 | apply (sample_room SeqSchemaHistory); lia]. Qed.

Lemma altered_schema_reads_back_witness :
  exists x s', run (let* a := AlterTable (mkAlterTableRequest "events" (Some (AlterTableRequest_NewSchemaJson schema2_json))) in
                    let* m := GetTableMetadata (mkTableRequest "events" 0) in Ret (a, m)) sample_sys = Some (x, s') /\
    exists m, x.2 = Reply m /\ tmr_SchemaJson m = schema2_json /\ tmr_SchemaVersion m = 2.
Proof.
  destruct (wp_result _ _ _ (altered_schema_reads_back "events" schema2_json events day_json ∅ sample_sys sample_system_wf
    sample_cache_coherent sample_quiet ltac:(discriminate) eq_refl eq_refl ltac:(discriminate) no_properties))
    as (x & s' & Hr & done & msg & _ & _ & Hacc & schema & version & Hv & Hx).
  exists x, s'. split; [exact Hr|]. rewrite (Hacc schema2_document schema2_accepted) in Hv. destruct Hv as [Hj Hv].
  rewrite jsonb_schema2 in Hj. injection Hj as <-. eexists. split; [exact Hx|]. split; [reflexivity | exact Hv].
Defined.

Definition bucket_proto : PartitionSpecProto :=
  mkPartitionSpecProto [mkProtoPartitionField 1 "ts" PartitionTransform_DAY 0;
                        mkProtoPartitionField 2 "user" PartitionTransform_BUCKET 16].

Lemma bucket_proto_wire : Forall wire_field (psp_Fields bucket_proto).
Proof. repeat constructor; cbn; unfold is_int32, PartitionTransform_DAY, PartitionTransform_BUCKET; try lia; reflexivity. Qed.

Lemma bucket_proto_text : json_print (spec_doc (protoToPartitionSpec (Some bucket_proto))) = bucket16_json.
Proof. vm_compute. reflexivity. Qed.

Lemma bucket_accepted : spec_accepted "events" bucket16_json events sample_sys.
Proof.
  split; [reflexivity | discriminate | by rewrite jsonb_bucket16 | apply (sample_room SeqPartitionSpecs); lia |].
  change (forall p, p ∈ partition_specs sample_db -> ~ (ps_table_id p = 1 /\ ps_spec_version p = 2)).
  cbn [partition_specs sample_db]. intros p Hp. each_elem. cbn. lia.
Qed.

Lemma altered_spec_reads_back_witness :
  exists x s', run (let* a := AlterTable (mkAlterTableRequest "events" (Some (AlterTableRequest_NewPartitionSpec (Some bucket_proto)))) in
                    let* g := GetPartitionSpec (mkGetPartitionSpecRequest "events" 0) in Ret (a, g)) sample_sys = Some (x, s') /\
    x.2 = Reply (mkPartitionSpecResponse "events" 2 (Some bucket_proto) "" "current").
Proof.
  destruct (wp_result _ _ _ (altered_spec_reads_back "events" bucket_proto events day_json sample_sys sample_locks_free
    sample_quiet ltac:(discriminate) eq_refl eq_refl bucket_proto_wire)) as (x & s' & Hr & done & msg & _ & _ & Hacc & Hg).
  exists x, s'. split; [exact Hr|]. rewrite bucket_proto_text in Hacc.
  rewrite (Hacc ltac:(vm_compute; reflexivity) bucket_accepted) in Hg. destruct Hg as [Hk Hg].
  by rewrite Hk in Hg by reflexivity.
Defined.

Definition owner : gmap string string := {[ "owner" := "ana" ]}.

Lemma owner_ok : map_text_ok owner.
Proof. by apply map_Forall_singleton. Qed.

Definition logs_request : CreateTableRequest := mkCreateTableRequest "logs" schema_json "ts" owner.

Lemma logs_accepted :
  create_accepted "logs" schema_json (initialSpecJSON "ts") (propertiesToJSON owner) sample_sys.
Proof.
  split; [reflexivity | apply (sample_room SeqTables); lia | apply (sample_room SeqPartitionSpecs); lia | | | |].
  - by rewrite jsonb_schema.
  - apply sample_accepts; [reflexivity | apply depth_spec].
  - rewrite properties_text. apply sample_accepts; [reflexivity | apply depth_map].
  - change (forall p, p ∈ partition_specs sample_db -> ps_table_id p <= 2). cbn [partition_specs sample_db].
    intros p Hp. each_elem. cbn. lia.
Qed.

Lemma created_table_reads_back_witness :
  exists x s', run (let* c := Server.CreateTable logs_request in
                    let* m := GetTableMetadata (mkTableRequest "logs" 0) in Ret (c, m)) sample_sys = Some (x, s') /\
    x.2 = Reply (mkTableMetadataResponse "logs" schema_json 0 1 [] owner 0 0).
Proof.
  destruct (wp_result _ _ _ (created_table_reads_back logs_request sample_sys sample_system_wf sample_cache_coherent
    sample_quiet ltac:(discriminate) owner_ok)) as (x & s' & Hr & done & msg & _ & Hacc & Hg).
  exists x, s'. split; [exact Hr|]. destruct (Hg (Hacc logs_accepted)) as (schema & Hj & Hx).
  change (ctr_SchemaJson logs_request) with schema_json in Hj. rewrite jsonb_schema in Hj. injection Hj as <-. exact Hx.
Defined.

(** ** Table DDL *)

Lemma create_then_get_witness :
  exists r s', run (let* res := Catalog.CreateTable "logs" "{}" day_json "{}" in
                    let* cur := Catalog.GetTable "logs" in Ret (res, cur)) sample_sys = Some (r, s') /\
    r.2 = Ok (Some (mkTableRow 3 "logs" "{}" 1 day_json 1 0 "{}")).
Proof.
  destruct (wp_result _ _ _ (create_then_get "logs" "{}" day_json "{}" sample_sys sample_locks_free sample_quiet))
    as (r & s' & Hr & Hacc & Hgot).
  exists r, s'. split; [exact Hr|].
  destruct Hgot as (_ & schema & spec & props & H1 & H2 & H3 & ->);
    [|rewrite jsonb_object in H1, H3; rewrite jsonb_day in H2; injection H1 as <-; injection H2 as <-; injection H3 as <-; reflexivity].
  apply Hacc. split.
  - reflexivity.
  - apply (sample_room SeqTables). lia.
  - apply (sample_room SeqPartitionSpecs). lia.
  - by rewrite jsonb_object.
  - by rewrite jsonb_day.
  - by rewrite jsonb_object.
  - change (forall p, p ∈ partition_specs sample_db -> ps_table_id p <= 2). clear. cbn [partition_specs sample_db].
    intros p Hp. each_elem. cbn. lia.
Defined.

Lemma alter_schema_read_back_witness :
  exists r s', run (let* res := Catalog.AlterTableSchema "events" schema2_json "add a column" in
                    let* cur := GetCurrentSchema "events" in Ret (res, cur)) sample_sys = Some (r, s') /\
    r.2 = Ok (Some (mkSchemaVersion 2 schema2_json "" "current")).
Proof.
  destruct (wp_result _ _ _ (alter_schema_read_back "events" schema2_json "add a column" events day_json sample_sys
    sample_locks_free sample_quiet eq_refl eq_refl)) as (r & s' & Hr & Hacc & Hgot).
  exists r, s'. split; [exact Hr|]. rewrite Hacc in Hgot.
  - destruct Hgot as (schema & Hj & ->). rewrite jsonb_schema2 in Hj. injection Hj as <-. reflexivity.
  - split; [reflexivity | discriminate | by rewrite jsonb_schema2 | apply (sample_room SeqSchemaHistory); lia].
Defined.

Lemma alter_spec_read_back_witness :
  exists r s', run (let* res := Catalog.AlterTablePartitionSpec "events" bucket16_json "bucket by user" in
                    let* cur := GetCurrentSpec "events" in Ret (res, cur)) sample_sys = Some (r, s') /\
    r.2 = Ok (Some (mkPartitionSpecVersion 2 bucket16_json "" "current")).
Proof.
  destruct (wp_result _ _ _ (alter_spec_read_back "events" bucket16_json "bucket by user" events day_json sample_sys
    sample_locks_free sample_quiet eq_refl eq_refl)) as (r & s' & Hr & Hacc & Hgot).
  exists r, s'. split; [exact Hr|]. rewrite Hacc in Hgot.
  - destruct Hgot as (spec & Hj & ->). rewrite jsonb_bucket16 in Hj. injection Hj as <-. reflexivity.
  - split; [reflexivity | discriminate | by rewrite jsonb_bucket16 | apply (sample_room SeqPartitionSpecs); lia |].
    change (forall p, p ∈ partition_specs sample_db -> ~ (ps_table_id p = 1 /\ ps_spec_version p = 2)).
    clear. cbn [partition_specs sample_db]. intros p Hp. each_elem. cbn. lia.
Defined.

Lemma create_refused_witness :
  (exists res s', run (Catalog.CreateTable "old" "{}" day_json "{}") sample_sys = Some (res, s') /\ Success res = false) /\
  (exists res s', run (Catalog.CreateTable "logs" "{}" "" "{}") sample_sys = Some (res, s') /\ Success res = false).
Proof.
  split.
  - destruct (wp_result _ _ _ (@create_refused sample_postgres "old" "{}" day_json "{}" sample_sys sample_locks_free
      (or_introl eq_refl))) as (res & s' & Hr & Hs & _). exists res, s'. split; [exact Hr | exact Hs].
  - destruct (wp_result _ _ _ (@create_refused sample_postgres "logs" "{}" "" "{}" sample_sys sample_locks_free
      (or_intror (conj eq_refl jsonb_empty)))) as (res & s' & Hr & Hs & _). exists res, s'. split; [exact Hr | exact Hs].
Defined.

Lemma soft_drop_hides_witness :
  exists res s', run (Catalog.DropTable "events" false) sample_sys = Some (res, s') /\
    (Success res = true -> partitions_at "events" 2 (db s') = None /\ partitions (db s') = partitions sample_db).
Proof.
  destruct (wp_result _ _ _ (soft_drop_hides "events" sample_sys sample_locks_free)) as (res & s' & Hr & Hp).
  exists res, s'. split; [exact Hr|]. intros Hs. destruct (Hp Hs) as (_ & Hn & Hk & _). split; [apply Hn | exact Hk].
Defined.

Lemma purge_removes_all_witness :
  exists res s', run (Catalog.DropTable "events" true) sample_sys = Some (res, s') /\
    (Success res = true -> name_taken "events" (db s') = false).
Proof.
  destruct (wp_result _ _ _ (purge_removes_all "events" sample_sys sample_seqs sample_locks_free sample_wf))
    as (res & s' & Hr & Hp).
  exists res, s'. split; [exact Hr|]. intros Hs. destruct (Hp Hs) as (id & _ & Hn & _). exact Hn.
Defined.

Lemma purge_blocked_by_transactions_witness :
  exists res s', run (Catalog.DropTable "events" true) sample_sys = Some (res, s') /\
    Success res = false /\ db s' = sample_db.
Proof.
  destruct (wp_result _ _ _ (purge_blocked_by_transactions "events" 1
    (mk_transactions_row 1 "spark" 1 2 "active" "snapshot" None) sample_sys sample_locks_free eq_refl
    (list_elem_of_here _ _) eq_refl)) as (res & s' & Hr & Hs & Hd).
  exists res, s'. split; [exact Hr|]. split; [exact Hs | exact Hd].
Defined.

Lemma rename_moves_witness :
  exists res s', run (Catalog.RenameTable "events" "clicks") sample_sys = Some (res, s') /\
    (Success res = true -> partitions_at "clicks" 1 (db s') = partitions_at "events" 1 sample_db).
Proof.
  destruct (wp_result _ _ _ (rename_moves "events" "clicks" sample_sys sample_seqs sample_locks_free sample_wf ltac:(done)))
    as (res & s' & Hr & Hp).
  exists res, s'. split; [exact Hr|]. intros Hs. destruct (Hp Hs) as (_ & _ & Hn & _). apply Hn.
Defined.

Lemma renames_can_hang_witness :
  (exists c, steps ([Catalog.RenameTable "events" "events"], sample_sys) c /\ deadlocked c) /\
  (exists c, steps ([Catalog.RenameTable "events" "clicks"; Catalog.RenameTable "clicks" "events"], sample_sys) c /\ deadlocked c).
Proof.
  destruct (renames_can_hang "events" "clicks" sample_sys sample_locks_free) as [(c & Hs & Hd & _) Hswap].
  destruct Hswap as (c' & Hs' & Hd' & _); [done|].
  split; [exists c | exists c']; (split; [assumption | assumption]).
Defined.

(** ** Transactions *)

Lemma begin_pins_witness :
  exists s', run (BeginTransaction (mkTransactionRequest "spark" "events" 0)) sample_sys =
    Some (Reply (mkTransactionResponse 2 2), s') /\ IsSnapshotPinned (sys_mvcc s') 2 = true.
Proof.
  destruct (wp_result _ _ _ (begin_pins "spark" "events" 0 events sample_sys sample_system_wf sample_quiet
    ltac:(done) ltac:(done) eq_refl ltac:(split; cbn; lia))) as (r & s' & Hr & -> & _ & Hp & _).
  exists s'. split; [exact Hr | exact Hp].
Defined.

(** The sample server with transaction 1 open since time 0. *)
Definition open_sys : Sys := set_mvcc (RegisterTransaction 0 1 2 (sys_mvcc sample_sys)) sample_sys.

Lemma commit_transaction_once_witness :
  exists r s', run (let* first := CommitTransaction (mkCommitRequest 1) in
      let* second := CommitTransaction (mkCommitRequest 1) in Ret (first, second)) open_sys = Some (r, s') /\
    r.1 = Reply (mkOperationResponse true "") /\
    r.2 = Reply (mkOperationResponse false "transaction not found or expired").
Proof.
  destruct (wp_result _ _ _ (commit_transaction_once 1 open_sys ltac:(done))) as (r & s' & Hr & H1 & H2 & _).
  exists r, s'. split; [exact Hr|]. split; [|exact H2]. rewrite H1. vm_compute. reflexivity.
Defined.

Lemma abort_overwrites_commit_witness :
  exists r s', run (let* c := CommitTransaction (mkCommitRequest 1) in
      let* a := AbortTransaction (mkAbortRequest 1) in Ret (c, a)) open_sys = Some (r, s') /\
    forall x, x ∈ transactions (db s') -> x_txn_id x = 1 -> x_status x = "aborted".
Proof.
  destruct (wp_result _ _ _ (abort_overwrites_commit 1 (mkTxn 1 2 0) open_sys ltac:(done) eq_refl
    ltac:(vm_compute; congruence))) as (r & s' & Hr & _ & Hx).
  exists r, s'. split; [exact Hr|]. intros x Hin Hid. apply (Hx x Hin). rewrite Hid. reflexivity.
Defined.

(** ** The benchmark *)

Lemma bench_stats_exact_witness :
  exists st, printStats [30; 10; 20; 40] = Some st /\ st_min st = 10 /\ st_avg st = 25 /\ st_p50 st <= st_p95 st.
Proof.
  destruct (bench_stats_exact [30; 10; 20; 40]) as (st & s & Hst & _ & _ & _ & _ & _ & Havg & _ & [_ Ho] & _).
  - cbn. lia.
  - intros x Hx. each_elem; lia.
  - vm_compute. reflexivity.
  - exists st. split; [exact Hst|]. split; [|split; [exact Havg | exact Ho]]. vm_compute in Hst. by injection Hst as <-.
Defined.

Lemma sample_bench_ready : bench_ready sample_sys.
Proof.
  split.
  - split; [by vm_compute | apply sample_room; lia | apply sample_room; lia | by vm_compute.. |].
    cbn [sample_sys New NewPartitionRegistry sys_pg sample_pg pg_db db partition_specs sample_db pg_seqs sample_seqs]. intros r Hr. each_elem. cbn. lia.
  - apply sample_room. lia.
  - unfold seq_room. cbn. lia.
  - apply sample_room. lia.
  - apply sample_room. lia.
  - by vm_compute.
  - by split; vm_compute.
Qed.

Lemma bench_completes_witness :
  exists s', run (benchmark [30; 10; 20]) sample_sys = Some (Ok (Some (mkStats 3 20 20 20 20 10 30)), s').
Proof.
  destruct (wp_result _ _ _ (bench_completes [30; 10; 20] sample_sys
    (conj sample_system_wf (conj sample_quiet sample_cache_coherent)) sample_bench_ready)) as (r & s' & Hr & ->).
  exists s'. rewrite Hr. vm_compute. reflexivity.
Defined.

(** ** The catalog machine *)

Lemma sample_history :
  history [Served _ (ReqGetPartitions sample_read) (Reply sample_files);
           Served _ sample_commit (Reply (mkSnapshotResponse 3 true ""))]
    sample_sys (next_state sample_commit (next_state (ReqGetPartitions sample_read) sample_sys)).
Proof.
  eapply history_serve; [split; vm_compute; congruence | apply replied; vm_compute; reflexivity|].
  eapply history_serve; [exact I | apply replied; vm_compute; reflexivity | apply history_nil].
Qed.

Lemma server_implements_service_witness :
  exists s', service_run (300 * second) [Served _ (ReqGetPartitions sample_read) (Reply sample_files);
    Served _ sample_commit (Reply (mkSnapshotResponse 3 true ""))] (service_of sample_sys) (service_of s').
Proof. eexists. exact (proj2 (server_implements_service _ _ _ (sample_started true) sample_history)). Defined.

(** A transaction begun, committed, and committed again. *)
Definition sample_begin : Request TransactionResponse := ReqBeginTransaction (mkTransactionRequest "spark" "events" 0).
Definition sample_end : Request OperationResponse := ReqCommitTransaction (mkCommitRequest 2).

Definition sample_transaction : list event :=
  [Served _ sample_begin (Reply (mkTransactionResponse 2 2)); Served _ sample_end (Reply (mkOperationResponse true ""));
   Served _ sample_end (Reply (mkOperationResponse false "transaction not found or expired"))].

Lemma sample_transaction_history : history sample_transaction sample_sys
  (next_state sample_end (next_state sample_end (next_state sample_begin sample_sys))).
Proof.
  eapply history_serve; [exact I | apply replied; vm_compute; reflexivity|].
  eapply history_serve; [exact I | apply replied; vm_compute; reflexivity|].
  eapply history_serve; [exact I | apply replied; vm_compute; reflexivity|]. apply history_nil.
Qed.

Lemma transaction_commits_once_witness :
  ~ commits 2 (Served _ sample_end (Reply (mkOperationResponse false "transaction not found or expired"))) /\
  exists pre snap b mid, [Served _ sample_begin (Reply (mkTransactionResponse 2 2))] = pre ++ b :: mid /\ begins 2 snap b.
Proof.
  destruct (transaction_commits_once sample_sys _ [Served _ sample_begin (Reply (mkTransactionResponse 2 2))]
    [Served _ sample_end (Reply (mkOperationResponse false "transaction not found or expired"))]
    (Served _ sample_end (Reply (mkOperationResponse true ""))) 2 (sample_started true) sample_transaction_history
    (conj eq_refl eq_refl)) as [(pre & snap & b & mid & E & Hb & _) Hno].
  split; [|by exists pre, snap, b, mid].
  apply (proj1 (Forall_forall _ _) Hno). apply elem_of_app. right. by left.
Defined.

(** The sample has one live table, and a retired one. *)
Lemma tables_listed_witness :
  exists s', run (fetch_tables 2 1 "") sample_sys = Some (Some [mkTableSummary "events" 2 2], s').
Proof.
  destruct (tables_listed sample_sys sample_sys [] (sample_started true) (history_nil _)) as (names & Hl & Hf).
  pose proof (listing_unique _ _ _ Hl (listing_rows _ _ sample_wf)) as E.
  assert (E' : map t_table_name (live_rows sample_db) = ["events"]) by (vm_compute; reflexivity). rewrite E' in E. subst names.
  destruct (Hf 2%nat 1 ltac:(cbn; lia)) as (s' & Hr). exists s'. rewrite Hr. by vm_compute.
Defined.

(** Read, commit, read again: the files, and the manifests. *)
Lemma past_reads_repeat_witness :
  (exists reply s', run (serve (ReqGetPartitions sample_read))
    (next_state sample_commit (next_state (ReqGetPartitions sample_read) sample_sys)) = Some (reply, s') /\ reply = Reply sample_files) /\
  reads_past "events" (view_of "events" events sample_db) (ReqGetManifestList (mkGetManifestListRequest "events" 2)).
Proof.
  split; [|by split; [|split; [vm_compute; congruence | vm_compute]]].
  set (s1 := next_state (ReqGetPartitions sample_read) sample_sys).
  assert (H1 : run (serve (ReqGetPartitions sample_read)) sample_sys = Some (Reply sample_files, s1)).
  { apply replied. vm_compute. reflexivity. }
  assert (H2 : history [Served _ sample_commit (Reply (mkSnapshotResponse 3 true ""))] s1 (next_state sample_commit s1)).
  { eapply history_serve; [exact I | apply replied; vm_compute; reflexivity | apply history_nil]. }
  assert (H3 : run (serve (ReqGetPartitions sample_read)) (next_state sample_commit s1) =
    Some (Reply sample_files, next_state (ReqGetPartitions sample_read) (next_state sample_commit s1))).
  { apply replied. vm_compute. reflexivity. }
  assert (Hv : catalog_of sample_db "events" = Live (view_of "events" events sample_db)).
  { apply catalog_live. vm_compute. reflexivity. }
  do 2 eexists. split; [exact H3|].
  refine (past_reads_repeat sample_sys sample_sys _ _ _ [] _ "events" _ _ _ _ (sample_started true)
    (history_nil _) Hv _ _ H1 H2 _ H3).
  - split; [done|]. split; vm_compute; congruence.
  - split; vm_compute; congruence.
  - repeat constructor. intros [].
Defined.

Lemma run_then {A B} (p : Prog Sys A) (f : A -> B) s a s' :
  run p s = Some (a, s') -> run (let* x := p in Ret (f x)) s = Some (f a, s').
Proof. intros E. by rewrite run_bind, E. Qed.

(** A commit deletes "day=3" while two reads of snapshot 2 and a cleanup tick
    are under way; one read is served after it. *)
Lemma past_reads_concurrent_witness :
  exists c reply, steps (map (member (ReqGetPartitions sample_read)) [Some (Serves sample_commit); None; Some Cleans; None], sample_sys) c /\
    c.1 !! 1%nat = Some (Ret (Some reply)) /\ current_snapshot "events" (db c.2) = 3 /\
    reply = partitions_reply sample_read (catalog_of sample_db "events").
Proof.
  set (req := ReqGetPartitions sample_read). set (gs := [Some (Serves sample_commit); None; Some Cleans; None]).
  set (s1 := next_state sample_commit sample_sys). set (s2 := next_state req s1).
  pose proof (replied sample_commit sample_sys (Reply (mkSnapshotResponse 3 true "")) ltac:(vm_compute; reflexivity)) as E1.
  pose proof (replied req s1 (Reply sample_files) ltac:(vm_compute; reflexivity)) as E2.
  pose proof (run_steps (map (member req) gs) 0 _ sample_sys None s1 eq_refl
    (run_then _ (fun _ => None) _ _ _ (run_then _ (fun _ => tt) _ _ _ E1))) as H1.
  pose proof (run_steps (<[0%nat := Ret None]> (map (member req) gs)) 1 _ s1 (Some (Reply sample_files)) s2 eq_refl
    (run_then _ Some _ _ _ E2)) as H2.
  assert (Hsteps : steps (map (member req) gs, sample_sys) (<[1%nat := Ret (Some (Reply sample_files))]> (<[0%nat := Ret None]> (map (member req) gs)), s2)).
  { etrans; [exact H1 | exact H2]. }
  eexists (_, s2), (Reply sample_files). split; [exact Hsteps|]. split; [reflexivity|].
  split; [vm_compute; reflexivity|].
  assert (Hv : catalog_of sample_db "events" = Live (view_of "events" events sample_db)).
  { apply catalog_live. vm_compute. reflexivity. }
  assert (Hgs : forall g, Some g ∈ gs -> leaves_table "events" g).
  { intros g [E|[E|[E|[E|[]]]]]%list_elem_of_In; [apply Some_inj in E as <- | discriminate E | apply Some_inj in E as <- | discriminate E].
    - split; [exact I | intros []].
    - exact I. }
  destruct (past_reads_concurrent req "events" _ gs sample_sys _ sample_sys_wf eq_refl Hv
    ltac:(split; [done | split; vm_compute; congruence]) ltac:(split; vm_compute; congruence)
    Hgs Hsteps 1%nat (Reply sample_files) eq_refl) as [[Hr _]|[Hn _]]; [exact Hr | by destruct Hn].
Defined.

(** The open transaction keeps "events" from being purged, but not from being
    dropped; "new" is free. *)
Lemma writes_succeed_witness :
  (exists reply s', run (serve (ReqDropTable (mkDropTableRequest "events" false))) sample_sys = Some (reply, s') /\
     accepted reply) /\
  (exists reply s', run (serve sample_commit) sample_sys = Some (reply, s') /\ succeeds sample_commit reply).
Proof.
  split.
  - apply (writes_succeed sample_sys sample_sys [] (ReqDropTable (mkDropTableRequest "events" false)) (sample_started true)
      (history_nil _)). split; [discriminate|]. exists events. split; [vm_compute; reflexivity | discriminate].
  - apply (writes_succeed sample_sys sample_sys [] sample_commit (sample_started true) (history_nil _)).
    assert (Hv : catalog_of sample_db "events" = Live (view_of "events" events sample_db)).
    { apply catalog_live. vm_compute. reflexivity. }
    do 2 eexists. split; [exact Hv|]. split; [vm_compute; reflexivity|].
    split; [vm_compute; reflexivity|]. repeat (split; [apply sample_room; cbn; lia|]).
    split; [|split; apply sample_summaries]. intros p Hp. each_elem. vm_compute. discriminate.
Defined.

Lemma sample_evolving : all_evolving (catalog_of sample_db).
Proof.
  intros t v Hv. destruct (catalog_live_inv _ _ _ Hv) as (r & Hr & ->). pose proof (live_table_named_eq _ _ _ Hr) as Hn.
  pose proof Hr as [Hin Hl]%live_table_in. cbn [tables sample_db] in Hin. each_elem; [|done].
  cbn in Hn. subst t. split; cbn [view_of v_specs v_spec v_spec_version].
  - intros [|i] [|j] a b Hij Ha Hb; try lia; done.
  - vm_compute. intros sv [= <-]. done.
Qed.

Lemma by_user_wire : Forall wire_field (psp_Fields by_user).
Proof.
  apply Forall_forall. cbn [psp_Fields by_user partitionSpecToProto bucket_spec Fields map]. intros f Hf.
  each_elem; (split; [|split]); vm_compute; split_and?; congruence.
Qed.

(** The table gets a second field. *)
Lemma spec_versions_evolve_witness :
  exists s v, history [Served _ (alter_events by_user) (Reply (mkOperationResponse true ""))] sample_sys s /\
    catalog_of (db s) "events" = Live v /\ length (v_specs v) = 2%nat /\ evolving v.
Proof.
  pose proof (replied (alter_events by_user) sample_sys (Reply (mkOperationResponse true ""))
    ltac:(vm_compute; reflexivity)) as Hr.
  assert (Hlive : live_table "events" (db (next_state (alter_events by_user) sample_sys)) =
    Some (set_spec bucket16_json 2 100 events)) by (vm_compute; reflexivity).
  assert (Hlen : length (specs_of 1 (db (next_state (alter_events by_user) sample_sys))) = 2%nat) by (vm_compute; reflexivity).
  revert Hr Hlive Hlen. generalize (next_state (alter_events by_user) sample_sys) as s. intros s Hr Hlive Hlen.
  pose proof (history_serve _ (alter_events by_user) _ _ _ [] _ I Hr (history_nil s)) as Hh.
  exists s, (view_of "events" (set_spec bucket16_json 2 100 events) (db s)).
  split; [exact Hh|]. split; [by apply catalog_live|]. split; [exact Hlen|].
  refine (spec_versions_evolve sample_sys s _ "events" _ (sample_started true) sample_evolving Hh _ (catalog_live _ _ _ Hlive)).
  apply Forall_singleton. exact by_user_wire.
Defined.

(** ** Lost replies *)

Definition warm_rows : list PartitionRow := default [] (partitions_at "events" 2 sample_db).
Definition warm_sys : Sys := set_cache (Put (makeCacheKey "events" 2) warm_rows (sys_cache sample_sys)) sample_sys.

(** The cache holds the files of snapshot 2 of "events", and the reply to the
    commit of its drop is lost. *)
Lemma dropped_table_still_served_witness :
  exists s1 s2 s3, run (serve (drop_request "events")) (losing_commit "connection reset" warm_sys) =
      Some (Reply (mkOperationResponse false "connection reset"), s1) /\
    live_table "events" (db s1) = None /\
    run (serve (read_request "events" 2)) s2 =
      Some (Reply (mkPartitionListResponse (map (partition_info false) warm_rows) "" 2), s3).
Proof.
  destruct (dropped_table_still_served "events" 2 warm_rows "connection reset" warm_sys sample_locks_free
    ltac:(discriminate) ltac:(discriminate) ltac:(vm_compute; discriminate) ltac:(split; vm_compute; reflexivity))
    as (s1 & s2 & s3 & H1 & H2 & _ & H3 & _).
  exists s1, s2, s3. split; [exact H1|]. split; [exact H2 | exact H3].
Defined.

(** ** The process *)

(** A driver that wants at least one connection. *)
#[export] Instance sample_pgxpool : Pgxpool := {
  PoolConfig := Z;
  ParseConfig _ := Ok 0;
  set_MaxConns n _ := n;
  NewWithConfig n := if 0 <? n then Ok sample_pg else Err (ErrText "MaxSize must be >= 1");
  Ping _ := Ok tt;
}.

(** A request let in, then a signal: [main] is in [GracefulStop]. *)
Definition sample_stopping : Work :=
  close_stopCleanup (receive_stop (notify (set_pool [thread (Serves (ReqGetPartitions sample_read))] sample_sys
    (start_work (new_work sample_sys PoolOpen))))).

Lemma sample_stopping_reachable admits :
  admits (Serves (ReqGetPartitions sample_read)) -> reachable sample_config admits (Stopping sample_stopping).
Proof.
  intros Ha. unfold reachable.
  eapply rtc_l; [left; refine (main_new _ 0 sample_sys PoolOpen _); reflexivity|].
  eapply rtc_l; [left; apply main_listen|].
  eapply rtc_l; [right; apply (outside_request admits _ _ (ReqGetPartitions sample_read)); [reflexivity | exact Ha]|].
  eapply rtc_l; [right; apply outside_running, outside_signal|].
  eapply rtc_l; [left; apply main_signal; reflexivity|]. apply rtc_refl.
Qed.

Lemma pool_outlives_handlers_witness : w_pool sample_stopping = PoolOpen.
Proof. exact (pool_outlives_handlers sample_config (fun _ => True) (Stopping sample_stopping) (sample_stopping_reachable _ I)). Defined.

Lemma shutdown_ends_witness :
  sn (main_step sample_config) (Stopping sample_stopping) /\ exists p, main_step sample_config (Stopping sample_stopping) p.
Proof.
  destruct (shutdown_ends sample_config (fun g => renames g = false) sample_stopping (Stopping sample_stopping)
    (fun g Hg => Hg) (sample_stopping_reachable (fun g => renames g = false) eq_refl) (rtc_refl _ _)) as [Hsn Hgo].
  split; [exact Hsn|]. destruct Hgo as [Hp|(hs & s & E & _)]; [exact Hp | discriminate E].
Defined.

(** A pool of no connections does not come up. *)
Lemma pool_size_truncated_witness :
  let env v := if String.eqb v "POOL_SIZE" then "4294967296" else "" in
  NewPGClient "" (PoolSize (FromEnv env)) = (Err (ErrText "MaxSize must be >= 1"), NoPool).
Proof. cbv zeta. by rewrite (proj2 (pool_size_truncated (fun v => if String.eqb v "POOL_SIZE" then "4294967296" else "") eq_refl)). Defined.
